(* ===== verification/_CoqProject ===== *)
-Q . S2P
Prelude.v
Storage.v
Core.v
Records.v
WireInstance.v
Schema.v
Expansion.v
Watch.v
Acl.v
StateMachine.v
Apply.v
Raft.v
Rpc.v
Invariant.v
Demo.v
Replication.v
Staging.v
Frame.v
Eviction.v
Nodes.v
Placements.v
PodEvents.v
Metrics.v
Status.v
Snapshot.v
LogStore.v
Float64.v
Scheduler.v
Scheduling.v
Preemption.v
Engine.v
Disruption.v
DummyIp.v
Controllers.v
Reconcile.v
CronRuns.v
Hpa.v
Vpa.v
Delegation.v
Secrets.v
Merge.v
NameConstraints.v
Ca.v
Issuance.v
Chains.v
Attestation.v
AdminAuth.v
Admin.v
AdminSpec.v
AdminQuota.v
Tls.v
Streams.v
Services.v
Transport.v
Membership.v
Join.v
Boot.v
