(* ===== verification/Prelude.v ===== *)
(** * fleetos-control: a verification development

    fleetos-control is the control plane of a cluster: a Raft-replicated state machine
    over a key-value store, the controllers the leader runs, a certificate authority
    with node attestation, and the gRPC services through which nodes, operators and
    other control nodes talk to it. This library models it as Rocq functions, file by
    file, and proves what makes its parts correct. Paths below are under [src/src].

    _The program and its model._

    Every change of the replicated state is a command ([raft/mod.rs], [raft/records.rs])
    that is committed by Raft and applied by each replica. A handler or a controller
    reads its local store, decides, proposes commands and, in a few places, writes
    local keyspaces. The model follows this: the database is the contents of its
    keyspaces, the state machine is a function on databases, handlers and controllers
    are functions that pass the state machine along, and what they are given by the
    outside (clocks, random bytes, peers, libraries) are arguments.

    Foundations.
    - [Prelude]: bytes, [result] with its monad, machine integers with explicit
      wrap-around, little- and big-endian codecs, sorting by an order, tactics.
    - [Storage] ([storage/mod.rs]): keyspaces, write batches, and fjall as the class
      [Fjall]; [FjallSpec] says what a read or a commit that succeeds did,
      [FjallReliable] that none fails. [Schema] ([storage/schema.rs]): composite keys.
    - [Core], [Records]: the types of fleetos-core and openraft the code uses, the
      stored records and the commands; serialization is the class [Postcard] (and
      [Prost]), a codec with its round trip. [WireInstance] builds such codecs for all
      types, [Demo] a concrete cluster: the instances of the witnesses.
    - [Float64]: IEEE 754 binary64 for scores and ratios.

    Replicated state.
    - [StateMachine], [Apply] ([raft/state_machine.rs], [storage/version.rs]): one
      definition per arm of [apply_command], the entry (batch, audit record, version,
      commit, event) and the apply loop, which stops at the first error.
    - [Acl], [Expansion], [Watch] ([secrets/acl.rs], [scheduler/expansion.rs],
      [watch/snapshot.rs], [watch/broadcast.rs]): what the state machine calls.
    - [Snapshot], [LogStore] ([raft/snapshot.rs], [raft/store.rs]): snapshots, the log.
    - [Raft], [Rpc]: a proposal, as the class [Raft] with an instance that applies it at
      once; handlers as a state and error monad over the state machine.
    - [Invariant], [Staging], [Frame]: which records a command writes and where; the
      lemmas the theorems share.

    Scheduling and the leader's loops.
    - [Scheduler], [Preemption], [Engine], [Disruption], [DummyIp] ([scheduler/],
      [controllers/workload_controller.rs], [storage/engine.rs], [disruption/],
      [dummy_ip/]): decisions on views of the state.
    - [Controllers], [CronRuns], [Hpa], [Vpa] ([controllers/]): the passes of the
      controllers; [Reconcile] composes them into ticks as [main.rs] schedules them.

    Identity and services.
    - [Delegation], [Secrets], [NameConstraints], [Ca], [Issuance] ([delegation/],
      [secrets/], [ca/], [watch/delegation_service.rs]): keys, certificates, secrets and
      the services that issue them. [Chains], [Attestation] ([attestation/]): hardware
      certificates and the two ways a node joins.
    - [AdminAuth], [Admin], [Merge] ([admin/], [apply/]): the admin API and the merge of
      manifests. [Tls] ([tls/trust_domains.rs], [revocation.rs], the listeners of
      [main.rs]): who may connect. [Streams], [Services], [PodEvents], [Metrics],
      [Status] ([watch/]): what subscribers see and what nodes report.
    - [Transport], [Membership], [Join] ([raft/network.rs], [raft/server.rs],
      [provisioning/], [controllers/leader.rs], [join.rs]): Raft messages, members, and
      a node that joins. [Boot] ([config.rs], [main.rs]): configuration and start.

    _What is proved._

    - Replicas ([Replication], [Snapshot], [LogStore]): replicas that receive the same
      log agree however it is cut and wherever they restart; versions are consecutive
      and every command is audited; a failing apply is atomic; a restart recovers the
      position; every record is under the key it names; a snapshot brings a follower to
      the leader's state; the log store refines an abstract log.
    - Commands ([Eviction], [Nodes], [Placements], [Status]): the exact effect of
      eviction, scaling, deletion, reassignment, pruning and taints; eviction and
      revocation last until the commands that end them.
    - Scheduling ([Scheduling], [Preemption], [Disruption], [DummyIp]): a decision is
      feasible, within capacity, best, and independent of the order of its input; a
      preemption plan is minimal; a guard is exact; addresses are unique.
    - Controllers ([Reconcile], [CronRuns], [Hpa], [Vpa]): leases that expire evict,
      cron runs happen once, autoscalers stay within their policies.
    - Identity ([Secrets], [Delegation], [Ca], [Issuance], [Chains], [Attestation]):
      secrets are read by exactly who may; certificates and keys go to exactly who is
      authorised; a join token admits one node; activation needs proof of the keys.
    - Services ([AdminSpec], [AdminQuota], [Merge], [Tls], [Streams], [Services]): the
      admin API enforces scopes and quota, audits every change and keeps to budgets; the
      merge is three-way; listeners admit exactly the identities of their plane and
      refuse evicted nodes; subscribers converge; deliveries are fresh.
    - Membership ([Transport], [Membership], [Join], [Boot]): messages arrive as sent,
      a control pool converges, joins end, configurations are validated exactly, and
      the roots of a bootstrapped node survive its restarts.
    - Where the code does not do what it means to, a lemma shows it on a concrete or an
      arbitrary state; these lemmas say so in their comments.

    Where a property has hypotheses, a lemma ending in [_witness] applies it to a
    concrete input, with the classes instantiated by the instances of [Demo] and of the
    file itself.

    _Bounds and fuel._

    Integers are [Z] with the wrap of their width written out where the code can wrap.
    Loops that are not structural have fuel: [trim_rounds], [chunks] and the decoders
    take the length of their input, which shrinks in every round; the walk of a chain
    takes the depth limit of the code; the search for a free address block takes one
    round more than there are blocks in use; eviction from the event store takes the
    number of events. The loops of a joining node take any fuel and return [None] when it runs
    out: [Join] proves that six rounds are enough for the secure join and two for the
    membership request at a cluster that commits, and that the token join has no bound.

    _Not modelled._

    - The Raft protocol itself, elections, replication and timing: openraft is a
      parameter. Its storage, its network and its callbacks are modelled.
    - fjall, postcard, prost, rcgen, x509-parser, AES-GCM, X25519, BLAKE3, HMAC, the
      cron parser, the TPM and fleetos-core: parameters with what the code relies on.
    - Interleaving: a handler is one function on the state. The reads it makes before a
      proposal are of the state the proposal is applied to, except where a theorem
      takes them apart (allocations of addresses, snapshots, streams, ticks).
    - Sockets, TLS configurations ([tls/mtls.rs]), task spawning, timers, shutdown, log
      output and telemetry ([telemetry.rs]); parsing of the configuration file; code
      generated from the protocol definitions ([proto.rs]). *)

From stdpp Require Export base tactics option list list_numbers strings gmap
  sorting pretty.
From Stdlib Require Export ZArith Lia.
From Stdlib Require Import Ascii.

#[export] Set Default Goal Selector "!".

(** ** Bytes

    A Rust [String] is its UTF-8 bytes and a [Vec<u8>] is a byte vector; Rocq's
    [string] is a sequence of 8-bit characters, so both are [bytes].
    [as_bytes] is the identity and Rust's [Ord] on both types is the
    lexicographic byte order, [String.le]. *)
Abbreviation bytes := string.

(** [b.len()]. *)
Definition blen (b : bytes) : Z := Z.of_nat (String.length b).

(** [k.starts_with(p)]: the test of a prefix scan. *)
Definition starts_with (p k : bytes) : bool := String.prefix p k.
Arguments starts_with : simpl never.

Lemma string_app_assoc (a b c : string) : (a +:+ b) +:+ c = a +:+ (b +:+ c).
Proof. induction a as [|x a IH]; [done|]. exact (f_equal (String x) IH). Qed.

Lemma string_app_nil_r (a : string) : a +:+ "" = a.
Proof. induction a as [|x a IH]; [done|]. exact (f_equal (String x) IH). Qed.

Lemma string_length_app (a b : string) :
  String.length (a +:+ b) = (String.length a + String.length b)%nat.
Proof. induction a as [|x a IH]; [done|]. exact (f_equal S IH). Qed.

Lemma string_app_inj_l (a b c d : string) :
  String.length a = String.length c → a +:+ b = c +:+ d → a = c ∧ b = d.
Proof.
  revert c. induction a as [|x a IH]; intros [|y c] Hlen H; [done..|].
  injection Hlen as Hlen. injection H as -> H. by destruct (IH c Hlen H) as [-> ->].
Qed.

Lemma starts_with_app (p s : string) : starts_with p (p +:+ s) = true.
Proof.
  unfold starts_with. induction p as [|x p IH]; [by destruct s|].
  change (String x p +:+ s) with (String x (p +:+ s)). cbn. by destruct (ascii_dec x x).
Qed.

Lemma starts_with_iff (p k : string) :
  starts_with p k = true ↔ ∃ s, k = p +:+ s.
Proof.
  split; [|intros [s ->]; apply starts_with_app].
  revert k. induction p as [|x p IH]; intros k H; [by exists k|].
  destruct k as [|y k]; [done|]. unfold starts_with in *. cbn in H.
  destruct (ascii_dec x y) as [->|]; [|done].
  destruct (IH k H) as [s ->]. by exists s.
Qed.

Lemma starts_with_nil (k : string) : starts_with "" k = true.
Proof. by destruct k. Qed.

(** [s.get(0..n)] with what follows the slice: [None] when [s] is shorter. *)
Fixpoint split_string (n : nat) (s : string) : string * string :=
  match n, s with
  | S n, String c s => let '(a, b) := split_string n s in (String c a, b)
  | _, _ => ("", s)
  end.
Definition get_slice (n : Z) (s : bytes) : option (bytes * bytes) :=
  if (n <=? Z.of_nat (String.length s))%Z then Some (split_string (Z.to_nat n) s) else None.

Lemma split_string_app (a b : string) : split_string (String.length a) (a +:+ b) = (a, b).
Proof.
  induction a as [|c a IH]; [by destruct b|].
  change (String c a +:+ b) with (String c (a +:+ b)).
  cbn [split_string String.length]. by rewrite IH.
Qed.

Lemma get_slice_app (a b : string) :
  get_slice (Z.of_nat (String.length a)) (a +:+ b) = Some (a, b).
Proof.
  unfold get_slice. rewrite string_length_app, Nat2Z.id, split_string_app.
  by rewrite (proj2 (Z.leb_le _ _)) by lia.
Qed.

Lemma split_string_length n s a b : split_string n s = (a, b) →
  (String.length s = String.length a + String.length b)%nat.
Proof.
  revert s a b. induction n as [|n IH]; intros [|c s] a b H; cbn in H; simplify_eq; [done..|].
  destruct (split_string n s) as [a' b'] eqn:E. simplify_eq. cbn. by rewrite (IH _ _ _ E).
Qed.

(** ** Separators

    Keys are made of fields joined by a separator. A field without the separator
    can be split off the end, or off the front, of such a key. *)
Fixpoint no_char (c : ascii) (s : string) : bool :=
  match s with
  | "" => true
  | String d s => negb (bool_decide (d = c)) && no_char c s
  end.

Lemma no_char_app c a b : no_char c (a +:+ b) = no_char c a && no_char c b.
Proof.
  induction a as [|d a IH]; [done|]. change (String d a +:+ b) with (String d (a +:+ b)).
  cbn. by rewrite IH, andb_assoc.
Qed.

Lemma split_last_inj c a b s t :
  no_char c s = true → no_char c t = true →
  a +:+ String c s = b +:+ String c t → a = b ∧ s = t.
Proof.
  intros Hs Ht. revert b. induction a as [|d a IH]; intros [|e b] H.
  - by injection H.
  - change (String e b +:+ String c t) with (String e (b +:+ String c t)) in H.
    injection H as -> ->. rewrite no_char_app in Hs. cbn in Hs.
    rewrite bool_decide_eq_true_2 in Hs by done. by rewrite andb_false_r in Hs.
  - change (String d a +:+ String c s) with (String d (a +:+ String c s)) in H.
    injection H as -> <-. rewrite no_char_app in Ht. cbn in Ht.
    rewrite bool_decide_eq_true_2 in Ht by done. by rewrite andb_false_r in Ht.
  - injection H as -> H. by destruct (IH b H) as [-> ->].
Qed.

Lemma split_first_inj c a b s t :
  no_char c a = true → no_char c b = true →
  a +:+ String c s = b +:+ String c t → a = b ∧ s = t.
Proof.
  revert b. induction a as [|d a IH]; intros [|e b] Ha Hb H.
  - by injection H.
  - injection H as -> _. cbn in Hb. by rewrite bool_decide_eq_true_2 in Hb.
  - injection H as <- _. cbn in Ha. by rewrite bool_decide_eq_true_2 in Ha.
  - injection H as -> H. cbn in Ha, Hb. apply andb_true_iff in Ha as [_ Ha].
    apply andb_true_iff in Hb as [_ Hb]. by destruct (IH b Ha Hb H) as [-> ->].
Qed.

(** Decimal numbers contain no colon and no other separator the keys use. *)
Lemma pretty_N_char_ne x c :
  c ∈ [":"%char; "|"%char] → bool_decide (pretty_N_char x = c) = false.
Proof.
  intros Hc. apply bool_decide_eq_false. unfold pretty_N_char.
  repeat (apply elem_of_cons in Hc as [->|Hc]; [by repeat case_match|]).
  by apply not_elem_of_nil in Hc.
Qed.

Lemma pretty_N_go_no_char x c s :
  c ∈ [":"%char; "|"%char] → no_char c s = true → no_char c (pretty_N_go x s) = true.
Proof.
  intros Hc. revert s. induction (N.lt_wf_0 x) as [x _ IH]. intros s Hs.
  destruct (decide (0 < x)%N) as [Hx|Hx].
  - rewrite pretty_N_go_step by done. apply IH; [by apply N.div_lt|].
    cbn [no_char]. by rewrite pretty_N_char_ne.
  - replace x with 0%N by lia. by rewrite pretty_N_go_0.
Qed.

Lemma pretty_Z_no_char (z : Z) c : c ∈ [":"%char; "|"%char] → no_char c (pretty z) = true.
Proof.
  intros Hc. assert (Hpos : ∀ p : positive, no_char c (pretty p) = true).
  { intros p. change (pretty p) with (pretty_N_go (N.pos p) "").
    by apply pretty_N_go_no_char. }
  destruct z as [|p|p].
  - repeat (apply elem_of_cons in Hc as [->|Hc]; [done|]). by apply not_elem_of_nil in Hc.
  - apply Hpos.
  - change (pretty (Z.neg p)) with ("-" +:+ pretty p). rewrite no_char_app, Hpos.
    repeat (apply elem_of_cons in Hc as [->|Hc]; [done|]). by apply not_elem_of_nil in Hc.
Qed.

(** ** Results

    [Result<A, E>], with [?] as the monadic bind. *)
Inductive result (E A : Type) : Type :=
| Ok (a : A)
| Err (e : E).
Arguments Ok {E A} a.
Arguments Err {E A} e.

#[export] Instance result_ret {E} : MRet (result E) := fun A a => Ok a.
#[export] Instance result_bind {E} : MBind (result E) := fun A B f x =>
  match x with Ok a => f a | Err e => Err e end.
#[export] Instance result_fmap {E} : FMap (result E) := fun A B f x =>
  match x with Ok a => Ok (f a) | Err e => Err e end.
#[export] Instance result_eq_dec {E A} `{EqDecision E, EqDecision A} :
  EqDecision (result E A).
Proof. solve_decision. Defined.

(** [r.map_err(f)], [o.ok_or(e)] and [r.ok()]. *)
Definition map_err {E F A} (f : E → F) (r : result E A) : result F A :=
  match r with Ok a => Ok a | Err e => Err (f e) end.
Definition ok_or {E A} (e : E) (o : option A) : result E A :=
  match o with Some a => Ok a | None => Err e end.
Definition isSome {A} (o : option A) : bool := match o with Some _ => true | None => false end.
Lemma isSome_default {A} (d : A) (o : option A) : isSome o = true → o = Some (default d o).
Proof. by destruct o. Qed.
Lemma isSome_ne {A} (o : option A) : isSome o = true → o ≠ None.
Proof. by destruct o. Qed.
Definition ok {E A} (r : result E A) : option A :=
  match r with Ok a => Some a | Err _ => None end.

(** A [for] loop whose body may return early with [?]. *)
Fixpoint foldM {E A B} (f : B → A → result E B) (l : list A) (b : B) : result E B :=
  match l with
  | [] => Ok b
  | a :: l => b' ← f b a; foldM f l b'
  end.

Lemma bind_ok {E A B} (x : result E A) (f : A → result E B) b :
  (x ≫= f) = Ok b ↔ ∃ a, x = Ok a ∧ f a = Ok b.
Proof. destruct x; naive_solver. Qed.

Lemma bind_ext {E A B} (x y : result E A) (f g : A → result E B) :
  x = y → (∀ a, f a = g a) → (x ≫= f) = (y ≫= g).
Proof. intros <- H. destruct x; [apply H|done]. Qed.

Lemma ok_or_ok {E A} (e : E) (o : option A) a : ok_or e o = Ok a ↔ o = Some a.
Proof. destruct o; naive_solver. Qed.

Lemma map_err_ok {E F A} (f : E → F) (r : result E A) a :
  map_err f r = Ok a ↔ r = Ok a.
Proof. destruct r; naive_solver. Qed.

Lemma ok_some {E A} (r : result E A) a : ok r = Some a ↔ r = Ok a.
Proof. destruct r; naive_solver. Qed.

Lemma foldl_snoc {A B} (f : A → B) l acc :
  foldl (λ acc a, acc ++ [f a]) acc l = acc ++ (f <$> l).
Proof.
  revert acc. induction l as [|a l IH]; intros acc; cbn; [by rewrite app_nil_r|].
  by rewrite IH, <- app_assoc.
Qed.

Lemma foldl_collect {A B} (g : A → option B) l acc :
  foldl (λ acc a, match g a with Some b => acc ++ [b] | None => acc end) acc l =
  acc ++ omap g l.
Proof.
  revert acc. induction l as [|a l IH]; intros acc; cbn; [by rewrite app_nil_r|].
  rewrite IH. destruct (g a); cbn; [by rewrite <- app_assoc|done].
Qed.

Lemma result_default {E A} (r : result E A) (d : A) :
  isSome (ok r) = true → r = Ok (default d (ok r)).
Proof. by destruct r. Qed.

Lemma result_pair {S E A} (p : S * result E A) a : ok p.2 = Some a → p = (p.1, Ok a).
Proof. destruct p as [s [x|e]]; cbn; [by intros [= ->]|done]. Qed.

(** [ok_inv] turns "this sequence of [?]s returned [Ok]" into the equations of
    its steps. *)
Ltac ok_inv_step :=
  match goal with
  | H : Ok _ = Ok _ |- _ => injection H as H; try subst
  | H : Err _ = Ok _ |- _ => discriminate H
  | H : Ok _ = Err _ |- _ => discriminate H
  | H : (_ ≫= _) = Ok _ |- _ =>
      let a := fresh "a" in let Ha := fresh "Ha" in
      apply bind_ok in H as (a & Ha & H)
  | H : ok_or _ _ = Ok _ |- _ => apply ok_or_ok in H
  | H : map_err _ _ = Ok _ |- _ => apply map_err_ok in H
  | H : mret _ = Ok _ |- _ => unfold mret, result_ret in H
  | H : (_, _) = (_, _) |- _ => injection H as; subst
  | H : _ = Ok _ |- _ => progress cbv beta in H
  end.
Ltac ok_inv := repeat ok_inv_step.

(** Closes an equation between closed terms by evaluating both sides. *)
Ltac vm_refl := match goal with |- _ = ?b => vm_cast_no_check (eq_refl b) end.

Lemma foldM_app {E A B} (f : B → A → result E B) l1 l2 b :
  foldM f (l1 ++ l2) b = (b' ← foldM f l1 b; foldM f l2 b').
Proof.
  revert b. induction l1 as [|a l1 IH]; intros b; [done|]. cbn.
  destruct (f b a); [cbn; apply IH|done].
Qed.

Lemma omap_pointwise {A B} (f g : A → option B) (l : list A) :
  (∀ a, f a = g a) → omap f l = omap g l.
Proof. intros H. induction l as [|a l IH]; [done|]. cbn. by rewrite H, IH. Qed.

(** Invariant rule for loops: what the body preserves holds after the loop. *)
Lemma foldM_invariant {E A B} (P : B → Prop) (f : B → A → result E B) l b b' :
  (∀ b a b', a ∈ l → P b → f b a = Ok b' → P b') →
  P b → foldM f l b = Ok b' → P b'.
Proof.
  revert b. induction l as [|a l IH]; intros b Hstep Hb H; cbn in H; [by ok_inv|].
  ok_inv. eapply IH; [|eapply Hstep; [left| |]; eauto|eauto].
  intros ? ? ? ?. apply Hstep. by right.
Qed.

(** A loop whose body never fails is a fold. *)
Lemma foldM_foldl {E A B} (f : B → A → result E B) (g : B → A → B) l b :
  (∀ b a, a ∈ l → f b a = Ok (g b a)) → foldM f l b = Ok (foldl g b l).
Proof.
  revert b. induction l as [|a l IH]; intros b H; [done|]. cbn.
  rewrite (H b a) by left. cbn. apply IH. intros. apply H. by right.
Qed.

Lemma foldM_ext {E A B} (f g : B → A → result E B) l b :
  (∀ b a, a ∈ l → f b a = g b a) → foldM f l b = foldM g l b.
Proof.
  revert b. induction l as [|a l IH]; intros b H; [done|]. cbn.
  rewrite (H b a) by left. destruct (g b a); [|done]. apply IH.
  intros. apply H. by right.
Qed.

(** ** Machine integers

    Integers are [Z]; the width is in the operations. The crate has no
    [overflow-checks] profile, so the release build's [+], [-], [*] wrap around
    and [as] truncates. *)
Open Scope Z_scope.

Definition U32_MAX : Z := 2 ^ 32 - 1.
Definition U64_MAX : Z := 2 ^ 64 - 1.
Definition wrap_u32 (x : Z) : Z := x mod 2 ^ 32.
Definition wrap_u64 (x : Z) : Z := x mod 2 ^ 64.
Definition is_u32 (x : Z) : Prop := 0 ≤ x < 2 ^ 32.
Definition is_u64 (x : Z) : Prop := 0 ≤ x < 2 ^ 64.

(** [x as i64], from a [u64]. *)
Definition as_i64 (x : Z) : Z := (x + 2 ^ 63) mod 2 ^ 64 - 2 ^ 63.

(** [a.saturating_sub(b)] on an unsigned type, [x.clamp(lo, hi)]. *)
Definition saturating_sub (a b : Z) : Z := Z.max 0 (a - b).
Definition clamp (x lo hi : Z) : Z := Z.min hi (Z.max lo x).

Lemma wrap_u32_small x : is_u32 x → wrap_u32 x = x.
Proof. apply Z.mod_small. Qed.
Lemma wrap_u64_small x : is_u64 x → wrap_u64 x = x.
Proof. apply Z.mod_small. Qed.
Lemma wrap_u32_range x : is_u32 (wrap_u32 x).
Proof. by apply Z.mod_pos_bound. Qed.
Lemma wrap_u64_range x : is_u64 (wrap_u64 x).
Proof. by apply Z.mod_pos_bound. Qed.

(** [x.to_le_bytes()] and [x.to_be_bytes()] of an [n]-byte integer, and
    [from_le_bytes] / [from_be_bytes]. *)
Definition byte_of_Z (b : Z) : ascii := ascii_of_N (Z.to_N (b mod 256)).
Definition Z_of_byte (c : ascii) : Z := Z.of_N (N_of_ascii c).

Fixpoint to_le_bytes (n : nat) (z : Z) : bytes :=
  match n with
  | O => ""
  | S n => String (byte_of_Z z) (to_le_bytes n (z / 256))
  end.

Fixpoint from_le_bytes (s : bytes) : Z :=
  match s with
  | "" => 0
  | String c s => Z_of_byte c + 256 * from_le_bytes s
  end.

Fixpoint to_be_bytes (n : nat) (z : Z) : bytes :=
  match n with
  | O => ""
  | S n => String (byte_of_Z (z / 256 ^ Z.of_nat n)) (to_be_bytes n z)
  end.

Fixpoint from_be_bytes_acc (acc : Z) (s : bytes) : Z :=
  match s with
  | "" => acc
  | String c s => from_be_bytes_acc (acc * 256 + Z_of_byte c) s
  end.
Definition from_be_bytes : bytes → Z := from_be_bytes_acc 0.

Lemma N_of_byte_of_Z b : N_of_ascii (byte_of_Z b) = Z.to_N (b mod 256).
Proof.
  unfold byte_of_Z. apply N_ascii_embedding.
  pose proof (Z.mod_pos_bound b 256 ltac:(lia)). lia.
Qed.

Lemma Z_of_byte_of_Z b : Z_of_byte (byte_of_Z b) = b mod 256.
Proof.
  unfold Z_of_byte. rewrite N_of_byte_of_Z.
  pose proof (Z.mod_pos_bound b 256 ltac:(lia)). lia.
Qed.

Lemma to_le_bytes_length n z : String.length (to_le_bytes n z) = n.
Proof. revert z. induction n; intros z; cbn; auto. Qed.

Lemma to_be_bytes_length n z : String.length (to_be_bytes n z) = n.
Proof. induction n; cbn; auto. Qed.

Lemma mod_pow_succ z b n : 0 < b →
  z mod b ^ Z.of_nat (S n) = z mod b + b * ((z / b) mod b ^ Z.of_nat n).
Proof.
  intros Hb. rewrite Nat2Z.inj_succ, Z.pow_succ_r by lia.
  rewrite Z.rem_mul_r; [done|lia|]. apply Z.pow_pos_nonneg; lia.
Qed.

Lemma from_to_le_bytes n z :
  from_le_bytes (to_le_bytes n z) = z mod 256 ^ Z.of_nat n.
Proof.
  revert z. induction n as [|n IH]; intros z; cbn [to_le_bytes from_le_bytes].
  { by rewrite Z.mod_1_r. }
  rewrite IH, Z_of_byte_of_Z, mod_pow_succ by lia. done.
Qed.

Lemma mod_pow_succ_top z n :
  z mod 256 ^ Z.of_nat (S n) =
  ((z / 256 ^ Z.of_nat n) mod 256) * 256 ^ Z.of_nat n + z mod 256 ^ Z.of_nat n.
Proof.
  rewrite Nat2Z.inj_succ, Z.pow_succ_r, (Z.mul_comm 256) by lia.
  assert (0 < 256 ^ Z.of_nat n) by (apply Z.pow_pos_nonneg; lia).
  rewrite Z.rem_mul_r by lia. lia.
Qed.

Lemma from_be_bytes_acc_to n acc z :
  from_be_bytes_acc acc (to_be_bytes n z) =
  acc * 256 ^ Z.of_nat n + z mod 256 ^ Z.of_nat n.
Proof.
  revert acc. induction n as [|n IH]; intros acc;
    cbn [to_be_bytes from_be_bytes_acc].
  { rewrite Z.mod_1_r. cbn. lia. }
  rewrite IH, Z_of_byte_of_Z, mod_pow_succ_top.
  rewrite Nat2Z.inj_succ, Z.pow_succ_r by lia. lia.
Qed.

Lemma from_to_be_bytes n z :
  from_be_bytes (to_be_bytes n z) = z mod 256 ^ Z.of_nat n.
Proof. unfold from_be_bytes. rewrite from_be_bytes_acc_to. lia. Qed.

Lemma byte_compare a b :
  Ascii.compare (byte_of_Z a) (byte_of_Z b) = Z.compare (a mod 256) (b mod 256).
Proof.
  unfold Ascii.compare. rewrite !N_of_byte_of_Z.
  pose proof (Z.mod_pos_bound a 256 ltac:(lia)).
  pose proof (Z.mod_pos_bound b 256 ltac:(lia)).
  by rewrite Z2N.inj_compare by lia.
Qed.

(** Big-endian keys are ordered as the integers they encode. *)
Lemma to_be_bytes_compare n a b :
  String.compare (to_be_bytes n a) (to_be_bytes n b) =
  Z.compare (a mod 256 ^ Z.of_nat n) (b mod 256 ^ Z.of_nat n).
Proof.
  induction n as [|n IH]; [by rewrite !Z.mod_1_r|].
  cbn [to_be_bytes String.compare]. rewrite byte_compare, IH, !mod_pow_succ_top.
  assert (0 < 256 ^ Z.of_nat n) as Hp by (apply Z.pow_pos_nonneg; lia).
  pose proof (Z.mod_pos_bound a _ Hp). pose proof (Z.mod_pos_bound b _ Hp).
  set (p := 256 ^ Z.of_nat n) in *.
  set (x := (a / p) mod 256). set (y := (b / p) mod 256).
  destruct (Z.compare_spec x y) as [->|Hlt|Hgt].
  - by rewrite Z.add_compare_mono_l.
  - symmetry. apply Z.compare_lt_iff. nia.
  - symmetry. apply Z.compare_gt_iff. nia.
Qed.

(** ** [slice::sort_by]: a stable sort by a comparator *)
Fixpoint insert_by {A} (cmp : A → A → comparison) (x : A) (l : list A) : list A :=
  match l with
  | [] => [x]
  | y :: l' => match cmp x y with Gt => y :: insert_by cmp x l' | _ => x :: y :: l' end
  end.
Definition sort_by {A} (cmp : A → A → comparison) (l : list A) : list A :=
  foldr (insert_by cmp) [] l.

Lemma insert_by_perm {A} (cmp : A → A → comparison) x l : insert_by cmp x l ≡ₚ x :: l.
Proof.
  induction l as [|y l IH]; cbn; [done|]. destruct (cmp x y); [done..|].
  rewrite IH. constructor.
Qed.

Lemma sort_by_perm {A} (cmp : A → A → comparison) l : sort_by cmp l ≡ₚ l.
Proof. induction l as [|x l IH]; cbn; [done|]. by rewrite insert_by_perm, IH. Qed.

(** A comparator that orders: swapping the arguments reverses the answer, and "not
    greater" is transitive. *)
Record orders {A} (cmp : A → A → comparison) : Prop := {
  orders_opp x y : cmp y x = CompOpp (cmp x y);
  orders_trans x y z : cmp x y ≠ Gt → cmp y z ≠ Gt → cmp x z ≠ Gt
}.

Lemma insert_by_sorted {A} (cmp : A → A → comparison) x l :
  orders cmp → StronglySorted (λ a b, cmp a b ≠ Gt) l →
  StronglySorted (λ a b, cmp a b ≠ Gt) (insert_by cmp x l).
Proof.
  intros Ho. induction 1 as [|y l Hs IH Hy]; cbn; [repeat constructor|].
  assert (Hx : cmp x y ≠ Gt → StronglySorted (λ a b, cmp a b ≠ Gt) (x :: y :: l)).
  { intros Hxy. constructor; [by constructor|]. constructor; [done|].
    eapply Forall_impl; [exact Hy|]. cbn. intros z. by apply (orders_trans _ Ho). }
  destruct (cmp x y) eqn:E; [by apply Hx..|]. constructor; [done|].
  rewrite insert_by_perm. constructor; [|done]. by rewrite (orders_opp _ Ho x y), E.
Qed.

Lemma sort_by_sorted {A} (cmp : A → A → comparison) l :
  orders cmp → StronglySorted (λ a b, cmp a b ≠ Gt) (sort_by cmp l).
Proof.
  intros Ho. induction l as [|x l IH]; cbn; [constructor|]. by apply insert_by_sorted.
Qed.

(** The first element of a sorted list is least. *)
Lemma sort_by_head {A} (cmp : A → A → comparison) l x y :
  orders cmp → head (sort_by cmp l) = Some x → y ∈ l → cmp x y ≠ Gt.
Proof.
  intros Ho Hx Hy. pose proof (sort_by_sorted cmp l Ho) as Hs.
  rewrite <- (sort_by_perm cmp l) in Hy. destruct (sort_by cmp l) as [|x' l']; [done|].
  injection Hx as ->. inversion Hs as [|? ? _ Hall]; subst.
  apply elem_of_cons in Hy as [->|Hy]; [|rewrite Forall_forall in Hall; by apply Hall].
  pose proof (orders_opp _ Ho x x) as E. by destruct (cmp x x).
Qed.

(** Lexicographic combination, and comparison through a function. *)
Definition then_with (c d : comparison) : comparison := match c with Eq => d | _ => c end.

Lemma orders_then {A} (c d : A → A → comparison) :
  orders c → orders d → (∀ x y z, c x y = Eq → c y z = c x z) → (∀ x y z, c y z = Eq → c x y = c x z) →
  orders (λ x y, then_with (c x y) (d x y)).
Proof.
  intros Hc Hd Hl Hr. split.
  - intros x y. rewrite (orders_opp _ Hc x y), (orders_opp _ Hd x y). by destruct (c x y).
  - intros x y z H1 H2. destruct (c x y) eqn:E1; cbn in H1; [| |done].
    + rewrite <- (Hl x y z E1). destruct (c y z); cbn in *; [|done..].
      by apply (orders_trans _ Hd x y z).
    + assert (c x z = Lt) as ->; [|done].
      destruct (c y z) eqn:E2; cbn in H2; [by rewrite <- (Hr x y z E2)| |done].
      assert (c x z ≠ Gt) by (apply (orders_trans _ Hc x y z); congruence).
      destruct (c x z) eqn:E3; [|done..].
      pose proof (Hl x z y E3) as E4. rewrite (orders_opp _ Hc y z), E2, E1 in E4. done.
Qed.

Lemma orders_map {A B} (f : A → B) c : orders c → orders (λ x y, c (f x) (f y)).
Proof. intros [H1 H2]. split; eauto. Qed.

Lemma orders_Z : orders Z.compare.
Proof.
  split.
  - intros x y. apply Z.compare_antisym.
  - intros x y z. rewrite !Z.compare_ngt_iff. lia.
Qed.

Lemma orders_string : orders String.compare.
Proof.
  split.
  - intros x y. apply String.compare_antisym.
  - assert (Hle : ∀ a b, String.compare a b ≠ Gt ↔ String.le a b).
    { intros a b. unfold String.le, String.leb. by destruct (String.compare a b). }
    intros x y z. rewrite !Hle. apply transitivity.
Qed.

Lemma insert_by_ext {A} (cmp cmp' : A → A → comparison) x l :
  (∀ y, y ∈ l → cmp x y = cmp' x y) → insert_by cmp x l = insert_by cmp' x l.
Proof.
  induction l as [|y l IH]; intros H; cbn; [done|]. rewrite (H y) by left.
  rewrite IH; [done|]. intros z Hz. apply H. by right.
Qed.

Lemma sort_by_ext {A} (cmp cmp' : A → A → comparison) l :
  (∀ x y, x ∈ l → y ∈ l → cmp x y = cmp' x y) → sort_by cmp l = sort_by cmp' l.
Proof.
  induction l as [|x l IH]; intros H; [done|].
  change (insert_by cmp x (sort_by cmp l) = insert_by cmp' x (sort_by cmp' l)).
  rewrite IH by (intros; apply H; by right). apply insert_by_ext. intros y Hy.
  rewrite sort_by_perm in Hy. apply H; [left|by right].
Qed.

(** With distinct elements under the order, the least one is the same in any order
    of the list. *)
Lemma sort_by_head_perm {A} (cmp : A → A → comparison) l l' :
  orders cmp → (∀ x y, x ∈ l → y ∈ l → cmp x y = Eq → x = y) → l ≡ₚ l' →
  head (sort_by cmp l) = head (sort_by cmp l').
Proof.
  intros Ho Heq Hp. destruct (head (sort_by cmp l)) as [x|] eqn:Hx.
  - assert (Hin : x ∈ l) by (rewrite <- (sort_by_perm cmp l); by apply head_Some_elem_of).
    destruct (head (sort_by cmp l')) as [y|] eqn:Hy.
    + assert (Hin' : y ∈ l') by (rewrite <- (sort_by_perm cmp l'); by apply head_Some_elem_of).
      rewrite <- Hp in Hin'. pose proof (sort_by_head _ _ _ y Ho Hx Hin') as H1.
      assert (Hxl : x ∈ l') by (by rewrite <- Hp).
      pose proof (sort_by_head _ _ _ x Ho Hy Hxl) as H2.
      rewrite (orders_opp _ Ho x y) in H2. f_equal. apply Heq; [done..|]. by destruct (cmp x y).
    + apply head_None in Hy. pose proof (sort_by_perm cmp l') as Hp'. rewrite Hy, <- Hp in Hp'.
      apply Permutation_nil_l in Hp'. subst. by apply not_elem_of_nil in Hin.
  - apply head_None in Hx. pose proof (sort_by_perm cmp l) as Hp'. rewrite Hx in Hp'.
    apply Permutation_nil_l in Hp'. subst. apply Permutation_nil_l in Hp. by subst.
Qed.
