(* ===== verification/Storage.v ===== *)
(** * Storage: keyspaces, write batches and the fjall interface

    Models [src/storage/mod.rs] and [src/storage/tables.rs]: the keyspaces of
    the database and the list a Raft snapshot covers. The database engine itself
    (the [fjall] crate) is not part of the repository: it is the class [Fjall]
    below, whose operations the other files call and whose documented behaviour
    is the class [FjallSpec]. [MemFjall] is an instance. *)

From S2P Require Import Prelude.

(** ** Keyspaces *)

(** [struct Keyspaces]: one constructor per field. *)
Inductive Keyspace : Set :=
| ks_version | ks_raft_log | ks_raft_log_meta | ks_raft_state | ks_raft_snapshot
| ks_nodes | ks_svids | ks_sag_rules | ks_join_tokens | ks_revoked_delegations
| ks_active_delegations | ks_ordinals | ks_placements | ks_tenants | ks_workloads
| ks_secrets | ks_dummy_ips | ks_pcr_policies | ks_router_assignments
| ks_node_pools | ks_node_taints | ks_trust_bundles | ks_nonces
| ks_nonce_claims | ks_svid_grants | ks_revoked_svids | ks_audit_log
| ks_cron_checkpoints | ks_operator_grants | ks_workload_status
| ks_tenant_quotas | ks_control_addresses | ks_node_eks
| ks_pending_activations | ks_vpa_recommendations.

#[export] Instance Keyspace_eq_dec : EqDecision Keyspace.
Proof. solve_decision. Defined.

Definition all_keyspaces : list Keyspace :=
  [ks_version; ks_raft_log; ks_raft_log_meta; ks_raft_state; ks_raft_snapshot;
   ks_nodes; ks_svids; ks_sag_rules; ks_join_tokens; ks_revoked_delegations;
   ks_active_delegations; ks_ordinals; ks_placements; ks_tenants; ks_workloads;
   ks_secrets; ks_dummy_ips; ks_pcr_policies; ks_router_assignments;
   ks_node_pools; ks_node_taints; ks_trust_bundles; ks_nonces; ks_nonce_claims;
   ks_svid_grants; ks_revoked_svids; ks_audit_log; ks_cron_checkpoints;
   ks_operator_grants; ks_workload_status; ks_tenant_quotas;
   ks_control_addresses; ks_node_eks; ks_pending_activations;
   ks_vpa_recommendations].

#[export] Program Instance Keyspace_finite : finite.Finite Keyspace :=
  {| finite.enum := all_keyspaces |}.
Next Obligation. apply (bool_decide_unpack _). by vm_compute. Qed.
Next Obligation. intros []; apply (bool_decide_unpack _); by vm_compute. Qed.

(** The keyspace name constants of [tables.rs], as [init_keyspaces] assigns
    them to the fields. *)
Definition keyspace_name (ks : Keyspace) : string :=
  match ks with
  | ks_version => "app_version"
  | ks_raft_log => "raft_log"
  | ks_raft_log_meta => "raft_log_meta"
  | ks_raft_state => "raft_state"
  | ks_raft_snapshot => "raft_snapshot"
  | ks_nodes => "app_nodes"
  | ks_svids => "app_svids"
  | ks_sag_rules => "app_sag_rules"
  | ks_join_tokens => "app_join_tokens"
  | ks_revoked_delegations => "app_revoked_delegations"
  | ks_active_delegations => "app_active_delegations"
  | ks_ordinals => "app_ordinals"
  | ks_placements => "app_placements"
  | ks_tenants => "app_tenants"
  | ks_workloads => "app_workloads"
  | ks_secrets => "app_secrets"
  | ks_dummy_ips => "app_dummy_ips"
  | ks_pcr_policies => "app_pcr_policies"
  | ks_router_assignments => "app_router_assignments"
  | ks_node_pools => "node_pools"
  | ks_node_taints => "app_node_taints"
  | ks_trust_bundles => "app_trust_bundles"
  | ks_nonces => "app_nonces"
  | ks_nonce_claims => "app_nonce_claims"
  | ks_svid_grants => "app_svid_grants"
  | ks_revoked_svids => "app_revoked_svids"
  | ks_audit_log => "app_audit_log"
  | ks_cron_checkpoints => "app_cron_checkpoints"
  | ks_operator_grants => "app_operator_grants"
  | ks_workload_status => "app_workload_status"
  | ks_tenant_quotas => "app_tenant_quotas"
  | ks_control_addresses => "app_control_addresses"
  | ks_node_eks => "app_node_eks"
  | ks_pending_activations => "app_pending_activations"
  | ks_vpa_recommendations => "app_vpa_recommendations"
  end.

(** [Keyspaces::snapshot_keyspaces]. *)
Definition snapshot_keyspaces : list (string * Keyspace) :=
  (λ ks, (keyspace_name ks, ks)) <$>
  [ks_version; ks_nodes; ks_svids; ks_sag_rules; ks_join_tokens;
   ks_revoked_delegations; ks_active_delegations; ks_ordinals; ks_placements;
   ks_tenants; ks_workloads; ks_secrets; ks_dummy_ips; ks_pcr_policies;
   ks_router_assignments; ks_node_pools; ks_node_taints; ks_raft_state;
   ks_trust_bundles; ks_revoked_svids; ks_audit_log; ks_operator_grants;
   ks_workload_status; ks_tenant_quotas; ks_cron_checkpoints;
   ks_control_addresses; ks_node_eks; ks_vpa_recommendations].

(** [ks] is one of the keyspaces a snapshot covers. *)
Definition in_snapshot (ks : Keyspace) : bool :=
  bool_decide (ks ∈ snapshot_keyspaces.*2).

Lemma keyspace_name_inj ks1 ks2 : keyspace_name ks1 = keyspace_name ks2 → ks1 = ks2.
Proof. destruct ks1, ks2; first [done | discriminate]. Qed.

(** ** Write batches

    The contents of a database: the value under each key of each keyspace. *)
Abbreviation store := (gmap (Keyspace * bytes) bytes).

(** One operation of an [OwnedWriteBatch], and the batch: its operations in the
    order they were added. *)
Inductive batch_op : Type :=
| BInsert (ks : Keyspace) (k v : bytes)
| BRemove (ks : Keyspace) (k : bytes).
Abbreviation write_batch := (list batch_op).

Definition batch_insert (ks : Keyspace) (k v : bytes) (b : write_batch) : write_batch :=
  b ++ [BInsert ks k v].
Definition batch_remove (ks : Keyspace) (k : bytes) (b : write_batch) : write_batch :=
  b ++ [BRemove ks k].

Definition op_key (op : batch_op) : Keyspace * bytes :=
  match op with BInsert ks k _ => (ks, k) | BRemove ks k => (ks, k) end.
Definition op_value (op : batch_op) : option bytes :=
  match op with BInsert _ _ v => Some v | BRemove _ _ => None end.

Definition apply_op (st : store) (op : batch_op) : store :=
  match op with
  | BInsert ks k v => <[(ks, k) := v]> st
  | BRemove ks k => delete (ks, k) st
  end.
Definition apply_batch (st : store) (b : write_batch) : store := foldl apply_op st b.

(** The last write a batch makes to a key: [None] when it makes none. *)
Definition last_write (b : write_batch) (key : Keyspace * bytes) : option (option bytes) :=
  foldl (λ acc op, if decide (op_key op = key) then Some (op_value op) else acc) None b.

Lemma apply_op_lookup st op key :
  apply_op st op !! key = if decide (op_key op = key) then op_value op else st !! key.
Proof.
  destruct op as [ks k v|ks k]; cbn.
  - by rewrite lookup_insert.
  - by rewrite lookup_delete.
Qed.

Lemma last_write_snoc b op key :
  last_write (b ++ [op]) key =
  if decide (op_key op = key) then Some (op_value op) else last_write b key.
Proof. unfold last_write. by rewrite foldl_app. Qed.

Lemma apply_batch_snoc st b op : apply_batch st (b ++ [op]) = apply_op (apply_batch st b) op.
Proof. unfold apply_batch. by rewrite foldl_app. Qed.

Lemma apply_batch_app st b1 b2 :
  apply_batch st (b1 ++ b2) = apply_batch (apply_batch st b1) b2.
Proof. unfold apply_batch. by rewrite foldl_app. Qed.

Lemma apply_batch_lookup st b key :
  apply_batch st b !! key = default (st !! key) (last_write b key).
Proof.
  induction b as [|op b IH] using rev_ind; [done|].
  rewrite apply_batch_snoc, last_write_snoc, apply_op_lookup, IH.
  by case_decide.
Qed.

Lemma last_write_app b1 b2 key :
  last_write (b1 ++ b2) key =
  match last_write b2 key with Some w => Some w | None => last_write b1 key end.
Proof.
  induction b2 as [|op b2 IH] using rev_ind; [by rewrite app_nil_r|].
  rewrite app_assoc, !last_write_snoc. by case_decide.
Qed.

(** A key no operation of the batch names is left alone. *)
Lemma last_write_none b key :
  last_write b key = None ↔ Forall (λ op, op_key op ≠ key) b.
Proof.
  induction b as [|op b IH] using rev_ind; [done|].
  rewrite last_write_snoc, Forall_app, Forall_singleton.
  case_decide; naive_solver.
Qed.

(** A last write comes from an operation of the batch. *)
Lemma last_write_some b key w :
  last_write b key = Some w → ∃ op, op ∈ b ∧ op_key op = key ∧ op_value op = w.
Proof.
  induction b as [|op b IH] using rev_ind; [done|]. rewrite last_write_snoc.
  case_decide as E.
  - intros [= <-]. exists op. set_solver.
  - intros (op' & Hin & H)%IH. exists op'. set_solver.
Qed.

(** When the operations on a key agree, the last write is theirs. *)
Lemma last_write_unique b op key :
  op ∈ b → op_key op = key →
  (∀ op', op' ∈ b → op_key op' = key → op_value op' = op_value op) →
  last_write b key = Some (op_value op).
Proof.
  intros Hin Hk Hall. destruct (last_write b key) as [w|] eqn:E.
  - f_equal. revert E. clear Hin.
    induction b as [|op' b IH] using rev_ind; [done|]. rewrite last_write_snoc.
    case_decide as Hd.
    + intros [= <-]. apply Hall; [|done]. set_solver.
    + apply IH. intros op2 Hin2. apply Hall. set_solver.
  - apply last_write_none in E. rewrite Forall_forall in E. by destruct (E op Hin).
Qed.

Lemma apply_batch_frame st b key :
  Forall (λ op, op_key op ≠ key) b → apply_batch st b !! key = st !! key.
Proof. intros H%last_write_none. by rewrite apply_batch_lookup, H. Qed.

(** ** Prefix scans

    The pairs of keyspace [ks] whose key starts with [p], in key order. *)
Definition key_le (a b : bytes * bytes) : Prop := String.le a.1 b.1.
#[export] Instance key_le_dec : RelDecision key_le.
Proof. intros a b. unfold key_le. apply _. Defined.

Definition scan_entry (ks : Keyspace) (p : bytes) (e : Keyspace * bytes * bytes) :
    option (bytes * bytes) :=
  if bool_decide (e.1.1 = ks) && starts_with p e.1.2 then Some (e.1.2, e.2) else None.

Definition scan (st : store) (ks : Keyspace) (p : bytes) : list (bytes * bytes) :=
  merge_sort key_le (omap (scan_entry ks p) (map_to_list st)).

Lemma elem_of_scan st ks p k v :
  (k, v) ∈ scan st ks p ↔ st !! (ks, k) = Some v ∧ starts_with p k = true.
Proof.
  unfold scan. rewrite merge_sort_Permutation, list_elem_of_omap. split.
  - intros ([[ks' k'] v'] & Hin & H). unfold scan_entry in H; cbn in H.
    apply elem_of_map_to_list in Hin.
    case_bool_decide; cbn in H; [|done]. destruct (starts_with p k') eqn:E; [|done].
    by simplify_eq.
  - intros [Hk Hp]. exists (ks, k, v). rewrite elem_of_map_to_list.
    unfold scan_entry; cbn. by rewrite Hp, bool_decide_eq_true_2.
Qed.

Lemma NoDup_omap_scan_entry ks p l :
  NoDup l.*1 → NoDup (omap (scan_entry ks p) l).*1.
Proof.
  induction l as [|[[ks' k] v] l IH]; cbn; intros H; [constructor|].
  inversion H as [|? ? Hni Hnd]; subst. unfold scan_entry at 1; cbn.
  case_bool_decide as E; cbn; [subst ks'|by apply IH].
  destruct (starts_with p k); cbn; [|by apply IH].
  constructor; [|by apply IH].
  intros ([k' v'] & -> & Hin)%list_elem_of_fmap.
  apply list_elem_of_omap in Hin as ([[ks2 k2] v2] & Hin & Hs).
  unfold scan_entry in Hs; cbn in Hs. case_bool_decide; [|done]. cbn in Hs.
  destruct (starts_with p k2); [|done]. simplify_eq/=.
  apply Hni, list_elem_of_fmap. by exists (ks, k', v').
Qed.

Lemma NoDup_scan st ks p : NoDup (scan st ks p).*1.
Proof.
  unfold scan. rewrite merge_sort_Permutation.
  apply NoDup_omap_scan_entry, NoDup_fst_map_to_list.
Qed.

Lemma scan_sorted st ks p : StronglySorted key_le (scan st ks p).
Proof.
  unfold scan. apply StronglySorted_merge_sort.
  - intros a b c. unfold key_le. apply transitivity.
  - intros a b. unfold key_le. apply (total String.le).
Qed.

(** A scan depends on the pairs of its own keyspace only. *)
Lemma scan_ext st1 st2 ks p :
  (∀ k, st1 !! (ks, k) = st2 !! (ks, k)) → scan st1 ks p = scan st2 ks p.
Proof.
  intros H. assert (Hin : ∀ kv, kv ∈ scan st1 ks p ↔ kv ∈ scan st2 ks p).
  { intros [k v]. by rewrite !elem_of_scan, H. }
  apply (StronglySorted_unique_strong key_le); [|apply scan_sorted..|].
  - intros [k1 v1] [k2 v2] H1 H2 Hle1 Hle2. apply elem_of_scan in H1 as [H1 _].
    apply elem_of_scan in H2 as [H2 _]. unfold key_le in *; cbn in *.
    assert (k1 = k2) as -> by (by apply (anti_symm String.le)). rewrite H in H1. by simplify_eq.
  - apply NoDup_Permutation; [eapply NoDup_fmap_1, NoDup_scan..|exact Hin].
Qed.

(** ** The fjall interface *)

(** What the code calls. [contents] is the view the specification is written in:
    no operation of the program reads it. Any read may fail with an I/O error;
    a failed [commit] leaves the database as it was. *)
Class Fjall : Type := {
  Db : Type;
  IoError : Type;
  contents : Db → store;
  (** [keyspace.get(key)] *)
  get : Db → Keyspace → bytes → result IoError (option bytes);
  (** [keyspace.prefix(p)]: a guard per pair, each read when it is opened *)
  prefix : Db → Keyspace → bytes → list (result IoError (bytes * bytes));
  (** [batch.commit()] *)
  commit : Db → write_batch → result IoError Db
}.

(** fjall's documented behaviour: reads return the stored value; a prefix scan
    yields the pairs with that prefix in key order; a batch is applied
    atomically, its operations in the order they were added. *)
Class FjallSpec (F : Fjall) : Prop := {
  get_spec db ks k r : get db ks k = Ok r → r = contents db !! (ks, k);
  prefix_spec db ks p :
    Forall2 (λ r kv, ∀ x, r = Ok x → x = kv) (prefix db ks p) (scan (contents db) ks p);
  commit_spec db b db' : commit db b = Ok db' → contents db' = apply_batch (contents db) b
}.

(** A run without I/O errors. *)
Class FjallReliable (F : Fjall) : Prop := {
  get_reliable db ks k : ∃ r, get db ks k = Ok r;
  prefix_reliable db ks p : Forall (λ r, ∃ kv, r = Ok kv) (prefix db ks p);
  commit_reliable db b : ∃ db', commit db b = Ok db'
}.

Section FjallLemmas.
Context `{F : Fjall} `{!FjallSpec F}.

(** Every guard of a scan that opens holds a stored pair with the prefix. *)
Lemma prefix_sound db ks p k v :
  Ok (k, v) ∈ prefix db ks p → contents db !! (ks, k) = Some v ∧ starts_with p k = true.
Proof.
  intros Hin. rewrite <- elem_of_scan.
  apply list_elem_of_lookup in Hin as [i Hi].
  pose proof (prefix_spec db ks p) as HF.
  destruct (Forall2_lookup_l _ _ _ _ _ HF Hi) as (kv & Hkv & H).
  rewrite (H _ eq_refl). by eapply list_elem_of_lookup_2.
Qed.

(** A scan whose guards all open is the scan of the contents. *)
Lemma prefix_all_ok db ks p :
  Forall (λ r, ∃ kv, r = Ok kv) (prefix db ks p) →
  prefix db ks p = Ok <$> scan (contents db) ks p.
Proof.
  pose proof (prefix_spec db ks p) as HF. revert HF.
  generalize (prefix db ks p) (scan (contents db) ks p).
  intros l l'. induction 1 as [|r kv l l' H HF IH]; intros HR; [done|]. cbn.
  inversion HR as [|? ? [kv' ->] HR']; subst. rewrite (H kv' eq_refl), IH; done.
Qed.

Context `{!FjallReliable F}.

Lemma get_eq db ks k : get db ks k = Ok (contents db !! (ks, k)).
Proof. destruct (get_reliable db ks k) as [r Hr]. rewrite Hr. f_equal. by eapply get_spec. Qed.

Lemma prefix_eq db ks p : prefix db ks p = Ok <$> scan (contents db) ks p.
Proof. apply prefix_all_ok, prefix_reliable. Qed.
End FjallLemmas.

(** ** An instance: the database is its contents. *)
Module MemFjall.
#[export] Instance mem_fjall : Fjall := {|
  Db := store;
  IoError := Empty_set;
  contents := id;
  get db ks k := Ok (db !! (ks, k));
  prefix db ks p := Ok <$> scan db ks p;
  commit db b := Ok (apply_batch db b)
|}.

#[export] Instance mem_fjall_spec : FjallSpec mem_fjall.
Proof.
  split; cbn.
  - intros db ks k r H. by ok_inv.
  - intros db ks p. apply Forall2_fmap_l, Forall_Forall2_diag, Forall_true.
    cbn. intros x y H. by ok_inv.
  - intros db b db' H. by ok_inv.
Qed.

#[export] Instance mem_fjall_reliable : FjallReliable mem_fjall.
Proof.
  split; cbn; eauto. intros db ks p. apply Forall_fmap, Forall_true. cbn; eauto.
Qed.
End MemFjall.
