(* ===== verification/Core.v ===== *)
(** * Core: what the program takes from [fleetos-core] and [openraft]

    The SPIFFE identities and protobuf messages of the [fleetos-core] crate and
    the log types of [openraft] are used, not defined, by this repository. The
    class [Core] holds the operations the code calls; the messages are records
    of the fields the code reads or writes, with an opaque rest. *)

From S2P Require Import Prelude.

(** ** Identities *)

(** [IdKind]: what kind of principal an identity names. *)
Module IdKind.
Inductive t : Set := Ctrl | Operator | Control | Node | Router | Gateway | Sa.
End IdKind.

#[export] Instance IdKind_eq_dec : EqDecision IdKind.t.
Proof. solve_decision. Defined.

(** [SpiffeId]: parsed from and printed to a string; [PartialEq]; built by
    [SpiffeId::new] from a trust domain, a tenant, a kind and a name.
    [TenantId::new] and [WorkloadRole::try_from] validate a string, and
    [as_str] gives it back, so they are modelled by the test alone.
    [dummy_ip_hostname] may reject its arguments. [Rest] is the type of the
    message fields the code never touches, [Membership] openraft's. *)
Class Core : Type := {
  SpiffeId : Type;
  SpiffeId_eq_dec :: EqDecision SpiffeId;
  spiffe_parse : string → option SpiffeId;
  spiffe_to_string : SpiffeId → string;
  spiffe_new : string → string → IdKind.t → string → SpiffeId;
  spiffe_kind : SpiffeId → IdKind.t;
  spiffe_trust_domain : SpiffeId → string;
  tenant_id_valid : string → bool;
  workload_role_valid : string → bool;
  dummy_ip_hostname : string → string → string → string → option string;
  Rest : Type;
  Rest_eq_dec :: EqDecision Rest;
  rest_default : Rest;
  (** the [env] and [labels] of a pod, compared and replaced as a whole *)
  PodEnv : Type;
  PodEnv_eq_dec :: EqDecision PodEnv;
  env_default : PodEnv;
  env_is_empty : PodEnv → bool;
  PodLabels : Type;
  PodLabels_eq_dec :: EqDecision PodLabels;
  labels_default : PodLabels;
  labels_is_empty : PodLabels → bool;
  (** the [port] of a service reference, with [validate_optional_port] of the policy
      compiler *)
  ServicePort : Type;
  ServicePort_eq_dec :: EqDecision ServicePort;
  validate_optional_port : ServicePort → option (option Z);
  Membership : Type;
  membership_default : Membership;
  (** the order in which a [HashMap<String, _>] is iterated *)
  hash_iter : ∀ {A : Type}, gmap string A → list (string * A)
}.

(** Documented behaviour: the printed form of an identity parses back to it,
    [SpiffeId::new] keeps its arguments, and a map iterates over each of its pairs
    once. *)
Class CoreSpec (C : Core) : Prop := {
  parse_to_string id : spiffe_parse (spiffe_to_string id) = Some id;
  spiffe_kind_new td t k n : spiffe_kind (spiffe_new td t k n) = k;
  spiffe_trust_domain_new td t k n : spiffe_trust_domain (spiffe_new td t k n) = td;
  spiffe_new_inj td t k n td' t' k' n' :
    spiffe_new td t k n = spiffe_new td' t' k' n' → td = td' ∧ t = t' ∧ k = k' ∧ n = n';
  hash_iter_perm {A} (m : gmap string A) : hash_iter m ≡ₚ map_to_list m
}.

#[export] Instance spiffe_to_string_inj `{C : Core} `{!CoreSpec C} :
  Inj (=) (=) spiffe_to_string.
Proof.
  intros a b H. apply (f_equal spiffe_parse) in H.
  rewrite !parse_to_string in H. by injection H.
Qed.

(** ** Messages *)

Section Messages.
Context `{C : Core}.

(** [Toleration]. *)
Record Toleration : Type := {
  tol_key : string;
  tol_operator : string;
  tol_value : string;
  tol_effect : string;
  tol_toleration_seconds : Z
}.

(** [ResourceRequirements]. *)
Record ResourceRequirements : Type := {
  rr_vcpus : Z;
  rr_memory_mb : Z;
  rr_rest : Rest
}.

(** [Container], of [init_containers]. *)
Record Container : Type := {
  ct_name : string;
  ct_image : string;
  ct_rest : Rest
}.

(** [PodSpec]. *)
Record PodSpec : Type := {
  ps_tenant_id : string;
  ps_workload_id : string;
  ps_role : string;
  ps_image : string;
  ps_ordinal : option Z;
  ps_pod_id : option string;
  ps_resources : option ResourceRequirements;
  ps_tolerations : list Toleration;
  ps_priority : Z;
  ps_runtime : string;
  ps_env : PodEnv;
  ps_labels : PodLabels;
  ps_init_containers : list Container;
  ps_rest : Rest
}.

(** [PodSpec::default()]: proto3 defaults. *)
Definition PodSpec_default : PodSpec := {|
  ps_tenant_id := ""; ps_workload_id := ""; ps_role := ""; ps_image := "";
  ps_ordinal := None; ps_pod_id := None; ps_resources := None;
  ps_tolerations := []; ps_priority := 0; ps_runtime := "";
  ps_env := env_default; ps_labels := labels_default; ps_init_containers := [];
  ps_rest := rest_default
|}.

(** [AutoscalingPolicy] and [VerticalAutoscalingPolicy]. *)
Record AutoscalingPolicy : Type := {
  ap_enabled : bool;
  ap_min_replicas : Z;
  ap_max_replicas : Z;
  ap_target_cpu_millicores : Z;
  ap_target_memory_bytes : Z;
  ap_target_net_rx_bytes_per_sec : Z;
  ap_target_net_tx_bytes_per_sec : Z;
  ap_stabilization_window_seconds : Z;
  ap_rest : Rest
}.

Record VerticalAutoscalingPolicy : Type := {
  vp_enabled : bool;
  vp_mode : Z;
  vp_target_cpu_utilization_percent : Z;
  vp_target_memory_utilization_percent : Z;
  vp_min_vcpus : Z;
  vp_max_vcpus : Z;
  vp_min_memory_bytes : Z;
  vp_max_memory_bytes : Z;
  vp_deadband_percent : Z;
  vp_stabilization_window_seconds : Z;
  vp_rest : Rest
}.

(** [disruption_budget_value::Value], [disruption_budget::Policy] and
    [DisruptionBudget]: every message field is optional. *)
Inductive BudgetValue : Type :=
| Count (c : Z)
| Percent (p : Z).
Inductive BudgetPolicy : Type :=
| MinAvailable (v : option BudgetValue)
| MaxUnavailable (v : option BudgetValue).
Record DisruptionBudget : Type := { db_policy : option BudgetPolicy }.

(** [WorkloadSpec]. *)
Record WorkloadSpec : Type := {
  ws_tenant_id : string;
  ws_workload_id : string;
  ws_image : string;
  ws_replicas : gmap string Z;
  ws_pod_spec : option PodSpec;
  ws_autoscaling : option AutoscalingPolicy;
  ws_vertical_autoscaling : option VerticalAutoscalingPolicy;
  ws_budgets : gmap string DisruptionBudget;
  ws_placement : Z;
  ws_rest : Rest
}.

(** [WorkloadSpec::default()]. *)
Definition WorkloadSpec_default : WorkloadSpec := {|
  ws_tenant_id := ""; ws_workload_id := ""; ws_image := ""; ws_replicas := ∅;
  ws_pod_spec := None; ws_autoscaling := None; ws_vertical_autoscaling := None;
  ws_budgets := ∅; ws_placement := 0; ws_rest := rest_default
|}.

(** [state::SagRule]: a [from] and a [to] service, each optional. *)
Record ServiceRef : Type := {
  sref_tenant : string;
  sref_service_name : string;
  sref_role : string;
  sref_port : ServicePort
}.
Record SagRule : Type := {
  sag_from : option ServiceRef;
  sag_to : option ServiceRef;
  sag_action : Z;
  sag_rest : Rest
}.

(** [SagRule::default()]. *)
Definition SagRule_default : SagRule :=
  {| sag_from := None; sag_to := None; sag_action := 0; sag_rest := rest_default |}.

(** [PodMetrics]: one metric window of a pod. *)
Record PodMetrics : Type := {
  pm_pod_id : string;
  pm_cpu_millicores : Z;
  pm_memory_bytes : Z;
  pm_net_rx_bytes : Z;
  pm_net_tx_bytes : Z;
  pm_window_unix : Z;
  pm_rest : Rest
}.

(** ** Log types of openraft *)
Record LogId : Type := { lid_term : Z; lid_node_id : Z; lid_index : Z }.
Record StoredMembership : Type := {
  sm_log_id : option LogId;
  sm_membership : Membership
}.
(** [StoredMembership::default()]. *)
Definition StoredMembership_default : StoredMembership :=
  {| sm_log_id := None; sm_membership := membership_default |}.

(** [SnapshotMeta]. *)
Record SnapshotMeta : Type := {
  meta_last_log_id : option LogId;
  meta_last_membership : StoredMembership;
  meta_snapshot_id : string
}.
End Messages.

#[export] Instance Toleration_eq_dec : EqDecision Toleration.
Proof. solve_decision. Defined.
#[export] Instance LogId_eq_dec : EqDecision LogId.
Proof. solve_decision. Defined.
#[export] Instance ResourceRequirements_eq_dec `{Core} : EqDecision ResourceRequirements.
Proof. solve_decision. Defined.
#[export] Instance Container_eq_dec `{Core} : EqDecision Container.
Proof. solve_decision. Defined.
#[export] Instance PodSpec_eq_dec `{Core} : EqDecision PodSpec.
Proof. solve_decision. Defined.
#[export] Instance AutoscalingPolicy_eq_dec `{Core} : EqDecision AutoscalingPolicy.
Proof. solve_decision. Defined.
#[export] Instance ServiceRef_eq_dec `{Core} : EqDecision ServiceRef.
Proof. solve_decision. Defined.

(** ** Serialization

    [postcard]: [to_allocvec] may fail, [from_bytes] rejects bytes that do not
    encode a value of the type; what was written reads back. *)
Class Postcard (A : Type) : Type := {
  to_allocvec : A → option bytes;
  from_bytes : bytes → option A;
  from_to_allocvec a b : to_allocvec a = Some b → from_bytes b = Some a
}.

(** [prost::Message]: encoding is total. *)
Class Prost (A : Type) : Type := {
  encode_to_vec : A → bytes;
  decode : bytes → option A;
  decode_encode a : decode (encode_to_vec a) = Some a
}.
