(* ===== verification/Records.v ===== *)
(** * Records: the replicated data model

    The records of [src/raft/records.rs] and of the modules that own one
    ([scheduler], [delegation], [dummy_ip], [attestation], [ca], [secrets],
    [provisioning]), the commands of [src/raft/mod.rs], and the class [Wire]
    that gives each stored type its postcard codec. *)

From S2P Require Import Prelude.
From S2P Require Import Storage.
From S2P Require Import Core.

(** ** [raft/records.rs] *)

Inductive NodeStatus : Set := Active | Cordoned | Evicted.
#[export] Instance NodeStatus_eq_dec : EqDecision NodeStatus.
Proof. solve_decision. Defined.

Record NodeRecord : Type := {
  nr_node_id : string;
  nr_node_kind : Z;
  nr_status : NodeStatus;
  nr_schedulable : bool;
  nr_last_heartbeat : Z;
  nr_registered_at : Z;
  nr_capacity_cpu_millicores : Z;
  nr_capacity_memory_bytes : Z;
  nr_failure_domain : string
}.

Record TenantRecord : Type := {
  tr_tenant_id : string;
  tr_created_at : Z;
  tr_last_applied_bytes : bytes
}.

Record WorkloadSpecRecord : Type := {
  wsr_tenant_id : string;
  wsr_workload_id : string;
  wsr_spec_bytes : bytes;
  wsr_last_applied_bytes : bytes
}.

Record CronWorkloadRecord : Type := {
  cwr_tenant_id : string;
  cwr_cron_workload_id : string;
  cwr_schedule_expression : string;
  cwr_spec_bytes : bytes
}.

Record SagRuleRecord : Type := {
  srr_rule_id : string;
  srr_rule_bytes : bytes;
  srr_last_applied_bytes : bytes
}.

Record SecretRecord : Type := {
  sec_key : string;
  sec_envelope_bytes : bytes;
  sec_acl_bytes : bytes;
  sec_last_applied_bytes : bytes
}.

Record RevokedSvidRecord : Type := {
  rsr_spiffe_id : string;
  rsr_expires_at_unix : Z
}.

Record AuditContext : Type := {
  ac_request_id : string;
  ac_actor : string;
  ac_target : string;
  ac_timestamp_unix : Z
}.

Record AuditRecord : Type := {
  ar_version : Z;
  ar_request_id : string;
  ar_actor : string;
  ar_action : string;
  ar_target : string;
  ar_timestamp_unix : Z
}.

Record CronCheckpointRecord : Type := {
  ccr_tenant_id : string;
  ccr_cron_workload_id : string;
  ccr_last_triggered_at_unix : Z
}.

Record OperatorAccessGrantRecord : Type := {
  oag_grant_id : string;
  oag_operator_id : string;
  oag_granted_by : string;
  oag_granted_at_unix : Z;
  oag_expires_at_unix : Z;
  oag_cluster_admin : bool;
  oag_read_only : bool;
  oag_tenants : list string
}.

Record WorkloadStatusRecord : Type := {
  wst_pod_id : string;
  wst_workload_id : string;
  wst_tenant_id : string;
  wst_ready : bool;
  wst_live : bool;
  wst_started : bool;
  wst_policy_enforced : bool;
  wst_restart_count : Z;
  wst_observed_at_unix : Z;
  wst_router_connected : bool;
  wst_gate_violation_since_unix : Z
}.

Record TenantQuotaRecord : Type := {
  tq_tenant_id : string;
  tq_max_cpu_millicores : Z;
  tq_max_memory_bytes : Z;
  tq_max_workloads : Z
}.

Record ControlNodeAddressRecord : Type := {
  cna_node_id : Z;
  cna_dc_addr : string;
  cna_raft_addr : string
}.

Inductive EkRegistrationState : Set := Pending | Joined | Revoked.
#[export] Instance EkRegistrationState_eq_dec : EqDecision EkRegistrationState.
Proof. solve_decision. Defined.

Record NodeEkRecord : Type := {
  ek_fingerprint : string;
  ek_pub : bytes;
  ek_cert_der : bytes;
  ek_node_id : string;
  ek_registered_at : Z;
  ek_expires_at : option Z;
  ek_state : EkRegistrationState
}.

Record NodeTaint : Type := {
  nt_key : string;
  nt_value : string;
  nt_effect : string;
  nt_time_added_unix : Z
}.
#[export] Instance NodeTaint_eq_dec : EqDecision NodeTaint.
Proof. solve_decision. Defined.

Record VpaRecommendationRecord : Type := {
  vr_tenant_id : string;
  vr_workload_id : string;
  vr_recommended_vcpus : Z;
  vr_recommended_memory_mb : Z;
  vr_current_vcpus : Z;
  vr_current_memory_mb : Z;
  vr_computed_at_unix : Z;
  vr_mode : string
}.

(** ** Records other modules own *)

(** [scheduler::ResourceSpec]. *)
Record ResourceSpec : Type := { cpu_millicores : Z; memory_bytes : Z }.
#[export] Instance ResourceSpec_eq_dec : EqDecision ResourceSpec.
Proof. solve_decision. Defined.

(** [scheduler::ordinal::OrdinalAssignment]. *)
Record OrdinalAssignment : Type := {
  oa_tenant_id : string;
  oa_service : string;
  oa_role : string;
  oa_ordinal : Z;
  oa_current_pod_id : option string;
  oa_current_node_id : option string
}.

(** [dummy_ip::allocator::TenantBlock] and [ServiceAddress]. *)
Record TenantBlock : Type := {
  tb_tenant_id : string;
  tb_base : Z;
  tb_prefix : Z;
  tb_next_offset : Z
}.
Record ServiceAddress : Type := {
  sa_tenant_id : string;
  sa_service : string;
  sa_role : string;
  sa_address : Z
}.

(** [attestation::join_token::NodeKind] and [JoinTokenRecord]. *)
Inductive NodeKind : Set := Agent | Router | Gateway | Control | FleetctlProxy.
#[export] Instance NodeKind_eq_dec : EqDecision NodeKind.
Proof. solve_decision. Defined.

Record JoinTokenRecord : Type := {
  jt_token : bytes;
  jt_node_kind : NodeKind;
  jt_created_at : Z;
  jt_expires_at : option Z;
  jt_consumed : bool
}.

(** [attestation::pcr_policy::PcrPolicy]. *)
Record PcrValue : Type := { pcr_index : Z; pcr_hash_algorithm : Z; pcr_digest : bytes }.
#[export] Instance PcrValue_eq_dec : EqDecision PcrValue.
Proof. solve_decision. Defined.
Record PcrPolicy : Type := {
  pp_node_id : string;
  pp_expected_pcrs : list PcrValue;
  pp_updated_at : Z;
  pp_active : bool
}.

(** [ca::SvidRecord]. *)
Record SvidRecord : Type := {
  svr_spiffe_id : string;
  svr_svid_version : Z;
  svr_issued_at_unix : Z;
  svr_agent_x25519_pubkey : bytes
}.

(** [provisioning::NodePoolRecord]. *)
Record NodePoolRecord : Type := {
  np_pool_id : string;
  np_node_kind : NodeKind;
  np_desired_count : Z;
  np_vcpus : Z;
  np_memory_mb : Z;
  np_disk_gb : Z;
  np_region_hint : string;
  np_last_applied_bytes : bytes
}.

(** [secrets::acl::SecretAcl]: [secret_key] to the authorized SPIFFE ids. *)
Record SecretAcl : Type := { acl_entries : gmap string (gset string) }.

(** [raft::ManifestUpdate]. *)
Record ManifestUpdate : Type := {
  mu_target_keyspace : string;
  mu_target_key : bytes;
  mu_new_record_bytes : bytes
}.

Section CoreRecords.
Context `{C : Core}.

(** [scheduler::Placement]. *)
Record Placement : Type := {
  pl_pod_id : string;
  pl_tenant_id : string;
  pl_service : string;
  pl_role : string;
  pl_ordinal : Z;
  pl_node_id : SpiffeId;
  pl_resources : ResourceSpec
}.

(** [delegation::DelegationRecord]. *)
Record DelegationRecord : Type := {
  dr_delegation_id : string;
  dr_node_id : SpiffeId;
  dr_target_svid_id : SpiffeId;
  dr_target_ordinal : option Z;
  dr_issued_at : Z;
  dr_expires_at : Z;
  dr_refresh_at : Z
}.

(** ** [raft/mod.rs]: the commands *)
Inductive FleetosCommand : Type :=
| CreateTenant (record : TenantRecord) (block : TenantBlock)
| DeleteTenant (tenant_id : string)
| SubmitWorkloadSpec (record : WorkloadSpecRecord)
| DeleteWorkload (tenant_id workload_id : string)
| ScaleWorkload (record : WorkloadSpecRecord)
| ResizeWorkload (record : WorkloadSpecRecord)
| UpsertVpaRecommendation (record : VpaRecommendationRecord)
| SetTenantQuota (record : TenantQuotaRecord)
| SubmitCronWorkload (record : CronWorkloadRecord) (checkpoint : CronCheckpointRecord)
| TriggerCronWorkload (workload_record : WorkloadSpecRecord)
    (checkpoint : CronCheckpointRecord)
| UpsertWorkloadStatus (record : WorkloadStatusRecord)
| MintJoinToken (record : JoinTokenRecord)
| ConsumeJoinToken (token : bytes)
| SetPcrPolicy (record : PcrPolicy)
| RegisterNode (record : NodeRecord)
| EvictNode (node_id : string) (svid_expires_at_unix : Z)
| PruneExpiredRevokedSvids (cutoff_unix : Z)
| SetNodeSchedulable (node_id : string) (schedulable : bool)
| NodeHeartbeat (node_id : string) (last_heartbeat : Z)
| IssueDelegation (record : DelegationRecord)
| RevokeDelegation (node_id delegation_id : string)
| UpsertSagRule (record : SagRuleRecord)
| DeleteSagRule (rule_id : string)
| AllocateTenantBlock (record : TenantBlock)
| AllocateServiceAddress (block : TenantBlock) (address : ServiceAddress)
| StoreSecret (record : SecretRecord) (target_spiffe_id : string)
| GrantSecretAccess (tenant_id key spiffe_id : string)
| RevokeSecretAccess (tenant_id key spiffe_id : string)
| RecordOrdinalAssignment (record : OrdinalAssignment)
| CommitPlacement (record : Placement)
| RemovePlacement (pod_id : string)
| ReassignPodId (tenant_id service role : string) (ordinal : Z) (new_pod_id : string)
| StoreNodePool (record : NodePoolRecord)
| DeleteNodePool (pool_id : string)
| RegisterControlAddress (record : ControlNodeAddressRecord)
| UpsertSvidVersion (record : SvidRecord)
| GrantOperatorAccess (record : OperatorAccessGrantRecord)
| RevokeOperatorAccess (grant_id : string)
| RegisterNodeEk (record : NodeEkRecord)
| ActivateNodeEk (ek_fingerprint node_id : string)
| RevokeNodeEk (ek_fingerprint : string)
| SetNodeTaints (node_id : string) (taints : list NodeTaint)
| RemoveNodeTaint (node_id key effect : string)
| ApplyManifests (updates : list ManifestUpdate).

Record AuditedCommand : Type := { cmd : FleetosCommand; audit : option AuditContext }.

(** [AuditedCommand::system]. *)
Definition system (c : FleetosCommand) : AuditedCommand := {| cmd := c; audit := None |}.

Record FleetosResponse : Type := { version : Z }.

(** openraft's [Entry] at this configuration. *)
Inductive EntryPayload : Type :=
| Blank
| Normal (audited : AuditedCommand)
| MembershipEntry (membership : Membership).
Record Entry : Type := { log_id : LogId; payload : EntryPayload }.
End CoreRecords.

#[export] Instance Placement_eq_dec `{Core} : EqDecision Placement.
Proof. solve_decision. Defined.

(** [watch::scheduler_stream::WorkloadAssignmentRecord] and
    [watch::router_assignment::RouteEntryRecord]. *)
Record WorkloadAssignmentRecord : Type := {
  war_workload_id : string;
  war_runtime : string;
  war_image : string;
  war_role : string;
  war_hostname : string;
  war_pod_spec_bytes : bytes
}.
Record RouteEntryRecord : Type := {
  rer_destination_svid : string;
  rer_destination_role : string;
  rer_target_agent_svid : string;
  rer_dummy_ip : Z;
  rer_source_spiffe_ids : list string
}.

(** [raft::snapshot::ApplicationSnapshot]. *)
Record ApplicationSnapshot : Type := {
  snap_keyspaces : list (string * list (bytes * bytes))
}.

(** ** Codecs

    Every type the program serializes has a codec of its own. *)
Class Wire (C : Core) : Type := {
  wire_tenant :: Postcard TenantRecord;
  wire_block :: Postcard TenantBlock;
  wire_address :: Postcard ServiceAddress;
  wire_workload :: Postcard WorkloadSpecRecord;
  wire_cron :: Postcard CronWorkloadRecord;
  wire_checkpoint :: Postcard CronCheckpointRecord;
  wire_status :: Postcard WorkloadStatusRecord;
  wire_quota :: Postcard TenantQuotaRecord;
  wire_vpa :: Postcard VpaRecommendationRecord;
  wire_control_address :: Postcard ControlNodeAddressRecord;
  wire_svid :: Postcard SvidRecord;
  wire_ek :: Postcard NodeEkRecord;
  wire_taints :: Postcard (list NodeTaint);
  wire_join_token :: Postcard JoinTokenRecord;
  wire_pcr_policy :: Postcard PcrPolicy;
  wire_node :: Postcard NodeRecord;
  wire_revoked_svid :: Postcard RevokedSvidRecord;
  wire_delegation :: Postcard DelegationRecord;
  wire_acl :: Postcard SecretAcl;
  wire_ordinal :: Postcard OrdinalAssignment;
  wire_placement :: Postcard Placement;
  wire_node_pool :: Postcard NodePoolRecord;
  wire_grant :: Postcard OperatorAccessGrantRecord;
  wire_audit :: Postcard AuditRecord;
  wire_log_id :: Postcard LogId;
  wire_membership :: Postcard StoredMembership;
  wire_meta :: Postcard SnapshotMeta;
  wire_app_snapshot :: Postcard ApplicationSnapshot;
  wire_assignments :: Postcard (list WorkloadAssignmentRecord);
  wire_routes :: Postcard (list RouteEntryRecord);
  wire_workload_spec :: Prost WorkloadSpec;
  wire_pod_spec :: Prost PodSpec;
  wire_sag_rule :: Prost SagRule
}.
