(* ===== verification/WireInstance.v ===== *)
(** * WireInstance: a concrete codec for every stored type

    The theorems are proved for every [Core] and [Wire]; this file gives one of
    each, so that they can be evaluated on concrete states. The codec is
    self-delimiting: a value is read back from the front of any input that
    starts with its encoding. *)

From Stdlib Require Import Ascii.
From S2P Require Import Prelude.
From S2P Require Import Storage.
From S2P Require Import Core.
From S2P Require Import Records.

(** ** Self-delimiting codecs *)
Class Codec (A : Type) : Type := {
  codec_put : A → string;
  codec_get : string → option (A * string);
  codec_get_put a rest : codec_get (codec_put a +:+ rest) = Some (a, rest)
}.

Ltac codec_step :=
  rewrite ?string_app_assoc; cbn [mbind option_bind];
  repeat (rewrite codec_get_put; cbn [mbind option_bind fst snd]).


#[export] Instance codec_unit : Codec ().
Proof.
  refine (Build_Codec () (λ _, "") (λ s, Some ((), s)) _). by intros [].
Defined.

#[export] Instance codec_bool : Codec bool.
Proof.
  refine (Build_Codec bool
    (λ b, if b then "t" else "f")
    (λ s, match s with
      | String "t"%char s => Some (true, s)
      | String "f"%char s => Some (false, s)
      | _ => None
      end) _).
  by intros [].
Defined.

Fixpoint put_positive (p : positive) : string :=
  match p with
  | xH => "2"
  | xO p => String "0"%char (put_positive p)
  | xI p => String "1"%char (put_positive p)
  end.
Fixpoint take_positive (s : string) : option (positive * string) :=
  match s with
  | String "2"%char s => Some (xH, s)
  | String "0"%char s => '(p, s) ← take_positive s; Some (xO p, s)
  | String "1"%char s => '(p, s) ← take_positive s; Some (xI p, s)
  | _ => None
  end.
#[export] Instance codec_positive : Codec positive.
Proof.
  refine (Build_Codec positive put_positive take_positive _).
  intros p rest. induction p as [p IH|p IH|]; [| |done].
  - change (put_positive p~1 +:+ rest) with (String "1"%char (put_positive p +:+ rest)).
    cbn. by rewrite IH.
  - change (put_positive p~0 +:+ rest) with (String "0"%char (put_positive p +:+ rest)).
    cbn. by rewrite IH.
Defined.

#[export] Instance codec_Z : Codec Z.
Proof.
  refine (Build_Codec Z
    (λ z, match z with
      | Z0 => "0"
      | Zpos p => String "+"%char (codec_put p)
      | Zneg p => String "-"%char (codec_put p)
      end)
    (λ s, match s with
      | String "0"%char s => Some (0, s)
      | String "+"%char s => '(p, s) ← codec_get s; Some (Zpos p, s)
      | String "-"%char s => '(p, s) ← codec_get s; Some (Zneg p, s)
      | _ => None
      end) _).
  intros [|p|p] rest; [done| |].
  - change (String "+"%char (codec_put p) +:+ rest) with (String "+"%char (codec_put p +:+ rest)).
    by codec_step.
  - change (String "-"%char (codec_put p) +:+ rest) with (String "-"%char (codec_put p +:+ rest)).
    by codec_step.
Defined.

#[export] Instance codec_prod {A B} `{Codec A, Codec B} : Codec (A * B).
Proof.
  refine (Build_Codec (A * B)
    (λ p, codec_put p.1 +:+ codec_put p.2)
    (λ s, '(a, s) ← codec_get s; '(b, s) ← codec_get s; Some ((a, b), s)) _).
  intros [a b] rest. by codec_step.
Defined.

(** Strings, lists and options. *)
Fixpoint put_string (s : string) : string :=
  match s with
  | "" => "e"
  | String c s => String "c"%char (String c (put_string s))
  end.
Fixpoint take_string (s : string) : option (string * string) :=
  match s with
  | String "e"%char s => Some ("", s)
  | String "c"%char (String c s) => '(t, s) ← take_string s; Some (String c t, s)
  | _ => None
  end.
#[export] Instance codec_string : Codec string.
Proof.
  refine (Build_Codec string put_string take_string _).
  intros s rest. induction s as [|c s IH]; [done|].
  change (put_string (String c s) +:+ rest)
    with (String "c"%char (String c (put_string s +:+ rest))).
  cbn. by rewrite IH.
Defined.

Section CodecList.
Context {A : Type} `{!Codec A}.

Fixpoint put_list (l : list A) : string :=
  match l with
  | [] => "e"
  | a :: l => String "c"%char (codec_put a +:+ put_list l)
  end.
Fixpoint take_list (fuel : nat) (s : string) : option (list A * string) :=
  match fuel, s with
  | _, String "e"%char s => Some ([], s)
  | S fuel, String "c"%char s =>
      '(a, s) ← codec_get s; '(l, s) ← take_list fuel s; Some (a :: l, s)
  | _, _ => None
  end.

Lemma take_put_list l rest fuel :
  (String.length (put_list l) ≤ fuel)%nat →
  take_list fuel (put_list l +:+ rest) = Some (l, rest).
Proof.
  revert fuel. induction l as [|a l IH]; intros fuel Hf; [by destruct fuel|].
  cbn [put_list] in *. cbn [String.length] in Hf. rewrite string_length_app in Hf.
  destruct fuel as [|fuel]; [lia|].
  change (String "c"%char (codec_put a +:+ put_list l) +:+ rest)
    with (String "c"%char ((codec_put a +:+ put_list l) +:+ rest)).
  cbn [take_list]. codec_step. rewrite IH by lia. done.
Qed.

Lemma put_list_fuel l rest :
  (String.length (put_list l) ≤ String.length (put_list l +:+ rest))%nat.
Proof. rewrite string_length_app. lia. Qed.

#[export] Instance codec_list : Codec (list A) := {|
  codec_put := put_list;
  codec_get s := take_list (String.length s) s;
  codec_get_put l rest := take_put_list l rest _ (put_list_fuel l rest)
|}.
End CodecList.

(** A type that embeds in another with a codec. *)
Definition codec_iso {A B} `{Codec B} (f : A → B) (g : B → A) (Hgf : ∀ a, g (f a) = a) :
  Codec A.
Proof.
  refine (Build_Codec A (λ a, codec_put (f a)) (λ s, '(b, s) ← codec_get s; Some (g b, s)) _).
  intros a rest. codec_step. by rewrite Hgf.
Defined.

#[export] Instance codec_option {A} `{Codec A} : Codec (option A) :=
  codec_iso (λ o, match o with Some a => [a] | None => [] end) head
    ltac:(by intros []).
#[export] Instance codec_map {A} `{Codec A} : Codec (gmap string A) :=
  codec_iso (B := list (string * A)) map_to_list list_to_map
    (list_to_map_to_list (M := gmap string)).
#[export] Instance codec_gset : Codec (gset string) :=
  codec_iso (B := list string) elements list_to_set
    (λ X, leibniz_equiv _ _ (list_to_set_elements X)).

(** Every self-delimiting codec is a postcard and a prost codec. *)
Definition postcard_of {A} (c : Codec A) : Postcard A.
Proof.
  refine (Build_Postcard A (λ a, Some (codec_put a)) (λ b, fst <$> codec_get b) _).
  intros a b H. injection H as <-.
  pose proof (codec_get_put a "") as E. rewrite string_app_nil_r in E. by rewrite E.
Defined.
Definition prost_of {A} (c : Codec A) : Prost A.
Proof.
  refine (Build_Prost A codec_put (λ b, fst <$> codec_get b) _).
  intros a. pose proof (codec_get_put a "") as E. rewrite string_app_nil_r in E. by rewrite E.
Defined.

(** Enumerations, by a number. *)
#[export] Instance codec_NodeStatus : Codec NodeStatus :=
  codec_iso (λ s, match s with Active => 0 | Cordoned => 1 | Evicted => 2 end)
    (λ z, match z with 0 => Active | 1 => Cordoned | _ => Evicted end) ltac:(by intros []).
#[export] Instance codec_EkRegistrationState : Codec EkRegistrationState :=
  codec_iso (λ s, match s with Pending => 0 | Joined => 1 | Revoked => 2 end)
    (λ z, match z with 0 => Pending | 1 => Joined | _ => Revoked end) ltac:(by intros []).
#[export] Instance codec_NodeKind : Codec NodeKind :=
  codec_iso
    (λ s, match s with Agent => 0 | Router => 1 | Gateway => 2 | Control => 3
          | FleetctlProxy => 4 end)
    (λ z, match z with 0 => Agent | 1 => Router | 2 => Gateway | 3 => Control
          | _ => FleetctlProxy end) ltac:(by intros []).

(** ** Records *)
#[export] Instance codec_TenantRecord : Codec TenantRecord :=
  codec_iso (λ r : TenantRecord, (tr_tenant_id r, (tr_created_at r, tr_last_applied_bytes r)))
    (λ '(x1, (x2, x3)), Build_TenantRecord x1 x2 x3) ltac:(by intros []).

#[export] Instance codec_TenantBlock : Codec TenantBlock :=
  codec_iso (λ r : TenantBlock, (tb_tenant_id r, (tb_base r, (tb_prefix r, tb_next_offset r))))
    (λ '(x1, (x2, (x3, x4))), Build_TenantBlock x1 x2 x3 x4) ltac:(by intros []).

#[export] Instance codec_ServiceAddress : Codec ServiceAddress :=
  codec_iso (λ r : ServiceAddress, (sa_tenant_id r, (sa_service r, (sa_role r, sa_address r))))
    (λ '(x1, (x2, (x3, x4))), Build_ServiceAddress x1 x2 x3 x4) ltac:(by intros []).

#[export] Instance codec_WorkloadSpecRecord : Codec WorkloadSpecRecord :=
  codec_iso (λ r : WorkloadSpecRecord, (wsr_tenant_id r, (wsr_workload_id r, (wsr_spec_bytes
      r, wsr_last_applied_bytes r))))
    (λ '(x1, (x2, (x3, x4))), Build_WorkloadSpecRecord x1 x2 x3 x4) ltac:(by intros []).

#[export] Instance codec_CronWorkloadRecord : Codec CronWorkloadRecord :=
  codec_iso (λ r : CronWorkloadRecord, (cwr_tenant_id r, (cwr_cron_workload_id r,
      (cwr_schedule_expression r, cwr_spec_bytes r))))
    (λ '(x1, (x2, (x3, x4))), Build_CronWorkloadRecord x1 x2 x3 x4) ltac:(by intros []).

#[export] Instance codec_CronCheckpointRecord : Codec CronCheckpointRecord :=
  codec_iso (λ r : CronCheckpointRecord, (ccr_tenant_id r, (ccr_cron_workload_id r,
      ccr_last_triggered_at_unix r)))
    (λ '(x1, (x2, x3)), Build_CronCheckpointRecord x1 x2 x3) ltac:(by intros []).

#[export] Instance codec_WorkloadStatusRecord : Codec WorkloadStatusRecord :=
  codec_iso (λ r : WorkloadStatusRecord, (wst_pod_id r, (wst_workload_id r, (wst_tenant_id r,
      (wst_ready r, (wst_live r, (wst_started r, (wst_policy_enforced r, (wst_restart_count
      r, (wst_observed_at_unix r, (wst_router_connected r, wst_gate_violation_since_unix
      r)))))))))))
    (λ '(x1, (x2, (x3, (x4, (x5, (x6, (x7, (x8, (x9, (x10, x11)))))))))),
      Build_WorkloadStatusRecord x1 x2 x3 x4 x5 x6 x7 x8 x9 x10 x11) ltac:(by intros []).

#[export] Instance codec_TenantQuotaRecord : Codec TenantQuotaRecord :=
  codec_iso (λ r : TenantQuotaRecord, (tq_tenant_id r, (tq_max_cpu_millicores r,
      (tq_max_memory_bytes r, tq_max_workloads r))))
    (λ '(x1, (x2, (x3, x4))), Build_TenantQuotaRecord x1 x2 x3 x4) ltac:(by intros []).

#[export] Instance codec_VpaRecommendationRecord : Codec VpaRecommendationRecord :=
  codec_iso (λ r : VpaRecommendationRecord, (vr_tenant_id r, (vr_workload_id r,
      (vr_recommended_vcpus r, (vr_recommended_memory_mb r, (vr_current_vcpus r,
      (vr_current_memory_mb r, (vr_computed_at_unix r, vr_mode r))))))))
    (λ '(x1, (x2, (x3, (x4, (x5, (x6, (x7, x8))))))), Build_VpaRecommendationRecord x1 x2 x3
      x4 x5 x6 x7 x8) ltac:(by intros []).

#[export] Instance codec_ControlNodeAddressRecord : Codec ControlNodeAddressRecord :=
  codec_iso (λ r : ControlNodeAddressRecord, (cna_node_id r, (cna_dc_addr r, cna_raft_addr r)))
    (λ '(x1, (x2, x3)), Build_ControlNodeAddressRecord x1 x2 x3) ltac:(by intros []).

#[export] Instance codec_SvidRecord : Codec SvidRecord :=
  codec_iso (λ r : SvidRecord, (svr_spiffe_id r, (svr_svid_version r, (svr_issued_at_unix r,
      svr_agent_x25519_pubkey r))))
    (λ '(x1, (x2, (x3, x4))), Build_SvidRecord x1 x2 x3 x4) ltac:(by intros []).

#[export] Instance codec_NodeEkRecord : Codec NodeEkRecord :=
  codec_iso (λ r : NodeEkRecord, (ek_fingerprint r, (ek_pub r, (ek_cert_der r, (ek_node_id r,
      (ek_registered_at r, (ek_expires_at r, ek_state r)))))))
    (λ '(x1, (x2, (x3, (x4, (x5, (x6, x7)))))), Build_NodeEkRecord x1 x2 x3 x4 x5 x6 x7)
      ltac:(by intros []).

#[export] Instance codec_NodeTaint : Codec NodeTaint :=
  codec_iso (λ r : NodeTaint, (nt_key r, (nt_value r, (nt_effect r, nt_time_added_unix r))))
    (λ '(x1, (x2, (x3, x4))), Build_NodeTaint x1 x2 x3 x4) ltac:(by intros []).

#[export] Instance codec_JoinTokenRecord : Codec JoinTokenRecord :=
  codec_iso (λ r : JoinTokenRecord, (jt_token r, (jt_node_kind r, (jt_created_at r,
      (jt_expires_at r, jt_consumed r)))))
    (λ '(x1, (x2, (x3, (x4, x5)))), Build_JoinTokenRecord x1 x2 x3 x4 x5) ltac:(by intros []).

#[export] Instance codec_PcrValue : Codec PcrValue :=
  codec_iso (λ r : PcrValue, (pcr_index r, (pcr_hash_algorithm r, pcr_digest r)))
    (λ '(x1, (x2, x3)), Build_PcrValue x1 x2 x3) ltac:(by intros []).

#[export] Instance codec_PcrPolicy : Codec PcrPolicy :=
  codec_iso (λ r : PcrPolicy, (pp_node_id r, (pp_expected_pcrs r, (pp_updated_at r, pp_active
      r))))
    (λ '(x1, (x2, (x3, x4))), Build_PcrPolicy x1 x2 x3 x4) ltac:(by intros []).

#[export] Instance codec_NodeRecord : Codec NodeRecord :=
  codec_iso (λ r : NodeRecord, (nr_node_id r, (nr_node_kind r, (nr_status r, (nr_schedulable
      r, (nr_last_heartbeat r, (nr_registered_at r, (nr_capacity_cpu_millicores r,
      (nr_capacity_memory_bytes r, nr_failure_domain r)))))))))
    (λ '(x1, (x2, (x3, (x4, (x5, (x6, (x7, (x8, x9)))))))), Build_NodeRecord x1 x2 x3 x4 x5
      x6 x7 x8 x9) ltac:(by intros []).

#[export] Instance codec_RevokedSvidRecord : Codec RevokedSvidRecord :=
  codec_iso (λ r : RevokedSvidRecord, (rsr_spiffe_id r, rsr_expires_at_unix r))
    (λ '(x1, x2), Build_RevokedSvidRecord x1 x2) ltac:(by intros []).

#[export] Instance codec_SecretAcl : Codec SecretAcl :=
  codec_iso (λ r : SecretAcl, acl_entries r)
    (λ x1, Build_SecretAcl x1) ltac:(by intros []).

#[export] Instance codec_OrdinalAssignment : Codec OrdinalAssignment :=
  codec_iso (λ r : OrdinalAssignment, (oa_tenant_id r, (oa_service r, (oa_role r, (oa_ordinal
      r, (oa_current_pod_id r, oa_current_node_id r))))))
    (λ '(x1, (x2, (x3, (x4, (x5, x6))))), Build_OrdinalAssignment x1 x2 x3 x4 x5 x6) ltac:(by
      intros []).

#[export] Instance codec_NodePoolRecord : Codec NodePoolRecord :=
  codec_iso (λ r : NodePoolRecord, (np_pool_id r, (np_node_kind r, (np_desired_count r,
      (np_vcpus r, (np_memory_mb r, (np_disk_gb r, (np_region_hint r, np_last_applied_bytes
      r))))))))
    (λ '(x1, (x2, (x3, (x4, (x5, (x6, (x7, x8))))))), Build_NodePoolRecord x1 x2 x3 x4 x5 x6
      x7 x8) ltac:(by intros []).

#[export] Instance codec_OperatorAccessGrantRecord : Codec OperatorAccessGrantRecord :=
  codec_iso (λ r : OperatorAccessGrantRecord, (oag_grant_id r, (oag_operator_id r,
      (oag_granted_by r, (oag_granted_at_unix r, (oag_expires_at_unix r, (oag_cluster_admin
      r, (oag_read_only r, oag_tenants r))))))))
    (λ '(x1, (x2, (x3, (x4, (x5, (x6, (x7, x8))))))), Build_OperatorAccessGrantRecord x1 x2
      x3 x4 x5 x6 x7 x8) ltac:(by intros []).

#[export] Instance codec_AuditRecord : Codec AuditRecord :=
  codec_iso (λ r : AuditRecord, (ar_version r, (ar_request_id r, (ar_actor r, (ar_action r,
      (ar_target r, ar_timestamp_unix r))))))
    (λ '(x1, (x2, (x3, (x4, (x5, x6))))), Build_AuditRecord x1 x2 x3 x4 x5 x6) ltac:(by
      intros []).

#[export] Instance codec_LogId : Codec LogId :=
  codec_iso (λ r : LogId, (lid_term r, (lid_node_id r, lid_index r)))
    (λ '(x1, (x2, x3)), Build_LogId x1 x2 x3) ltac:(by intros []).

#[export] Instance codec_ApplicationSnapshot : Codec ApplicationSnapshot :=
  codec_iso (λ r : ApplicationSnapshot, snap_keyspaces r)
    (λ x1, Build_ApplicationSnapshot x1) ltac:(by intros []).

#[export] Instance codec_WorkloadAssignmentRecord : Codec WorkloadAssignmentRecord :=
  codec_iso (λ r : WorkloadAssignmentRecord, (war_workload_id r, (war_runtime r, (war_image
      r, (war_role r, (war_hostname r, war_pod_spec_bytes r))))))
    (λ '(x1, (x2, (x3, (x4, (x5, x6))))), Build_WorkloadAssignmentRecord x1 x2 x3 x4 x5 x6)
      ltac:(by intros []).

#[export] Instance codec_RouteEntryRecord : Codec RouteEntryRecord :=
  codec_iso (λ r : RouteEntryRecord, (rer_destination_svid r, (rer_destination_role r,
      (rer_target_agent_svid r, (rer_dummy_ip r, rer_source_spiffe_ids r)))))
    (λ '(x1, (x2, (x3, (x4, x5)))), Build_RouteEntryRecord x1 x2 x3 x4 x5) ltac:(by intros []).

#[export] Instance codec_ResourceSpec : Codec ResourceSpec :=
  codec_iso (λ r : ResourceSpec, (cpu_millicores r, memory_bytes r))
    (λ '(x1, x2), Build_ResourceSpec x1 x2) ltac:(by intros []).

#[export] Instance codec_Toleration : Codec Toleration :=
  codec_iso (λ r : Toleration, (tol_key r, (tol_operator r, (tol_value r, (tol_effect r,
      tol_toleration_seconds r)))))
    (λ '(x1, (x2, (x3, (x4, x5)))), Build_Toleration x1 x2 x3 x4 x5) ltac:(by intros []).

#[export] Instance codec_BudgetValue : Codec BudgetValue :=
  codec_iso (λ v, match v with Count c => (true, c) | Percent p => (false, p) end)
    (λ '(b, x), if b : bool then Count x else Percent x) ltac:(by intros []).
#[export] Instance codec_BudgetPolicy : Codec BudgetPolicy :=
  codec_iso (λ v, match v with MinAvailable c => (true, c) | MaxUnavailable p => (false, p) end)
    (λ '(b, x), if b : bool then MinAvailable x else MaxUnavailable x) ltac:(by intros []).
#[export] Instance codec_DisruptionBudget : Codec DisruptionBudget :=
  codec_iso db_policy Build_DisruptionBudget ltac:(by intros []).

(** ** A core: an identity is what follows [spiffe://] *)
Definition demo_parse (s : string) : option string :=
  if starts_with "spiffe://" s then Some (String.substring 9 (String.length s - 9) s)
  else None.
Definition demo_to_string (id : string) : string := "spiffe://" +:+ id.

(** [SpiffeId::new] as an encoding of its arguments that can be read back. *)
#[export] Instance codec_IdKind : Codec IdKind.t :=
  codec_iso (λ k, match k with IdKind.Ctrl => 0 | IdKind.Operator => 1 | IdKind.Control => 2
      | IdKind.Node => 3 | IdKind.Router => 4 | IdKind.Gateway => 5 | IdKind.Sa => 6 end)
    (λ z, match z with 0 => IdKind.Ctrl | 1 => IdKind.Operator | 2 => IdKind.Control
      | 3 => IdKind.Node | 4 => IdKind.Router | 5 => IdKind.Gateway | _ => IdKind.Sa end) ltac:(by intros []).
Definition demo_new (td t : string) (k : IdKind.t) (n : string) : string :=
  codec_put ((td, t), (k, n)).
Definition demo_parts (id : string) : option ((string * string) * (IdKind.t * string)) :=
  fst <$> codec_get id.
Lemma demo_parts_new td t k n : demo_parts (demo_new td t k n) = Some ((td, t), (k, n)).
Proof.
  unfold demo_parts, demo_new.
  assert (codec_put ((td, t), (k, n)) = codec_put ((td, t), (k, n)) +:+ "") as -> by (by rewrite string_app_nil_r).
  by rewrite codec_get_put.
Qed.

#[local] Instance demo_core : Core := {|
  SpiffeId := string;
  SpiffeId_eq_dec := _;
  spiffe_parse := demo_parse;
  spiffe_to_string := demo_to_string;
  spiffe_new := demo_new;
  spiffe_kind id := default IdKind.Node ((λ p, p.2.1) <$> demo_parts id);
  spiffe_trust_domain id := default "" ((λ p, p.1.1) <$> demo_parts id);
  tenant_id_valid s := bool_decide (s ≠ "");
  workload_role_valid s := bool_decide (s ≠ "");
  dummy_ip_hostname service role tenant domain :=
    Some (service +:+ "." +:+ role +:+ "." +:+ tenant +:+ "." +:+ domain);
  Rest := ();
  Rest_eq_dec := _;
  rest_default := ();
  PodEnv := list (string * string);
  PodEnv_eq_dec := _;
  env_default := [];
  env_is_empty e := bool_decide (e = []);
  PodLabels := list (string * string);
  PodLabels_eq_dec := _;
  labels_default := [];
  labels_is_empty l := bool_decide (l = []);
  ServicePort := option Z;
  ServicePort_eq_dec := _;
  validate_optional_port p :=
    match p with Some n => if (0 <=? n) && (n <=? 65535) then Some (Some n) else None | None => Some None end;
  Membership := list Z;
  membership_default := [];
  hash_iter A m := map_to_list m
|}.

Lemma substring_all s : String.substring 0 (String.length s) s = s.
Proof. induction s as [|c s IH]; [done|]. cbn. by rewrite IH. Qed.

#[local] Instance demo_core_spec : CoreSpec demo_core.
Proof.
  split; [| | |intros td t k n td' t' k' n' H%(f_equal demo_parts)|done].
  2-3: intros td t k n; cbn [spiffe_new spiffe_kind spiffe_trust_domain demo_core];
    by rewrite demo_parts_new.
  2: cbn [spiffe_new demo_core] in H; rewrite !demo_parts_new in H; by simplify_eq.
  intros id. cbn. unfold demo_parse, demo_to_string.
  rewrite starts_with_app, string_length_app. f_equal. cbn.
  rewrite Nat.sub_0_r. apply substring_all.
Qed.

#[export] Instance codec_SpiffeId : Codec (@SpiffeId demo_core) := codec_string.
#[export] Instance codec_Rest : Codec (@Rest demo_core) := codec_unit.
#[export] Instance codec_PodEnv : Codec (@PodEnv demo_core) := codec_list.
#[export] Instance codec_PodLabels : Codec (@PodLabels demo_core) := codec_list.
#[export] Instance codec_Membership : Codec (@Membership demo_core) := codec_list.
#[export] Instance codec_ServicePort : Codec (@ServicePort demo_core) := codec_option.

#[export] Instance codec_Placement : Codec Placement :=
  codec_iso (λ r : Placement, (pl_pod_id r, (pl_tenant_id r, (pl_service r, (pl_role r,
      (pl_ordinal r, (pl_node_id r, pl_resources r)))))))
    (λ '(x1, (x2, (x3, (x4, (x5, (x6, x7)))))), Build_Placement x1 x2 x3 x4 x5 x6 x7)
      ltac:(by intros []).

#[export] Instance codec_DelegationRecord : Codec DelegationRecord :=
  codec_iso (λ r : DelegationRecord, (dr_delegation_id r, (dr_node_id r, (dr_target_svid_id
      r, (dr_target_ordinal r, (dr_issued_at r, (dr_expires_at r, dr_refresh_at r)))))))
    (λ '(x1, (x2, (x3, (x4, (x5, (x6, x7)))))), Build_DelegationRecord x1 x2 x3 x4 x5 x6
      x7) ltac:(by intros []).

#[export] Instance codec_StoredMembership : Codec StoredMembership :=
  codec_iso (λ r : StoredMembership, (sm_log_id r, sm_membership r))
    (λ '(x1, x2), Build_StoredMembership x1 x2) ltac:(by intros []).

#[export] Instance codec_SnapshotMeta : Codec SnapshotMeta :=
  codec_iso (λ r : SnapshotMeta, (meta_last_log_id r, (meta_last_membership r,
      meta_snapshot_id r)))
    (λ '(x1, (x2, x3)), Build_SnapshotMeta x1 x2 x3) ltac:(by intros []).

#[export] Instance codec_ResourceRequirements : Codec ResourceRequirements :=
  codec_iso (λ r : ResourceRequirements, (rr_vcpus r, (rr_memory_mb r, rr_rest r)))
    (λ '(x1, (x2, x3)), Build_ResourceRequirements x1 x2 x3) ltac:(by intros []).

#[export] Instance codec_Container : Codec Container :=
  codec_iso (λ r : Container, (ct_name r, (ct_image r, ct_rest r)))
    (λ '(x1, (x2, x3)), Build_Container x1 x2 x3) ltac:(by intros []).

#[export] Instance codec_ServiceRef : Codec ServiceRef :=
  codec_iso (λ r : ServiceRef, (sref_tenant r, (sref_service_name r, (sref_role r, sref_port r))))
    (λ '(x1, (x2, (x3, x4))), Build_ServiceRef x1 x2 x3 x4) ltac:(by intros []).

#[export] Instance codec_PodSpec : Codec PodSpec :=
  codec_iso (λ r : PodSpec, (ps_tenant_id r, (ps_workload_id r, (ps_role r, (ps_image r,
      (ps_ordinal r, (ps_pod_id r, (ps_resources r, (ps_tolerations r, (ps_priority r,
      (ps_runtime r, (ps_env r, (ps_labels r, (ps_init_containers r,
      ps_rest r))))))))))))))
    (λ '(x1, (x2, (x3, (x4, (x5, (x6, (x7, (x8, (x9, (x10, (x11, (x12, (x13, x14))))))))))))),
      Build_PodSpec x1 x2 x3 x4 x5 x6 x7 x8 x9 x10 x11 x12 x13 x14) ltac:(by intros []).

#[export] Instance codec_AutoscalingPolicy : Codec AutoscalingPolicy :=
  codec_iso (λ r : AutoscalingPolicy, (ap_enabled r, (ap_min_replicas r, (ap_max_replicas r,
      (ap_target_cpu_millicores r, (ap_target_memory_bytes r, (ap_target_net_rx_bytes_per_sec
      r, (ap_target_net_tx_bytes_per_sec r, (ap_stabilization_window_seconds r, ap_rest
      r)))))))))
    (λ '(x1, (x2, (x3, (x4, (x5, (x6, (x7, (x8, x9)))))))), Build_AutoscalingPolicy x1 x2
      x3 x4 x5 x6 x7 x8 x9) ltac:(by intros []).

#[export] Instance codec_VerticalAutoscalingPolicy : Codec VerticalAutoscalingPolicy :=
  codec_iso (λ r : VerticalAutoscalingPolicy, (vp_enabled r, (vp_mode r,
      (vp_target_cpu_utilization_percent r, (vp_target_memory_utilization_percent r,
      (vp_min_vcpus r, (vp_max_vcpus r, (vp_min_memory_bytes r, (vp_max_memory_bytes r,
      (vp_deadband_percent r, (vp_stabilization_window_seconds r, vp_rest r)))))))))))
    (λ '(x1, (x2, (x3, (x4, (x5, (x6, (x7, (x8, (x9, (x10, x11)))))))))),
      Build_VerticalAutoscalingPolicy x1 x2 x3 x4 x5 x6 x7 x8 x9 x10 x11) ltac:(by intros
      []).

#[export] Instance codec_WorkloadSpec : Codec WorkloadSpec :=
  codec_iso (λ r : WorkloadSpec, (ws_tenant_id r, (ws_workload_id r, (ws_image r,
      (ws_replicas r, (ws_pod_spec r, (ws_autoscaling r, (ws_vertical_autoscaling r,
      (ws_budgets r, (ws_placement r, ws_rest r))))))))))
    (λ '(x1, (x2, (x3, (x4, (x5, (x6, (x7, (x8, (x9, x10))))))))), Build_WorkloadSpec x1 x2 x3
      x4 x5 x6 x7 x8 x9 x10) ltac:(by intros []).

#[export] Instance codec_SagRule : Codec SagRule :=
  codec_iso (λ r : SagRule, (sag_from r, (sag_to r, (sag_action r, sag_rest r))))
    (λ '(x1, (x2, (x3, x4))), Build_SagRule x1 x2 x3 x4) ltac:(by intros []).


#[local] Instance demo_wire : Wire demo_core := {|
  wire_tenant := postcard_of _;
  wire_block := postcard_of _;
  wire_address := postcard_of _;
  wire_workload := postcard_of _;
  wire_cron := postcard_of _;
  wire_checkpoint := postcard_of _;
  wire_status := postcard_of _;
  wire_quota := postcard_of _;
  wire_vpa := postcard_of _;
  wire_control_address := postcard_of _;
  wire_svid := postcard_of _;
  wire_ek := postcard_of _;
  wire_taints := postcard_of _;
  wire_join_token := postcard_of _;
  wire_pcr_policy := postcard_of _;
  wire_node := postcard_of _;
  wire_revoked_svid := postcard_of _;
  wire_delegation := postcard_of _;
  wire_acl := postcard_of _;
  wire_ordinal := postcard_of _;
  wire_placement := postcard_of _;
  wire_node_pool := postcard_of _;
  wire_grant := postcard_of _;
  wire_audit := postcard_of _;
  wire_log_id := postcard_of _;
  wire_membership := postcard_of _;
  wire_meta := postcard_of _;
  wire_app_snapshot := postcard_of _;
  wire_assignments := postcard_of _;
  wire_routes := postcard_of _;
  wire_workload_spec := prost_of _;
  wire_pod_spec := prost_of _;
  wire_sag_rule := prost_of _
|}.
