(* ===== verification/Schema.v ===== *)
(** * Schema: composite keys of the delegation keyspaces

    Models [src/storage/schema.rs]. A delegation is stored under the length of
    its node's id (two little-endian bytes), the id, and the delegation id, so
    that a prefix scan by node returns that node's delegations. *)

From S2P Require Import Prelude.
From S2P Require Import Storage.
From S2P Require Import Core.
From S2P Require Import Records.

Definition SPIFFE_ID_LEN_SIZE : Z := 2.

(** [s.len() as u16]. *)
Definition len_u16 (s : string) : Z := Z.of_nat (String.length s) mod 2 ^ 16.

Section Schema.
Context `{C : Core}.

Definition composite_delegation_key (node_id : SpiffeId) (delegation_id : string) : bytes :=
  let node_bytes := spiffe_to_string node_id in
  let node_len := len_u16 node_bytes in
  to_le_bytes 2 node_len +:+ node_bytes +:+ delegation_id.

Definition node_delegation_prefix (node_id : SpiffeId) : bytes :=
  let node_bytes := spiffe_to_string node_id in
  let node_len := len_u16 node_bytes in
  to_le_bytes 2 node_len +:+ node_bytes.
End Schema.

(** [node_prefix_len]: [None] on a key too short to hold the length. *)
Definition node_prefix_len (key : bytes) : option Z :=
  match key with
  | String c0 (String c1 _) =>
      let node_len := from_le_bytes (String c0 (String c1 "")) in
      Some (SPIFFE_ID_LEN_SIZE + node_len)
  | _ => None
  end.

(** An identity whose printed form fits the two-byte length (the SPIFFE standard
    limits it to 2048 bytes). *)
Definition short_id `{Core} (id : SpiffeId) : Prop :=
  Z.of_nat (String.length (spiffe_to_string id)) < 2 ^ 16.

Lemma len_u16_short s : Z.of_nat (String.length s) < 2 ^ 16 →
  len_u16 s = Z.of_nat (String.length s).
Proof. intros H. apply Z.mod_small. lia. Qed.

Lemma to_le_bytes_inj_u16 a b :
  0 ≤ a < 2 ^ 16 → 0 ≤ b < 2 ^ 16 → to_le_bytes 2 a = to_le_bytes 2 b → a = b.
Proof.
  intros Ha Hb H%(f_equal from_le_bytes). rewrite !from_to_le_bytes in H.
  change (256 ^ Z.of_nat 2) with (2 ^ 16) in H. by rewrite !Z.mod_small in H.
Qed.

Section SchemaFacts.
Context `{C : Core} `{!CoreSpec C}.

(** A key of the node starts with the node's prefix, whatever its length. *)
Lemma composite_key_prefix id d :
  composite_delegation_key id d = node_delegation_prefix id +:+ d.
Proof. unfold composite_delegation_key, node_delegation_prefix. by rewrite string_app_assoc. Qed.

(** The length header and the id are recovered from the front of a key. *)
Lemma prefix_inj a b s t : short_id a → short_id b →
  node_delegation_prefix a +:+ s = node_delegation_prefix b +:+ t → a = b ∧ s = t.
Proof.
  intros Ha Hb H. unfold node_delegation_prefix in H. rewrite !string_app_assoc in H.
  apply string_app_inj_l in H as [Hlen H]; [|by rewrite !to_le_bytes_length].
  unfold short_id in Ha, Hb. rewrite !len_u16_short in Hlen by done.
  apply to_le_bytes_inj_u16 in Hlen; [|lia..].
  apply string_app_inj_l in H as [Hid ->]; [|lia]. by apply (inj spiffe_to_string) in Hid.
Qed.

Lemma composite_key_inj a b d e : short_id a → short_id b →
  composite_delegation_key a d = composite_delegation_key b e → a = b ∧ d = e.
Proof. rewrite !composite_key_prefix. apply prefix_inj. Qed.

(** The scan by node is exact: the prefix of [a] matches a key of [b] exactly
    when they are the same node. *)
Lemma prefix_matches_iff a b d : short_id a → short_id b →
  starts_with (node_delegation_prefix a) (composite_delegation_key b d) = true ↔ a = b.
Proof.
  intros Ha Hb. rewrite composite_key_prefix, starts_with_iff. split.
  - intros [s H]. by apply prefix_inj in H as [-> _].
  - intros ->. by exists d.
Qed.

(** [node_prefix_len] finds where the delegation id starts. *)
Lemma node_prefix_len_composite id d : short_id id →
  node_prefix_len (composite_delegation_key id d) =
  Some (Z.of_nat (String.length (node_delegation_prefix id))).
Proof.
  intros Hid. rewrite composite_key_prefix. unfold node_delegation_prefix.
  rewrite string_length_app, to_le_bytes_length, string_app_assoc.
  rewrite len_u16_short by done. set (n := Z.of_nat _).
  change (to_le_bytes 2 n +:+ spiffe_to_string id +:+ d)
    with (String (byte_of_Z n) (String (byte_of_Z (n / 256)) (spiffe_to_string id +:+ d))).
  cbn [node_prefix_len].
  change (String (byte_of_Z n) (String (byte_of_Z (n / 256)) "")) with (to_le_bytes 2 n).
  rewrite from_to_le_bytes, Z.mod_small by (unfold short_id in Hid; lia).
  unfold SPIFFE_ID_LEN_SIZE. f_equal. lia.
Qed.
End SchemaFacts.
