(* ===== verification/Expansion.v ===== *)
(** * Expansion: deterministic PodSpec expansion

    Models [src/scheduler/expansion.rs]: the one helper by which the state
    machine's schedule snapshots and the workload controller rebuild the
    [PodSpec] of a pod from the stored [WorkloadSpec]. *)

From S2P Require Import Prelude.
From S2P Require Import Core.

Section Expansion.
Context `{C : Core}.

(** [expand_pod_spec]: the template with the six trusted fields overwritten. *)
Definition expand_pod_spec (workload_spec : WorkloadSpec)
    (pod_id tenant_id workload_id role : string) (ordinal : Z) : PodSpec :=
  let pod_spec := default PodSpec_default (ws_pod_spec workload_spec) in
  {| ps_tenant_id := tenant_id;
     ps_workload_id := workload_id;
     ps_role := role;
     ps_image := ws_image workload_spec;
     ps_ordinal := Some ordinal;
     ps_pod_id := Some pod_id;
     ps_resources := ps_resources pod_spec;
     ps_tolerations := ps_tolerations pod_spec;
     ps_priority := ps_priority pod_spec;
     ps_runtime := ps_runtime pod_spec;
     ps_env := ps_env pod_spec; ps_labels := ps_labels pod_spec;
     ps_init_containers := ps_init_containers pod_spec;
     ps_rest := ps_rest pod_spec |}.

(** Two templates that differ only in the six trusted fields: what a tenant could
    forge in a submitted spec. *)
Definition same_untrusted (a b : PodSpec) : Prop :=
  ps_resources a = ps_resources b ∧ ps_tolerations a = ps_tolerations b ∧
  ps_priority a = ps_priority b ∧ ps_runtime a = ps_runtime b ∧ ps_env a = ps_env b ∧
  ps_labels a = ps_labels b ∧ ps_init_containers a = ps_init_containers b ∧ ps_rest a = ps_rest b.

Lemma expand_pod_spec_untrusted ws pod t w r o :
  same_untrusted (expand_pod_spec ws pod t w r o)
    (default PodSpec_default (ws_pod_spec ws)).
Proof. by repeat split. Qed.
End Expansion.
