(* ===== verification/Watch.v ===== *)
(** * Watch: the snapshot builders and the broadcast hub

    Models [src/watch/snapshot.rs] (the builders both the state machine's publish
    path and the watch services' first frame call), the events of
    [src/watch/broadcast.rs], and the decoder of the SAG stream
    ([src/watch/policy_service.rs]). *)

From S2P Require Import Prelude.
From S2P Require Import Storage.
From S2P Require Import Core.
From S2P Require Import Records.
From S2P Require Import Expansion.

(** ** Events *)

Record SagSnapshot : Type := {
  rules_bytes : bytes;
  revoked_delegation_ids : list bytes;
  revoked_spiffe_ids : list string
}.

Inductive WatchEvent : Type :=
| SecretRotationNotification (spiffe_id : string) (version : Z)
| SvidRotation (spiffe_id : string) (version : Z).

Record SagUpdateEvent : Type := {
  sue_version : Z;
  sue_rules_bytes : bytes;
  sue_revoked_delegation_ids : list bytes;
  sue_revoked_spiffe_ids : list string
}.
Record ScheduleUpdateEvent : Type := { sche_version : Z; sche_assignments_bytes : bytes }.
Record RouteUpdateEvent : Type := { rue_version : Z; rue_routes_bytes : bytes }.

(** A message on one of the [BroadcastHub]'s channels. *)
Inductive HubEvent : Type :=
| publish_watch_event (event : WatchEvent)
| publish_sag_update (update : SagUpdateEvent)
| publish_schedule_update (update : ScheduleUpdateEvent)
| publish_route_update (update : RouteUpdateEvent).

(** ** Builders *)

(** The guards of a scan that open: [let Ok(value) = guard.value() else { continue }]. *)
Definition values `{F : Fjall} (db : Db) (ks : Keyspace) (p : bytes) : list bytes :=
  omap (λ g, match g with Ok (_, v) => Some v | Err _ => None end) (prefix db ks p).

Section Builders.
Context `{F : Fjall} `{C : Core} `{W : !Wire C}.

(** One rule of the buffer: [u32] little-endian length, then the bytes. *)
Definition frame_rule (rule_bytes : bytes) : bytes :=
  to_le_bytes 4 (wrap_u32 (Z.of_nat (String.length rule_bytes))) +:+ rule_bytes.

Definition build_sag_snapshot (db : Db) : SagSnapshot := {|
  rules_bytes :=
    foldl (λ acc v, acc +:+ frame_rule v) "" (values db ks_sag_rules "");
  revoked_delegation_ids :=
    omap (λ v, dr_delegation_id <$> (from_bytes v : option DelegationRecord))
      (values db ks_revoked_delegations "");
  revoked_spiffe_ids :=
    omap (λ v, rsr_spiffe_id <$> (from_bytes v : option RevokedSvidRecord))
      (values db ks_revoked_svids "")
|}.

(** [format!("spiffe://{}/ns/{}/sa/{}", domain, tenant, service)]. *)
Definition service_svid (domain tenant service : string) : string :=
  "spiffe://" +:+ domain +:+ "/ns/" +:+ tenant +:+ "/sa/" +:+ service.

Definition compute_source_index (db : Db) (data_trust_domain : string) :
    gmap (string * string) (gset string) :=
  foldl (λ index value,
    match (decode value : option SagRule) with
    | Some rule =>
        match sag_from rule, sag_to rule with
        | Some from, Some to =>
            let source_svid :=
              service_svid data_trust_domain (sref_tenant from) (sref_service_name from) in
            let key := (sref_tenant to, sref_service_name to) in
            <[key := {[source_svid]} ∪ default ∅ (index !! key)]> index
        | _, _ => index
        end
    | None => index
    end) ∅ (values db ks_sag_rules "").

Definition lookup_workload_spec (db : Db) (tenant_id workload_id : string) :
    option WorkloadSpec :=
  value ← ok (get db ks_workloads (tenant_id +:+ ":" +:+ workload_id));
  value ← value;
  record ← (from_bytes value : option WorkloadSpecRecord);
  decode (wsr_spec_bytes record).

(** The record of one placement in a schedule snapshot. *)
Definition assignment_record (db : Db) (data_trust_domain : string) (placement : Placement) :
    WorkloadAssignmentRecord :=
  let hostname :=
    default "" (dummy_ip_hostname (pl_service placement) (pl_role placement)
      (pl_tenant_id placement) data_trust_domain) in
  let '(runtime, image, pod_spec_bytes) :=
    match lookup_workload_spec db (pl_tenant_id placement) (pl_service placement) with
    | Some spec =>
        let pod_spec := expand_pod_spec spec (pl_pod_id placement) (pl_tenant_id placement)
          (pl_service placement) (pl_role placement) (pl_ordinal placement) in
        (default "" (ps_runtime <$> ws_pod_spec spec), ws_image spec, encode_to_vec pod_spec)
    | None => ("", "", "")
    end in
  {| war_workload_id := pl_service placement;
     war_runtime := runtime;
     war_image := image;
     war_role := pl_role placement;
     war_hostname := hostname;
     war_pod_spec_bytes := pod_spec_bytes |}.

Definition build_schedule_snapshot (db : Db) (data_trust_domain : string) : bytes :=
  let records :=
    omap (λ v, assignment_record db data_trust_domain <$> (from_bytes v : option Placement))
      (values db ks_placements "") in
  default "" (to_allocvec records).

(** Iteration of a [BTreeSet<String>]: ascending byte order. *)
Definition btree_iter (X : gset string) : list string := merge_sort String.le (elements X).

(** The record of one placement in a routes snapshot. *)
Definition route_record (db : Db) (data_trust_domain : string)
    (source_index : gmap (string * string) (gset string)) (placement : Placement) :
    RouteEntryRecord :=
  let service_key := "service:" +:+ pl_tenant_id placement +:+ ":" +:+
    pl_service placement +:+ ":" +:+ pl_role placement in
  let dummy_ip :=
    match get db ks_dummy_ips service_key with
    | Ok (Some bytes) => default 0 (sa_address <$> (from_bytes bytes : option ServiceAddress))
    | _ => 0
    end in
  {| rer_destination_svid :=
       service_svid data_trust_domain (pl_tenant_id placement) (pl_service placement);
     rer_destination_role := pl_role placement;
     rer_target_agent_svid := spiffe_to_string (pl_node_id placement);
     rer_dummy_ip := dummy_ip;
     rer_source_spiffe_ids :=
       default [] (btree_iter <$> source_index !! (pl_tenant_id placement, pl_service placement)) |}.

Definition build_routes_snapshot (db : Db) (data_trust_domain : string) : bytes :=
  let source_index := compute_source_index db data_trust_domain in
  let records :=
    omap (λ v, route_record db data_trust_domain source_index <$>
      (from_bytes v : option Placement)) (values db ks_placements "") in
  default "" (to_allocvec records).
End Builders.

(** ** The SAG stream *)

Inductive DecodeRulesError : Set := Truncated | Proto.

Section DecodeRules.
Context `{C : Core} `{W : !Wire C}.

(** [decode_rules], the loop over the buffer: each round reads a length and that
    many bytes. A round consumes at least four bytes, so the length of the buffer
    is enough fuel. *)
Fixpoint decode_rules_loop (fuel : nat) (bytes : bytes) : result DecodeRulesError (list SagRule) :=
  match bytes, fuel with
  | "", _ => Ok []
  | _, O => Err Truncated
  | _, S fuel =>
      '(len_slice, bytes) ← ok_or Truncated (get_slice 4 bytes);
      let len := from_le_bytes len_slice in
      '(rule_slice, bytes) ← ok_or Truncated (get_slice len bytes);
      rule ← ok_or Proto (decode rule_slice);
      rules ← decode_rules_loop fuel bytes;
      Ok (rule :: rules)
  end.
Definition decode_rules (bytes : bytes) : result DecodeRulesError (list SagRule) :=
  decode_rules_loop (String.length bytes) bytes.

(** The concatenation of the frames of a list of rules. *)
Definition frames (l : list bytes) : bytes := foldr (λ v acc, frame_rule v +:+ acc) "" l.

Lemma foldl_frames l acc :
  foldl (λ acc v, acc +:+ frame_rule v) acc l = acc +:+ frames l.
Proof.
  revert acc. induction l as [|v l IH]; intros acc; cbn; [by rewrite string_app_nil_r|].
  by rewrite IH, string_app_assoc.
Qed.

Lemma frame_rule_length v : (4 ≤ String.length (frame_rule v))%nat.
Proof. unfold frame_rule. rewrite string_length_app, to_le_bytes_length. lia. Qed.

(** One frame is read back: its rule, then the rest of the buffer. *)
Lemma decode_rules_loop_frame fuel v rest :
  Z.of_nat (String.length v) < 2 ^ 32 →
  decode_rules_loop (S fuel) (frame_rule v +:+ rest) =
  (rule ← ok_or Proto (decode v); rules ← decode_rules_loop fuel rest; Ok (rule :: rules)).
Proof.
  intros Hv. set (n := wrap_u32 (Z.of_nat (String.length v))).
  assert (Hn : n = Z.of_nat (String.length v)) by (apply wrap_u32_small; split; lia).
  assert (Hb : frame_rule v +:+ rest = to_le_bytes 4 n +:+ (v +:+ rest))
    by (unfold frame_rule; by rewrite string_app_assoc).
  rewrite Hb. assert (Hne : ∃ c s, to_le_bytes 4 n +:+ (v +:+ rest) = String c s).
  { cbn [to_le_bytes]. by eexists _, _. }
  destruct Hne as (c & s & Hcs). rewrite Hcs. cbn [decode_rules_loop]. rewrite <- Hcs.
  pose proof (get_slice_app (to_le_bytes 4 n) (v +:+ rest)) as E.
  rewrite to_le_bytes_length in E. change (Z.of_nat 4) with 4 in E. rewrite E.
  cbn [mbind result_bind ok_or]. rewrite from_to_le_bytes.
  rewrite Z.mod_small by (change (256 ^ Z.of_nat 4) with (2 ^ 32); lia).
  by rewrite Hn, get_slice_app.
Qed.

Lemma decode_rules_loop_frames fuel l :
  (length l ≤ fuel)%nat →
  Forall (λ v, Z.of_nat (String.length v) < 2 ^ 32) l →
  decode_rules_loop fuel (frames l) = ok_or Proto (mapM decode l).
Proof.
  revert fuel. induction l as [|v l IH]; intros fuel Hf Hl; [by destruct fuel|].
  destruct fuel as [|fuel]; [cbn in Hf; lia|]. cbn [length] in Hf.
  apply Forall_cons in Hl as [Hv Hl]. cbn [frames foldr].
  rewrite decode_rules_loop_frame by done. fold (frames l). rewrite IH by (done || lia).
  cbn [mapM]. destruct (decode v) as [r|]; [|done]. cbn.
  by destruct (mapM decode l).
Qed.

Lemma frames_length l : (length l ≤ String.length (frames l))%nat.
Proof.
  induction l as [|v l IH]; cbn; [done|]. rewrite string_length_app.
  pose proof (frame_rule_length v). unfold frames in IH. lia.
Qed.

Lemma decode_rules_frames l :
  Forall (λ v, Z.of_nat (String.length v) < 2 ^ 32) l →
  decode_rules (frames l) = ok_or Proto (mapM decode l).
Proof. intros Hl. apply decode_rules_loop_frames; [apply frames_length|done]. Qed.
End DecodeRules.

(** [SagUpdate], the message of the stream; [watch_sag]'s first frame and the
    frame of a published event. *)
Record SagUpdate `{C : Core} : Type := {
  su_version : Z;
  su_rules : list SagRule;
  su_revoked_delegation_ids : list bytes;
  su_revoked_spiffe_ids : list string
}.

Section SagStream.
Context `{F : Fjall} `{C : Core} `{W : !Wire C}.

Definition watch_sag_frame_one (db : Db) (current_version : Z) :
    result DecodeRulesError SagUpdate :=
  let snap := build_sag_snapshot db in
  frame_one_rules ← decode_rules (rules_bytes snap);
  Ok {| su_version := current_version;
        su_rules := frame_one_rules;
        su_revoked_delegation_ids := revoked_delegation_ids snap;
        su_revoked_spiffe_ids := revoked_spiffe_ids snap |}.

Definition watch_sag_delta (update : SagUpdateEvent) : result DecodeRulesError SagUpdate :=
  rules ← decode_rules (sue_rules_bytes update);
  Ok {| su_version := sue_version update;
        su_rules := rules;
        su_revoked_delegation_ids := sue_revoked_delegation_ids update;
        su_revoked_spiffe_ids := sue_revoked_spiffe_ids update |}.

Lemma values_reliable `{!FjallSpec F} `{!FjallReliable F} db ks p :
  values db ks p = (scan (contents db) ks p).*2.
Proof.
  unfold values. rewrite prefix_eq. induction (scan (contents db) ks p) as [|[k v] l IH];
    cbn; [done|]. by rewrite IH.
Qed.

(** Scans that differ in nothing the specification sees give the same values. *)
Lemma elem_of_values `{!FjallSpec F} db ks p v :
  v ∈ values db ks p → ∃ k, contents db !! (ks, k) = Some v ∧ starts_with p k = true.
Proof.
  unfold values. intros ([[k w]|] & Hin & H)%list_elem_of_omap; [|done].
  simplify_eq. exists k. by apply prefix_sound.
Qed.
End SagStream.
