(* ===== verification/Acl.v ===== *)
(** * Acl: the secret authorization matrix

    Models [src/secrets/acl.rs]: [SecretAcl] maps a secret key to the set of the
    SPIFFE ids (as canonical strings) that may read it. *)

From S2P Require Import Prelude.
From S2P Require Import Core.
From S2P Require Import Records.

Section Acl.
Context `{C : Core}.

(** [SecretAcl::new]. *)
Definition SecretAcl_new : SecretAcl := {| acl_entries := ∅ |}.

Definition grant (acl : SecretAcl) (secret_key : string) (spiffe_id : SpiffeId) : SecretAcl :=
  let set := default ∅ (acl_entries acl !! secret_key) in
  {| acl_entries :=
       <[secret_key := {[spiffe_to_string spiffe_id]} ∪ set]> (acl_entries acl) |}.

Definition revoke (acl : SecretAcl) (secret_key : string) (spiffe_id : SpiffeId) : SecretAcl :=
  match acl_entries acl !! secret_key with
  | Some set =>
      let set := set ∖ {[spiffe_to_string spiffe_id]} in
      {| acl_entries :=
           if decide (set = ∅) then delete secret_key (acl_entries acl)
           else <[secret_key := set]> (acl_entries acl) |}
  | None => acl
  end.

Definition is_authorized (acl : SecretAcl) (secret_key : string) (spiffe_id : SpiffeId) : bool :=
  match acl_entries acl !! secret_key with
  | Some set => bool_decide (spiffe_to_string spiffe_id ∈ set)
  | None => false
  end.

(** [SecretError::AccessDenied]. *)
Inductive AclError : Type := AccessDenied (secret_key spiffe_id : string).

Definition authorize (acl : SecretAcl) (secret_key : string) (spiffe_id : SpiffeId) :
    result AclError () :=
  if is_authorized acl secret_key spiffe_id then Ok ()
  else Err (AccessDenied secret_key (spiffe_to_string spiffe_id)).

Definition authorized_for (acl : SecretAcl) (secret_key : string) : list string :=
  default [] (merge_sort String.le ∘ elements <$> acl_entries acl !! secret_key).

(** The pairs the matrix authorizes, as a set of (key, printed id). *)
Definition authorized (acl : SecretAcl) (key : string) (id : string) : Prop :=
  ∃ set, acl_entries acl !! key = Some set ∧ id ∈ set.

(** No key is kept with an empty set. *)
Definition acl_wf (acl : SecretAcl) : Prop := ∀ k set, acl_entries acl !! k = Some set → set ≠ ∅.

Lemma is_authorized_spec acl key id :
  is_authorized acl key id = true ↔ authorized acl key (spiffe_to_string id).
Proof.
  unfold is_authorized, authorized. destruct (acl_entries acl !! key) as [set|] eqn:E.
  - rewrite bool_decide_eq_true. naive_solver.
  - naive_solver.
Qed.

Lemma authorized_grant acl key id k i :
  authorized (grant acl key id) k i ↔ (k = key ∧ i = spiffe_to_string id) ∨ authorized acl k i.
Proof.
  unfold authorized, grant; cbn. rewrite lookup_insert. case_decide as E; [subst k|].
  - split.
    + intros (set & [= <-] & Hi). apply elem_of_union in Hi as [Hi|Hi]; [set_solver|].
      right. destruct (acl_entries acl !! key); [naive_solver|]. set_solver.
    + intros [[_ ->]|(set & E & Hi)]; eexists; (split; [done|]); [set_solver|].
      rewrite E. set_solver.
  - naive_solver.
Qed.

Lemma authorized_revoke acl key id k i :
  authorized (revoke acl key id) k i ↔
  authorized acl k i ∧ ¬ (k = key ∧ i = spiffe_to_string id).
Proof.
  unfold authorized, revoke. destruct (acl_entries acl !! key) as [set|] eqn:E.
  - cbn. case_decide as He.
    + rewrite lookup_delete. case_decide as Ek; [subst k|]; [|naive_solver].
      split; [naive_solver|]. intros [(s & Hs & Hi) Hn]. simplify_eq. set_solver.
    + rewrite lookup_insert. case_decide as Ek; [subst k|]; [|naive_solver].
      split.
      * intros (s & [= <-] & Hi). set_solver.
      * intros [(s & Hs & Hi) Hn]. simplify_eq. eexists; split; [done|]. set_solver.
  - split; [|naive_solver]. intros (s & Hs & Hi). naive_solver.
Qed.

Lemma acl_wf_grant acl key id : acl_wf acl → acl_wf (grant acl key id).
Proof.
  intros H k set. unfold grant; cbn. rewrite lookup_insert. case_decide; [|apply H].
  intros [= <-]. set_solver.
Qed.

Lemma acl_wf_revoke acl key id : acl_wf acl → acl_wf (revoke acl key id).
Proof.
  intros H k set. unfold revoke. destruct (acl_entries acl !! key) as [s|] eqn:E; [|apply H].
  cbn. case_decide as He.
  - rewrite lookup_delete. case_decide; [done|apply H].
  - rewrite lookup_insert. case_decide; [|apply H]. by intros [= <-].
Qed.
End Acl.
