(* ===== verification/StateMachine.v ===== *)
(** * StateMachine: applying replicated commands

    Models [src/raft/state_machine.rs] and [src/storage/version.rs]:
    [FjallStateMachine::apply_command], one definition per arm, composed by
    [apply_command]; [apply], one write batch per log entry with its version and
    audit record; and the events published after a commit. *)

From S2P Require Import Prelude.
From S2P Require Import Storage.
From S2P Require Import Core.
From S2P Require Import Records.
From S2P Require Import Schema.
From S2P Require Import Expansion.
From S2P Require Import Watch.
From S2P Require Import Acl.

(** ** Versions and change kinds ([storage/version.rs]) *)

Module ChangeKind.
Inductive t : Type :=
| SagUpdate
| TrustBundleRotation
| ClusterMembership
| SecretRotation (target_spiffe_id : string)
| RevokedDelegations
| SchedulingUpdate
| DummyIpUpdate
| Eviction
| SvidRotation (spiffe_id : string) (svid_version : Z).
End ChangeKind.

Record VersionUpdate : Type := { vu_version : Z; vu_change_kind : ChangeKind.t }.

(** [persist_version]. *)
Definition persist_version (version : Z) (batch : write_batch) : write_batch :=
  batch_insert ks_version "current" (to_le_bytes 8 version) batch.

Section Version.
Context `{F : Fjall}.

Inductive VersionError : Type := VersionStorage (e : IoError) | VersionCorrupted.

(** [load_persisted_version] and the version [VersionedState::new] starts from. *)
Definition load_persisted_version (db : Db) : result VersionError Z :=
  r ← map_err VersionStorage (get db ks_version "current");
  match r with
  | Some b => if decide (String.length b = 8%nat) then Ok (from_le_bytes b) else Err VersionCorrupted
  | None => Ok 0
  end.
Definition VersionedState_new (db : Db) : Z := default 0 (ok (load_persisted_version db)).
End Version.

(** [allocate_version]: [fetch_add(1) + 1]. *)
Definition allocate_version (version : Z) : Z := wrap_u64 (version + 1).

(** ** Keys *)

(** [format!("{}:{}", a, b)] and [format!("{}:{}:{}:{}", ...)]. *)
Definition pair_key (a b : string) : string := a +:+ ":" +:+ b.
Definition ordinal_key (tenant service role : string) (ordinal : Z) : string :=
  tenant +:+ ":" +:+ service +:+ ":" +:+ role +:+ ":" +:+ pretty ordinal.
Definition tenant_block_key (tenant : string) : string := "tenant:" +:+ tenant.
Definition service_address_key (a : ServiceAddress) : string :=
  "service:" +:+ sa_tenant_id a +:+ ":" +:+ sa_service a +:+ ":" +:+ sa_role a.
Definition acl_key (key : string) : string := "acl:" +:+ key.
Definition secret_key (key : string) : string := "secret:" +:+ key.

(** ** Errors *)

Section Errors.
Context `{F : Fjall} `{C : Core}.

(** [StorageError<u64>], by the helper that makes it: [ser_err], [read_err],
    [commit_err] and the error of [parse_spiffe]. *)
Inductive SmError : Type :=
| SerErr
| ReadErr (e : IoError)
| CommitErr (e : IoError)
| InvalidSpiffe (s : string).

Definition ser {A} `{Postcard A} (a : A) : result SmError bytes := ok_or SerErr (to_allocvec a).
Definition de {A} `{Postcard A} (b : bytes) : result SmError A := ok_or SerErr (from_bytes b).
Definition read {A} (r : result IoError A) : result SmError A := map_err ReadErr r.
Definition parse_spiffe (s : string) : result SmError SpiffeId :=
  ok_or (InvalidSpiffe s) (spiffe_parse s).
End Errors.

(** ** The arms of [apply_command]

    Each arm reads the committed state [db] and adds its writes to [batch]. *)
Section Commands.
Context `{F : Fjall} `{C : Core} `{W : !Wire C}.

Abbreviation staged := (result SmError (write_batch * ChangeKind.t)).

(** *** Tenants *)
Definition apply_create_tenant (record : TenantRecord) (block : TenantBlock)
    (batch : write_batch) : staged :=
  value ← ser record;
  let batch := batch_insert ks_tenants (tr_tenant_id record) value batch in
  block_value ← ser block;
  let batch := batch_insert ks_dummy_ips (tenant_block_key (tr_tenant_id record)) block_value batch in
  Ok (batch, ChangeKind.SchedulingUpdate).

Definition apply_delete_tenant (tenant_id : string) (batch : write_batch) : staged :=
  Ok (batch_remove ks_tenants tenant_id batch, ChangeKind.SchedulingUpdate).

Definition apply_set_tenant_quota (record : TenantQuotaRecord) (batch : write_batch) : staged :=
  value ← ser record;
  Ok (batch_insert ks_tenant_quotas (tq_tenant_id record) value batch,
      ChangeKind.SchedulingUpdate).

(** *** Workloads *)

(** The replacement of a stored spec: all of [SubmitWorkloadSpec] and
    [ResizeWorkload], and step 1 of [ScaleWorkload]. *)
Definition put_workload (record : WorkloadSpecRecord) (batch : write_batch) :
    result SmError write_batch :=
  value ← ser record;
  Ok (batch_insert ks_workloads (pair_key (wsr_tenant_id record) (wsr_workload_id record))
        value batch).

Definition apply_submit_workload_spec (record : WorkloadSpecRecord) (batch : write_batch) :
    staged :=
  batch ← put_workload record batch; Ok (batch, ChangeKind.SchedulingUpdate).

Definition apply_resize_workload (record : WorkloadSpecRecord) (batch : write_batch) : staged :=
  batch ← put_workload record batch; Ok (batch, ChangeKind.SchedulingUpdate).

(** The loop over the placements keyspace that collects what [f] picks of the
    placements that decode. *)
Definition collect_placements {A} (db : Db) (f : Placement → option A) :
    result SmError (list A) :=
  foldM (λ acc guard,
    '(_, value) ← read guard;
    Ok (match from_bytes value with
        | Some placement =>
            match f placement with Some a => acc ++ [a] | None => acc end
        | None => acc
        end)) (prefix db ks_placements "") [].

(** The loop that removes the collected placements of a workload and frees their
    ordinal slots. *)
Definition free_slots (tenant_id workload_id : string)
    (to_remove : list (string * string * Z)) (batch : write_batch) :
    result SmError write_batch :=
  foldM (λ batch '(pod_id, role, ordinal),
    let batch := batch_remove ks_placements pod_id batch in
    let freed := {|
      oa_tenant_id := tenant_id; oa_service := workload_id; oa_role := role;
      oa_ordinal := ordinal; oa_current_pod_id := None; oa_current_node_id := None |} in
    freed_value ← ser freed;
    Ok (batch_insert ks_ordinals (ordinal_key tenant_id workload_id role ordinal)
          freed_value batch)) to_remove batch.

Definition slot_of (p : Placement) : string * string * Z :=
  (pl_pod_id p, pl_role p, pl_ordinal p).

Definition apply_delete_workload (db : Db) (tenant_id workload_id : string)
    (batch : write_batch) : staged :=
  let batch := batch_remove ks_workloads (pair_key tenant_id workload_id) batch in
  to_remove ← collect_placements db (λ placement,
    if bool_decide (pl_tenant_id placement = tenant_id) &&
       bool_decide (pl_service placement = workload_id)
    then Some (slot_of placement) else None);
  batch ← free_slots tenant_id workload_id to_remove batch;
  Ok (batch, ChangeKind.SchedulingUpdate).

(** The new replica counts: empty when the spec does not decode. *)
Definition new_replicas (record : WorkloadSpecRecord) : gmap string Z :=
  match (decode (wsr_spec_bytes record) : option WorkloadSpec) with
  | Some spec => ws_replicas spec
  | None => ∅
  end.

Definition exceeds (replicas : gmap string Z) (placement : Placement) : bool :=
  match replicas !! pl_role placement with
  | Some new_count => new_count <=? pl_ordinal placement
  | None => true
  end.

Definition apply_scale_workload (db : Db) (record : WorkloadSpecRecord) (batch : write_batch) :
    staged :=
  batch ← put_workload record batch;
  let replicas := new_replicas record in
  to_remove ← collect_placements db (λ placement,
    if bool_decide (pl_tenant_id placement = wsr_tenant_id record) &&
       bool_decide (pl_service placement = wsr_workload_id record)
    then if exceeds replicas placement then Some (slot_of placement) else None
    else None);
  batch ← free_slots (wsr_tenant_id record) (wsr_workload_id record) to_remove batch;
  Ok (batch, ChangeKind.SchedulingUpdate).

Definition apply_upsert_vpa_recommendation (record : VpaRecommendationRecord)
    (batch : write_batch) : staged :=
  value ← ser record;
  Ok (batch_insert ks_vpa_recommendations
        (pair_key (vr_tenant_id record) (vr_workload_id record)) value batch,
      ChangeKind.SchedulingUpdate).

Definition put_checkpoint (checkpoint : CronCheckpointRecord) (batch : write_batch) :
    result SmError write_batch :=
  cp_value ← ser checkpoint;
  Ok (batch_insert ks_cron_checkpoints
        (pair_key (ccr_tenant_id checkpoint) (ccr_cron_workload_id checkpoint)) cp_value batch).

Definition apply_submit_cron_workload (record : CronWorkloadRecord)
    (checkpoint : CronCheckpointRecord) (batch : write_batch) : staged :=
  let key := "cron:" +:+ pair_key (cwr_tenant_id record) (cwr_cron_workload_id record) in
  value ← ser record;
  let batch := batch_insert ks_workloads key value batch in
  batch ← put_checkpoint checkpoint batch;
  Ok (batch, ChangeKind.SchedulingUpdate).

Definition apply_trigger_cron_workload (workload_record : WorkloadSpecRecord)
    (checkpoint : CronCheckpointRecord) (batch : write_batch) : staged :=
  batch ← put_workload workload_record batch;
  batch ← put_checkpoint checkpoint batch;
  Ok (batch, ChangeKind.SchedulingUpdate).

(** [record.gate_violation_since_unix = since]. *)
Definition set_gate_violation_since (record : WorkloadStatusRecord) (since : Z) :
    WorkloadStatusRecord := {|
  wst_pod_id := wst_pod_id record;
  wst_workload_id := wst_workload_id record;
  wst_tenant_id := wst_tenant_id record;
  wst_ready := wst_ready record;
  wst_live := wst_live record;
  wst_started := wst_started record;
  wst_policy_enforced := wst_policy_enforced record;
  wst_restart_count := wst_restart_count record;
  wst_observed_at_unix := wst_observed_at_unix record;
  wst_router_connected := wst_router_connected record;
  wst_gate_violation_since_unix := since
|}.

Definition in_violation (record : WorkloadStatusRecord) : bool :=
  wst_started record && (negb (wst_policy_enforced record) || negb (wst_router_connected record)).

Definition gate_violation_since (prev : option WorkloadStatusRecord)
    (record : WorkloadStatusRecord) : Z :=
  if in_violation record then
    match prev with
    | Some p => if 0 <? wst_gate_violation_since_unix p then wst_gate_violation_since_unix p
                else wst_observed_at_unix record
    | None => wst_observed_at_unix record
    end
  else 0.

Definition apply_upsert_workload_status (db : Db) (record : WorkloadStatusRecord)
    (batch : write_batch) : staged :=
  r ← read (get db ks_workload_status (wst_pod_id record));
  let prev := b ← r; from_bytes b in
  let record := set_gate_violation_since record (gate_violation_since prev record) in
  value ← ser record;
  Ok (batch_insert ks_workload_status (wst_pod_id record) value batch,
      ChangeKind.SchedulingUpdate).

(** *** Attestation and join *)
Definition apply_mint_join_token (record : JoinTokenRecord) (batch : write_batch) : staged :=
  value ← ser record;
  Ok (batch_insert ks_join_tokens (jt_token record) value batch, ChangeKind.SagUpdate).

Definition apply_consume_join_token (token : bytes) (batch : write_batch) : staged :=
  Ok (batch_remove ks_join_tokens token batch, ChangeKind.SagUpdate).

Definition apply_set_pcr_policy (record : PcrPolicy) (batch : write_batch) : staged :=
  value ← ser record;
  Ok (batch_insert ks_pcr_policies (pp_node_id record) value batch, ChangeKind.SagUpdate).

Definition apply_register_node_ek (record : NodeEkRecord) (batch : write_batch) : staged :=
  value ← ser record;
  Ok (batch_insert ks_node_eks (ek_fingerprint record) value batch,
      ChangeKind.ClusterMembership).

(** [record.state = state] and [record.node_id = node_id]. *)
Definition set_ek_state (record : NodeEkRecord) (state : EkRegistrationState) : NodeEkRecord := {|
  ek_fingerprint := ek_fingerprint record; ek_pub := ek_pub record;
  ek_cert_der := ek_cert_der record; ek_node_id := ek_node_id record;
  ek_registered_at := ek_registered_at record; ek_expires_at := ek_expires_at record;
  ek_state := state |}.
Definition set_ek_node_id (record : NodeEkRecord) (node_id : string) : NodeEkRecord := {|
  ek_fingerprint := ek_fingerprint record; ek_pub := ek_pub record;
  ek_cert_der := ek_cert_der record; ek_node_id := node_id;
  ek_registered_at := ek_registered_at record; ek_expires_at := ek_expires_at record;
  ek_state := ek_state record |}.

Definition apply_activate_node_ek (db : Db) (fingerprint node_id : string)
    (batch : write_batch) : staged :=
  r ← read (get db ks_node_eks fingerprint);
  batch ←
    match r with
    | Some b =>
        record ← de b;
        let record := set_ek_node_id (set_ek_state record Joined) node_id in
        value ← ser record;
        Ok (batch_insert ks_node_eks fingerprint value batch)
    | None => Ok batch
    end;
  Ok (batch, ChangeKind.ClusterMembership).

Definition apply_revoke_node_ek (db : Db) (fingerprint : string) (batch : write_batch) : staged :=
  r ← read (get db ks_node_eks fingerprint);
  batch ←
    match r with
    | Some b =>
        record ← de b;
        value ← ser (set_ek_state record Revoked);
        Ok (batch_insert ks_node_eks fingerprint value batch)
    | None => Ok batch
    end;
  Ok (batch, ChangeKind.ClusterMembership).

(** *** Node taints *)

(** The store of a taint set: an empty set removes the key. *)
Definition put_taints (node_id : string) (taints : list NodeTaint) (batch : write_batch) :
    result SmError write_batch :=
  match taints with
  | [] => Ok (batch_remove ks_node_taints node_id batch)
  | _ => value ← ser taints; Ok (batch_insert ks_node_taints node_id value batch)
  end.

Definition apply_set_node_taints (node_id : string) (taints : list NodeTaint)
    (batch : write_batch) : staged :=
  batch ← put_taints node_id taints batch; Ok (batch, ChangeKind.SchedulingUpdate).

(** [taints.retain(|t| !(t.key == *key && t.effect == *effect))]. *)
Definition retain_taints (key effect : string) (taints : list NodeTaint) : list NodeTaint :=
  filter (λ t, ¬ (nt_key t = key ∧ nt_effect t = effect)) taints.

Definition apply_remove_node_taint (db : Db) (node_id key effect : string)
    (batch : write_batch) : staged :=
  r ← read (get db ks_node_taints node_id);
  batch ←
    match r with
    | Some b =>
        taints ← de b;
        let kept := retain_taints key effect taints in
        if decide (length kept ≠ length taints) then put_taints node_id kept batch else Ok batch
    | None => Ok batch
    end;
  Ok (batch, ChangeKind.SchedulingUpdate).

(** *** Manifests *)
Definition manifest_keyspace (target : string) : option Keyspace :=
  if decide (target = "workloads") then Some ks_workloads
  else if decide (target = "tenants") then Some ks_tenants
  else if decide (target = "sag_rules") then Some ks_sag_rules
  else if decide (target = "secrets") then Some ks_secrets
  else if decide (target = "node_pools") then Some ks_node_pools
  else if decide (target = "dummy_ips") then Some ks_dummy_ips
  else if decide (target = "ordinals") then Some ks_ordinals
  else if decide (target = "placements") then Some ks_placements
  else None.

Definition apply_manifests (updates : list ManifestUpdate) (batch : write_batch) : staged :=
  Ok (foldl (λ batch update,
        match manifest_keyspace (mu_target_keyspace update) with
        | Some ks => batch_insert ks (mu_target_key update) (mu_new_record_bytes update) batch
        | None => batch
        end) batch updates, ChangeKind.SchedulingUpdate).

(** *** Nodes *)
Definition apply_register_node (record : NodeRecord) (batch : write_batch) : staged :=
  value ← ser record;
  Ok (batch_insert ks_nodes (nr_node_id record) value batch, ChangeKind.SchedulingUpdate).

(** Field updates of a [NodeRecord]. *)
Definition set_node_status (r : NodeRecord) (status : NodeStatus) : NodeRecord := {|
  nr_node_id := nr_node_id r; nr_node_kind := nr_node_kind r; nr_status := status;
  nr_schedulable := nr_schedulable r; nr_last_heartbeat := nr_last_heartbeat r;
  nr_registered_at := nr_registered_at r;
  nr_capacity_cpu_millicores := nr_capacity_cpu_millicores r;
  nr_capacity_memory_bytes := nr_capacity_memory_bytes r;
  nr_failure_domain := nr_failure_domain r |}.
Definition set_node_schedulable (r : NodeRecord) (schedulable : bool) : NodeRecord := {|
  nr_node_id := nr_node_id r; nr_node_kind := nr_node_kind r; nr_status := nr_status r;
  nr_schedulable := schedulable; nr_last_heartbeat := nr_last_heartbeat r;
  nr_registered_at := nr_registered_at r;
  nr_capacity_cpu_millicores := nr_capacity_cpu_millicores r;
  nr_capacity_memory_bytes := nr_capacity_memory_bytes r;
  nr_failure_domain := nr_failure_domain r |}.
Definition set_node_heartbeat (r : NodeRecord) (last_heartbeat : Z) : NodeRecord := {|
  nr_node_id := nr_node_id r; nr_node_kind := nr_node_kind r; nr_status := nr_status r;
  nr_schedulable := nr_schedulable r; nr_last_heartbeat := last_heartbeat;
  nr_registered_at := nr_registered_at r;
  nr_capacity_cpu_millicores := nr_capacity_cpu_millicores r;
  nr_capacity_memory_bytes := nr_capacity_memory_bytes r;
  nr_failure_domain := nr_failure_domain r |}.

(** The record written for a node that never registered: zero capacity. *)
Definition unknown_node (node_id : string) (status : NodeStatus) (schedulable : bool) :
    NodeRecord := {|
  nr_node_id := node_id; nr_node_kind := 0; nr_status := status;
  nr_schedulable := schedulable; nr_last_heartbeat := 0; nr_registered_at := 0;
  nr_capacity_cpu_millicores := 0; nr_capacity_memory_bytes := 0;
  nr_failure_domain := "" |}.

(** [SetNodeSchedulable]: the record after the update. *)
Definition reschedule_node (r : NodeRecord) (schedulable : bool) : NodeRecord :=
  let r := set_node_schedulable r schedulable in
  if schedulable && bool_decide (nr_status r = Cordoned) then set_node_status r Active else r.

Definition apply_set_node_schedulable (db : Db) (node_id : string) (schedulable : bool)
    (batch : write_batch) : staged :=
  r ← read (get db ks_nodes node_id);
  record ←
    match r with
    | Some b => r ← de b; Ok (reschedule_node r schedulable)
    | None =>
        Ok (unknown_node node_id (if schedulable then Active else Cordoned) schedulable)
    end;
  value ← ser record;
  Ok (batch_insert ks_nodes node_id value batch, ChangeKind.SchedulingUpdate).

Definition apply_node_heartbeat (db : Db) (node_id : string) (last_heartbeat : Z)
    (batch : write_batch) : staged :=
  r ← read (get db ks_nodes node_id);
  match r with
  | Some b =>
      record ← de b;
      value ← ser (set_node_heartbeat record last_heartbeat);
      Ok (batch_insert ks_nodes node_id value batch, ChangeKind.ClusterMembership)
  | None => Ok (batch, ChangeKind.ClusterMembership)
  end.

(** *** Eviction *)

(** Step 1: the node's record, marked evicted. *)
Definition evict_mark (db : Db) (node_id : string) (batch : write_batch) :
    result SmError write_batch :=
  r ← read (get db ks_nodes node_id);
  record ←
    match r with
    | Some b => r ← de b; Ok (set_node_schedulable (set_node_status r Evicted) false)
    | None => Ok (unknown_node node_id Evicted false)
    end;
  value ← ser record;
  Ok (batch_insert ks_nodes node_id value batch).

(** Step 2: every active delegation of the node moves to the revoked keyspace. *)
Definition evict_delegations (db : Db) (node_spiffe : SpiffeId) (batch : write_batch) :
    result SmError write_batch :=
  foldM (λ batch guard,
    '(_, del_value) ← read guard;
    Ok (match (from_bytes del_value : option DelegationRecord) with
        | Some del_record =>
            let key := composite_delegation_key (dr_node_id del_record)
                         (dr_delegation_id del_record) in
            batch_insert ks_revoked_delegations key del_value
              (batch_remove ks_active_delegations key batch)
        | None => batch
        end)) (prefix db ks_active_delegations (node_delegation_prefix node_spiffe)) batch.

(** Step 3: every placement on the node is removed. *)
Definition evict_placements (db : Db) (node_spiffe : SpiffeId) (batch : write_batch) :
    result SmError write_batch :=
  placement_pod_ids ← collect_placements db (λ placement,
    if decide (pl_node_id placement = node_spiffe) then Some (pl_pod_id placement) else None);
  Ok (foldl (λ batch pod_id, batch_remove ks_placements pod_id batch) batch placement_pod_ids).

Definition apply_evict_node (db : Db) (node_id : string) (svid_expires_at_unix : Z)
    (batch : write_batch) : staged :=
  node_spiffe ← parse_spiffe node_id;
  batch ← evict_mark db node_id batch;
  batch ← evict_delegations db node_spiffe batch;
  batch ← evict_placements db node_spiffe batch;
  let revoked_record := {| rsr_spiffe_id := node_id; rsr_expires_at_unix := svid_expires_at_unix |} in
  revoked_value ← ser revoked_record;
  Ok (batch_insert ks_revoked_svids node_id revoked_value batch, ChangeKind.Eviction).

(** Read errors are skipped here. *)
Definition apply_prune_expired_revoked_svids (db : Db) (cutoff_unix : Z) (batch : write_batch) :
    staged :=
  let to_remove := omap (λ value,
    match (from_bytes value : option RevokedSvidRecord) with
    | Some record =>
        if rsr_expires_at_unix record <? cutoff_unix then Some (rsr_spiffe_id record) else None
    | None => None
    end) (values db ks_revoked_svids "") in
  Ok (foldl (λ batch spiffe_id, batch_remove ks_revoked_svids spiffe_id batch) batch to_remove,
      ChangeKind.SagUpdate).

(** *** Delegations *)
Definition apply_issue_delegation (record : DelegationRecord) (batch : write_batch) : staged :=
  let key := composite_delegation_key (dr_node_id record) (dr_delegation_id record) in
  value ← ser record;
  Ok (batch_insert ks_active_delegations key value batch, ChangeKind.SchedulingUpdate).

Definition apply_revoke_delegation (db : Db) (node_id delegation_id : string)
    (batch : write_batch) : staged :=
  node_spiffe ← parse_spiffe node_id;
  let key := composite_delegation_key node_spiffe delegation_id in
  r ← read (get db ks_active_delegations key);
  let batch :=
    match r with
    | Some b =>
        batch_insert ks_revoked_delegations key b (batch_remove ks_active_delegations key batch)
    | None => batch
    end in
  Ok (batch, ChangeKind.RevokedDelegations).

(** *** Policy, dummy addresses *)
Definition apply_upsert_sag_rule (record : SagRuleRecord) (batch : write_batch) : staged :=
  Ok (batch_insert ks_sag_rules (srr_rule_id record) (srr_rule_bytes record) batch,
      ChangeKind.SagUpdate).

Definition apply_delete_sag_rule (rule_id : string) (batch : write_batch) : staged :=
  Ok (batch_remove ks_sag_rules rule_id batch, ChangeKind.SagUpdate).

Definition apply_allocate_tenant_block (record : TenantBlock) (batch : write_batch) : staged :=
  value ← ser record;
  Ok (batch_insert ks_dummy_ips (tenant_block_key (tb_tenant_id record)) value batch,
      ChangeKind.DummyIpUpdate).

Definition apply_allocate_service_address (block : TenantBlock) (address : ServiceAddress)
    (batch : write_batch) : staged :=
  block_value ← ser block;
  let batch := batch_insert ks_dummy_ips (tenant_block_key (tb_tenant_id block)) block_value batch in
  addr_value ← ser address;
  Ok (batch_insert ks_dummy_ips (service_address_key address) addr_value batch,
      ChangeKind.DummyIpUpdate).

(** *** Secrets *)
Definition apply_store_secret (record : SecretRecord) (target_spiffe_id : string)
    (batch : write_batch) : staged :=
  let batch := batch_insert ks_secrets (secret_key (sec_key record)) (sec_envelope_bytes record) batch in
  let batch := batch_insert ks_secrets (acl_key (sec_key record)) (sec_acl_bytes record) batch in
  Ok (batch, ChangeKind.SecretRotation target_spiffe_id).

(** The stored ACL of a key: empty when there is none. *)
Definition read_acl (db : Db) (key : string) : result SmError SecretAcl :=
  r ← read (get db ks_secrets (acl_key key));
  match r with Some b => de b | None => Ok SecretAcl_new end.

Definition apply_grant_secret_access (db : Db) (key spiffe_id : string) (batch : write_batch) :
    staged :=
  acl ← read_acl db key;
  spiffe ← parse_spiffe spiffe_id;
  acl_bytes ← ser (grant acl key spiffe);
  Ok (batch_insert ks_secrets (acl_key key) acl_bytes batch, ChangeKind.SecretRotation spiffe_id).

Definition apply_revoke_secret_access (db : Db) (key spiffe_id : string) (batch : write_batch) :
    staged :=
  acl ← read_acl db key;
  spiffe ← parse_spiffe spiffe_id;
  acl_bytes ← ser (revoke acl key spiffe);
  Ok (batch_insert ks_secrets (acl_key key) acl_bytes batch, ChangeKind.SecretRotation spiffe_id).

(** *** Placement *)
Definition apply_record_ordinal_assignment (record : OrdinalAssignment) (batch : write_batch) :
    staged :=
  value ← ser record;
  Ok (batch_insert ks_ordinals
        (ordinal_key (oa_tenant_id record) (oa_service record) (oa_role record) (oa_ordinal record))
        value batch, ChangeKind.SchedulingUpdate).

Definition apply_commit_placement (record : Placement) (batch : write_batch) : staged :=
  serialized ← ser record;
  Ok (batch_insert ks_placements (pl_pod_id record) serialized batch, ChangeKind.SchedulingUpdate).

Definition apply_remove_placement (pod_id : string) (batch : write_batch) : staged :=
  Ok (batch_remove ks_placements pod_id batch, ChangeKind.SchedulingUpdate).

Definition occupies (tenant_id service role : string) (ordinal : Z) (p : Placement) : bool :=
  bool_decide (pl_tenant_id p = tenant_id) && bool_decide (pl_service p = service) &&
  bool_decide (pl_role p = role) && bool_decide (pl_ordinal p = ordinal).

(** The search loop, which breaks at the first placement of the slot. *)
Fixpoint find_slot (tenant_id service role : string) (ordinal : Z)
    (guards : list (result IoError (bytes * bytes))) : result SmError (option Placement) :=
  match guards with
  | [] => Ok None
  | guard :: guards =>
      '(_, value) ← read guard;
      match from_bytes value with
      | Some placement =>
          if occupies tenant_id service role ordinal placement then Ok (Some placement)
          else find_slot tenant_id service role ordinal guards
      | None => find_slot tenant_id service role ordinal guards
      end
  end.

Definition set_pod_id (p : Placement) (pod_id : string) : Placement := {|
  pl_pod_id := pod_id; pl_tenant_id := pl_tenant_id p; pl_service := pl_service p;
  pl_role := pl_role p; pl_ordinal := pl_ordinal p; pl_node_id := pl_node_id p;
  pl_resources := pl_resources p |}.

Definition apply_reassign_pod_id (db : Db) (tenant_id service role : string) (ordinal : Z)
    (new_pod_id : string) (batch : write_batch) : staged :=
  found ← find_slot tenant_id service role ordinal (prefix db ks_placements "");
  batch ←
    match found with
    | Some placement =>
        let old_pod_id := pl_pod_id placement in
        let node_id_str := spiffe_to_string (pl_node_id placement) in
        serialized ← ser (set_pod_id placement new_pod_id);
        let batch := batch_remove ks_placements old_pod_id batch in
        let batch := batch_insert ks_placements new_pod_id serialized batch in
        let assignment := {|
          oa_tenant_id := tenant_id; oa_service := service; oa_role := role;
          oa_ordinal := ordinal; oa_current_pod_id := Some new_pod_id;
          oa_current_node_id := Some node_id_str |} in
        assignment_bytes ← ser assignment;
        Ok (batch_insert ks_ordinals (ordinal_key tenant_id service role ordinal)
              assignment_bytes batch)
    | None => Ok batch
    end;
  Ok (batch, ChangeKind.SchedulingUpdate).

(** *** Provisioning, addresses, SVIDs, operators *)
Definition apply_store_node_pool (record : NodePoolRecord) (batch : write_batch) : staged :=
  value ← ser record;
  Ok (batch_insert ks_node_pools (np_pool_id record) value batch, ChangeKind.SchedulingUpdate).

Definition apply_delete_node_pool (pool_id : string) (batch : write_batch) : staged :=
  Ok (batch_remove ks_node_pools pool_id batch, ChangeKind.SchedulingUpdate).

Definition apply_register_control_address (record : ControlNodeAddressRecord)
    (batch : write_batch) : staged :=
  value ← ser record;
  Ok (batch_insert ks_control_addresses (to_be_bytes 8 (cna_node_id record)) value batch,
      ChangeKind.ClusterMembership).

Definition apply_upsert_svid_version (record : SvidRecord) (batch : write_batch) : staged :=
  value ← ser record;
  Ok (batch_insert ks_svids (svr_spiffe_id record) value batch,
      ChangeKind.SvidRotation (svr_spiffe_id record) (svr_svid_version record)).

Definition apply_grant_operator_access (record : OperatorAccessGrantRecord)
    (batch : write_batch) : staged :=
  value ← ser record;
  Ok (batch_insert ks_operator_grants (oag_grant_id record) value batch, ChangeKind.SagUpdate).

Definition apply_revoke_operator_access (grant_id : string) (batch : write_batch) : staged :=
  Ok (batch_remove ks_operator_grants grant_id batch, ChangeKind.SagUpdate).

(** ** [apply_command] *)
Definition apply_command (db : Db) (cmd : FleetosCommand) (batch : write_batch) : staged :=
  match cmd with
  | CreateTenant record block => apply_create_tenant record block batch
  | DeleteTenant tenant_id => apply_delete_tenant tenant_id batch
  | SubmitWorkloadSpec record => apply_submit_workload_spec record batch
  | DeleteWorkload tenant_id workload_id => apply_delete_workload db tenant_id workload_id batch
  | ScaleWorkload record => apply_scale_workload db record batch
  | ResizeWorkload record => apply_resize_workload record batch
  | UpsertVpaRecommendation record => apply_upsert_vpa_recommendation record batch
  | SetTenantQuota record => apply_set_tenant_quota record batch
  | SubmitCronWorkload record checkpoint => apply_submit_cron_workload record checkpoint batch
  | TriggerCronWorkload record checkpoint => apply_trigger_cron_workload record checkpoint batch
  | UpsertWorkloadStatus record => apply_upsert_workload_status db record batch
  | MintJoinToken record => apply_mint_join_token record batch
  | ConsumeJoinToken token => apply_consume_join_token token batch
  | SetPcrPolicy record => apply_set_pcr_policy record batch
  | RegisterNode record => apply_register_node record batch
  | EvictNode node_id expires => apply_evict_node db node_id expires batch
  | PruneExpiredRevokedSvids cutoff => apply_prune_expired_revoked_svids db cutoff batch
  | SetNodeSchedulable node_id schedulable =>
      apply_set_node_schedulable db node_id schedulable batch
  | NodeHeartbeat node_id last_heartbeat => apply_node_heartbeat db node_id last_heartbeat batch
  | IssueDelegation record => apply_issue_delegation record batch
  | RevokeDelegation node_id delegation_id =>
      apply_revoke_delegation db node_id delegation_id batch
  | UpsertSagRule record => apply_upsert_sag_rule record batch
  | DeleteSagRule rule_id => apply_delete_sag_rule rule_id batch
  | AllocateTenantBlock record => apply_allocate_tenant_block record batch
  | AllocateServiceAddress block address => apply_allocate_service_address block address batch
  | StoreSecret record target => apply_store_secret record target batch
  | GrantSecretAccess _ key spiffe_id => apply_grant_secret_access db key spiffe_id batch
  | RevokeSecretAccess _ key spiffe_id => apply_revoke_secret_access db key spiffe_id batch
  | RecordOrdinalAssignment record => apply_record_ordinal_assignment record batch
  | CommitPlacement record => apply_commit_placement record batch
  | RemovePlacement pod_id => apply_remove_placement pod_id batch
  | ReassignPodId tenant_id service role ordinal new_pod_id =>
      apply_reassign_pod_id db tenant_id service role ordinal new_pod_id batch
  | StoreNodePool record => apply_store_node_pool record batch
  | DeleteNodePool pool_id => apply_delete_node_pool pool_id batch
  | RegisterControlAddress record => apply_register_control_address record batch
  | UpsertSvidVersion record => apply_upsert_svid_version record batch
  | GrantOperatorAccess record => apply_grant_operator_access record batch
  | RevokeOperatorAccess grant_id => apply_revoke_operator_access grant_id batch
  | RegisterNodeEk record => apply_register_node_ek record batch
  | ActivateNodeEk fingerprint node_id => apply_activate_node_ek db fingerprint node_id batch
  | RevokeNodeEk fingerprint => apply_revoke_node_ek db fingerprint batch
  | SetNodeTaints node_id taints => apply_set_node_taints node_id taints batch
  | RemoveNodeTaint node_id key effect => apply_remove_node_taint db node_id key effect batch
  | ApplyManifests updates => apply_manifests updates batch
  end.
End Commands.

(** [command_action]: the name of a command in the audit log. *)
Definition command_action `{C : Core} (cmd : FleetosCommand) : string :=
  match cmd with
  | CreateTenant _ _ => "CreateTenant"
  | DeleteTenant _ => "DeleteTenant"
  | SubmitWorkloadSpec _ => "SubmitWorkloadSpec"
  | SubmitCronWorkload _ _ => "SubmitCronWorkload"
  | MintJoinToken _ => "MintJoinToken"
  | ConsumeJoinToken _ => "ConsumeJoinToken"
  | SetPcrPolicy _ => "SetPcrPolicy"
  | RegisterNode _ => "RegisterNode"
  | EvictNode _ _ => "EvictNode"
  | PruneExpiredRevokedSvids _ => "PruneExpiredRevokedSvids"
  | SetNodeSchedulable _ _ => "SetNodeSchedulable"
  | NodeHeartbeat _ _ => "NodeHeartbeat"
  | IssueDelegation _ => "IssueDelegation"
  | RevokeDelegation _ _ => "RevokeDelegation"
  | UpsertSagRule _ => "UpsertSagRule"
  | DeleteSagRule _ => "DeleteSagRule"
  | AllocateTenantBlock _ => "AllocateTenantBlock"
  | AllocateServiceAddress _ _ => "AllocateServiceAddress"
  | StoreSecret _ _ => "StoreSecret"
  | GrantSecretAccess _ _ _ => "GrantSecretAccess"
  | RevokeSecretAccess _ _ _ => "RevokeSecretAccess"
  | RecordOrdinalAssignment _ => "RecordOrdinalAssignment"
  | CommitPlacement _ => "CommitPlacement"
  | RemovePlacement _ => "RemovePlacement"
  | ReassignPodId _ _ _ _ _ => "ReassignPodId"
  | StoreNodePool _ => "StoreNodePool"
  | DeleteNodePool _ => "DeleteNodePool"
  | TriggerCronWorkload _ _ => "TriggerCronWorkload"
  | UpsertWorkloadStatus _ => "UpsertWorkloadStatus"
  | GrantOperatorAccess _ => "GrantOperatorAccess"
  | RevokeOperatorAccess _ => "RevokeOperatorAccess"
  | DeleteWorkload _ _ => "DeleteWorkload"
  | ScaleWorkload _ => "ScaleWorkload"
  | ResizeWorkload _ => "ResizeWorkload"
  | UpsertVpaRecommendation _ => "UpsertVpaRecommendation"
  | SetTenantQuota _ => "SetTenantQuota"
  | RegisterControlAddress _ => "RegisterControlAddress"
  | UpsertSvidVersion _ => "UpsertSvidVersion"
  | RegisterNodeEk _ => "RegisterNodeEk"
  | ActivateNodeEk _ _ => "ActivateNodeEk"
  | SetNodeTaints _ _ => "SetNodeTaints"
  | RemoveNodeTaint _ _ _ => "RemoveNodeTaint"
  | ApplyManifests _ => "ApplyManifests"
  | RevokeNodeEk _ => "RevokeNodeEk"
  end.
