(* ===== verification/Apply.v ===== *)
(** * Apply: the apply loop of the state machine

    Models [FjallStateMachine::apply], [applied_state] and [publish_event] of
    [src/raft/state_machine.rs]. Each log entry is staged in a batch of its own,
    with [last_applied], the version and the audit record, committed, and only
    then published. *)

From S2P Require Import Prelude.
From S2P Require Import Storage.
From S2P Require Import Core.
From S2P Require Import Records.
From S2P Require Import Schema.
From S2P Require Import Expansion.
From S2P Require Import Watch.
From S2P Require Import Acl.
From S2P Require Import StateMachine.

Section Apply.
Context `{F : Fjall} `{C : Core} `{W : !Wire C}.

(** [FjallStateMachine]: the database, the in-memory version counter, the trust
    domain, and what went out on the hub and on the version channel, in order. *)
Record FjallStateMachine : Type := {
  sm_db : Db;
  sm_version : Z;
  sm_data_trust_domain : string;
  sm_published : list HubEvent;
  sm_notified : list VersionUpdate
}.

(** ** Publishing *)
Definition sm_publish_sag_update (db : Db) (version : Z) : HubEvent :=
  let snap := build_sag_snapshot db in
  publish_sag_update {|
    sue_version := version;
    sue_rules_bytes := rules_bytes snap;
    sue_revoked_delegation_ids := revoked_delegation_ids snap;
    sue_revoked_spiffe_ids := revoked_spiffe_ids snap |}.

Definition sm_publish_schedule_update (db : Db) (domain : string) (version : Z) : HubEvent :=
  publish_schedule_update {|
    sche_version := version;
    sche_assignments_bytes := build_schedule_snapshot db domain |}.

Definition sm_publish_route_update (db : Db) (domain : string) (version : Z) : HubEvent :=
  publish_route_update {|
    rue_version := version;
    rue_routes_bytes := build_routes_snapshot db domain |}.

Definition publish_event (db : Db) (domain : string) (version : Z) (change_kind : ChangeKind.t) :
    list HubEvent :=
  match change_kind with
  | ChangeKind.Eviction =>
      [sm_publish_sag_update db version; sm_publish_schedule_update db domain version;
       sm_publish_route_update db domain version]
  | ChangeKind.SagUpdate | ChangeKind.RevokedDelegations =>
      [sm_publish_sag_update db version; sm_publish_route_update db domain version]
  | ChangeKind.SecretRotation target_spiffe_id =>
      [publish_watch_event (SecretRotationNotification target_spiffe_id version)]
  | ChangeKind.SvidRotation spiffe_id svid_version =>
      [publish_watch_event (SvidRotation spiffe_id svid_version)]
  | ChangeKind.SchedulingUpdate =>
      [sm_publish_schedule_update db domain version; sm_publish_route_update db domain version]
  | _ => []
  end.

(** ** One entry *)

(** The context logged for a command without one. *)
Definition system_context : AuditContext :=
  {| ac_request_id := ""; ac_actor := "system"; ac_target := ""; ac_timestamp_unix := 0 |}.

(** The payload, staged: the batch, the change kind and the pending audit. The
    pending audit of an entry is taken before the next entry starts. *)
Definition stage_payload (db : Db) (entry : Entry) :
    result SmError (write_batch * ChangeKind.t * option (AuditContext * string)) :=
  match payload entry with
  | Blank => Ok ([], ChangeKind.SagUpdate, None)
  | Normal audited =>
      let ctx := default system_context (audit audited) in
      '(batch, change_kind) ← apply_command db (cmd audited) [];
      Ok (batch, change_kind, Some (ctx, command_action (cmd audited)))
  | MembershipEntry membership =>
      let stored := {| sm_log_id := Some (log_id entry); sm_membership := membership |} in
      serialized ← ser stored;
      Ok (batch_insert ks_raft_state "last_membership" serialized [],
          ChangeKind.ClusterMembership, None)
  end.

Definition audit_record (version : Z) (ctx : AuditContext) (action : string) : AuditRecord := {|
  ar_version := version; ar_request_id := ac_request_id ctx; ar_actor := ac_actor ctx;
  ar_action := action; ar_target := ac_target ctx; ar_timestamp_unix := ac_timestamp_unix ctx |}.

(** The audit record of the entry, in the same batch as the mutation. *)
Definition stage_audit (version : Z) (pending_audit : option (AuditContext * string))
    (batch : write_batch) : result SmError write_batch :=
  match pending_audit with
  | Some (ctx, action) =>
      audit_bytes ← ser (audit_record version ctx action);
      Ok (batch_insert ks_audit_log (to_be_bytes 8 version) audit_bytes batch)
  | None => Ok batch
  end.

Definition set_version (sm : FjallStateMachine) (version : Z) : FjallStateMachine := {|
  sm_db := sm_db sm; sm_version := version;
  sm_data_trust_domain := sm_data_trust_domain sm;
  sm_published := sm_published sm; sm_notified := sm_notified sm |}.

(** The body of the loop. An error before [allocate_version] leaves the state as
    it was; one after it has already advanced the in-memory counter. *)
Definition apply_entry (sm : FjallStateMachine) (entry : Entry) :
    FjallStateMachine * result SmError FleetosResponse :=
  match ('(batch, change_kind, pending_audit) ← stage_payload (sm_db sm) entry;
         lid_bytes ← ser (log_id entry);
         Ok (batch_insert ks_raft_state "last_applied" lid_bytes batch,
             change_kind, pending_audit)) with
  | Err e => (sm, Err e)
  | Ok (batch, change_kind, pending_audit) =>
      let new_version := allocate_version (sm_version sm) in
      let sm := set_version sm new_version in
      let batch := persist_version new_version batch in
      match (batch ← stage_audit new_version pending_audit batch;
             map_err CommitErr (commit (sm_db sm) batch)) with
      | Err e => (sm, Err e)
      | Ok db =>
          ({| sm_db := db;
              sm_version := new_version;
              sm_data_trust_domain := sm_data_trust_domain sm;
              sm_published := sm_published sm ++
                publish_event db (sm_data_trust_domain sm) new_version change_kind;
              sm_notified := sm_notified sm ++
                [{| vu_version := new_version; vu_change_kind := change_kind |}] |},
           Ok {| version := new_version |})
      end
  end.

(** ** [apply]: the loop, which stops at the first error *)
Fixpoint apply (sm : FjallStateMachine) (entries : list Entry) :
    FjallStateMachine * result SmError (list FleetosResponse) :=
  match entries with
  | [] => (sm, Ok [])
  | entry :: entries =>
      match apply_entry sm entry with
      | (sm, Err e) => (sm, Err e)
      | (sm, Ok response) =>
          let '(sm, r) := apply sm entries in
          (sm, responses ← r; Ok (response :: responses))
      end
  end.

(** [applied_state]. *)
Definition applied_state (db : Db) : result SmError (option LogId * StoredMembership) :=
  r ← read (get db ks_raft_state "last_applied");
  last_applied ← match r with Some b => lid ← de b; Ok (Some lid) | None => Ok None end;
  r ← read (get db ks_raft_state "last_membership");
  last_membership ← match r with Some b => de b | None => Ok StoredMembership_default end;
  Ok (last_applied, last_membership).

(** [FjallStateMachine::new] over a freshly opened database. *)
Definition open (db : Db) (domain : string) : FjallStateMachine := {|
  sm_db := db; sm_version := VersionedState_new db; sm_data_trust_domain := domain;
  sm_published := []; sm_notified := [] |}.
End Apply.

(** ** Facts *)

(** Everything one entry writes, in one batch. *)
Definition entry_batch `{F : Fjall} `{C : Core} `{W : !Wire C} (db : Db) (version : Z)
    (entry : Entry) : result SmError (write_batch * ChangeKind.t) :=
  '(batch, change_kind, pending_audit) ← stage_payload db entry;
  lid_bytes ← ser (log_id entry);
  batch ← stage_audit version pending_audit
    (persist_version version (batch_insert ks_raft_state "last_applied" lid_bytes batch));
  Ok (batch, change_kind).

(** The bookkeeping keyspaces every entry writes besides its command's. *)
Definition bookkeeping (ks : Keyspace) : bool :=
  bool_decide (ks = ks_raft_state) || bool_decide (ks = ks_version) ||
  bool_decide (ks = ks_audit_log).

Section ApplyFacts.
Context `{F : Fjall} `{C : Core} `{W : !Wire C} `{!FjallSpec F}.

(** The state after an entry that was applied. *)
Definition applied_sm (sm : FjallStateMachine) (db : Db) (ck : ChangeKind.t) :
    FjallStateMachine :=
  let v := allocate_version (sm_version sm) in
  {| sm_db := db; sm_version := v; sm_data_trust_domain := sm_data_trust_domain sm;
     sm_published := sm_published sm ++ publish_event db (sm_data_trust_domain sm) v ck;
     sm_notified := sm_notified sm ++ [{| vu_version := v; vu_change_kind := ck |}] |}.

Lemma apply_entry_ok sm e sm' r :
  apply_entry sm e = (sm', Ok r) ↔
  ∃ b ck db', entry_batch (sm_db sm) (allocate_version (sm_version sm)) e = Ok (b, ck) ∧
    commit (sm_db sm) b = Ok db' ∧ sm' = applied_sm sm db' ck ∧
    r = {| version := allocate_version (sm_version sm) |}.
Proof.
  unfold apply_entry, entry_batch.
  destruct (stage_payload (sm_db sm) e) as [[[b ck] p]|]; cbn; [|split; [done|by intros (?&?&?&?&?)]].
  destruct (ser (log_id e)) as [lid|]; cbn; [|split; [done|by intros (?&?&?&?&?)]].
  destruct (stage_audit _ _ _) as [b2|]; cbn; [|split; [done|by intros (?&?&?&?&?)]].
  destruct (commit (sm_db sm) b2) as [db'|] eqn:Ec; cbn.
  - split; [intros [= <- <-]; by exists b2, ck, db'|].
    intros (b' & ck' & db2 & [= <- <-] & Hc & -> & ->). rewrite Ec in Hc.
    by injection Hc as <-.
  - split; [done|]. intros (b' & ck' & db2 & [= <- <-] & Hc & _). congruence.
Qed.

(** An entry that fails changes nothing durable and publishes nothing; at most
    the in-memory counter has moved. *)
Lemma apply_entry_err sm e sm' err :
  apply_entry sm e = (sm', Err err) →
  sm_db sm' = sm_db sm ∧ sm_published sm' = sm_published sm ∧
  sm_notified sm' = sm_notified sm ∧ sm_data_trust_domain sm' = sm_data_trust_domain sm ∧
  (sm_version sm' = sm_version sm ∨ sm_version sm' = allocate_version (sm_version sm)).
Proof.
  unfold apply_entry.
  destruct (stage_payload (sm_db sm) e) as [[[b ck] p]|]; cbn; [|naive_solver].
  destruct (ser (log_id e)) as [lid|]; cbn; [|naive_solver].
  destruct (stage_audit _ _ _) as [b2|]; cbn; [|naive_solver].
  destruct (commit (sm_db sm) b2); cbn; naive_solver.
Qed.

(** Runs of [apply], unfolded one entry at a time. *)
Lemma apply_cons_ok sm e es sm' rs :
  apply sm (e :: es) = (sm', Ok rs) ↔
  ∃ sm1 r rs', apply_entry sm e = (sm1, Ok r) ∧ apply sm1 es = (sm', Ok rs') ∧ rs = r :: rs'.
Proof.
  cbn. destruct (apply_entry sm e) as [sm1 [r|err]].
  - destruct (apply sm1 es) as [sm2 [rs'|err]] eqn:E; cbn; split.
    + intros [= <- <-]. by exists sm1, r, rs'.
    + intros (sm3 & r' & rs2 & [= <- <-] & H & ->). by rewrite H in E; injection E as -> ->.
    + done.
    + intros (sm3 & r' & rs2 & [= <- <-] & H & ->). congruence.
  - split; [done|]. by intros (? & ? & ? & ? & ?).
Qed.

(** What holds of the database and is preserved by every applied entry holds after
    [apply], also when it stops at an error. *)
Lemma apply_invariant (P : Db → Prop) sm es sm' res :
  (∀ sm e sm' r, e ∈ es → P (sm_db sm) → apply_entry sm e = (sm', Ok r) → P (sm_db sm')) →
  P (sm_db sm) → apply sm es = (sm', res) → P (sm_db sm').
Proof.
  revert sm res. induction es as [|e es IH]; intros sm res Hstep HP H; cbn in H; [by simplify_eq|].
  destruct (apply_entry sm e) as [sm1 [r|err]] eqn:E.
  - destruct (apply sm1 es) as [sm2 res'] eqn:E2. simplify_eq.
    eapply IH; [| |done].
    + intros sm3 e' sm4 r' Hin. apply Hstep. by right.
    + eapply Hstep; [left|done|done].
  - simplify_eq. by rewrite (proj1 (apply_entry_err _ _ _ _ E)).
Qed.

Lemma entry_batch_ok db v e b ck :
  entry_batch db v e = Ok (b, ck) →
  ∃ b0 p lid, stage_payload db e = Ok (b0, ck, p) ∧ to_allocvec (log_id e) = Some lid ∧
    stage_audit v p (persist_version v (batch_insert ks_raft_state "last_applied" lid b0)) = Ok b.
Proof.
  unfold entry_batch. intros H. ok_inv. destruct a as [[b0 ck0] p]. ok_inv.
  unfold ser in *. ok_inv. by exists b0, p, a.
Qed.

Lemma stage_audit_ok v p b0 b :
  stage_audit v p b0 = Ok b →
  (p = None ∧ b = b0) ∨
  ∃ ctx action bs, p = Some (ctx, action) ∧ to_allocvec (audit_record v ctx action) = Some bs ∧
    b = batch_insert ks_audit_log (to_be_bytes 8 v) bs b0.
Proof.
  destruct p as [[ctx action]|]; cbn; intros H; ok_inv; [right|by left].
  unfold ser in *. ok_inv. by eexists _, _, _.
Qed.

(** Outside the bookkeeping keyspaces an entry writes what its payload staged. *)
Lemma last_write_entry db v e b ck :
  entry_batch db v e = Ok (b, ck) →
  ∃ b0 p, stage_payload db e = Ok (b0, ck, p) ∧
    ∀ ks k, bookkeeping ks = false → last_write b (ks, k) = last_write b0 (ks, k).
Proof.
  intros (b0 & p & lid & H & _ & Ha)%entry_batch_ok. exists b0, p. split; [done|].
  intros ks k Hks.
  unfold bookkeeping in Hks. rewrite !orb_false_iff, !bool_decide_eq_false in Hks.
  destruct Hks as [[H1 H2] H3]. unfold persist_version, batch_insert in *.
  apply stage_audit_ok in Ha as [[-> ->]|(ctx & action & bs & -> & _ & ->)];
    unfold batch_insert; rewrite !last_write_snoc; cbn [op_key];
    repeat (rewrite decide_False by naive_solver); done.
Qed.

(** The state a command leaves, key by key, outside the bookkeeping keyspaces. *)
Lemma apply_entry_lookup sm e sm' r :
  apply_entry sm e = (sm', Ok r) →
  ∃ b0 ck p, stage_payload (sm_db sm) e = Ok (b0, ck, p) ∧
    ∀ ks k, bookkeeping ks = false →
      contents (sm_db sm') !! (ks, k) = apply_batch (contents (sm_db sm)) b0 !! (ks, k).
Proof.
  intros (b & ck & db' & Hb & Hc & -> & ->)%apply_entry_ok. cbn.
  destruct (last_write_entry _ _ _ _ _ Hb) as (b0 & p & H & Hlw).
  exists b0, ck, p. split; [done|]. intros ks k Hks.
  rewrite (commit_spec _ _ _ Hc), !apply_batch_lookup. by rewrite Hlw.
Qed.

Lemma apply_entry_command sm e sm' r a :
  payload e = Normal a → apply_entry sm e = (sm', Ok r) →
  ∃ b0 ck, apply_command (sm_db sm) (cmd a) [] = Ok (b0, ck) ∧
    ∀ ks k, bookkeeping ks = false →
      contents (sm_db sm') !! (ks, k) = apply_batch (contents (sm_db sm)) b0 !! (ks, k).
Proof.
  intros Hp H. destruct (apply_entry_lookup _ _ _ _ H) as (b0 & ck & p & Hs & Hl).
  unfold stage_payload in Hs. rewrite Hp in Hs.
  apply bind_ok in Hs as ([b1 ck1] & Hc & Hs). ok_inv. by exists b0, ck.
Qed.
End ApplyFacts.
