(* ===== verification/Raft.v ===== *)
(** * Raft: proposing a command

    The [openraft] engine is not part of the repository: what the leader's
    controllers and services see of it is [Raft::client_write], the class [Raft]
    below, with its documented behaviour as the class [RaftSpec]. [local_raft] is an
    instance. *)

From S2P Require Import Prelude.
From S2P Require Import Storage.
From S2P Require Import Core.
From S2P Require Import Records.
From S2P Require Import StateMachine.
From S2P Require Import Apply.

(** ** openraft's [client_write], as the leader's controllers and services see it *)

(** [RaftError]: a node that is not the leader names the leader it knows. *)
Inductive RaftError : Type :=
| ForwardToLeader (leader_id : option Z)
| RaftFatal (message : string).

Class Raft `{F : Fjall} `{C : Core} `{W : !Wire C} : Type := {
  client_write : FjallStateMachine → AuditedCommand →
    FjallStateMachine * result RaftError FleetosResponse;
  (** [e.to_string()] *)
  raft_error_to_string : RaftError → string
}.

(** Documented behaviour, for a controller that runs alone: success means that an
    entry with the command was committed and applied here; on an error the command
    may have been applied or not. *)
Class RaftSpec `{F : Fjall} `{C : Core} `{W : !Wire C} (R : Raft) : Prop := {
  client_write_ok sm c sm' r : client_write sm c = (sm', Ok r) →
    ∃ e, payload e = Normal c ∧ apply_entry sm e = (sm', Ok r);
  client_write_err sm c sm' m : client_write sm c = (sm', Err m) →
    sm' = sm ∨ ∃ e, payload e = Normal c ∧ (apply_entry sm e).1 = sm'
}.

(** ** A cluster of one

    What [client_write] does where the leader is the only replica: the command is
    the next entry of the log, and is applied at once. *)
Section LocalRaft.
Context `{F : Fjall} `{C : Core} `{W : !Wire C}.

Definition local_entry (sm : FjallStateMachine) (c : AuditedCommand) : Entry := {|
  log_id := {| lid_term := 1; lid_node_id := 1; lid_index := sm_version sm + 1 |};
  payload := Normal c |}.

Definition local_raft : Raft := {|
  client_write sm c :=
    let '(sm, r) := apply_entry sm (local_entry sm c) in
    (sm, match r with Ok x => Ok x | Err _ => Err (RaftFatal "apply failed") end);
  raft_error_to_string e := match e with ForwardToLeader _ => "forward" | RaftFatal m => m end
|}.

Lemma local_raft_spec : RaftSpec local_raft.
Proof.
  split.
  - intros sm c sm' r. cbn. destruct (apply_entry sm (local_entry sm c)) as [sm1 [x|x]] eqn:E; [|done].
    intros [= <- <-]. by exists (local_entry sm c).
  - intros sm c sm' m. cbn. destruct (apply_entry sm (local_entry sm c)) as [sm1 [x|x]] eqn:E; [done|].
    intros [= <- <-]. right. exists (local_entry sm c). by rewrite E.
Qed.
End LocalRaft.
