(* ===== verification/Rpc.v ===== *)
(** * Rpc: requests, statuses and handlers

    What the gRPC handlers of [src/admin], [src/ca], [src/watch] and
    [src/attestation] share: the status they fail with, the peer identity the TLS
    layer attaches to a request ([src/tls/mod.rs]), the redirect to the leader, and a
    handler as a computation over the replica's state machine. A status is its code
    and the leader address in its metadata; the text of its message is left out. The
    clock and the random bytes a handler reads are arguments. *)

From S2P Require Import Prelude.
From S2P Require Import Storage.
From S2P Require Import Core.
From S2P Require Import Records.
From S2P Require Import StateMachine.
From S2P Require Import Apply.
From S2P Require Import Raft.

(** ** [tonic::Status] *)
Inductive Code : Set :=
| InvalidArgument | NotFound | AlreadyExists | PermissionDenied | ResourceExhausted
| FailedPrecondition | Internal | Unavailable | Unauthenticated | Unimplemented.
#[export] Instance Code_eq_dec : EqDecision Code.
Proof. solve_decision. Defined.

Record Status : Type := { st_code : Code; st_leader_dc_address : option string }.
Definition status (c : Code) : Status := {| st_code := c; st_leader_dc_address := None |}.

(** ** Requests *)
Record PeerConnectInfo `{C : Core} : Type := { ci_spiffe_id : option SpiffeId }.
Record Request `{C : Core} (T : Type) : Type := {
  rq_peer : option PeerConnectInfo;
  rq_message : T
}.
Arguments rq_peer {C T}. Arguments rq_message {C T}. Arguments Build_Request {C T}.

(** [request.extensions().get::<PeerConnectInfo>().and_then(|i| i.spiffe_id)]. *)
Definition caller `{C : Core} {T} (request : Request T) : option SpiffeId :=
  rq_peer request ≫= ci_spiffe_id.

(** ** Handlers: they may fail, and keep what they did before *)
Section Handlers.
Context `{F : Fjall}.

Definition rpc (A : Type) : Type := FjallStateMachine → FjallStateMachine * result Status A.
#[export] Instance rpc_ret : MRet rpc := λ A a sm, (sm, Ok a).
#[export] Instance rpc_bind : MBind rpc := λ A B k m sm,
  match m sm with
  | (sm, Ok a) => k a sm
  | (sm, Err e) => (sm, Err e)
  end.

Definition fail_with {A} (e : Status) : rpc A := λ sm, (sm, Err e).
Definition fail {A} (c : Code) : rpc A := fail_with (status c).
(** [if !b { return Err(..) }]. *)
Definition ensure (b : bool) (c : Code) : rpc () := if b then mret () else fail c.
(** [r.map_err(|e| Status::..)?], on a value and on a read of the database. *)
Definition lift {E A} (c : Code) (r : result E A) : rpc A :=
  match r with Ok a => mret a | Err _ => fail c end.
Definition lift_option {A} (c : Code) (o : option A) : rpc A :=
  match o with Some a => mret a | None => fail c end.
Definition view {A} (f : Db → result Status A) : rpc A := λ sm, (sm, f (sm_db sm)).
Definition view_or {E A} (c : Code) (f : Db → result E A) : rpc A :=
  view (λ db, map_err (λ _, status c) (f db)).

(** A direct write to a keyspace that is not replicated. *)
Definition local_write (op : batch_op) : rpc () := λ sm,
  match commit (sm_db sm) [op] with
  | Ok db =>
      ({| sm_db := db; sm_version := sm_version sm; sm_data_trust_domain := sm_data_trust_domain sm;
          sm_published := sm_published sm; sm_notified := sm_notified sm |}, Ok ())
  | Err _ => (sm, Err (status Internal))
  end.
End Handlers.

(** ** Proposals *)
Section Proposals.
Context `{F : Fjall} `{C : Core} `{W : !Wire C} `{R : !Raft}.

(** [self.raft.client_write(..).await.map_err(|e| Status::internal(..))?]. *)
Definition proposes (c : AuditedCommand) : rpc () := λ sm,
  let '(sm, r) := client_write sm c in
  (sm, match r with Ok _ => Ok () | Err _ => Err (status Internal) end).

(** [leader_dc_address]: the Data/Control address of a control node. *)
Definition leader_dc_address (leader_id : Z) : rpc (option string) :=
  view (λ db,
    r ← map_err (λ _, status Internal) (get db ks_control_addresses (to_be_bytes 8 leader_id));
    match r with
    | Some b => rec ← ok_or (status Internal) (from_bytes b); Ok (Some (cna_dc_addr rec))
    | None => Ok None
    end).

(** [redirect_to_leader]; an address that is not a metadata value is left out. *)
Definition redirect_to_leader (ascii_value : string → bool) (leader_addr : string) : Status :=
  {| st_code := Unavailable;
     st_leader_dc_address := if ascii_value leader_addr then Some leader_addr else None |}.

Definition redirects (ascii_value : string → bool) (leader_id : option Z) : rpc () :=
  leader_id ← lift_option Internal leader_id;
  leader_addr ← leader_dc_address leader_id;
  leader_addr ← lift_option Internal leader_addr;
  fail_with (redirect_to_leader ascii_value leader_addr).

(** The match on [client_write] that redirects to the leader. *)
Definition proposes_or_redirects (ascii_value : string → bool) (c : AuditedCommand) : rpc () := λ sm,
  match client_write sm c with
  | (sm, Ok _) => (sm, Ok ())
  | (sm, Err (ForwardToLeader leader_id)) =>
      redirects ascii_value leader_id sm
  | (sm, Err _) => (sm, Err (status Internal))
  end.
End Proposals.

(** ** Runs of a handler *)
Section HandlerFacts.
Context `{F : Fjall}.

Lemma rpc_bind_ok {A B} (m : rpc A) (k : A → rpc B) sm sm' b :
  (m ≫= k) sm = (sm', Ok b) → ∃ sm1 a, m sm = (sm1, Ok a) ∧ k a sm1 = (sm', Ok b).
Proof.
  unfold mbind, rpc_bind. destruct (m sm) as [sm1 [a|e]]; [|done]. intros H. by exists sm1, a.
Qed.
Lemma rpc_bind_err {A B} (m : rpc A) (k : A → rpc B) sm sm1 e :
  m sm = (sm1, Err e) → (m ≫= k) sm = (sm1, Err e).
Proof. unfold mbind, rpc_bind. by intros ->. Qed.
Lemma rpc_bind_step {A B} (m : rpc A) (k : A → rpc B) sm sm1 a :
  m sm = (sm1, Ok a) → (m ≫= k) sm = k a sm1.
Proof. unfold mbind, rpc_bind. by intros ->. Qed.

Lemma mret_ok {A} (a b : A) (sm sm' : FjallStateMachine) :
  (mret a : rpc A) sm = (sm', Ok b) → sm' = sm ∧ a = b.
Proof. unfold mret, rpc_ret. by intros [= <- <-]. Qed.
Lemma fail_ok {A} c (sm sm' : FjallStateMachine) (a : A) : fail c sm = (sm', Ok a) → False.
Proof. done. Qed.
Lemma ensure_ok b c sm sm' u : ensure b c sm = (sm', Ok u) → sm' = sm ∧ b = true.
Proof. destruct b; [|done]. by intros [= <- <-]. Qed.
Lemma lift_ok {E A} c (r : result E A) sm sm' a :
  lift c r sm = (sm', Ok a) → sm' = sm ∧ r = Ok a.
Proof. destruct r; [|done]. by intros [= <- <-]. Qed.
Lemma lift_option_ok {A} c (o : option A) sm sm' a :
  lift_option c o sm = (sm', Ok a) → sm' = sm ∧ o = Some a.
Proof. destruct o; [|done]. by intros [= <- <-]. Qed.
Lemma view_ok {A} (f : Db → result Status A) sm sm' a :
  view f sm = (sm', Ok a) → sm' = sm ∧ f (sm_db sm) = Ok a.
Proof. by intros [= <- ?]. Qed.
Lemma view_or_ok {E A} c (f : Db → result E A) sm sm' a :
  view_or c f sm = (sm', Ok a) → sm' = sm ∧ f (sm_db sm) = Ok a.
Proof. unfold view_or. intros [-> H]%view_ok. split; [done|]. by destruct (f _); ok_inv. Qed.
Lemma local_write_ok `{!FjallSpec F} op sm sm' u :
  local_write op sm = (sm', Ok u) → contents (sm_db sm') = apply_op (contents (sm_db sm)) op.
Proof.
  unfold local_write. destruct (commit _ _) as [db|] eqn:E; [|done]. intros [= <- <-].
  cbn. by rewrite (commit_spec _ _ _ E).
Qed.

(** Checks never change the state, whatever their result. *)
Definition pure_rpc {A} (m : rpc A) : Prop := ∀ sm, (m sm).1 = sm.
Lemma pure_bind {A B} (m : rpc A) (k : A → rpc B) :
  pure_rpc m → (∀ a, pure_rpc (k a)) → pure_rpc (m ≫= k).
Proof.
  intros Hm Hk sm. unfold mbind, rpc_bind. specialize (Hm sm).
  destruct (m sm) as [sm1 [a|e]]; cbn in Hm; subst; [apply Hk|done].
Qed.
Lemma pure_bind_ok {A B} (m : rpc A) (k : A → rpc B) sm sm' b :
  pure_rpc m → (m ≫= k) sm = (sm', Ok b) → ∃ a, m sm = (sm, Ok a) ∧ k a sm = (sm', Ok b).
Proof.
  intros Hm H. apply rpc_bind_ok in H as (sm1 & a & Ha & H). specialize (Hm sm). rewrite Ha in Hm.
  cbn in Hm. subst sm1. eauto.
Qed.
Lemma pure_mret {A} (a : A) : pure_rpc (mret a).
Proof. done. Qed.
Lemma pure_fail {A} c : pure_rpc (A := A) (fail c).
Proof. done. Qed.
Lemma pure_ensure b c : pure_rpc (ensure b c).
Proof. by destruct b. Qed.
Lemma pure_lift {E A} c (r : result E A) : pure_rpc (lift c r).
Proof. by destruct r. Qed.
Lemma pure_lift_option {A} c (o : option A) : pure_rpc (lift_option c o).
Proof. by destruct o. Qed.
Lemma pure_view {A} (f : Db → result Status A) : pure_rpc (view f).
Proof. done. Qed.
End HandlerFacts.

Create HintDb rpc.
#[export] Hint Resolve pure_bind pure_mret pure_fail pure_ensure pure_lift pure_lift_option
  pure_view : rpc.

(** Splits a successful run into its steps. *)
Ltac rpc_step H :=
  first
  [ apply ensure_ok in H as [-> H] | apply lift_ok in H as [-> H]
  | apply lift_option_ok in H as [-> H] | apply view_or_ok in H as [-> H]
  | apply view_ok in H as [-> H] | apply mret_ok in H as [-> ->]
  | exfalso; exact (fail_ok _ _ _ _ H) ].
