(* ===== verification/Invariant.v ===== *)
(** * Invariant: every record is stored under the key its fields name

    Several arms of the state machine rebuild a key from the record they read
    (an eviction moves a delegation under the key of the record's fields; a
    workload deletion removes a placement under its [pod_id]). They are right
    because of this invariant, which every command preserves. *)

From S2P Require Import Prelude.
From S2P Require Import Storage.
From S2P Require Import Core.
From S2P Require Import Records.
From S2P Require Import Schema.
From S2P Require Import Expansion.
From S2P Require Import Watch.
From S2P Require Import Acl.
From S2P Require Import StateMachine.
From S2P Require Import Apply.

(** The key a value of a keyspace belongs under: [None] for keyspaces without the
    discipline and for values that do not decode. *)
Definition keyed `{C : Core} `{W : !Wire C} (ks : Keyspace) (v : bytes) : option bytes :=
  match ks with
  | ks_tenants => tr_tenant_id <$> from_bytes v
  | ks_tenant_quotas => tq_tenant_id <$> from_bytes v
  | ks_vpa_recommendations =>
      (λ r, pair_key (vr_tenant_id r) (vr_workload_id r)) <$> from_bytes v
  | ks_cron_checkpoints =>
      (λ r, pair_key (ccr_tenant_id r) (ccr_cron_workload_id r)) <$> from_bytes v
  | ks_workload_status => wst_pod_id <$> from_bytes v
  | ks_join_tokens => jt_token <$> from_bytes v
  | ks_pcr_policies => pp_node_id <$> from_bytes v
  | ks_node_eks => ek_fingerprint <$> from_bytes v
  | ks_nodes => nr_node_id <$> from_bytes v
  | ks_revoked_svids => rsr_spiffe_id <$> from_bytes v
  | ks_active_delegations | ks_revoked_delegations =>
      (λ r, composite_delegation_key (dr_node_id r) (dr_delegation_id r)) <$> from_bytes v
  | ks_ordinals =>
      (λ r, ordinal_key (oa_tenant_id r) (oa_service r) (oa_role r) (oa_ordinal r)) <$> from_bytes v
  | ks_placements => pl_pod_id <$> from_bytes v
  | ks_node_pools => np_pool_id <$> from_bytes v
  | ks_control_addresses => (λ r, to_be_bytes 8 (cna_node_id r)) <$> from_bytes v
  | ks_svids => svr_spiffe_id <$> from_bytes v
  | ks_operator_grants => oag_grant_id <$> from_bytes v
  | _ => None
  end.

(** The keyspaces commands write; the others are the log's, the leader-local
    stores' and the bookkeeping of [apply]. *)
Definition command_keyspace (ks : Keyspace) : bool :=
  match ks with
  | ks_tenants | ks_dummy_ips | ks_workloads | ks_placements | ks_ordinals
  | ks_tenant_quotas | ks_vpa_recommendations | ks_cron_checkpoints | ks_workload_status
  | ks_join_tokens | ks_pcr_policies | ks_node_eks | ks_node_taints | ks_sag_rules
  | ks_secrets | ks_node_pools | ks_nodes | ks_revoked_svids | ks_active_delegations
  | ks_revoked_delegations | ks_control_addresses | ks_svids | ks_operator_grants => true
  | _ => false
  end.

Section Invariant.
Context `{F : Fjall} `{C : Core} `{W : !Wire C}.

Definition value_ok (ks : Keyspace) (k v : bytes) : Prop :=
  (∀ k', keyed ks v = Some k' → k' = k) ∧
  (ks = ks_node_taints → from_bytes v ≠ Some ([] : list NodeTaint)).

Definition store_wf (st : store) : Prop :=
  ∀ ks k v, st !! (ks, k) = Some v → value_ok ks k v.

Definition op_ok (op : batch_op) : Prop :=
  command_keyspace (op_key op).1 = true ∧
  match op with BInsert ks k v => value_ok ks k v | BRemove _ _ => True end.

(** A manifest update carries bytes the leader chose: it respects the invariant
    when its own key does. *)
Definition cmd_ok (cmd : FleetosCommand) : Prop :=
  match cmd with
  | ApplyManifests updates =>
      Forall (λ u, ∀ ks, manifest_keyspace (mu_target_keyspace u) = Some ks →
        value_ok ks (mu_target_key u) (mu_new_record_bytes u)) updates
  | _ => True
  end.

Lemma ops_insert ks k v b :
  command_keyspace ks = true → value_ok ks k v → Forall op_ok b →
  Forall op_ok (batch_insert ks k v b).
Proof. intros Hks Hv Hb. apply Forall_app. split; [done|]. by apply Forall_singleton. Qed.

Lemma ops_remove ks k b :
  command_keyspace ks = true → Forall op_ok b → Forall op_ok (batch_remove ks k b).
Proof. intros Hks Hb. apply Forall_app. split; [done|]. by apply Forall_singleton. Qed.

Lemma ops_foldl {A} (f : write_batch → A → write_batch) l b :
  (∀ b a, a ∈ l → Forall op_ok b → Forall op_ok (f b a)) →
  Forall op_ok b → Forall op_ok (foldl f b l).
Proof.
  revert b. induction l as [|a l IH]; intros b Hf Hb; [done|]. cbn. apply IH.
  - intros b' a' Ha. apply Hf. by right.
  - apply Hf; [left|done].
Qed.

(** A value that was just serialized decodes to its record. *)
Lemma ser_ok {A} `{Postcard A} (a : A) v : ser a = Ok v → from_bytes v = Some a.
Proof. unfold ser. intros Hv. ok_inv. by apply from_to_allocvec. Qed.

Lemma de_ok {A} `{Postcard A} (a : A) v : de v = Ok a → from_bytes v = Some a.
Proof. unfold de. intros Hv. by ok_inv. Qed.

Lemma read_get_ok `{!FjallSpec F} db ks k r :
  read (get db ks k) = Ok r → r = contents db !! (ks, k).
Proof. unfold read. intros H. ok_inv. by apply get_spec in H. Qed.
End Invariant.

#[export] Hint Resolve ops_insert ops_remove : ops.

(** [solve_ops] proves that a staged batch respects the invariant: it turns the
    [?]s into equations and checks each insertion against the record serialized. *)
Ltac ser_inv :=
  repeat match goal with
  | H : ser _ = Ok _ |- _ => apply ser_ok in H
  | H : de _ = Ok _ |- _ => apply de_ok in H
  | H : read (get _ _ _) = Ok _ |- _ => apply read_get_ok in H
  end.
Ltac value_ok_tac :=
  split; [cbn [keyed]; intros ? ?; repeat match goal with
    | H : from_bytes ?v = Some _, H' : context [from_bytes ?v] |- _ => rewrite H in H'
    end; by simplify_option_eq | by intros ?].
Ltac solve_ops :=
  intros; ok_inv; ser_inv; repeat (apply ops_insert || apply ops_remove); try done;
  try value_ok_tac.

Section Preservation.
Context `{F : Fjall} `{C : Core} `{W : !Wire C} `{!FjallSpec F}.

(** The invariant, read at the keyspaces the arms rely on. *)
Lemma wf_node st k v r :
  store_wf st → st !! (ks_nodes, k) = Some v → from_bytes v = Some r → nr_node_id r = k.
Proof. intros Hwf Hv Hr. apply (Hwf _ _ _ Hv). cbn. by rewrite Hr. Qed.
Lemma wf_ek st k v r :
  store_wf st → st !! (ks_node_eks, k) = Some v → from_bytes v = Some r → ek_fingerprint r = k.
Proof. intros Hwf Hv Hr. apply (Hwf _ _ _ Hv). cbn. by rewrite Hr. Qed.
Lemma wf_placement st k v r :
  store_wf st → st !! (ks_placements, k) = Some v → from_bytes v = Some r → pl_pod_id r = k.
Proof. intros Hwf Hv Hr. apply (Hwf _ _ _ Hv). cbn. by rewrite Hr. Qed.
Lemma wf_active st k v r :
  store_wf st → st !! (ks_active_delegations, k) = Some v → from_bytes v = Some r →
  composite_delegation_key (dr_node_id r) (dr_delegation_id r) = k.
Proof. intros Hwf Hv Hr. apply (Hwf _ _ _ Hv). cbn. by rewrite Hr. Qed.
Lemma wf_revoked_svid st k v r :
  store_wf st → st !! (ks_revoked_svids, k) = Some v → from_bytes v = Some r →
  rsr_spiffe_id r = k.
Proof. intros Hwf Hv Hr. apply (Hwf _ _ _ Hv). cbn. by rewrite Hr. Qed.

Lemma put_workload_ops r b b' :
  Forall op_ok b → put_workload r b = Ok b' → Forall op_ok b'.
Proof. unfold put_workload. solve_ops. Qed.

Lemma put_checkpoint_ops r b b' :
  Forall op_ok b → put_checkpoint r b = Ok b' → Forall op_ok b'.
Proof. unfold put_checkpoint. solve_ops. Qed.

Lemma free_slots_ops t w l b b' :
  Forall op_ok b → free_slots t w l b = Ok b' → Forall op_ok b'.
Proof.
  unfold free_slots. intros Hb H.
  eapply (foldM_invariant (Forall op_ok)); [|exact Hb|exact H].
  intros b1 [[pod role] o] b2 _ Hb1. solve_ops.
Qed.

Lemma put_taints_ops n ts b b' :
  Forall op_ok b → put_taints n ts b = Ok b' → Forall op_ok b'.
Proof.
  intros Hb. destruct ts as [|t ts]; cbn; solve_ops.
  split; [done|]. intros _ E. congruence.
Qed.

Lemma manifest_keyspace_command s ks : manifest_keyspace s = Some ks → command_keyspace ks = true.
Proof. unfold manifest_keyspace. intros H. by simplify_option_eq. Qed.

Lemma apply_manifests_ops us b b' ck :
  cmd_ok (ApplyManifests us) → Forall op_ok b → apply_manifests us b = Ok (b', ck) →
  Forall op_ok b'.
Proof.
  unfold apply_manifests. intros Hok Hb H. ok_inv. apply ops_foldl; [|done].
  intros b1 u Hu Hb1. destruct (manifest_keyspace _) as [ks|] eqn:E; [|done].
  apply ops_insert; [by eapply manifest_keyspace_command| |done].
  cbn in Hok. rewrite Forall_forall in Hok. by apply Hok.
Qed.

Lemma evict_mark_ops db n b b' :
  store_wf (contents db) → Forall op_ok b → evict_mark db n b = Ok b' → Forall op_ok b'.
Proof.
  unfold evict_mark. intros Hwf Hb H. ok_inv. ser_inv. symmetry in Ha.
  destruct a as [v|]; ok_inv; ser_inv; apply ops_insert; try done; [|value_ok_tac].
  match goal with H : from_bytes v = Some ?r |- _ => pose proof (wf_node _ _ _ _ Hwf Ha H) end.
  value_ok_tac.
Qed.

Lemma evict_delegations_ops db n b b' :
  Forall op_ok b → evict_delegations db n b = Ok b' → Forall op_ok b'.
Proof.
  unfold evict_delegations. intros Hb H.
  eapply (foldM_invariant (Forall op_ok)); [|exact Hb|exact H].
  intros b1 g b2 _ Hb1 H1. ok_inv. destruct a as [k v]. ok_inv.
  destruct (from_bytes v) as [d|] eqn:E; [|done].
  apply ops_insert; [done| |by apply ops_remove]. value_ok_tac.
Qed.

Lemma evict_placements_ops db n b b' :
  Forall op_ok b → evict_placements db n b = Ok b' → Forall op_ok b'.
Proof.
  unfold evict_placements. intros Hb H. ok_inv. apply ops_foldl; [|done].
  intros b1 p _ Hb1. by apply ops_remove.
Qed.

Lemma apply_evict_node_ops db n x b b' ck :
  store_wf (contents db) → Forall op_ok b → apply_evict_node db n x b = Ok (b', ck) →
  Forall op_ok b'.
Proof.
  unfold apply_evict_node. intros Hwf Hb H. ok_inv. ser_inv.
  apply ops_insert; [done|value_ok_tac|].
  eapply evict_placements_ops; [|done]. eapply evict_delegations_ops; [|done].
  by eapply evict_mark_ops.
Qed.

Lemma apply_revoke_delegation_ops db n d b b' ck :
  store_wf (contents db) → Forall op_ok b → apply_revoke_delegation db n d b = Ok (b', ck) →
  Forall op_ok b'.
Proof.
  unfold apply_revoke_delegation. intros Hwf Hb H. ok_inv. ser_inv. subst.
  destruct (contents db !! _) as [v|] eqn:E; [|done].
  apply ops_insert; [done| |by apply ops_remove]. split; [|done]. by apply (Hwf _ _ _ E).
Qed.

(** The arms that read the node's or the key's own record first. *)
Lemma apply_rmw_ops db cmd b b' ck :
  match cmd with
  | SetNodeSchedulable _ _ | NodeHeartbeat _ _ | ActivateNodeEk _ _ | RevokeNodeEk _
  | RemoveNodeTaint _ _ _ => True
  | _ => False
  end →
  store_wf (contents db) → Forall op_ok b → apply_command db cmd b = Ok (b', ck) →
  Forall op_ok b'.
Proof.
  intros Hc Hwf Hb H. destruct cmd; try done; cbn in H;
    unfold apply_set_node_schedulable, apply_node_heartbeat, apply_activate_node_ek,
      apply_revoke_node_ek, apply_remove_node_taint in H;
    ok_inv; ser_inv; symmetry in Ha; destruct a as [v|]; ok_inv; ser_inv; try done;
    try match goal with
    | H : from_bytes v = Some ?r |- _ =>
        first [pose proof (wf_node _ _ _ _ Hwf Ha H) | pose proof (wf_ek _ _ _ _ Hwf Ha H)
              | idtac]
    end.
  - apply ops_insert; [done| |done]. unfold reschedule_node in *.
    destruct (_ && _) in *; value_ok_tac.
  - apply ops_insert; [done|value_ok_tac|done].
  - apply ops_insert; [done|value_ok_tac|done].
  - apply ops_insert; [done|value_ok_tac|done].
  - apply ops_insert; [done|value_ok_tac|done].
  - case_decide; ok_inv; [|done]. by eapply put_taints_ops.
Qed.

Lemma apply_command_ops db cmd b b' ck :
  store_wf (contents db) → cmd_ok cmd → Forall op_ok b →
  apply_command db cmd b = Ok (b', ck) → Forall op_ok b'.
Proof.
  intros Hwf Hok Hb H. destruct cmd;
    try (refine (apply_rmw_ops db _ b b' ck _ Hwf Hb H); exact I); cbn in H;
    try (unfold apply_create_tenant, apply_delete_tenant, apply_set_tenant_quota,
      apply_upsert_vpa_recommendation, apply_upsert_workload_status, apply_mint_join_token,
      apply_consume_join_token, apply_set_pcr_policy, apply_register_node_ek,
      apply_register_node, apply_issue_delegation, apply_upsert_sag_rule,
      apply_delete_sag_rule, apply_allocate_tenant_block, apply_allocate_service_address,
      apply_store_secret, apply_grant_secret_access, apply_revoke_secret_access,
      apply_record_ordinal_assignment, apply_commit_placement, apply_remove_placement,
      apply_store_node_pool, apply_delete_node_pool, apply_register_control_address,
      apply_upsert_svid_version, apply_grant_operator_access, apply_revoke_operator_access in H;
      solve_ops; fail).
  - unfold apply_submit_workload_spec in H. ok_inv. by eapply put_workload_ops.
  - unfold apply_delete_workload in H. ok_inv. eapply free_slots_ops; [|done]. by apply ops_remove.
  - unfold apply_scale_workload in H. ok_inv. eapply free_slots_ops; [|done].
    by eapply put_workload_ops.
  - unfold apply_resize_workload in H. ok_inv. by eapply put_workload_ops.
  - unfold apply_submit_cron_workload in H. ok_inv. eapply put_checkpoint_ops; [|done].
    apply ops_insert; [done|value_ok_tac|done].
  - unfold apply_trigger_cron_workload in H. ok_inv. eapply put_checkpoint_ops; [|done].
    by eapply put_workload_ops.
  - by eapply apply_evict_node_ops.
  - unfold apply_prune_expired_revoked_svids in H. ok_inv. apply ops_foldl; [|done].
    intros b1 id _ Hb1. by apply ops_remove.
  - by eapply apply_revoke_delegation_ops.
  - unfold apply_reassign_pod_id in H. ok_inv. destruct a as [p|]; ok_inv; [|done]. ser_inv.
    apply ops_insert; [done|value_ok_tac|]. apply ops_insert; [done|value_ok_tac|].
    by apply ops_remove.
  - unfold apply_set_node_taints in H. ok_inv. by eapply put_taints_ops.
  - by eapply apply_manifests_ops.
Qed.

(** What a command writes stays in the command keyspaces. *)
Lemma apply_command_keyspaces db cmd b ck op :
  store_wf (contents db) → cmd_ok cmd → apply_command db cmd [] = Ok (b, ck) →
  op ∈ b → command_keyspace (op_key op).1 = true.
Proof.
  intros Hwf Hok H Hop. pose proof (apply_command_ops _ _ _ _ _ Hwf Hok (Forall_nil_2 _) H) as Hb.
  rewrite Forall_forall in Hb. by apply Hb in Hop as [? _].
Qed.

(** ** Preservation *)
Definition entry_ok (e : Entry) : Prop :=
  match payload e with Normal a => cmd_ok (cmd a) | _ => True end.

Lemma apply_batch_wf st b : store_wf st → Forall op_ok b → store_wf (apply_batch st b).
Proof.
  intros Hst. induction b as [|op b IH] using rev_ind; [done|].
  rewrite Forall_app, Forall_singleton, apply_batch_snoc. intros [Hb [_ Hop]] ks k v Hl.
  rewrite apply_op_lookup in Hl. case_decide as E; [|by apply (IH Hb)].
  destruct op as [ks' k' v'|]; cbn in *; [|done]. by simplify_eq.
Qed.

Lemma bookkeeping_value_ok ks k v : bookkeeping ks = true → value_ok ks k v.
Proof.
  unfold bookkeeping. rewrite !orb_true_iff, !bool_decide_eq_true.
  intros [[->| ->]| ->]; by split.
Qed.

Lemma stage_payload_ops db e b ck p :
  store_wf (contents db) → entry_ok e → stage_payload db e = Ok (b, ck, p) →
  Forall op_ok b ∨ ∃ k v, b = [BInsert ks_raft_state k v].
Proof.
  unfold entry_ok, stage_payload. intros Hwf Hok H. destruct (payload e) as [|a|m]; ok_inv.
  - by left.
  - destruct a0 as [b0 ck0]. ok_inv. left. by eapply apply_command_ops.
  - right. by eexists _, _.
Qed.

Lemma apply_entry_wf sm e sm' r :
  store_wf (contents (sm_db sm)) → entry_ok e → apply_entry sm e = (sm', Ok r) →
  store_wf (contents (sm_db sm')).
Proof.
  intros Hwf Hok H ks k v Hl. destruct (bookkeeping ks) eqn:Hks; [by apply bookkeeping_value_ok|].
  destruct (apply_entry_lookup _ _ _ _ H) as (b0 & ck & p & Hs & E).
  rewrite (E _ _ Hks) in Hl.
  destruct (stage_payload_ops _ _ _ _ _ Hwf Hok Hs) as [Hb|(k0 & v0 & ->)].
  - by apply (apply_batch_wf _ _ Hwf Hb).
  - cbn in Hl. rewrite lookup_insert_ne in Hl by naive_solver. by apply Hwf.
Qed.

Lemma apply_wf sm es sm' res :
  store_wf (contents (sm_db sm)) → Forall entry_ok es → apply sm es = (sm', res) →
  store_wf (contents (sm_db sm')).
Proof.
  intros Hwf Hes H. rewrite Forall_forall in Hes.
  refine (apply_invariant (λ db, store_wf (contents db)) _ _ _ _ _ Hwf H).
  intros sm1 e sm2 r Hin Hwf1 H1. eapply apply_entry_wf; eauto.
Qed.

Lemma store_wf_empty : store_wf ∅.
Proof. intros ks k v H. by rewrite lookup_empty in H. Qed.
End Preservation.
