(* ===== verification/Demo.v ===== *)
(** * Demo: a concrete cluster state

    A state machine over the in-memory database and the concrete codecs, after a
    few commands: the input on which the theorems are exercised. *)

From S2P Require Import Prelude.
From S2P Require Import Storage.
From S2P Require Import Core.
From S2P Require Import Records.
From S2P Require Import WireInstance.
From S2P Require Import Schema.
From S2P Require Import Expansion.
From S2P Require Import Watch.
From S2P Require Import Acl.
From S2P Require Import StateMachine.
From S2P Require Import Apply.
From S2P Require Import Invariant.

(** The instances the examples run on; the files of the development import this
    module for their examples only, after their sections. *)
Module DemoInstances.
#[export] Existing Instance demo_core.
#[export] Existing Instance demo_core_spec.
#[export] Existing Instance demo_wire.
#[export] Existing Instance MemFjall.mem_fjall.
#[export] Existing Instance MemFjall.mem_fjall_spec.
#[export] Existing Instance MemFjall.mem_fjall_reliable.
End DemoInstances.
Import DemoInstances.

(** An entry with a system command at a log index. *)
Definition demo_entry (index : Z) (c : FleetosCommand) : Entry := {|
  log_id := {| lid_term := 1; lid_node_id := 1; lid_index := index |};
  payload := Normal (system c) |}.

Definition demo_node (id : string) : NodeRecord := {|
  nr_node_id := id; nr_node_kind := 1; nr_status := Active; nr_schedulable := true;
  nr_last_heartbeat := 100; nr_registered_at := 100; nr_capacity_cpu_millicores := 4000;
  nr_capacity_memory_bytes := 8000; nr_failure_domain := "zone-a" |}.

Definition demo_placement (pod node : string) (ordinal : Z) : Placement := {|
  pl_pod_id := pod; pl_tenant_id := "acme"; pl_service := "web"; pl_role := "primary";
  pl_ordinal := ordinal; pl_node_id := node;
  pl_resources := {| cpu_millicores := 1000; memory_bytes := 1000 |} |}.

Definition demo_delegation (id node : string) : DelegationRecord := {|
  dr_delegation_id := id; dr_node_id := node; dr_target_svid_id := "acme/web";
  dr_target_ordinal := Some 0; dr_issued_at := 100; dr_expires_at := 14500;
  dr_refresh_at := 10900 |}.

Definition demo_commands : list FleetosCommand := [
  RegisterNode (demo_node "spiffe://n1"); RegisterNode (demo_node "spiffe://n2");
  CommitPlacement (demo_placement "web-primary-0" "n1" 0);
  CommitPlacement (demo_placement "web-primary-1" "n2" 1);
  IssueDelegation (demo_delegation "d1" "n1"); IssueDelegation (demo_delegation "d2" "n2")].
Definition demo_entries : list Entry :=
  imap (λ i c, demo_entry (Z.of_nat i + 1) c) demo_commands.

Definition demo_init : FjallStateMachine := open (∅ : store) "fleet.internal".
Definition demo_sm : FjallStateMachine := (apply demo_init demo_entries).1.

Lemma demo_wf : store_wf (contents (sm_db demo_sm)).
Proof.
  eapply (apply_wf demo_init demo_entries).
  - apply store_wf_empty.
  - repeat (constructor; [done|]). constructor.
  - apply surjective_pairing.
Qed.
