(* ===== verification/Replication.v ===== *)
(** * Replication: replicas agree, versions are consecutive, failures are atomic

    What the rest of the system relies on in [FjallStateMachine::apply]
    ([src/raft/state_machine.rs]): it is a function of the log and of the
    committed contents. *)

From S2P Require Import Prelude.
From S2P Require Import Storage.
From S2P Require Import Core.
From S2P Require Import Records.
From S2P Require Import WireInstance.
From S2P Require Import Schema.
From S2P Require Import Expansion.
From S2P Require Import Watch.
From S2P Require Import Acl.
From S2P Require Import StateMachine.
From S2P Require Import Apply.
From S2P Require Import Invariant.
From S2P Require Import Demo.

(** ** Replicas

    Two replicas are in the same state when nothing a client or a subscriber can
    observe tells them apart: the log, the installed snapshot and the
    representation of the database may differ. *)
Section Replicas.
Context `{F : Fjall} `{C : Core} `{W : !Wire C} `{!FjallSpec F} `{!FjallReliable F}.

(** The part of a database that the log determines: the keyspaces of a snapshot,
    except the metadata of the snapshot a replica happens to have installed. *)
Definition replicated (key : Keyspace * bytes) : bool :=
  in_snapshot key.1 && bool_decide (key ≠ (ks_raft_state, "snapshot_meta")).
Definition db_equiv (db1 db2 : Db) : Prop :=
  ∀ key, replicated key = true → contents db1 !! key = contents db2 !! key.

(** The keyspaces commands and subscribers read. *)
Definition shared (ks : Keyspace) : bool := in_snapshot ks && bool_decide (ks ≠ ks_raft_state).

Record sm_equiv (sm1 sm2 : FjallStateMachine) : Prop := {
  equiv_db : db_equiv (sm_db sm1) (sm_db sm2);
  equiv_version : sm_version sm1 = sm_version sm2;
  equiv_domain : sm_data_trust_domain sm1 = sm_data_trust_domain sm2
}.

(** The same messages went out of both since [sm1] and [sm2]. *)
Definition same_output (sm1 sm1' sm2 sm2' : FjallStateMachine) : Prop :=
  ∃ pub upd, sm_published sm1' = sm_published sm1 ++ pub ∧
    sm_published sm2' = sm_published sm2 ++ pub ∧
    sm_notified sm1' = sm_notified sm1 ++ upd ∧ sm_notified sm2' = sm_notified sm2 ++ upd.

#[export] Instance sm_equiv_equivalence : Equivalence sm_equiv.
Proof.
  split.
  - intros sm. by split.
  - intros sm1 sm2 [Hdb ? ?]. split; [|done..]. intros key Hk. by rewrite (Hdb key Hk).
  - intros sm1 sm2 sm3 [Hdb ? ?] [Hdb' ? ?]. split; [|congruence..].
    intros key Hk. by rewrite (Hdb key Hk), (Hdb' key Hk).
Qed.

Lemma same_output_refl sm1 sm2 : same_output sm1 sm1 sm2 sm2.
Proof. exists [], []. by rewrite !app_nil_r. Qed.

Lemma same_output_trans sm1 sm1' sm1'' sm2 sm2' sm2'' :
  same_output sm1 sm1' sm2 sm2' → same_output sm1' sm1'' sm2' sm2'' →
  same_output sm1 sm1'' sm2 sm2''.
Proof.
  intros (p & u & H1 & H2 & H3 & H4) (p' & u' & H1' & H2' & H3' & H4').
  exists (p ++ p'), (u ++ u'). rewrite H1', H2', H3', H4', H1, H2, H3, H4.
  by rewrite !app_assoc.
Qed.

Lemma shared_lookup db1 db2 ks k :
  shared ks = true → db_equiv db1 db2 → contents db1 !! (ks, k) = contents db2 !! (ks, k).
Proof.
  unfold shared. intros [Hs Hks]%andb_true_iff H. apply H. unfold replicated. cbn. rewrite Hs.
  apply bool_decide_eq_true in Hks. apply bool_decide_eq_true. naive_solver.
Qed.

Lemma get_equiv db1 db2 ks k :
  shared ks = true → db_equiv db1 db2 → get db1 ks k = get db2 ks k.
Proof. intros Hs H. by rewrite !get_eq, (shared_lookup _ _ _ k Hs H). Qed.

Lemma prefix_equiv db1 db2 ks p :
  shared ks = true → db_equiv db1 db2 → prefix db1 ks p = prefix db2 ks p.
Proof.
  intros Hs H. rewrite !prefix_eq. f_equal. apply scan_ext. intros k. by apply shared_lookup.
Qed.

Lemma values_equiv db1 db2 ks p :
  shared ks = true → db_equiv db1 db2 → values db1 ks p = values db2 ks p.
Proof. intros Hs H. unfold values. by rewrite (prefix_equiv db1 db2). Qed.

(** Replace every read of [db1] by the same read of [db2]. *)
Ltac reads_equiv db1 db2 H :=
  repeat match goal with
  | |- context [get db1 ?ks ?k] => rewrite (get_equiv db1 db2 ks k eq_refl H)
  | |- context [values db1 ?ks ?k] => rewrite (values_equiv db1 db2 ks k eq_refl H)
  | |- context [prefix db1 ?ks ?k] => rewrite (prefix_equiv db1 db2 ks k eq_refl H)
  end.

Lemma apply_evict_node_equiv db1 db2 n x b :
  db_equiv db1 db2 → apply_evict_node db1 n x b = apply_evict_node db2 n x b.
Proof.
  intros H. unfold apply_evict_node, evict_mark, evict_delegations, evict_placements,
    collect_placements. apply bind_ext; [reflexivity|intros id].
  apply bind_ext; [by reads_equiv db1 db2 H|intros b1].
  apply bind_ext; [by reads_equiv db1 db2 H|intros b2].
  apply bind_ext; [by reads_equiv db1 db2 H|reflexivity].
Qed.

Lemma apply_revoke_delegation_equiv db1 db2 n d b :
  db_equiv db1 db2 → apply_revoke_delegation db1 n d b = apply_revoke_delegation db2 n d b.
Proof.
  intros H. unfold apply_revoke_delegation. apply bind_ext; [reflexivity|intros id].
  by reads_equiv db1 db2 H.
Qed.

(** A command stages the same writes on every replica. *)
Lemma apply_command_equiv db1 db2 c b :
  db_equiv db1 db2 → apply_command db1 c b = apply_command db2 c b.
Proof.
  intros H. destruct c; cbn [apply_command]; try reflexivity;
    try (by apply apply_evict_node_equiv); try (by apply apply_revoke_delegation_equiv);
    unfold apply_delete_workload, apply_scale_workload, apply_upsert_workload_status,
      apply_activate_node_ek, apply_revoke_node_ek, apply_remove_node_taint,
      apply_set_node_schedulable, apply_node_heartbeat,
      apply_prune_expired_revoked_svids, apply_grant_secret_access,
      apply_revoke_secret_access, apply_reassign_pod_id, read_acl, collect_placements;
    reads_equiv db1 db2 H; reflexivity.
Qed.

Lemma build_sag_snapshot_equiv db1 db2 :
  db_equiv db1 db2 → build_sag_snapshot db1 = build_sag_snapshot db2.
Proof. intros H. unfold build_sag_snapshot. by reads_equiv db1 db2 H. Qed.

Lemma build_schedule_snapshot_equiv db1 db2 d :
  db_equiv db1 db2 → build_schedule_snapshot db1 d = build_schedule_snapshot db2 d.
Proof.
  intros H. unfold build_schedule_snapshot. reads_equiv db1 db2 H.
  f_equal. f_equal. apply omap_pointwise. intros v.
  destruct (from_bytes v) as [p|]; [|done]. cbn. f_equal.
  unfold assignment_record, lookup_workload_spec. by reads_equiv db1 db2 H.
Qed.

Lemma build_routes_snapshot_equiv db1 db2 d :
  db_equiv db1 db2 → build_routes_snapshot db1 d = build_routes_snapshot db2 d.
Proof.
  intros H. unfold build_routes_snapshot, compute_source_index.
  reads_equiv db1 db2 H. f_equal. f_equal. apply omap_pointwise. intros v.
  destruct (from_bytes v) as [p|]; [|done]. cbn. f_equal.
  unfold route_record. by reads_equiv db1 db2 H.
Qed.

Lemma publish_event_equiv db1 db2 d v ck :
  db_equiv db1 db2 → publish_event db1 d v ck = publish_event db2 d v ck.
Proof.
  intros H. unfold publish_event, sm_publish_sag_update, sm_publish_schedule_update,
    sm_publish_route_update.
  by rewrite (build_sag_snapshot_equiv _ _ H), (build_schedule_snapshot_equiv _ _ d H),
    (build_routes_snapshot_equiv _ _ d H).
Qed.

Lemma entry_batch_equiv db1 db2 v e :
  db_equiv db1 db2 → entry_batch db1 v e = entry_batch db2 v e.
Proof.
  intros H. unfold entry_batch, stage_payload. destruct (payload e) as [|a|m]; try done.
  by rewrite (apply_command_equiv _ _ _ _ H).
Qed.

Lemma commit_equiv db1 db2 b :
  db_equiv db1 db2 → ∃ db1' db2', commit db1 b = Ok db1' ∧ commit db2 b = Ok db2' ∧
    db_equiv db1' db2'.
Proof.
  intros H. destruct (commit_reliable db1 b) as [db1' H1].
  destruct (commit_reliable db2 b) as [db2' H2]. exists db1', db2'. split_and!; try done.
  intros key Hk. rewrite (commit_spec _ _ _ H1), (commit_spec _ _ _ H2).
  by rewrite !apply_batch_lookup, (H key Hk).
Qed.

Lemma apply_entry_equiv sm1 sm2 e :
  sm_equiv sm1 sm2 →
  sm_equiv (apply_entry sm1 e).1 (apply_entry sm2 e).1 ∧
  same_output sm1 (apply_entry sm1 e).1 sm2 (apply_entry sm2 e).1 ∧
  (apply_entry sm1 e).2 = (apply_entry sm2 e).2.
Proof.
  intros [Hdb Hv Hd]. unfold apply_entry.
  assert (Hs : stage_payload (sm_db sm1) e = stage_payload (sm_db sm2) e).
  { unfold stage_payload. destruct (payload e) as [|a|m]; try done.
    by rewrite (apply_command_equiv _ _ _ _ Hdb). }
  assert (Herr : ∀ v, same_output sm1 (set_version sm1 v) sm2 (set_version sm2 v)).
  { intros v. exists [], []. cbn. by rewrite !app_nil_r. }
  rewrite Hs. destruct (stage_payload (sm_db sm2) e) as [[[b ck] p]|]; cbn;
    [|split_and!; [by split|apply same_output_refl|done]].
  destruct (ser (log_id e)) as [lid|]; cbn;
    [|split_and!; [by split|apply same_output_refl|done]].
  rewrite Hv, Hd. destruct (stage_audit _ p _) as [b'|]; cbn;
    [|split_and!; [by split|apply Herr|done]].
  destruct (commit_equiv _ _ b' Hdb) as (db1' & db2' & -> & -> & Hdb'). cbn.
  split_and!; [by split| |done]. rewrite (publish_event_equiv _ _ _ _ _ Hdb').
  by eexists _, _.
Qed.

Lemma apply_equiv sm1 sm2 es :
  sm_equiv sm1 sm2 →
  sm_equiv (apply sm1 es).1 (apply sm2 es).1 ∧
  same_output sm1 (apply sm1 es).1 sm2 (apply sm2 es).1 ∧
  (apply sm1 es).2 = (apply sm2 es).2.
Proof.
  revert sm1 sm2. induction es as [|e es IH]; intros sm1 sm2 H.
  { split_and!; [done|apply same_output_refl|done]. }
  cbn. destruct (apply_entry_equiv _ _ e H) as (He & Ho & Hr).
  destruct (apply_entry sm1 e) as [sm1' r1], (apply_entry sm2 e) as [sm2' r2]; cbn in *.
  subst r2. destruct r1 as [r|err]; [|done].
  destruct (IH _ _ He) as (He' & Ho' & Hr').
  destruct (apply sm1' es) as [sm1'' r1'], (apply sm2' es) as [sm2'' r2']; cbn in *.
  subst r2'. split_and!; [done|by eapply same_output_trans|done].
Qed.

(** The resulting state respects the equivalence of replicas. *)
#[export] Instance apply_proper : Proper (sm_equiv ==> (=) ==> sm_equiv) (λ sm es, (apply sm es).1).
Proof. intros sm1 sm2 H es ? <-. apply apply_equiv, H. Qed.

Lemma apply_app_ok sm es1 es2 sm' rs :
  apply sm (es1 ++ es2) = (sm', Ok rs) →
  ∃ sm1 rs1 rs2, apply sm es1 = (sm1, Ok rs1) ∧ apply sm1 es2 = (sm', Ok rs2) ∧
    rs = rs1 ++ rs2.
Proof.
  revert sm rs. induction es1 as [|e es1 IH]; intros sm rs H; [by exists sm, [], rs|].
  change ((e :: es1) ++ es2) with (e :: (es1 ++ es2)) in H.
  apply apply_cons_ok in H as (sm1 & r & rs' & He & H & ->).
  apply IH in H as (sm2 & rs1 & rs2 & H1 & H2 & ->).
  exists sm2, (r :: rs1), rs2. split_and!; [|done|done]. apply apply_cons_ok. eauto 6.
Qed.
End Replicas.

(** ** Versions and the audit log *)
Section Versions.
Context `{F : Fjall} `{C : Core} `{W : !Wire C} `{!FjallSpec F}.

Lemma allocate_version_small v : 0 ≤ v < 2 ^ 64 - 1 → allocate_version v = v + 1.
Proof. intros H. apply wrap_u64_small. unfold is_u64. lia. Qed.

Lemma apply_versions sm es sm' rs :
  apply sm es = (sm', Ok rs) → 0 ≤ sm_version sm →
  sm_version sm + Z.of_nat (length es) < 2 ^ 64 →
  version <$> rs = seqZ (sm_version sm + 1) (Z.of_nat (length es)) ∧
  sm_version sm' = sm_version sm + Z.of_nat (length es).
Proof.
  revert sm rs. induction es as [|e es IH]; intros sm rs H H0 Hlt.
  - cbn in H. injection H as <- <-. split; [done|cbn; lia].
  - apply apply_cons_ok in H as (sm1 & r & rs' & He & H & ->).
    apply apply_entry_ok in He as (b & ck & db' & _ & _ & -> & ->).
    cbn [length] in *. cbn [sm_version applied_sm] in *.
    assert (Hv : allocate_version (sm_version sm) = sm_version sm + 1)
      by (apply allocate_version_small; lia).
    destruct (IH _ _ H) as [Hrs Hsm]; cbn [sm_version applied_sm] in *; [lia..|].
    rewrite Hv in Hrs, Hsm. split; [|rewrite Hsm; lia]. cbn [fmap list_fmap version]. rewrite Hrs, Hv.
    rewrite Nat2Z.inj_succ, (seqZ_cons (sm_version sm + 1)) by lia. f_equal. f_equal; lia.
Qed.

(** What one applied entry leaves in the bookkeeping keyspaces. *)
Lemma entry_last_writes db v e b ck :
  entry_batch db v e = Ok (b, ck) →
  last_write b (ks_version, "current") = Some (Some (to_le_bytes 8 v)) ∧
  ∃ lid, from_bytes lid = Some (log_id e) ∧
    last_write b (ks_raft_state, "last_applied") = Some (Some lid).
Proof.
  intros (b0 & p & lid & _ & Hlid & Ha)%entry_batch_ok.
  apply from_to_allocvec in Hlid.
  apply stage_audit_ok in Ha as [[-> ->]|(ctx & action & bs & -> & _ & ->)];
    unfold persist_version, batch_insert; rewrite !last_write_snoc; cbn [op_key].
  - rewrite decide_True, decide_False, decide_True by done. by split; [|exists lid].
  - rewrite decide_False, decide_True, decide_False, decide_False, decide_True by done.
    by split; [|exists lid].
Qed.

Lemma apply_last_entry sm es e sm' rs :
  apply sm (es ++ [e]) = (sm', Ok rs) →
  contents (sm_db sm') !! (ks_version, "current") = Some (to_le_bytes 8 (sm_version sm')) ∧
  ∃ lid, from_bytes lid = Some (log_id e) ∧
    contents (sm_db sm') !! (ks_raft_state, "last_applied") = Some lid.
Proof.
  revert sm rs. induction es as [|e' es IH]; intros sm rs H.
  - apply apply_cons_ok in H as (sm1 & r & rs' & He & H & ->). cbn in H. injection H as <- <-.
    apply apply_entry_ok in He as (b & ck & db' & Hb & Hc & -> & ->). cbn.
    rewrite (commit_spec _ _ _ Hc), !apply_batch_lookup.
    apply entry_last_writes in Hb as [-> (lid & Hlid & ->)]. split; [done|]. by exists lid.
  - apply apply_cons_ok in H as (sm1 & r & rs' & _ & H & ->). by eapply IH.
Qed.

(** Audit records: an entry writes at most the record of its own version. *)
Lemma apply_entry_audit sm e sm' r :
  store_wf (contents (sm_db sm)) → entry_ok e → apply_entry sm e = (sm', Ok r) →
  (∀ k, k ≠ to_be_bytes 8 (sm_version sm') →
    contents (sm_db sm') !! (ks_audit_log, k) = contents (sm_db sm) !! (ks_audit_log, k)) ∧
  ∀ a, payload e = Normal a → ∃ bs,
    contents (sm_db sm') !! (ks_audit_log, to_be_bytes 8 (sm_version sm')) = Some bs ∧
    from_bytes bs = Some (audit_record (sm_version sm') (default system_context (audit a))
      (command_action (cmd a))).
Proof.
  intros Hwf Hok (b & ck & db' & Hb & Hc & -> & _)%apply_entry_ok. cbn [sm_db sm_version applied_sm].
  set (v := allocate_version (sm_version sm)) in *.
  apply entry_batch_ok in Hb as (b0 & p & lid & Hs & _ & Ha).
  assert (H0 : ∀ k, last_write b0 (ks_audit_log, k) = None).
  { intros k. apply last_write_none, Forall_forall. intros op Hop Heq.
    destruct (stage_payload_ops _ _ _ _ _ Hwf Hok Hs) as [Hall|(k0 & v0 & ->)].
    - rewrite Forall_forall in Hall. apply Hall in Hop as [Hks _]. by rewrite Heq in Hks.
    - apply list_elem_of_singleton in Hop as ->. done. }
  rewrite (commit_spec _ _ _ Hc). setoid_rewrite apply_batch_lookup.
  apply stage_audit_ok in Ha as [[-> ->]|(ctx & action & bs & -> & Hbs & ->)];
    unfold persist_version, batch_insert; split.
  - intros k _. rewrite !last_write_snoc, !decide_False by done. by rewrite H0.
  - intros a Ha. unfold stage_payload in Hs. rewrite Ha in Hs.
    apply bind_ok in Hs as ([b1 ck1] & _ & Hs). ok_inv. done.
  - intros k Hk. rewrite !last_write_snoc, !decide_False by naive_solver. by rewrite H0.
  - intros a Ha. unfold stage_payload in Hs. rewrite Ha in Hs.
    apply bind_ok in Hs as ([b1 ck1] & _ & Hs). ok_inv.
    exists bs. rewrite last_write_snoc, decide_True by done. split; [done|].
    by apply from_to_allocvec.
Qed.
End Versions.

(** ** Restarts *)
Section Restarts.
Context `{F : Fjall} `{C : Core} `{W : !Wire C} `{!FjallSpec F} `{!FjallReliable F}.

(** What happens to a replica: openraft hands it entries, or the process restarts
    and reopens its database. *)
Inductive replica_event : Type :=
| Deliver (entries : list Entry)
| Restart.

Definition replica_step (sm : FjallStateMachine) (ev : replica_event) : FjallStateMachine :=
  match ev with
  | Deliver es => (apply sm es).1
  | Restart => open (sm_db sm) (sm_data_trust_domain sm)
  end.
Definition run (sm : FjallStateMachine) (evs : list replica_event) : FjallStateMachine :=
  foldl replica_step sm evs.
Definition log (evs : list replica_event) : list Entry :=
  mjoin ((λ ev, match ev with Deliver es => es | Restart => [] end) <$> evs).

(** Opening the database finds the version the replica has in memory. *)
Definition version_synced (sm : FjallStateMachine) : Prop :=
  VersionedState_new (sm_db sm) = sm_version sm.

Lemma version_synced_persisted sm :
  is_u64 (sm_version sm) →
  contents (sm_db sm) !! (ks_version, "current") = Some (to_le_bytes 8 (sm_version sm)) →
  version_synced sm.
Proof.
  intros Hv H. unfold version_synced, VersionedState_new, load_persisted_version.
  rewrite get_eq, H. cbn [map_err mbind result_bind].
  rewrite decide_True by apply to_le_bytes_length. cbn -[from_le_bytes to_le_bytes]. rewrite from_to_le_bytes.
  by apply Z.mod_small.
Qed.

Lemma apply_synced sm es sm' rs :
  version_synced sm → 0 ≤ sm_version sm → sm_version sm + Z.of_nat (length es) < 2 ^ 64 →
  apply sm es = (sm', Ok rs) → version_synced sm'.
Proof.
  intros Hs H0 Hlt H. destruct es as [|e es _] using rev_ind.
  { cbn in H. by injection H as <- _. }
  pose proof (apply_versions _ _ _ _ H H0 Hlt) as [_ Hv].
  destruct (apply_last_entry _ _ _ _ _ H) as [Hc _].
  apply version_synced_persisted; [|done]. unfold is_u64. lia.
Qed.
End Restarts.

(** ** The membership recorded in the log *)
Section MembershipState.
Context `{F : Fjall} `{C : Core} `{W : !Wire C} `{!FjallSpec F}.

Definition stored_membership (st : store) : StoredMembership :=
  default StoredMembership_default (st !! (ks_raft_state, "last_membership") ≫= from_bytes).

Definition membership_readable (st : store) : Prop :=
  ∀ v, st !! (ks_raft_state, "last_membership") = Some v →
    is_Some (from_bytes v : option StoredMembership).

(** The membership in force after a log: that of its last membership entry. *)
Definition next_membership (m : StoredMembership) (e : Entry) : StoredMembership :=
  match payload e with
  | MembershipEntry mm => {| sm_log_id := Some (log_id e); sm_membership := mm |}
  | _ => m
  end.

Lemma apply_entry_membership sm e sm' r :
  store_wf (contents (sm_db sm)) → entry_ok e → membership_readable (contents (sm_db sm)) →
  apply_entry sm e = (sm', Ok r) →
  membership_readable (contents (sm_db sm')) ∧
  stored_membership (contents (sm_db sm')) =
    next_membership (stored_membership (contents (sm_db sm))) e.
Proof.
  intros Hwf Hok Hm (b & ck & db' & Hb & Hc & -> & _)%apply_entry_ok. cbn [sm_db applied_sm].
  apply entry_batch_ok in Hb as (b0 & p & lid & Hs & _ & Ha).
  assert (E : contents db' !! (ks_raft_state, "last_membership") =
    default (contents (sm_db sm) !! (ks_raft_state, "last_membership"))
      (last_write b0 (ks_raft_state, "last_membership"))).
  { rewrite (commit_spec _ _ _ Hc), apply_batch_lookup.
    apply stage_audit_ok in Ha as [[-> ->]|(ctx & action & bs & -> & _ & ->)];
      unfold persist_version, batch_insert; by rewrite !last_write_snoc, !decide_False. }
  unfold membership_readable, stored_membership, next_membership. rewrite E. clear E Ha Hc.
  destruct (stage_payload_ops _ _ _ _ _ Hwf Hok Hs) as [Hall|(k0 & v0 & ->)].
  - assert (last_write b0 (ks_raft_state, "last_membership") = None) as ->.
    { apply last_write_none, Forall_forall. intros op Hop Heq. rewrite Forall_forall in Hall.
      apply Hall in Hop as [Hks _]. by rewrite Heq in Hks. }
    split; [done|]. unfold stage_payload in Hs. destruct (payload e); try done.
    apply bind_ok in Hs as (v & _ & Hs). ok_inv.
    apply Forall_app in Hall as [_ [[? _] _]%Forall_cons]. done.
  - unfold stage_payload, entry_ok in *. destruct (payload e) as [|a|m]; [done| |].
    + apply bind_ok in Hs as ([b1 ck1] & Hs' & Hs). ok_inv.
      pose proof (apply_command_ops _ _ _ _ _ Hwf Hok (Forall_nil_2 _) Hs') as Hall.
      apply Forall_cons in Hall as [[? _] _]. done.
    + apply bind_ok in Hs as (v & Hv & Hs). ok_inv. ser_inv. cbn. rewrite decide_True by done. cbn. split.
      * intros ? [= <-]. by rewrite Hv.
      * by rewrite Hv.
Qed.
End MembershipState.

(** ** Properties *)
Section Properties.
Context `{F : Fjall} `{C : Core} `{W : !Wire C} `{!FjallSpec F}.

(** Applying is deterministic: on two replicas with the same replicated contents,
    version and trust domain, a call of [apply] gives the same responses or the same error,
    leaves them in the same state, and publishes and notifies the same messages. *)
Theorem apply_deterministic `{!FjallReliable F} sm1 sm2 es :
  sm_equiv sm1 sm2 →
  (apply sm1 es).2 = (apply sm2 es).2 ∧
  sm_equiv (apply sm1 es).1 (apply sm2 es).1 ∧
  same_output sm1 (apply sm1 es).1 sm2 (apply sm2 es).1.
Proof. intros H. destruct (apply_equiv sm1 sm2 es H) as (? & ? & ?). done. Qed.

(** C1. Replicas agree however the log is cut into [apply] calls and wherever a
    replica restarts: the state reached by one call over the whole log is the state
    reached by any sequence of deliveries and restarts with the same log. *)
Theorem replicas_agree `{!FjallReliable F} sm1 sm2 evs sm1' rs :
  sm_equiv sm1 sm2 → version_synced sm2 → 0 ≤ sm_version sm1 →
  sm_version sm1 + Z.of_nat (length (log evs)) < 2 ^ 64 →
  apply sm1 (log evs) = (sm1', Ok rs) → sm_equiv sm1' (run sm2 evs).
Proof.
  revert sm1 sm2 rs. induction evs as [|ev evs IH]; intros sm1 sm2 rs He Hs H0 Hlt H.
  { cbn in H. by injection H as <- _. }
  destruct ev as [es|]; cbn [run foldl replica_step].
  - change (log (Deliver es :: evs)) with (es ++ log evs) in *. rewrite length_app in Hlt.
    apply apply_app_ok in H as (smA & rs1 & rs2 & H1 & H2 & ->).
    pose proof (apply_versions _ _ _ _ H1 H0 ltac:(lia)) as [_ HvA].
    destruct (apply_equiv _ _ es He) as (He' & _ & Hr). rewrite H1 in He', Hr. cbn in He', Hr.
    eapply IH; [exact He'| |lia|lia|exact H2].
    eapply (apply_synced sm2 es _ rs1); [done|rewrite <- (equiv_version _ _ He); lia..|].
    rewrite (surjective_pairing (apply sm2 es)). by rewrite <- Hr.
  - change (log (Restart :: evs)) with (log evs) in *.
    eapply IH; [|done|exact H0|exact Hlt|exact H]. destruct He as [Hdb Hv Hd].
    split; cbn; [done| |done]. by rewrite Hs.
Qed.

Lemma audit_key_inj v w :
  is_u64 v → is_u64 w → to_be_bytes 8 v = to_be_bytes 8 w → v = w.
Proof.
  intros Hv Hw H%(f_equal from_be_bytes). rewrite !from_to_be_bytes in H.
  rewrite !Z.mod_small in H by done. done.
Qed.

Lemma apply_audit_frame sm es sm' rs v :
  store_wf (contents (sm_db sm)) → Forall entry_ok es → 0 ≤ v ≤ sm_version sm →
  sm_version sm + Z.of_nat (length es) < 2 ^ 64 → apply sm es = (sm', Ok rs) →
  contents (sm_db sm') !! (ks_audit_log, to_be_bytes 8 v) =
  contents (sm_db sm) !! (ks_audit_log, to_be_bytes 8 v).
Proof.
  revert sm rs. induction es as [|e es IH]; intros sm rs Hwf Hes Hv Hlt H.
  { cbn in H. by injection H as <- _. }
  apply Forall_cons in Hes as [He Hes]. cbn [length] in Hlt.
  apply apply_cons_ok in H as (sm1 & r & rs' & Hap & H & ->).
  assert (Hv1 : sm_version sm1 = sm_version sm + 1).
  { apply apply_entry_ok in Hap as (? & ? & ? & _ & _ & -> & _). cbn.
    apply allocate_version_small. lia. }
  rewrite (IH sm1 rs'); [|by eapply apply_entry_wf|done|lia|lia|done].
  apply (apply_entry_audit _ _ _ _ Hwf He Hap).
  intros Heq%audit_key_inj; unfold is_u64; lia.
Qed.

(** C5. The entries of a successful [apply] get consecutive versions, each command
    has the audit record of its own version (caller, action and target) in the
    audit log at the end, and the counter ends at the last version. *)
Theorem versions_consecutive_and_audited sm es sm' rs :
  store_wf (contents (sm_db sm)) → Forall entry_ok es → 0 ≤ sm_version sm →
  sm_version sm + Z.of_nat (length es) < 2 ^ 64 → apply sm es = (sm', Ok rs) →
  version <$> rs = seqZ (sm_version sm + 1) (Z.of_nat (length es)) ∧
  sm_version sm' = sm_version sm + Z.of_nat (length es) ∧
  ∀ (i : nat) e a, es !! i = Some e → payload e = Normal a →
    let v := sm_version sm + 1 + Z.of_nat i in
    ∃ bs, contents (sm_db sm') !! (ks_audit_log, to_be_bytes 8 v) = Some bs ∧
      from_bytes bs = Some (audit_record v (default system_context (audit a))
        (command_action (cmd a))).
Proof.
  intros Hwf Hes H0 Hlt H. destruct (apply_versions _ _ _ _ H H0 Hlt) as [Hrs Hv].
  split_and!; [done..|]. clear Hrs Hv. revert sm rs Hwf Hes H0 Hlt H.
  induction es as [|e0 es IH]; intros sm rs Hwf Hes H0 Hlt H i e a Hi Ha; [done|].
  apply Forall_cons in Hes as [He Hes]. cbn [length] in Hlt.
  apply apply_cons_ok in H as (sm1 & r & rs' & Hap & H & ->).
  pose proof (apply_entry_wf _ _ _ _ Hwf He Hap) as Hwf1.
  assert (Hv1 : sm_version sm1 = sm_version sm + 1).
  { apply apply_entry_ok in Hap as (? & ? & ? & _ & _ & -> & _). cbn.
    apply allocate_version_small. lia. }
  destruct i as [|i].
  - injection Hi as ->. destruct (apply_entry_audit _ _ _ _ Hwf He Hap) as [_ Hau].
    destruct (Hau a Ha) as (bs & Hbs & Hdec). rewrite Hv1 in Hbs, Hdec. cbn [Z.of_nat].
    rewrite Z.add_0_r. exists bs. split; [|done]. rewrite <- Hbs.
    apply (apply_audit_frame sm1 es sm' rs'); [done|done|lia|lia|done].
  - destruct (IH sm1 rs' Hwf1 Hes ltac:(lia) ltac:(lia) H i e a Hi Ha) as (bs & Hbs & Hdec).
    rewrite Hv1 in Hbs, Hdec.
    replace (sm_version sm + 1 + Z.of_nat (S i)) with (sm_version sm + 1 + 1 + Z.of_nat i) by lia.
    by exists bs.
Qed.

Lemma apply_membership sm es sm' rs :
  store_wf (contents (sm_db sm)) → Forall entry_ok es →
  membership_readable (contents (sm_db sm)) → apply sm es = (sm', Ok rs) →
  membership_readable (contents (sm_db sm')) ∧
  stored_membership (contents (sm_db sm')) =
    foldl next_membership (stored_membership (contents (sm_db sm))) es.
Proof.
  revert sm rs. induction es as [|e es IH]; intros sm rs Hwf Hes Hm H.
  { cbn in H. by injection H as <- _. }
  apply Forall_cons in Hes as [He Hes].
  apply apply_cons_ok in H as (sm1 & r & rs' & Hap & H & ->).
  destruct (apply_entry_membership _ _ _ _ Hwf He Hm Hap) as [Hm1 Hs1].
  destruct (IH sm1 rs') as [Hm' Hs']; [by eapply apply_entry_wf|done..|].
  split; [done|]. by rewrite Hs', Hs1.
Qed.

(** C12. Recovery: after a successful [apply] that ends with entry [e], reopening the
    database finds the version counter where it was, and [applied_state] reports
    [e] as the last applied entry and the membership of the last membership entry. *)
Theorem recovery_after_apply `{!FjallReliable F} sm es e sm' rs :
  store_wf (contents (sm_db sm)) → Forall entry_ok (es ++ [e]) →
  membership_readable (contents (sm_db sm)) → 0 ≤ sm_version sm →
  sm_version sm + Z.of_nat (length (es ++ [e])) < 2 ^ 64 →
  apply sm (es ++ [e]) = (sm', Ok rs) →
  sm_version (open (sm_db sm') (sm_data_trust_domain sm')) = sm_version sm' ∧
  applied_state (sm_db sm') = Ok (Some (log_id e),
    foldl next_membership (stored_membership (contents (sm_db sm))) (es ++ [e])).
Proof.
  intros Hwf Hes Hm H0 Hlt H.
  destruct (apply_last_entry _ _ _ _ _ H) as [Hv (lid & Hlid & Hla)].
  destruct (apply_membership _ _ _ _ Hwf Hes Hm H) as [Hm' Hs'].
  pose proof (apply_versions _ _ _ _ H H0 Hlt) as [_ Hver]. split.
  - apply version_synced_persisted; [|done]. unfold is_u64. lia.
  - unfold applied_state, read. rewrite !get_eq, Hla. cbn [map_err mbind result_bind].
    unfold de. rewrite Hlid. cbn [ok_or mbind result_bind].
    rewrite <- Hs'. unfold stored_membership, membership_readable in *.
    destruct (contents (sm_db sm') !! (ks_raft_state, "last_membership")) as [v|]; [|done].
    destruct (Hm' v eq_refl) as [m Hmv]. cbn. by rewrite Hmv.
Qed.

(** C13. Failure is atomic: when [apply] stops with an error, the database, the
    published events and the notifications are those of the entries before the
    failing one, each applied in full; the failing entry has at most consumed a
    version number in memory. *)
Theorem apply_failure_atomic sm es sm' err :
  apply sm es = (sm', Err err) →
  ∃ es1 e es2 smk rs, es = es1 ++ e :: es2 ∧ apply sm es1 = (smk, Ok rs) ∧
    apply_entry smk e = (sm', Err err) ∧
    sm_db sm' = sm_db smk ∧ sm_published sm' = sm_published smk ∧
    sm_notified sm' = sm_notified smk ∧
    (sm_version sm' = sm_version smk ∨ sm_version sm' = allocate_version (sm_version smk)).
Proof.
  revert sm. induction es as [|e es IH]; intros sm H; [done|]. cbn in H.
  destruct (apply_entry sm e) as [sm1 [r|err']] eqn:E.
  - destruct (apply sm1 es) as [sm2 [rs|err']] eqn:E2; cbn in H; [done|]. simplify_eq.
    destruct (IH sm1 E2) as (es1 & e' & es2 & smk & rs & -> & Hk & Hrest).
    exists (e :: es1), e', es2, smk, (r :: rs). split_and!; [done| |naive_solver..].
    apply apply_cons_ok. eauto 6.
  - simplify_eq. destruct (apply_entry_err _ _ _ _ E) as (? & ? & ? & _ & ?).
    exists [], e, es, sm, []. split_and!; done.
Qed.

End Properties.

(** ** Witnesses *)
Import DemoInstances.

Lemma demo_equiv : sm_equiv demo_sm demo_sm.
Proof. done. Qed.

Lemma apply_deterministic_witness :
  (apply demo_sm [demo_entry 7 (EvictNode "not an id" 9)]).2 = Err (InvalidSpiffe "not an id") ∧
  sm_equiv (apply demo_sm [demo_entry 7 (EvictNode "not an id" 9)]).1
    (apply demo_sm [demo_entry 7 (EvictNode "not an id" 9)]).1.
Proof.
  destruct (apply_deterministic demo_sm demo_sm [demo_entry 7 (EvictNode "not an id" 9)]
    demo_equiv) as (_ & H & _).
  split; [reflexivity|exact H].
Defined.

(** The log of the demo cluster, delivered in two calls with a restart between. *)
Definition demo_events : list replica_event :=
  [Deliver (take 2 demo_entries); Restart; Deliver (drop 2 demo_entries)].

Lemma replicas_agree_witness : sm_equiv demo_sm (run demo_init demo_events).
Proof.
  apply (replicas_agree demo_init demo_init demo_events demo_sm
    (Build_FleetosResponse <$> [1; 2; 3; 4; 5; 6])).
  - done.
  - reflexivity.
  - reflexivity.
  - reflexivity.
  - assert (log demo_events = demo_entries) as -> by reflexivity. unfold demo_sm.
    apply result_pair. vm_refl.
Defined.

Lemma versions_consecutive_and_audited_witness :
  sm_version demo_sm = 6 ∧
  ∃ bs, contents (sm_db demo_sm) !! (ks_audit_log, to_be_bytes 8 1) = Some bs ∧
    from_bytes bs = Some (audit_record 1 system_context "RegisterNode").
Proof.
  destruct (versions_consecutive_and_audited demo_init demo_entries demo_sm
    (Build_FleetosResponse <$> [1; 2; 3; 4; 5; 6])) as (_ & Hv & Ha).
  - apply store_wf_empty.
  - repeat (constructor; [done|]). constructor.
  - reflexivity.
  - reflexivity.
  - unfold demo_sm. apply result_pair. vm_refl.
  - split; [exact Hv|]. exact (Ha 0%nat _ _ eq_refl eq_refl).
Defined.

Lemma recovery_after_apply_witness :
  sm_version (open (sm_db demo_sm) "fleet.internal") = 6 ∧
  applied_state (sm_db demo_sm) =
    Ok (Some {| lid_term := 1; lid_node_id := 1; lid_index := 6 |}, StoredMembership_default).
Proof.
  destruct (recovery_after_apply demo_init (take 5 demo_entries)
    (demo_entry 6 (IssueDelegation (demo_delegation "d2" "n2"))) demo_sm
    (Build_FleetosResponse <$> [1; 2; 3; 4; 5; 6])) as [Hv Ha].
  - apply store_wf_empty.
  - repeat (constructor; [done|]). constructor.
  - intros v Hv. discriminate Hv.
  - reflexivity.
  - reflexivity.
  - unfold demo_sm. apply (result_pair (apply demo_init demo_entries)). vm_refl.
  - split; [|exact Ha]. transitivity (sm_version demo_sm); [exact Hv|]. vm_refl.
Defined.

Lemma apply_failure_atomic_witness :
  let es := [demo_entry 7 (DeleteTenant "acme"); demo_entry 8 (EvictNode "not an id" 9)] in
  ∃ es1 e es2 smk rs, es = es1 ++ e :: es2 ∧ apply demo_sm es1 = (smk, Ok rs) ∧
    sm_db (apply demo_sm es).1 = sm_db smk.
Proof.
  intros es.
  destruct (apply_failure_atomic demo_sm es (apply demo_sm es).1 (InvalidSpiffe "not an id"))
    as (es1 & e & es2 & smk & rs & He & Hk & _ & Hdb & _); [reflexivity|].
  exists es1, e, es2, smk, rs. split_and!; [exact He|exact Hk|exact Hdb].
Defined.

