(* ===== verification/Staging.v ===== *)
(** * Staging: what the looping arms of the state machine write

    The arms that scan the placements or delegations build their batch in loops
    with early returns. When such a loop succeeds, its batch has a closed form
    over the scan of the committed state; the theorems about those arms are
    proved from these forms. *)

From S2P Require Import Prelude.
From S2P Require Import Storage.
From S2P Require Import Core.
From S2P Require Import Records.
From S2P Require Import Schema.
From S2P Require Import Expansion.
From S2P Require Import Watch.
From S2P Require Import Acl.
From S2P Require Import StateMachine.
From S2P Require Import Apply.
From S2P Require Import Invariant.

Section Loops.
Context `{F : Fjall} `{C : Core} `{W : !Wire C} `{!FjallSpec F}.

(** A loop over the guards of a scan that returned [Ok] opened every guard. *)
Lemma foldM_guards {A} (h : A → bytes → bytes → A) db ks p a a' :
  foldM (λ acc guard, '(k, v) ← read guard; Ok (h acc k v)) (prefix db ks p) a = Ok a' →
  a' = foldl (λ acc kv, h acc kv.1 kv.2) a (scan (contents db) ks p).
Proof.
  intros H. assert (Hok : Forall (λ r, ∃ kv, r = Ok kv) (prefix db ks p)).
  { revert a H. induction (prefix db ks p) as [|g l IH]; intros a H; [done|].
    cbn in H. ok_inv. destruct g as [[k v]|]; [|done]. cbn in *. ok_inv.
    constructor; [by eexists|by eapply IH]. }
  rewrite (prefix_all_ok _ _ _ Hok) in H. clear Hok. revert a H.
  induction (scan (contents db) ks p) as [|[k v] l IH]; intros a H; cbn in H; ok_inv; [done|].
  by apply IH.
Qed.

(** The placements of the committed state, in key order. *)
Definition stored_placements (st : store) : list Placement :=
  omap (λ kv, from_bytes kv.2) (scan st ks_placements "").

Lemma collect_placements_ok {A} db (f : Placement → option A) l :
  collect_placements db f = Ok l → l = omap f (stored_placements (contents db)).
Proof.
  unfold collect_placements, stored_placements. intros H.
  apply (foldM_guards (λ acc _ value, match from_bytes value with
    | Some p => match f p with Some a => acc ++ [a] | None => acc end | None => acc end)) in H.
  rewrite H. clear H.
  assert (∀ acc, foldl (λ acc (kv : bytes * bytes), match from_bytes kv.2 with
    | Some p => match f p with Some a => acc ++ [a] | None => acc end | None => acc end) acc
    (scan (contents db) ks_placements "") =
    acc ++ omap f (omap (λ kv, from_bytes kv.2) (scan (contents db) ks_placements ""))) as E.
  { induction (scan (contents db) ks_placements "") as [|kv l' IH]; intros acc; cbn;
      [by rewrite app_nil_r|]. rewrite IH. destruct (from_bytes kv.2) as [p|]; [|done]. cbn.
    destruct (f p); cbn; [by rewrite <- app_assoc|done]. }
  by rewrite E.
Qed.

Lemma elem_of_stored_placements st p :
  p ∈ stored_placements st ↔ ∃ k v, st !! (ks_placements, k) = Some v ∧ from_bytes v = Some p.
Proof.
  unfold stored_placements. rewrite list_elem_of_omap. split.
  - intros ([k v] & Hin & H). apply elem_of_scan in Hin as [Hin _]. by exists k, v.
  - intros (k & v & Hin & H). exists (k, v). split; [|done].
    apply elem_of_scan. split; [done|]. apply starts_with_nil.
Qed.

(** *** Evicting: delegations and placements *)
Definition evict_ops (v : bytes) : write_batch :=
  match (from_bytes v : option DelegationRecord) with
  | Some d =>
      let key := composite_delegation_key (dr_node_id d) (dr_delegation_id d) in
      [BRemove ks_active_delegations key; BInsert ks_revoked_delegations key v]
  | None => []
  end.

Lemma evict_delegations_ok db n b b' :
  evict_delegations db n b = Ok b' →
  b' = b ++ mjoin (evict_ops ∘ snd <$>
    scan (contents db) ks_active_delegations (node_delegation_prefix n)).
Proof.
  unfold evict_delegations. intros H.
  apply (foldM_guards (λ batch _ v, match (from_bytes v : option DelegationRecord) with
    | Some d => batch_insert ks_revoked_delegations
        (composite_delegation_key (dr_node_id d) (dr_delegation_id d)) v
        (batch_remove ks_active_delegations
          (composite_delegation_key (dr_node_id d) (dr_delegation_id d)) batch)
    | None => batch end)) in H.
  subst b'. revert b. induction (scan _ _ _) as [|[k v] l IH]; intros b; cbn;
    [by rewrite app_nil_r|].
  rewrite IH. unfold evict_ops at 2. cbn. destruct (from_bytes v) as [d|]; [|done].
  unfold batch_insert, batch_remove. by rewrite <- !app_assoc.
Qed.

Lemma foldl_removes ks l b :
  foldl (λ batch id, batch_remove ks id batch) b l = b ++ (BRemove ks <$> l).
Proof.
  revert b. induction l as [|id l IH]; intros b; cbn; [by rewrite app_nil_r|].
  rewrite IH. unfold batch_remove. by rewrite <- app_assoc.
Qed.

Lemma last_write_removes ks l key :
  last_write (BRemove ks <$> l) key =
  if decide (key ∈ (ks,.) <$> l) then Some None else None.
Proof.
  case_decide as E.
  - apply list_elem_of_fmap in E as (id & -> & Hid).
    rewrite (last_write_unique _ (BRemove ks id)); [done| |done|].
    + by apply list_elem_of_fmap_2.
    + intros op' (? & -> & ?)%list_elem_of_fmap. done.
  - apply last_write_none, Forall_fmap, Forall_forall. cbn. intros id Hid <-.
    by apply E, (list_elem_of_fmap_2 (ks,.)).
Qed.

Lemma evict_placements_ok db n b b' :
  evict_placements db n b = Ok b' →
  b' = b ++ (BRemove ks_placements <$>
    omap (λ p, if decide (pl_node_id p = n) then Some (pl_pod_id p) else None)
      (stored_placements (contents db))).
Proof.
  unfold evict_placements. intros H. ok_inv. apply collect_placements_ok in Ha as ->.
  apply foldl_removes.
Qed.

(** *** Freeing slots *)
Definition freed (t w : string) (slot : string * string * Z) : OrdinalAssignment := {|
  oa_tenant_id := t; oa_service := w; oa_role := slot.1.2; oa_ordinal := slot.2;
  oa_current_pod_id := None; oa_current_node_id := None |}.
Definition free_ops (t w : string) (slot : string * string * Z) : write_batch :=
  [BRemove ks_placements slot.1.1;
   BInsert ks_ordinals (ordinal_key t w slot.1.2 slot.2)
     (default "" (to_allocvec (freed t w slot)))].

Lemma free_slots_ok t w l b b' :
  free_slots t w l b = Ok b' →
  b' = b ++ mjoin (free_ops t w <$> l) ∧
  ∀ slot, slot ∈ l → is_Some (to_allocvec (freed t w slot)).
Proof.
  revert b. induction l as [|[[pod role] o] l IH]; intros b H; cbn in H.
  - ok_inv. split; [by rewrite app_nil_r|]. set_solver.
  - apply bind_ok in H as (b1 & Hb1 & H). apply IH in H as [-> Hall].
    apply bind_ok in Hb1 as (v & Hser & Hb1). unfold ser in Hser. ok_inv.
    cbn. unfold freed at 1. cbn. rewrite Hser. split.
    + unfold batch_insert, batch_remove. by rewrite <- !app_assoc.
    + intros slot [->|Hin]%elem_of_cons; [|by apply Hall]. by eexists.
Qed.
End Loops.
