(* ===== verification/Frame.v ===== *)
(** * Frame: which keyspaces a command writes

    Every theorem about one command, or about what a log cannot change, needs to
    know what the other commands leave alone. *)

From S2P Require Import Prelude.
From S2P Require Import Storage.
From S2P Require Import Core.
From S2P Require Import Records.
From S2P Require Import Schema.
From S2P Require Import Expansion.
From S2P Require Import Watch.
From S2P Require Import Acl.
From S2P Require Import StateMachine.
From S2P Require Import Apply.
From S2P Require Import Invariant.
From S2P Require Import Staging.

Section Frame.
Context `{F : Fjall} `{C : Core} `{W : !Wire C}.

Definition cmd_keyspaces (c : FleetosCommand) : list Keyspace :=
  match c with
  | CreateTenant _ _ => [ks_tenants; ks_dummy_ips]
  | DeleteTenant _ => [ks_tenants]
  | SubmitWorkloadSpec _ | ResizeWorkload _ => [ks_workloads]
  | DeleteWorkload _ _ | ScaleWorkload _ => [ks_workloads; ks_placements; ks_ordinals]
  | UpsertVpaRecommendation _ => [ks_vpa_recommendations]
  | SetTenantQuota _ => [ks_tenant_quotas]
  | SubmitCronWorkload _ _ | TriggerCronWorkload _ _ => [ks_workloads; ks_cron_checkpoints]
  | UpsertWorkloadStatus _ => [ks_workload_status]
  | MintJoinToken _ | ConsumeJoinToken _ => [ks_join_tokens]
  | SetPcrPolicy _ => [ks_pcr_policies]
  | RegisterNode _ | SetNodeSchedulable _ _ | NodeHeartbeat _ _ => [ks_nodes]
  | EvictNode _ _ =>
      [ks_nodes; ks_active_delegations; ks_revoked_delegations; ks_placements; ks_revoked_svids]
  | PruneExpiredRevokedSvids _ => [ks_revoked_svids]
  | IssueDelegation _ => [ks_active_delegations]
  | RevokeDelegation _ _ => [ks_active_delegations; ks_revoked_delegations]
  | UpsertSagRule _ | DeleteSagRule _ => [ks_sag_rules]
  | AllocateTenantBlock _ | AllocateServiceAddress _ _ => [ks_dummy_ips]
  | StoreSecret _ _ | GrantSecretAccess _ _ _ | RevokeSecretAccess _ _ _ => [ks_secrets]
  | RecordOrdinalAssignment _ => [ks_ordinals]
  | CommitPlacement _ | RemovePlacement _ => [ks_placements]
  | ReassignPodId _ _ _ _ _ => [ks_placements; ks_ordinals]
  | StoreNodePool _ | DeleteNodePool _ => [ks_node_pools]
  | RegisterControlAddress _ => [ks_control_addresses]
  | UpsertSvidVersion _ => [ks_svids]
  | GrantOperatorAccess _ | RevokeOperatorAccess _ => [ks_operator_grants]
  | RegisterNodeEk _ | ActivateNodeEk _ _ | RevokeNodeEk _ => [ks_node_eks]
  | SetNodeTaints _ _ | RemoveNodeTaint _ _ _ => [ks_node_taints]
  | ApplyManifests _ =>
      [ks_workloads; ks_tenants; ks_sag_rules; ks_secrets; ks_node_pools; ks_dummy_ips;
       ks_ordinals; ks_placements]
  end.

(** Every operation of the batch is on one of the keyspaces [L]. *)
Definition within (L : list Keyspace) (b : write_batch) : Prop :=
  Forall (λ op, (op_key op).1 ∈ L) b.

Lemma within_insert L ks k v b : ks ∈ L → within L b → within L (batch_insert ks k v b).
Proof. intros Hks Hb. apply Forall_app. split; [done|]. by apply Forall_singleton. Qed.
Lemma within_remove L ks k b : ks ∈ L → within L b → within L (batch_remove ks k b).
Proof. intros Hks Hb. apply Forall_app. split; [done|]. by apply Forall_singleton. Qed.
Lemma within_foldl {A} L (f : write_batch → A → write_batch) l b :
  (∀ b a, within L b → within L (f b a)) → within L b → within L (foldl f b l).
Proof.
  revert b. induction l as [|a l IH]; intros b Hf Hb; [done|]. cbn. by apply IH, Hf.
Qed.
Lemma within_foldM {A} L (f : write_batch → A → result SmError write_batch) l b b' :
  (∀ b a b', within L b → f b a = Ok b' → within L b') →
  within L b → foldM f l b = Ok b' → within L b'.
Proof. intros Hf Hb H. eapply (foldM_invariant (within L)); [|exact Hb|exact H]. eauto. Qed.
End Frame.

#[export] Hint Resolve within_insert within_remove within_foldl : frame.
#[export] Hint Extern 0 (_ ∈ _ :: _) => set_solver : frame.

Section FrameFacts.
Context `{F : Fjall} `{C : Core} `{W : !Wire C}.

Lemma put_workload_within L r b b' :
  ks_workloads ∈ L → within L b → put_workload r b = Ok b' → within L b'.
Proof. unfold put_workload. intros. ok_inv. eauto with frame. Qed.
Lemma put_checkpoint_within L r b b' :
  ks_cron_checkpoints ∈ L → within L b → put_checkpoint r b = Ok b' → within L b'.
Proof. unfold put_checkpoint. intros. ok_inv. eauto with frame. Qed.
Lemma put_taints_within L n ts b b' :
  ks_node_taints ∈ L → within L b → put_taints n ts b = Ok b' → within L b'.
Proof. intros. destruct ts; cbn in *; ok_inv; eauto with frame. Qed.
Lemma free_slots_within L t w l b b' :
  ks_placements ∈ L → ks_ordinals ∈ L → within L b → free_slots t w l b = Ok b' → within L b'.
Proof.
  intros H1 H2. apply within_foldM. intros b1 [[pod role] o] b2 Hb H. cbn in H. ok_inv.
  eauto with frame.
Qed.
Lemma apply_manifests_within us b b' ck :
  within (cmd_keyspaces (ApplyManifests us)) b → apply_manifests us b = Ok (b', ck) →
  within (cmd_keyspaces (ApplyManifests us)) b'.
Proof.
  unfold apply_manifests. intros Hb H. ok_inv. apply within_foldl; [|done].
  intros b1 u Hb1. destruct (manifest_keyspace _) as [ks|] eqn:E; [|done].
  apply within_insert; [|done]. unfold manifest_keyspace in E. simplify_option_eq; set_solver.
Qed.
Lemma apply_evict_node_within db n x b b' ck :
  within (cmd_keyspaces (EvictNode n x)) b → apply_evict_node db n x b = Ok (b', ck) →
  within (cmd_keyspaces (EvictNode n x)) b'.
Proof.
  unfold apply_evict_node. intros Hb H.
  apply bind_ok in H as (id & Hid & H). apply bind_ok in H as (b1 & Hm & H).
  apply bind_ok in H as (b2 & Hd & H). apply bind_ok in H as (b3 & Hp & H).
  apply bind_ok in H as (v2 & Hv2 & H). ok_inv. apply within_insert; [set_solver|].
  assert (Hb1 : within (cmd_keyspaces (EvictNode n x)) b1).
  { unfold evict_mark in Hm. ok_inv. apply within_insert; [set_solver|done]. }
  assert (Hb2 : within (cmd_keyspaces (EvictNode n x)) b2).
  { revert Hb1 Hd. apply within_foldM. intros b4 g b5 Hb4 H4. ok_inv. destruct a as [k v].
    ok_inv. destruct (from_bytes v); [|done].
    apply within_insert; [set_solver|]. apply within_remove; [set_solver|done]. }
  unfold evict_placements in Hp. ok_inv. apply within_foldl; [|done].
  intros. apply within_remove; [set_solver|done].
Qed.

Lemma apply_command_within db c b ck :
  apply_command db c [] = Ok (b, ck) → within (cmd_keyspaces c) b.
Proof.
  assert (H0 : within (cmd_keyspaces c) []) by constructor. revert H0.
  generalize ([] : write_batch). intros b0 H0 H.
  destruct c; cbn [apply_command] in H;
    try (by eapply apply_manifests_within); try (by eapply apply_evict_node_within);
    cbn [cmd_keyspaces] in *;
    unfold apply_create_tenant, apply_delete_tenant, apply_set_tenant_quota,
      apply_upsert_vpa_recommendation, apply_upsert_workload_status, apply_mint_join_token,
      apply_consume_join_token, apply_set_pcr_policy, apply_register_node_ek,
      apply_register_node, apply_issue_delegation, apply_upsert_sag_rule,
      apply_delete_sag_rule, apply_allocate_tenant_block, apply_allocate_service_address,
      apply_store_secret, apply_grant_secret_access, apply_revoke_secret_access,
      apply_record_ordinal_assignment, apply_commit_placement, apply_remove_placement,
      apply_store_node_pool, apply_delete_node_pool, apply_register_control_address,
      apply_upsert_svid_version, apply_grant_operator_access, apply_revoke_operator_access,
      apply_submit_workload_spec, apply_resize_workload, apply_delete_workload,
      apply_scale_workload, apply_submit_cron_workload, apply_trigger_cron_workload,
      apply_prune_expired_revoked_svids, apply_set_node_schedulable, apply_node_heartbeat,
      apply_revoke_delegation, apply_reassign_pod_id, apply_activate_node_ek,
      apply_revoke_node_ek, apply_set_node_taints, apply_remove_node_taint in H;
    ok_inv;
    repeat match goal with
    | H : match ?x with _ => _ end = Ok _ |- _ => destruct x; ok_inv
    | |- context [match ?x with Some _ => _ | None => _ end] => destruct x
    end;
    try (eauto 6 with frame; fail);
    try (eapply put_taints_within; [set_solver|done|done]);
    try (eapply put_workload_within; [set_solver|done|done]).
  - eapply free_slots_within; [set_solver..| |done]. apply within_remove; [set_solver|done].
  - eapply free_slots_within; [set_solver..| |done].
    eapply put_workload_within; [set_solver|exact H0|done].
  - eapply put_checkpoint_within; [set_solver| |done]. apply within_insert; [set_solver|done].
  - eapply put_checkpoint_within; [set_solver| |done].
    eapply put_workload_within; [set_solver|exact H0|done].
Qed.

Lemma apply_command_frame db c b ck ks k :
  ks ∉ cmd_keyspaces c → apply_command db c [] = Ok (b, ck) → last_write b (ks, k) = None.
Proof.
  intros Hks H%apply_command_within. apply last_write_none.
  eapply Forall_impl; [exact H|]. cbn. intros op Hop Heq. by rewrite Heq in Hop.
Qed.
End FrameFacts.

Section EntryFrame.
Context `{F : Fjall} `{C : Core} `{W : !Wire C} `{!FjallSpec F}.

(** The keyspaces an entry writes besides the bookkeeping ones. *)
Definition entry_keyspaces (e : Entry) : list Keyspace :=
  match payload e with Normal a => cmd_keyspaces (cmd a) | _ => [] end.

Lemma apply_entry_frame sm e sm' r ks k :
  bookkeeping ks = false → ks ∉ entry_keyspaces e → apply_entry sm e = (sm', Ok r) →
  contents (sm_db sm') !! (ks, k) = contents (sm_db sm) !! (ks, k).
Proof.
  intros Hbk Hks H. destruct (apply_entry_lookup _ _ _ _ H) as (b0 & ck & p & Hs & Hl).
  rewrite (Hl _ _ Hbk), apply_batch_lookup. unfold stage_payload, entry_keyspaces in *.
  destruct (payload e) as [|a|m].
  - by ok_inv.
  - apply bind_ok in Hs as ([b1 ck1] & Hc & Hs). ok_inv. by rewrite (apply_command_frame _ _ _ _ _ _ Hks Hc).
  - apply bind_ok in Hs as (v & _ & Hs). ok_inv. cbn. rewrite decide_False; [done|].
    intros [= <- _]. done.
Qed.

(** What an entry does to one key: nothing unless its command writes the keyspace. *)
Lemma apply_entry_cases sm e sm' r ks k :
  bookkeeping ks = false → apply_entry sm e = (sm', Ok r) →
  contents (sm_db sm') !! (ks, k) = contents (sm_db sm) !! (ks, k) ∨
  ∃ a b ck, payload e = Normal a ∧ ks ∈ cmd_keyspaces (cmd a) ∧
    apply_command (sm_db sm) (cmd a) [] = Ok (b, ck) ∧
    contents (sm_db sm') !! (ks, k) =
      default (contents (sm_db sm) !! (ks, k)) (last_write b (ks, k)).
Proof.
  intros Hbk H. destruct (decide (ks ∈ entry_keyspaces e)) as [Hks|Hks];
    [|left; by eapply apply_entry_frame].
  unfold entry_keyspaces in Hks. destruct (payload e) as [|a|m] eqn:Hp; [set_solver| |set_solver].
  right. destruct (apply_entry_command _ _ _ _ _ Hp H) as (b & ck & Hb & Hl).
  exists a, b, ck. split_and!; try done. by rewrite (Hl _ _ Hbk), apply_batch_lookup.
Qed.
End EntryFrame.
