(* ===== verification/Eviction.v ===== *)
(** * Eviction: the cascade of [EvictNode]

    One entry marks the node evicted, moves each of its delegations to the revoked
    keyspace, removes its placements and revokes its SVID, and touches nothing
    else ([src/raft/state_machine.rs], arm [EvictNode]). *)

From S2P Require Import Prelude.
From S2P Require Import Storage.
From S2P Require Import Core.
From S2P Require Import Records.
From S2P Require Import WireInstance.
From S2P Require Import Schema.
From S2P Require Import Expansion.
From S2P Require Import Watch.
From S2P Require Import Acl.
From S2P Require Import StateMachine.
From S2P Require Import Apply.
From S2P Require Import Invariant.
From S2P Require Import Demo.
From S2P Require Import Staging.

Section Eviction.
Context `{F : Fjall} `{C : Core} `{W : !Wire C} `{!FjallSpec F} `{!CoreSpec C}.

Definition evict_delegation_ops (st : store) (id : SpiffeId) : write_batch :=
  mjoin (evict_ops ∘ snd <$> scan st ks_active_delegations (node_delegation_prefix id)).
Definition evict_placement_ops (st : store) (id : SpiffeId) : write_batch :=
  BRemove ks_placements <$>
    omap (λ p, if decide (pl_node_id p = id) then Some (pl_pod_id p) else None)
      (stored_placements st).

Lemma apply_evict_node_ok db n x b ck :
  apply_evict_node db n x [] = Ok (b, ck) →
  ∃ id v1 r v2, spiffe_parse n = Some id ∧
    from_bytes v1 = Some r ∧ nr_status r = Evicted ∧ nr_schedulable r = false ∧
    from_bytes v2 = Some {| rsr_spiffe_id := n; rsr_expires_at_unix := x |} ∧
    ck = ChangeKind.Eviction ∧
    b = [BInsert ks_nodes n v1] ++ evict_delegation_ops (contents db) id ++
        evict_placement_ops (contents db) id ++ [BInsert ks_revoked_svids n v2].
Proof.
  unfold apply_evict_node. intros H.
  apply bind_ok in H as (id & Hid & H). apply bind_ok in H as (b1 & Hm & H).
  apply bind_ok in H as (b2 & Hd & H). apply bind_ok in H as (b3 & Hp & H).
  apply bind_ok in H as (v2 & Hv2 & H). ok_inv. ser_inv.
  apply evict_delegations_ok in Hd as ->. apply evict_placements_ok in Hp as ->.
  unfold parse_spiffe in Hid. ok_inv.
  assert (∃ v1 r, b1 = [BInsert ks_nodes n v1] ∧ from_bytes v1 = Some r ∧
    nr_status r = Evicted ∧ nr_schedulable r = false) as (v1 & r & -> & Hr).
  { unfold evict_mark in Hm. apply bind_ok in Hm as (o & _ & Hm).
    apply bind_ok in Hm as (r & Hr & Hm). apply bind_ok in Hm as (v1 & Hv1 & Hm).
    ok_inv. ser_inv. exists v1, r. split_and!; [done|done|..];
      destruct o as [b|]; ok_inv; done. }
  destruct Hr as (Hr & Hst & Hsc). exists id, v1, r, v2. split_and!; try done.
  unfold batch_insert. by rewrite <- !app_assoc.
Qed.

Lemma elem_of_evict_delegation_ops st id op :
  store_wf st →
  op ∈ evict_delegation_ops st id ↔
  ∃ k v (d : DelegationRecord), st !! (ks_active_delegations, k) = Some v ∧
    starts_with (node_delegation_prefix id) k = true ∧ from_bytes v = Some d ∧
    (op = BRemove ks_active_delegations k ∨ op = BInsert ks_revoked_delegations k v).
Proof.
  intros Hwf. unfold evict_delegation_ops. rewrite list_elem_of_join. split.
  - intros (l & Hop & ([k v] & -> & Hkv)%list_elem_of_fmap).
    apply elem_of_scan in Hkv as [Hv Hk]. cbn in Hop. unfold evict_ops in Hop.
    destruct (from_bytes v) as [d|] eqn:Ed; [|by apply not_elem_of_nil in Hop].
    rewrite (wf_active _ _ _ _ Hwf Hv Ed) in Hop. exists k, v, d. set_solver.
  - intros (k & v & d & Hv & Hk & Ed & Hop). exists (evict_ops v). split.
    + unfold evict_ops. rewrite Ed, (wf_active _ _ _ _ Hwf Hv Ed). set_solver.
    + apply list_elem_of_fmap. exists (k, v). split; [done|]. by apply elem_of_scan.
Qed.

(** What the delegation part of the batch does to the two keyspaces. *)
Lemma evict_delegation_ops_active st id k v (d : DelegationRecord) :
  store_wf st → st !! (ks_active_delegations, k) = Some v →
  starts_with (node_delegation_prefix id) k = true → from_bytes v = Some d →
  last_write (evict_delegation_ops st id) (ks_active_delegations, k) = Some None ∧
  last_write (evict_delegation_ops st id) (ks_revoked_delegations, k) = Some (Some v).
Proof.
  intros Hwf Hv Hk Ed. split.
  - rewrite (last_write_unique _ (BRemove ks_active_delegations k)); [done| |done|].
    + apply elem_of_evict_delegation_ops; [done|]. exists k, v, d. naive_solver.
    + intros op (k' & v' & d' & _ & _ & _ & [-> | ->])%elem_of_evict_delegation_ops; done.
  - rewrite (last_write_unique _ (BInsert ks_revoked_delegations k v)); [done| |done|].
    + apply elem_of_evict_delegation_ops; [done|]. exists k, v, d. naive_solver.
    + intros op (k' & v' & d' & Hv' & _ & _ & [-> | ->])%elem_of_evict_delegation_ops; [done| |done].
      cbn. intros [= <-]. congruence.
Qed.

Lemma evict_delegation_ops_other st id ks k :
  store_wf st →
  (ks = ks_active_delegations ∨ ks = ks_revoked_delegations →
   ∀ v (d : DelegationRecord), st !! (ks_active_delegations, k) = Some v → from_bytes v = Some d →
     starts_with (node_delegation_prefix id) k = false) →
  last_write (evict_delegation_ops st id) (ks, k) = None.
Proof.
  intros Hwf Hn. apply last_write_none, Forall_forall. intros op Hop Heq.
  apply elem_of_evict_delegation_ops in Hop as (k' & v & d & Hv & Hk & Ed & Hop); [|done].
  destruct Hop as [-> | ->]; cbn in Heq; injection Heq as <- <-;
    rewrite (Hn ltac:(auto) _ _ Hv Ed) in Hk; done.
Qed.

Lemma evict_placement_ops_write st id ks k :
  store_wf st →
  last_write (evict_placement_ops st id) (ks, k) =
  match st !! (ks_placements, k) ≫= from_bytes with
  | Some p => if decide (ks = ks_placements ∧ pl_node_id p = id) then Some None else None
  | None => None
  end.
Proof.
  intros Hwf. unfold evict_placement_ops. rewrite last_write_removes.
  assert ((ks, k) ∈ (ks_placements,.) <$>
      omap (λ p, if decide (pl_node_id p = id) then Some (pl_pod_id p) else None)
        (stored_placements st) ↔
    ∃ p, ks = ks_placements ∧ st !! (ks_placements, k) ≫= from_bytes = Some p ∧
      pl_node_id p = id) as E.
  { rewrite list_elem_of_fmap. split.
    - intros (k' & [= -> ->] & (p & Hp & Hd)%list_elem_of_omap).
      apply elem_of_stored_placements in Hp as (k & v & Hv & Ev). case_decide; [|done].
      simplify_eq. exists p. rewrite (wf_placement _ _ _ _ Hwf Hv Ev), Hv. done.
    - intros (p & -> & Hp & Hid). exists k. split; [done|]. apply list_elem_of_omap.
      apply bind_Some in Hp as (v & Hv & Ev). exists p. split.
      + apply elem_of_stored_placements. by exists k, v.
      + rewrite decide_True by done. by rewrite (wf_placement _ _ _ _ Hwf Hv Ev). }
  destruct (st !! (ks_placements, k) ≫= from_bytes) as [p|].
  - apply decide_ext. rewrite E. naive_solver.
  - rewrite decide_False; [done|]. rewrite E. naive_solver.
Qed.

(** The node's record says evicted and unschedulable. *)
Definition node_evicted (st : store) (n : string) : Prop :=
  ∃ v r, st !! (ks_nodes, n) = Some v ∧ from_bytes v = Some r ∧
    nr_status r = Evicted ∧ nr_schedulable r = false.

(** The keyspaces an eviction writes. *)
Definition evict_keyspaces : list Keyspace :=
  [ks_nodes; ks_active_delegations; ks_revoked_delegations; ks_placements; ks_revoked_svids].

(** The last write of each key by the batch of an eviction. *)
Lemma evict_last_write st id n v1 v2 ks k :
  last_write ([BInsert ks_nodes n v1] ++ evict_delegation_ops st id ++
    evict_placement_ops st id ++ [BInsert ks_revoked_svids n v2]) (ks, k) =
  if decide ((ks_revoked_svids, n) = (ks, k)) then Some (Some v2)
  else match last_write (evict_placement_ops st id) (ks, k) with
    | Some w => Some w
    | None => match last_write (evict_delegation_ops st id) (ks, k) with
      | Some w => Some w
      | None => if decide ((ks_nodes, n) = (ks, k)) then Some (Some v1) else None
      end
    end.
Proof.
  rewrite app_assoc, app_assoc, last_write_snoc. cbn [op_key op_value].
  case_decide; [done|]. by rewrite !last_write_app.
Qed.

Lemma evict_placement_ops_other st id ks k :
  ks ≠ ks_placements → last_write (evict_placement_ops st id) (ks, k) = None.
Proof.
  intros Hks. unfold evict_placement_ops. rewrite last_write_removes, decide_False; [done|].
  intros (k' & [= -> ->] & _)%list_elem_of_fmap. done.
Qed.

(** The state after an applied eviction, key by key. *)
Lemma evict_entry_lookup sm e a n x sm' r :
  store_wf (contents (sm_db sm)) → payload e = Normal a → cmd a = EvictNode n x →
  apply_entry sm e = (sm', Ok r) →
  let st := contents (sm_db sm) in
  ∃ id v1 r v2, spiffe_parse n = Some id ∧
    from_bytes v1 = Some r ∧ nr_status r = Evicted ∧ nr_schedulable r = false ∧
    from_bytes v2 = Some {| rsr_spiffe_id := n; rsr_expires_at_unix := x |} ∧
    ∀ ks k, bookkeeping ks = false → contents (sm_db sm') !! (ks, k) =
      default (st !! (ks, k))
      (if decide ((ks_revoked_svids, n) = (ks, k)) then Some (Some v2)
       else match last_write (evict_placement_ops st id) (ks, k) with
         | Some w => Some w
         | None => match last_write (evict_delegation_ops st id) (ks, k) with
           | Some w => Some w
           | None => if decide ((ks_nodes, n) = (ks, k)) then Some (Some v1) else None
           end
         end).
Proof.
  intros Hwf Hp Hc H st.
  destruct (apply_entry_command _ _ _ _ _ Hp H) as (b0 & ck & Hb & Hl).
  rewrite Hc in Hb. cbn [apply_command] in Hb.
  apply apply_evict_node_ok in Hb as (id & v1 & nr & v2 & Hid & Hv1 & Hev & Hsc & Hv2 & _ & ->).
  exists id, v1, nr, v2. split_and!; try done.
  intros ks k Hks. by rewrite (Hl _ _ Hks), apply_batch_lookup, evict_last_write.
Qed.

(** The scan prefix of a node matches the key of any of its own delegations. *)
Lemma own_delegation_prefix st k v (d : DelegationRecord) :
  store_wf st → st !! (ks_active_delegations, k) = Some v → from_bytes v = Some d →
  starts_with (node_delegation_prefix (dr_node_id d)) k = true.
Proof.
  intros Hwf Hv Hd. rewrite <- (wf_active _ _ _ _ Hwf Hv Hd), composite_key_prefix.
  apply starts_with_app.
Qed.

Lemma other_delegation_prefix st k v (d : DelegationRecord) id :
  store_wf st → st !! (ks_active_delegations, k) = Some v → from_bytes v = Some d →
  short_id id → short_id (dr_node_id d) → dr_node_id d ≠ id →
  starts_with (node_delegation_prefix id) k = false.
Proof.
  intros Hwf Hv Hd Hs1 Hs2 Hne. rewrite <- (wf_active _ _ _ _ Hwf Hv Hd).
  apply not_true_iff_false. rewrite prefix_matches_iff by done. congruence.
Qed.

(** Exactly the placements on the node are gone. *)
Lemma evict_entry_placements sm e a n x sm' r :
  store_wf (contents (sm_db sm)) → payload e = Normal a → cmd a = EvictNode n x →
  apply_entry sm e = (sm', Ok r) →
  let st := contents (sm_db sm) in
  ∃ id, spiffe_parse n = Some id ∧ ∀ k, contents (sm_db sm') !! (ks_placements, k) =
    match st !! (ks_placements, k) ≫= from_bytes with
    | Some p => if decide (pl_node_id p = id) then None else st !! (ks_placements, k)
    | None => st !! (ks_placements, k)
    end.
Proof.
  intros Hwf Hp Hc H st.
  destruct (evict_entry_lookup _ _ _ _ _ _ _ Hwf Hp Hc H)
    as (id & v1 & nr & v2 & Hid & Hv1 & Hev & Hsc & Hv2 & HL).
  exists id. split; [done|]. fold st in HL, Hwf. intros k. rewrite HL by done. rewrite decide_False by done.
  rewrite evict_placement_ops_write, evict_delegation_ops_other by naive_solver.
  rewrite (decide_False (P := (ks_nodes, n) = _)) by done.
  destruct (st !! (ks_placements, k) ≫= from_bytes) as [p|]; [|done].
  destruct (decide (pl_node_id p = id)); [by rewrite decide_True|].
  by rewrite decide_False by naive_solver.
Qed.
End Eviction.

Section EvictionCascade.
Context `{F : Fjall} `{C : Core} `{W : !Wire C} `{!FjallSpec F} `{!CoreSpec C}.

End EvictionCascade.

(** ** Witness *)
Import DemoInstances.

