(* ===== verification/Nodes.v ===== *)
(** * Nodes: eviction is permanent, revocations last, taints are sets

    The node arms of [apply_command] ([src/raft/state_machine.rs]): what a log can
    and cannot do to an evicted node, to a revoked SVID and to a taint set. *)

From S2P Require Import Prelude.
From S2P Require Import Storage.
From S2P Require Import Core.
From S2P Require Import Records.
From S2P Require Import WireInstance.
From S2P Require Import Schema.
From S2P Require Import Expansion.
From S2P Require Import Watch.
From S2P Require Import Acl.
From S2P Require Import StateMachine.
From S2P Require Import Apply.
From S2P Require Import Invariant.
From S2P Require Import Demo.
From S2P Require Import Staging.
From S2P Require Import Frame.
From S2P Require Import Eviction.

Section Nodes.
Context `{F : Fjall} `{C : Core} `{W : !Wire C} `{!FjallSpec F} `{!CoreSpec C}.

Definition status_evicted (st : store) (n : string) : Prop :=
  ∃ v r, st !! (ks_nodes, n) = Some v ∧ from_bytes v = Some r ∧ nr_status r = Evicted.

(** The entry registers node [n] anew. *)
Definition registers (n : string) (e : Entry) : Prop :=
  ∃ a r, payload e = Normal a ∧ cmd a = RegisterNode r ∧ nr_node_id r = n.

(** A batch with one insertion. *)
Lemma last_write_one ks k v key w :
  last_write [BInsert ks k v] key = Some w → key = (ks, k) ∧ w = Some v.
Proof. cbn. case_decide; [by intros [= <-]|done]. Qed.

(** No other command takes a node out of the evicted state. *)
Lemma command_keeps_evicted db c b ck n bs r w :
  contents db !! (ks_nodes, n) = Some bs → from_bytes bs = Some r → nr_status r = Evicted →
  (∀ r', c = RegisterNode r' → nr_node_id r' ≠ n) →
  store_wf (contents db) → apply_command db c [] = Ok (b, ck) →
  last_write b (ks_nodes, n) = Some w →
  ∃ bs' r', w = Some bs' ∧ from_bytes bs' = Some r' ∧ nr_status r' = Evicted.
Proof.
  intros Hbs Hr Hst Hc Hwf H Hw. destruct (decide (ks_nodes ∈ cmd_keyspaces c)) as [Hks|Hks];
    [|by rewrite (apply_command_frame _ _ _ _ _ _ Hks H) in Hw].
  destruct c; cbn [cmd_keyspaces] in Hks; try (exfalso; set_solver); cbn [apply_command] in H.
  - unfold apply_register_node in H. ok_inv. apply last_write_one in Hw as [Hk ->].
    injection Hk as ->. by destruct (Hc record eq_refl).
  - apply apply_evict_node_ok in H as (id & v1 & r1 & v2 & _ & Hv1 & Hev & _ & _ & _ & ->).
    rewrite evict_last_write, decide_False, evict_placement_ops_other in Hw by done.
    rewrite evict_delegation_ops_other in Hw by naive_solver.
    case_decide; [|done]. injection Hw as <-. by exists v1, r1.
  - unfold apply_set_node_schedulable in H. apply bind_ok in H as (o & Ho & H).
    apply bind_ok in H as (r1 & Hr1 & H). apply bind_ok in H as (v & Hv & H). ok_inv. ser_inv.
    apply last_write_one in Hw as [Hk ->]. injection Hk as ->. rewrite Hbs in Ho. subst o.
    apply bind_ok in Hr1 as (r2 & Hr2 & Hr1). ok_inv. ser_inv. simplify_eq.
    exists v, (reschedule_node r schedulable). split_and!; [done..|]. unfold reschedule_node. cbn.
    rewrite Hst. rewrite bool_decide_eq_false_2 by done. by rewrite andb_false_r.
  - unfold apply_node_heartbeat in H. apply bind_ok in H as (o & Ho & H). ser_inv.
    destruct o as [b0|]; ok_inv; [|done]. ser_inv.
    apply last_write_one in Hw as [Hk ->]. injection Hk as ->. rewrite Hbs in Ho. simplify_eq.
    by eexists _, _.
Qed.

Lemma apply_entry_keeps_evicted sm e sm' r n :
  store_wf (contents (sm_db sm)) → status_evicted (contents (sm_db sm)) n →
  ¬ registers n e → apply_entry sm e = (sm', Ok r) → status_evicted (contents (sm_db sm')) n.
Proof.
  intros Hwf (bs & rec & Hbs & Hrec & Hst) Hreg H.
  destruct (apply_entry_cases _ _ _ _ ks_nodes n eq_refl H)
    as [E|(a & b & ck & Ha & _ & Hb & E)]; [by exists bs, rec; rewrite E|].
  destruct (last_write b (ks_nodes, n)) as [w|] eqn:Hw; cbn in E;
    [|by exists bs, rec; rewrite E].
  destruct (command_keeps_evicted _ _ _ _ _ _ _ _ Hbs Hrec Hst
    ltac:(intros r' Hc Hn; apply Hreg; by exists a, r') Hwf Hb Hw) as (bs' & r' & -> & Hr' & Hs').
  by exists bs', r'; rewrite E.
Qed.

(** Eviction is permanent: no log takes a node out of the evicted state without
    a [RegisterNode] for it; uncordoning, heartbeats and further evictions do not. *)
Theorem evicted_until_registered sm es sm' res n :
  store_wf (contents (sm_db sm)) → Forall entry_ok es →
  status_evicted (contents (sm_db sm)) n → Forall (λ e, ¬ registers n e) es →
  apply sm es = (sm', res) → status_evicted (contents (sm_db sm')) n.
Proof.
  intros Hwf Hok Hev Hreg H. rewrite Forall_forall in Hok, Hreg.
  refine (proj2 (apply_invariant (λ db, store_wf (contents db) ∧ status_evicted (contents db) n)
    _ _ _ _ _ (conj Hwf Hev) H)).
  intros sm1 e sm2 r Hin [Hwf1 Hev1] He. split; [by eapply apply_entry_wf; eauto|].
  eapply apply_entry_keeps_evicted; eauto.
Qed.

(** ** Revoked SVIDs *)
Definition svid_revoked (st : store) (n : string) (x : Z) : Prop :=
  ∃ v, st !! (ks_revoked_svids, n) = Some v ∧
    from_bytes v = Some {| rsr_spiffe_id := n; rsr_expires_at_unix := x |}.

(** The entry may end the revocation of [n] that lasts until [x]: it prunes with a
    later cutoff, or evicts [n] again with another expiry. *)
Definition ends_revocation (n : string) (x : Z) (e : Entry) : Prop :=
  ∃ a, payload e = Normal a ∧
    ((∃ cutoff, cmd a = PruneExpiredRevokedSvids cutoff ∧ x < cutoff) ∨
     ∃ x', cmd a = EvictNode n x').

(** The ids [PruneExpiredRevokedSvids] removes. *)
Definition pruned (cutoff : Z) (v : bytes) : option string :=
  match (from_bytes v : option RevokedSvidRecord) with
  | Some record => if rsr_expires_at_unix record <? cutoff then Some (rsr_spiffe_id record) else None
  | None => None
  end.

Lemma apply_prune_ok db cutoff b ck :
  apply_prune_expired_revoked_svids db cutoff [] = Ok (b, ck) →
  b = BRemove ks_revoked_svids <$> omap (pruned cutoff) (values db ks_revoked_svids "").
Proof. unfold apply_prune_expired_revoked_svids. intros H. ok_inv. apply foldl_removes. Qed.

Lemma prune_write db cutoff b ck k v (rec : RevokedSvidRecord) :
  store_wf (contents db) → apply_prune_expired_revoked_svids db cutoff [] = Ok (b, ck) →
  contents db !! (ks_revoked_svids, k) = Some v → from_bytes v = Some rec →
  cutoff ≤ rsr_expires_at_unix rec → last_write b (ks_revoked_svids, k) = None.
Proof.
  intros Hwf ->%apply_prune_ok Hv Hrec Hx. rewrite last_write_removes, decide_False; [done|].
  intros (k' & [= <-] & (v' & Hv' & Hp)%list_elem_of_omap)%list_elem_of_fmap.
  apply elem_of_values in Hv' as (k2 & Hk2 & _). unfold pruned in Hp.
  destruct (from_bytes v') as [rec'|] eqn:Hrec'; [|done].
  destruct (Z.ltb_spec (rsr_expires_at_unix rec') cutoff); [|done]. simplify_eq.
  rewrite (wf_revoked_svid _ _ _ _ Hwf Hk2 Hrec') in Hv. simplify_eq. lia.
Qed.

Lemma apply_entry_keeps_revoked sm e sm' r n x :
  store_wf (contents (sm_db sm)) → svid_revoked (contents (sm_db sm)) n x →
  ¬ ends_revocation n x e → apply_entry sm e = (sm', Ok r) →
  svid_revoked (contents (sm_db sm')) n x.
Proof.
  intros Hwf (v & Hv & Hrec) Hends H.
  destruct (apply_entry_cases _ _ _ _ ks_revoked_svids n eq_refl H)
    as [E|(a & b & ck & Ha & Hks & Hb & E)]; [by exists v; rewrite E|].
  assert (last_write b (ks_revoked_svids, n) = None) as Hw; [|rewrite Hw in E; by exists v; rewrite E].
  destruct (cmd a) eqn:Hc; cbn [cmd_keyspaces] in Hks; try (exfalso; set_solver);
    cbn [apply_command] in Hb.
  - apply apply_evict_node_ok in Hb as (id & v1 & r1 & v2 & _ & _ & _ & _ & _ & _ & ->).
    rewrite evict_last_write, decide_False, evict_placement_ops_other,
      evict_delegation_ops_other, decide_False; [done|done|done|naive_solver|done|].
    intros [= ->]. apply Hends. exists a. split; [done|]. right. by exists svid_expires_at_unix.
  - eapply prune_write; [done|done|exact Hv|exact Hrec|]. cbn.
    destruct (Z.le_gt_cases cutoff_unix x); [done|]. exfalso. apply Hends. exists a. split; [done|].
    left. by exists cutoff_unix.
Qed.

Lemma apply_keeps_revoked sm es sm' res n x :
  store_wf (contents (sm_db sm)) → Forall entry_ok es →
  svid_revoked (contents (sm_db sm)) n x → Forall (λ e, ¬ ends_revocation n x e) es →
  apply sm es = (sm', res) → svid_revoked (contents (sm_db sm')) n x.
Proof.
  intros Hwf Hok Hrv Hends H. rewrite Forall_forall in Hok, Hends.
  refine (proj2 (apply_invariant (λ db, store_wf (contents db) ∧ svid_revoked (contents db) n x)
    _ _ _ _ _ (conj Hwf Hrv) H)).
  intros sm1 e sm2 r Hin [Hwf1 Hev1] He. split; [by eapply apply_entry_wf; eauto|].
  eapply apply_entry_keeps_revoked; eauto.
Qed.

Lemma svid_revoked_listed `{!FjallReliable F} db n x :
  svid_revoked (contents db) n x → n ∈ revoked_spiffe_ids (build_sag_snapshot db).
Proof.
  intros (v & Hv & Hrec). cbn. apply list_elem_of_omap. exists v. split.
  - rewrite values_reliable. apply list_elem_of_fmap. exists (n, v). split; [done|].
    apply elem_of_scan. split; [done|]. apply starts_with_nil.
  - by rewrite Hrec.
Qed.

(** A revoked SVID stays revoked, with its expiry, and is listed in every SAG
    snapshot sent to agents, until a prune with a cutoff past its expiry (or another
    eviction of the same node): no other log removes it. *)
Theorem revocation_lasts `{!FjallReliable F} sm es sm' res n x :
  store_wf (contents (sm_db sm)) → Forall entry_ok es →
  svid_revoked (contents (sm_db sm)) n x → Forall (λ e, ¬ ends_revocation n x e) es →
  apply sm es = (sm', res) →
  svid_revoked (contents (sm_db sm')) n x ∧
  n ∈ revoked_spiffe_ids (build_sag_snapshot (sm_db sm')).
Proof.
  intros Hwf Hok Hrv Hends H.
  assert (svid_revoked (contents (sm_db sm')) n x) as Hrv' by (by eapply apply_keeps_revoked).
  split; [done|]. by eapply svid_revoked_listed.
Qed.

(** A prune removes exactly the revocations that expired before the cutoff. *)
Theorem prune_exact `{!FjallReliable F} sm e a cutoff sm' r :
  store_wf (contents (sm_db sm)) → payload e = Normal a →
  cmd a = PruneExpiredRevokedSvids cutoff → apply_entry sm e = (sm', Ok r) →
  ∀ n, contents (sm_db sm') !! (ks_revoked_svids, n) =
    match contents (sm_db sm) !! (ks_revoked_svids, n) ≫= from_bytes with
    | Some rec => if rsr_expires_at_unix rec <? cutoff then None
                  else contents (sm_db sm) !! (ks_revoked_svids, n)
    | None => contents (sm_db sm) !! (ks_revoked_svids, n)
    end.
Proof.
  intros Hwf Hp Hc H n. destruct (apply_entry_command _ _ _ _ _ Hp H) as (b & ck & Hb & Hl).
  rewrite Hl, apply_batch_lookup by done. rewrite Hc in Hb. cbn [apply_command] in Hb.
  apply apply_prune_ok in Hb as ->. rewrite last_write_removes, values_reliable.
  set (st := contents (sm_db sm)) in *.
  assert (Hin : (ks_revoked_svids, n) ∈ (ks_revoked_svids,.) <$>
      omap (pruned cutoff) (scan st ks_revoked_svids "").*2 ↔
    ∃ rec, st !! (ks_revoked_svids, n) ≫= from_bytes = Some rec ∧ rsr_expires_at_unix rec < cutoff).
  { rewrite list_elem_of_fmap. split.
    - intros (k' & [= <-] & (v & ([k v'] & -> & Hkv)%list_elem_of_fmap & Hpr)%list_elem_of_omap).
      apply elem_of_scan in Hkv as [Hkv _]. unfold pruned in Hpr. cbn in Hpr.
      destruct (from_bytes v') as [rec|] eqn:Hrec; [|done].
      destruct (Z.ltb_spec (rsr_expires_at_unix rec) cutoff); [|done]. simplify_eq.
      exists rec. rewrite (wf_revoked_svid _ _ _ _ Hwf Hkv Hrec), Hkv. done.
    - intros (rec & (v & Hv & Hrec)%bind_Some & Hx). exists n. split; [done|].
      apply list_elem_of_omap. exists v. split.
      + apply list_elem_of_fmap. exists (n, v). split; [done|]. apply elem_of_scan.
        split; [done|]. apply starts_with_nil.
      + unfold pruned. rewrite Hrec. rewrite (proj2 (Z.ltb_lt _ _)) by done.
        by rewrite (wf_revoked_svid _ _ _ _ Hwf Hv Hrec). }
  destruct (st !! (ks_revoked_svids, n) ≫= from_bytes) as [rec|].
  - destruct (Z.ltb_spec (rsr_expires_at_unix rec) cutoff).
    + by rewrite decide_True by (apply Hin; eauto).
    + rewrite decide_False; [done|]. intros (rec' & [= <-] & Hx)%Hin. lia.
  - rewrite decide_False; [done|]. intros (rec' & ? & Hx)%Hin. done.
Qed.

(** ** Taints *)
Definition taints_of (st : store) (n : string) : list NodeTaint :=
  default [] (st !! (ks_node_taints, n) ≫= from_bytes).

Lemma put_taints_write n ts b st :
  put_taints n ts [] = Ok b → taints_of (apply_batch st b) n = ts ∧
  ∀ m, m ≠ n → taints_of (apply_batch st b) m = taints_of st m.
Proof.
  unfold taints_of. destruct ts as [|t ts]; cbn; intros H; ok_inv; ser_inv; cbn; split.
  - by rewrite lookup_delete_eq.
  - intros m Hm. by rewrite lookup_delete_ne by naive_solver.
  - rewrite lookup_insert_eq. cbn. by rewrite Ha.
  - intros m Hm. by rewrite lookup_insert_ne by naive_solver.
Qed.

Lemma retain_taints_same k ef ts :
  length (retain_taints k ef ts) = length ts → retain_taints k ef ts = ts.
Proof.
  induction ts as [|t ts IH]; [done|]. unfold retain_taints in *. rewrite filter_cons.
  case_decide; cbn; intros Hl.
  - f_equal. apply IH. lia.
  - pose proof (length_filter (λ t, ¬ (nt_key t = k ∧ nt_effect t = ef)) ts). lia.
Qed.

(** [SetNodeTaints] replaces the node's taint set; [RemoveNodeTaint] keeps
    exactly the taints with another key or effect; neither touches another node. *)
Theorem node_taints_spec sm e a sm' r n :
  payload e = Normal a → apply_entry sm e = (sm', Ok r) →
  let st := contents (sm_db sm) in
  let st' := contents (sm_db sm') in
  (∀ ts, cmd a = SetNodeTaints n ts →
    taints_of st' n = ts ∧ ∀ m, m ≠ n → taints_of st' m = taints_of st m) ∧
  (∀ k ef, cmd a = RemoveNodeTaint n k ef →
    taints_of st' n = retain_taints k ef (taints_of st n) ∧
    ∀ m, m ≠ n → taints_of st' m = taints_of st m).
Proof.
  intros Hp H st st'. destruct (apply_entry_command _ _ _ _ _ Hp H) as (b & ck & Hb & Hl).
  assert (HT : ∀ m, taints_of st' m = taints_of (apply_batch st b) m).
  { intros m. unfold taints_of, st'. by rewrite (Hl ks_node_taints m eq_refl). }
  split.
  - intros ts Hc. rewrite Hc in Hb. cbn in Hb. unfold apply_set_node_taints in Hb.
    apply bind_ok in Hb as (b1 & Hb & Hok). ok_inv. setoid_rewrite HT. by apply put_taints_write.
  - intros k ef Hc. rewrite Hc in Hb. cbn in Hb. unfold apply_remove_node_taint in Hb.
    apply bind_ok in Hb as (o & Ho & Hb). apply bind_ok in Hb as (b1 & Hb & Hok). ok_inv.
    apply read_get_ok in Ho. fold st in Ho. setoid_rewrite HT. subst o.
    destruct (st !! (ks_node_taints, n)) as [v|] eqn:Hv.
    + apply bind_ok in Hb as (ts & Hts & Hb). apply de_ok in Hts.
      assert (Ht : taints_of st n = ts) by (unfold taints_of; rewrite Hv; cbn; by rewrite Hts).
      rewrite Ht. case_decide as Hd; [by apply put_taints_write|]. ok_inv.
      rewrite retain_taints_same by done. by split.
    + ok_inv. assert (Ht : taints_of st n = []) by (unfold taints_of; by rewrite Hv).
      by rewrite Ht.
Qed.
End Nodes.

(** ** Witnesses *)
Import DemoInstances.

(** The demo cluster after the eviction of [n1]. *)
Definition evicted_sm : FjallStateMachine :=
  (apply_entry demo_sm (demo_entry 7 (EvictNode "spiffe://n1" 9))).1.

Lemma evicted_sm_wf : store_wf (contents (sm_db evicted_sm)).
Proof.
  apply (apply_entry_wf demo_sm (demo_entry 7 (EvictNode "spiffe://n1" 9)) _ {| version := 7 |});
    [apply demo_wf|exact I|]. unfold evicted_sm. apply result_pair. vm_refl.
Qed.

Lemma evicted_until_registered_witness :
  status_evicted (contents (sm_db (apply evicted_sm
    [demo_entry 8 (SetNodeSchedulable "spiffe://n1" true)]).1)) "spiffe://n1".
Proof.
  apply (evicted_until_registered evicted_sm
    [demo_entry 8 (SetNodeSchedulable "spiffe://n1" true)] _
    (apply evicted_sm [demo_entry 8 (SetNodeSchedulable "spiffe://n1" true)]).2).
  - apply evicted_sm_wf.
  - repeat constructor.
  - exists (default "" (contents (sm_db evicted_sm) !! (ks_nodes, "spiffe://n1"))),
      (set_node_schedulable (set_node_status (demo_node "spiffe://n1") Evicted) false).
    split_and!; [apply isSome_default; vm_refl|vm_refl|reflexivity].
  - constructor; [|constructor]. intros (a & rec & [= <-] & Hc & _). discriminate Hc.
  - apply surjective_pairing.
Defined.

Lemma evicted_sm_revoked : svid_revoked (contents (sm_db evicted_sm)) "spiffe://n1" 9.
Proof.
  exists (default "" (contents (sm_db evicted_sm) !! (ks_revoked_svids, "spiffe://n1"))).
  split; [apply isSome_default; vm_refl|vm_refl].
Qed.

Lemma revocation_lasts_witness :
  svid_revoked (contents (sm_db (apply evicted_sm
    [demo_entry 8 (PruneExpiredRevokedSvids 9)]).1)) "spiffe://n1" 9.
Proof.
  apply (revocation_lasts evicted_sm [demo_entry 8 (PruneExpiredRevokedSvids 9)] _
    (apply evicted_sm [demo_entry 8 (PruneExpiredRevokedSvids 9)]).2).
  - apply evicted_sm_wf.
  - repeat constructor.
  - apply evicted_sm_revoked.
  - constructor; [|constructor]. intros (a & [= <-] & [(c & [= <-] & Hx)|(x & Hx)]);
      [lia|discriminate Hx].
  - apply surjective_pairing.
Defined.

Lemma prune_exact_witness :
  contents (sm_db (apply_entry evicted_sm (demo_entry 8 (PruneExpiredRevokedSvids 10))).1)
    !! (ks_revoked_svids, "spiffe://n1") = None.
Proof.
  rewrite (prune_exact evicted_sm (demo_entry 8 (PruneExpiredRevokedSvids 10))
    (system (PruneExpiredRevokedSvids 10)) 10 _ {| version := 8 |}
    evicted_sm_wf eq_refl eq_refl).
  - vm_refl.
  - apply result_pair. vm_refl.
Defined.

Lemma node_taints_spec_witness :
  let t := {| nt_key := "gpu"; nt_value := "true"; nt_effect := "NoSchedule";
              nt_time_added_unix := 5 |} in
  taints_of (contents (sm_db (apply_entry demo_sm
    (demo_entry 7 (SetNodeTaints "spiffe://n1" [t]))).1)) "spiffe://n1" = [t].
Proof.
  intros t.
  apply (node_taints_spec demo_sm (demo_entry 7 (SetNodeTaints "spiffe://n1" [t]))
    (system (SetNodeTaints "spiffe://n1" [t])) _ {| version := 7 |} "spiffe://n1").
  - reflexivity.
  - apply result_pair. vm_refl.
  - reflexivity.
Defined.
