(* ===== verification/Placements.v ===== *)
(** * Placements: scaling, deleting and replacing pods

    The placement arms of [apply_command] ([src/raft/state_machine.rs]):
    [DeleteWorkload], [ScaleWorkload] and [ReassignPodId]. *)

From Stdlib Require Import Ascii.
From S2P Require Import Prelude.
From S2P Require Import Storage.
From S2P Require Import Core.
From S2P Require Import Records.
From S2P Require Import WireInstance.
From S2P Require Import Schema.
From S2P Require Import Expansion.
From S2P Require Import Watch.
From S2P Require Import Acl.
From S2P Require Import StateMachine.
From S2P Require Import Apply.
From S2P Require Import Invariant.
From S2P Require Import Demo.
From S2P Require Import Staging.
From S2P Require Import Frame.

Section Slots.
Context `{F : Fjall} `{C : Core} `{W : !Wire C} `{!FjallSpec F}.

(** Within one workload the slot key determines role and ordinal. *)
Lemma ordinal_key_inj t w r1 o1 r2 o2 :
  ordinal_key t w r1 o1 = ordinal_key t w r2 o2 → r1 = r2 ∧ o1 = o2.
Proof.
  unfold ordinal_key. intros H.
  apply (inj (String.app t)) in H. apply (inj (String.app ":")) in H.
  apply (inj (String.app w)) in H. apply (inj (String.app ":")) in H.
  apply (split_last_inj ":"%char) in H as [-> Ho]; [|apply pretty_Z_no_char; set_solver..].
  split; [done|]. by apply (inj pretty).
Qed.

(** The slots a [DeleteWorkload] or [ScaleWorkload] frees: those of the stored
    placements that satisfy [cond]. *)
Definition freed_slots (cond : Placement → bool) (st : store) : list (string * string * Z) :=
  omap (λ p, if cond p then Some (slot_of p) else None) (stored_placements st).
Definition free_batch (t w : string) (cond : Placement → bool) (st : store) : write_batch :=
  mjoin (free_ops t w <$> freed_slots cond st).

Lemma elem_of_freed_slots cond st slot :
  slot ∈ freed_slots cond st ↔
  ∃ k v p, st !! (ks_placements, k) = Some v ∧ from_bytes v = Some p ∧ cond p = true ∧
    slot = slot_of p.
Proof.
  unfold freed_slots. rewrite list_elem_of_omap. setoid_rewrite elem_of_stored_placements.
  split.
  - intros (p & (k & v & Hv & Hp) & Hs). destruct (cond p) eqn:Hc; [|done].
    exists k, v, p. by injection Hs as <-.
  - intros (k & v & p & Hv & Hp & Hc & ->). exists p. rewrite Hc. eauto 6.
Qed.

Lemma elem_of_free_batch t w cond st op :
  op ∈ free_batch t w cond st ↔
  ∃ slot, slot ∈ freed_slots cond st ∧ op ∈ free_ops t w slot.
Proof.
  unfold free_batch. rewrite list_elem_of_join. split.
  - intros (l & Hop & (slot & -> & Hs)%list_elem_of_fmap). eauto.
  - intros (slot & Hs & Hop). exists (free_ops t w slot). split; [done|].
    by apply list_elem_of_fmap_2.
Qed.

(** The placements written: exactly those that satisfy the condition are removed. *)
Lemma free_batch_placements t w cond st k :
  store_wf st →
  last_write (free_batch t w cond st) (ks_placements, k) =
  match st !! (ks_placements, k) ≫= from_bytes with
  | Some p => if cond p then Some None else None
  | None => None
  end.
Proof.
  intros Hwf.
  assert (Hin : ∀ op, op ∈ free_batch t w cond st → op_key op = (ks_placements, k) →
    op = BRemove ks_placements k ∧ ∃ p, st !! (ks_placements, k) ≫= from_bytes = Some p ∧ cond p = true).
  { intros op (slot & Hs & Hop)%elem_of_free_batch Hk.
    apply elem_of_freed_slots in Hs as (k' & v & p & Hv & Hp & Hc & ->).
    apply elem_of_cons in Hop as [->|Hop]; [|apply list_elem_of_singleton in Hop as ->; done].
    injection Hk as Hk. cbn in Hk. rewrite <- (wf_placement _ _ _ _ Hwf Hv Hp) in Hv.
    rewrite <- Hk. split; [done|]. exists p. by rewrite Hv. }
  destruct (st !! (ks_placements, k) ≫= from_bytes) as [p|] eqn:Ep.
  - destruct (cond p) eqn:Hc.
    + apply bind_Some in Ep as (v & Hv & Hp).
      rewrite (last_write_unique _ (BRemove ks_placements k)); [done| |done|].
      * apply elem_of_free_batch. exists (slot_of p). split.
        -- apply elem_of_freed_slots. by exists k, v, p.
        -- unfold free_ops. cbn. rewrite (wf_placement _ _ _ _ Hwf Hv Hp). left.
      * intros op Hop Hk. by destruct (Hin op Hop Hk) as [-> _].
    + apply last_write_none, Forall_forall. intros op Hop Hk.
      destruct (Hin op Hop Hk) as (_ & p' & [= <-] & Hc'). congruence.
  - apply last_write_none, Forall_forall. intros op Hop Hk.
    by destruct (Hin op Hop Hk) as (_ & p' & ? & _).
Qed.

(** The slots written: each freed one, with nobody in it. *)
Lemma free_batch_ordinals t w cond st slot :
  slot ∈ freed_slots cond st →
  last_write (free_batch t w cond st) (ks_ordinals, ordinal_key t w slot.1.2 slot.2) =
  Some (Some (default "" (to_allocvec (freed t w slot)))).
Proof.
  intros Hs. rewrite (last_write_unique _ (BInsert ks_ordinals (ordinal_key t w slot.1.2 slot.2)
    (default "" (to_allocvec (freed t w slot))))); [done| |done|].
  - apply elem_of_free_batch. exists slot. split; [done|]. unfold free_ops. set_solver.
  - intros op (slot' & _ & Hop)%elem_of_free_batch Hk.
    apply elem_of_cons in Hop as [->|Hop]; [done|]. apply list_elem_of_singleton in Hop as ->.
    injection Hk as [Hr Ho]%ordinal_key_inj. cbn. unfold freed. by rewrite Hr, Ho.
Qed.

Lemma free_batch_other t w cond st ks k :
  ks ≠ ks_placements → ks ≠ ks_ordinals → last_write (free_batch t w cond st) (ks, k) = None.
Proof.
  intros H1 H2. apply last_write_none, Forall_forall.
  intros op (slot & _ & Hop)%elem_of_free_batch Hk.
  apply elem_of_cons in Hop as [->|Hop]; [|apply list_elem_of_singleton in Hop as ->];
    cbn in Hk; congruence.
Qed.

(** What [slots] of a workload look like after they were freed. *)
Definition slot_free (st : store) (t w role : string) (ordinal : Z) : Prop :=
  ∃ v, st !! (ks_ordinals, ordinal_key t w role ordinal) = Some v ∧
    from_bytes v = Some {|
      oa_tenant_id := t; oa_service := w; oa_role := role; oa_ordinal := ordinal;
      oa_current_pod_id := None; oa_current_node_id := None |}.

(** The state after the freeing loop, whatever the arm wrote before it to other
    keyspaces. *)
Definition frees (st st' : store) (t w : string) (cond : Placement → bool) : Prop :=
  (∀ pod, st' !! (ks_placements, pod) =
    match st !! (ks_placements, pod) ≫= from_bytes with
    | Some p => if cond p then None else st !! (ks_placements, pod)
    | None => st !! (ks_placements, pod)
    end) ∧
  ∀ pod v p, st !! (ks_placements, pod) = Some v → from_bytes v = Some p → cond p = true →
    slot_free st' t w (pl_role p) (pl_ordinal p).

Lemma free_batch_frees st b0 t w cond :
  store_wf st →
  (∀ slot, slot ∈ freed_slots cond st → is_Some (to_allocvec (freed t w slot))) →
  (∀ ks k, ks = ks_placements ∨ ks = ks_ordinals → last_write b0 (ks, k) = None) →
  frees st (apply_batch st (b0 ++ free_batch t w cond st)) t w cond.
Proof.
  intros Hwf Hser H0. split.
  - intros pod. rewrite apply_batch_lookup, last_write_app, free_batch_placements by done.
    rewrite H0 by auto.
    destruct (st !! (ks_placements, pod) ≫= from_bytes) as [p|]; [|done]. by destruct (cond p).
  - intros pod v p Hv Hp Hc.
    assert (Hs : slot_of p ∈ freed_slots cond st) by (apply elem_of_freed_slots; by exists pod, v, p).
    destruct (Hser _ Hs) as [bs Hbs]. exists bs.
    rewrite apply_batch_lookup, last_write_app. change (pl_role p) with (slot_of p).1.2.
    change (pl_ordinal p) with (slot_of p).2. rewrite free_batch_ordinals by done.
    rewrite Hbs. split; [done|]. by apply from_to_allocvec.
Qed.
End Slots.

Section Workloads.
Context `{F : Fjall} `{C : Core} `{W : !Wire C} `{!FjallSpec F}.

Definition of_workload (t w : string) (p : Placement) : bool :=
  bool_decide (pl_tenant_id p = t) && bool_decide (pl_service p = w).

Lemma apply_delete_workload_ok db t w b ck :
  apply_delete_workload db t w [] = Ok (b, ck) →
  b = [BRemove ks_workloads (pair_key t w)] ++ free_batch t w (of_workload t w) (contents db) ∧
  ∀ slot, slot ∈ freed_slots (of_workload t w) (contents db) →
    is_Some (to_allocvec (freed t w slot)).
Proof.
  unfold apply_delete_workload. intros H. apply bind_ok in H as (l & Hl & H).
  apply bind_ok in H as (b1 & Hf & H). ok_inv. apply collect_placements_ok in Hl as ->.
  by apply free_slots_ok in Hf as [-> Hser].
Qed.

Lemma apply_scale_workload_ok db rec b ck :
  apply_scale_workload db rec [] = Ok (b, ck) →
  let t := wsr_tenant_id rec in let w := wsr_workload_id rec in
  let cond p := of_workload t w p && exceeds (new_replicas rec) p in
  ∃ v, from_bytes v = Some rec ∧
    b = [BInsert ks_workloads (pair_key t w) v] ++ free_batch t w cond (contents db) ∧
    ∀ slot, slot ∈ freed_slots cond (contents db) → is_Some (to_allocvec (freed t w slot)).
Proof.
  intros H t w cond. unfold apply_scale_workload, put_workload in H.
  apply bind_ok in H as (b0 & Hp & H). apply bind_ok in H as (l & Hl & H).
  apply bind_ok in H as (b1 & Hf & H). apply bind_ok in Hp as (v & Hv & Hp). ok_inv. ser_inv.
  apply collect_placements_ok in Hl. exists v. split; [done|].
  assert (Hl' : l = freed_slots cond (contents db)).
  { rewrite Hl. apply omap_pointwise. intros p. unfold cond, of_workload.
    by destruct (_ && _), (exceeds _ _). }
  rewrite Hl' in Hf. apply free_slots_ok in Hf as [-> Hser]. split; [reflexivity|exact Hser].
Qed.

(** [DeleteWorkload] removes the spec and exactly the placements of that
    workload, leaves each of their ordinal slots recorded as free, and touches no
    other keyspace. *)
Theorem delete_workload_exact sm e a t w sm' r :
  store_wf (contents (sm_db sm)) → payload e = Normal a → cmd a = DeleteWorkload t w →
  apply_entry sm e = (sm', Ok r) →
  let st := contents (sm_db sm) in
  let st' := contents (sm_db sm') in
  st' !! (ks_workloads, pair_key t w) = None ∧
  frees st st' t w (of_workload t w) ∧
  (∀ ks k, ks ∉ [ks_workloads; ks_placements; ks_ordinals] → bookkeeping ks = false →
    st' !! (ks, k) = st !! (ks, k)).
Proof.
  intros Hwf Hp Hc H st st'. destruct (apply_entry_command _ _ _ _ _ Hp H) as (b & ck & Hb & Hl).
  fold st st' in Hl. rewrite Hc in Hb. cbn [apply_command] in Hb.
  apply apply_delete_workload_ok in Hb as [-> Hser]. split_and!.
  - rewrite Hl, apply_batch_lookup, last_write_app, free_batch_other by done.
    cbn. by rewrite decide_True.
  - destruct (free_batch_frees st [BRemove ks_workloads (pair_key t w)] t w _ Hwf Hser
      ltac:(by intros ks k [-> | ->])) as [H1 H2]. split.
    + intros pod. rewrite Hl by done. apply H1.
    + intros pod v p Hv Hdec Hco. destruct (H2 pod v p Hv Hdec Hco) as (bs & Hbs & Hd).
      exists bs. by rewrite Hl.
  - intros ks k Hks Hbk. apply (apply_entry_frame _ e _ r); [done| |done].
    unfold entry_keyspaces. rewrite Hp, Hc. cbn. set_solver.
Qed.

End Workloads.

Section Reassign.
Context `{F : Fjall} `{C : Core} `{W : !Wire C} `{!FjallSpec F}.

(** The search loop finds a stored placement of the slot, or there is none. *)
Lemma find_slot_ok db t s role o found :
  find_slot t s role o (prefix db ks_placements "") = Ok found →
  match found with
  | Some p => ∃ k v, contents db !! (ks_placements, k) = Some v ∧ from_bytes v = Some p ∧
      occupies t s role o p = true
  | None => ∀ k v p, contents db !! (ks_placements, k) = Some v → from_bytes v = Some p →
      occupies t s role o p = false
  end.
Proof.
  intros H. enough (match found with
    | Some p => ∃ k v, (k, v) ∈ scan (contents db) ks_placements "" ∧ from_bytes v = Some p ∧
        occupies t s role o p = true
    | None => ∀ k v p, (k, v) ∈ scan (contents db) ks_placements "" → from_bytes v = Some p →
        occupies t s role o p = false
    end) as G.
  { destruct found as [p|].
    - destruct G as (k & v & [Hin _]%elem_of_scan & Hp). by exists k, v.
    - intros k v p Hin. apply (G k v p). apply elem_of_scan. by rewrite starts_with_nil. }
  revert H. pose proof (prefix_spec db ks_placements "") as HF. revert HF.
  generalize (prefix db ks_placements "") (scan (contents db) ks_placements "").
  intros gs l HF. induction HF as [|g [k v] gs l Hg HF IH]; intros H.
  { cbn in H. ok_inv. intros k v p Hin. by apply not_elem_of_nil in Hin. }
  cbn in H. destruct g as [[k' v']|]; [|done]. cbn in H. specialize (Hg _ eq_refl).
  injection Hg as -> ->.
  destruct (from_bytes v) as [p|] eqn:Hp; [destruct (occupies t s role o p) eqn:Ho|].
  - ok_inv. exists k, v. set_solver.
  - specialize (IH H). destruct found as [q|].
    + destruct IH as (k2 & v2 & Hin & Hq). exists k2, v2. set_solver.
    + intros k2 v2 p2 [[= -> ->]|Hin]%elem_of_cons Hp2; [congruence|by eapply IH].
  - specialize (IH H). destruct found as [q|].
    + destruct IH as (k2 & v2 & Hin & Hq). exists k2, v2. set_solver.
    + intros k2 v2 p2 [[= -> ->]|Hin]%elem_of_cons Hp2; [congruence|by eapply IH].
Qed.

(** What a [ReassignPodId] stages. *)
Lemma reassign_batch db t s role o new b ck :
  apply_reassign_pod_id db t s role o new [] = Ok (b, ck) →
  (b = [] ∧ ∀ k v p, contents db !! (ks_placements, k) = Some v → from_bytes v = Some p →
     occupies t s role o p = false) ∨
  ∃ old v p v1 v2, contents db !! (ks_placements, old) = Some v ∧ from_bytes v = Some p ∧
    occupies t s role o p = true ∧ from_bytes v1 = Some (set_pod_id p new) ∧
    from_bytes v2 = Some {|
      oa_tenant_id := t; oa_service := s; oa_role := role; oa_ordinal := o;
      oa_current_pod_id := Some new;
      oa_current_node_id := Some (spiffe_to_string (pl_node_id p)) |} ∧
    b = [BRemove ks_placements (pl_pod_id p); BInsert ks_placements new v1;
         BInsert ks_ordinals (ordinal_key t s role o) v2].
Proof.
  unfold apply_reassign_pod_id. intros Hb.
  apply bind_ok in Hb as (found & Hf & Hb). apply bind_ok in Hb as (b1 & Hb & Hok). ok_inv.
  apply find_slot_ok in Hf. destruct found as [p|].
  - right. destruct Hf as (old & v & Hv & Hd & Ho).
    apply bind_ok in Hb as (ser1 & Hs1 & Hb). apply bind_ok in Hb as (ser2 & Hs2 & Hb).
    ok_inv. ser_inv. by exists old, v, p, ser1, ser2.
  - left. by ok_inv.
Qed.

(** The placement stored for a pod. *)
Definition placement_of (st : store) (pod : string) : option Placement :=
  st !! (ks_placements, pod) ≫= from_bytes.

(** [ReassignPodId] replaces the pod in its slot: when the slot is empty nothing
    changes outside the bookkeeping keyspaces; otherwise one placement of the slot
    moves to the new pod id on the same node with the same resources, the old pod id
    is gone, no other placement changes, and the slot records the new pod. *)
Theorem reassign_preserves_slot sm e a t s role o new sm' r :
  store_wf (contents (sm_db sm)) → payload e = Normal a →
  cmd a = ReassignPodId t s role o new → apply_entry sm e = (sm', Ok r) →
  let st := contents (sm_db sm) in
  let st' := contents (sm_db sm') in
  ((∀ pod p, placement_of st pod = Some p → occupies t s role o p = false) ∧
   ∀ ks k, bookkeeping ks = false → st' !! (ks, k) = st !! (ks, k)) ∨
  ∃ old p, placement_of st old = Some p ∧ occupies t s role o p = true ∧
    (∀ pod, placement_of st' pod =
      if decide (pod = new) then Some (set_pod_id p new)
      else if decide (pod = old) then None else placement_of st pod) ∧
    (∃ v, st' !! (ks_ordinals, ordinal_key t s role o) = Some v ∧
      from_bytes v = Some {|
        oa_tenant_id := t; oa_service := s; oa_role := role; oa_ordinal := o;
        oa_current_pod_id := Some new;
        oa_current_node_id := Some (spiffe_to_string (pl_node_id p)) |}).
Proof.
  intros Hwf Hp Hc H st st'. destruct (apply_entry_command _ _ _ _ _ Hp H) as (b & ck & Hb & Hl).
  fold st st' in Hl. rewrite Hc in Hb. cbn [apply_command] in Hb.
  apply reassign_batch in Hb as [[-> Hno]|(old & v & p & v1 & v2 & Hv & Hd & Ho & Hs1 & Hs2 & ->)].
  - left. split.
    + intros pod p (v & Hv & Hd)%bind_Some. by eapply Hno.
    + intros ks k Hks. by rewrite Hl.
  - right. rewrite (wf_placement _ _ _ _ Hwf Hv Hd) in Hl. fold st in Hv.
    exists old, p. split_and!; [|done| |].
    + unfold placement_of. by rewrite Hv.
    + intros pod. unfold placement_of. rewrite Hl, apply_batch_lookup by done.
      cbn [last_write foldl op_key op_value]. rewrite decide_False by done.
      destruct (decide (pod = new)) as [->|Hn].
      * rewrite decide_True by done. cbn. by rewrite Hs1.
      * rewrite (decide_False (P := (ks_placements, new) = _)) by naive_solver.
        destruct (decide (pod = old)) as [->|Hne]; [by rewrite decide_True|].
        by rewrite decide_False by naive_solver.
    + exists v2. rewrite Hl, apply_batch_lookup by done.
      cbn [last_write foldl op_key op_value]. by rewrite decide_True.
Qed.
End Reassign.

(** ** Witnesses *)
Import DemoInstances.
Lemma delete_workload_exact_witness :
  let sm' := (apply_entry demo_sm (demo_entry 7 (DeleteWorkload "acme" "web"))).1 in
  contents (sm_db sm') !! (ks_placements, "web-primary-0") = None ∧
  slot_free (contents (sm_db sm')) "acme" "web" "primary" 0.
Proof.
  intros sm'.
  destruct (delete_workload_exact demo_sm (demo_entry 7 (DeleteWorkload "acme" "web"))
    (system (DeleteWorkload "acme" "web")) "acme" "web" sm' {| version := 7 |} demo_wf
    eq_refl eq_refl) as (_ & [Hpl Hord] & _).
  - apply result_pair. vm_refl.
  - split.
    + rewrite Hpl. vm_refl.
    + apply (Hord "web-primary-0"
        (default "" (contents (sm_db demo_sm) !! (ks_placements, "web-primary-0")))
        (demo_placement "web-primary-0" "n1" 0)); vm_refl.
Defined.

(** A spec of the demo workload with one replica. *)
Definition demo_spec (n : Z) : WorkloadSpec := {|
  ws_tenant_id := "acme"; ws_workload_id := "web"; ws_image := "web:1";
  ws_replicas := {["primary" := n]}; ws_pod_spec := None; ws_autoscaling := None;
  ws_vertical_autoscaling := None; ws_budgets := ∅; ws_placement := 0; ws_rest := tt |}.
Definition demo_workload (n : Z) : WorkloadSpecRecord := {|
  wsr_tenant_id := "acme"; wsr_workload_id := "web";
  wsr_spec_bytes := encode_to_vec (demo_spec n); wsr_last_applied_bytes := "" |}.


Lemma reassign_preserves_slot_witness :
  let sm' := (apply_entry demo_sm
    (demo_entry 7 (ReassignPodId "acme" "web" "primary" 1 "web-primary-1-r1"))).1 in
  placement_of (contents (sm_db sm')) "web-primary-1-r1" =
    Some (demo_placement "web-primary-1-r1" "n2" 1).
Proof.
  intros sm'.
  destruct (reassign_preserves_slot demo_sm
    (demo_entry 7 (ReassignPodId "acme" "web" "primary" 1 "web-primary-1-r1"))
    (system (ReassignPodId "acme" "web" "primary" 1 "web-primary-1-r1"))
    "acme" "web" "primary" 1 "web-primary-1-r1" sm' {| version := 7 |} demo_wf
    eq_refl eq_refl) as [[Hn _]|(old & p & Hold & Hocc & Hpl & _)].
  - apply result_pair. vm_refl.
  - assert (placement_of (contents (sm_db demo_sm)) "web-primary-1" =
      Some (demo_placement "web-primary-1" "n2" 1)) as E by vm_refl.
    specialize (Hn _ _ E). vm_compute in Hn. discriminate Hn.
  - vm_refl.
Defined.
