(* ===== verification/PodEvents.v ===== *)
(** * PodEvents: the leader-local pod event store

    Models [src/watch/pod_event_store.rs]: the vocabulary, [PodEventStore] (one
    deque of coalesced events per pod and a running total), its eviction loop,
    its sweep, and [PodEventEmitter]. The handlers run one at a time; the clock is
    an argument, the iteration order of the map is [Core]'s [hash_iter]. *)

From S2P Require Import Prelude.
From S2P Require Import Core.
From S2P Require Import Demo.

(** [state::PodEvent]. *)
Record PodEvent : Type := {
  ev_pod_id : string;
  ev_node_id : string;
  ev_event_type : string;
  ev_reason : string;
  ev_message : string;
  ev_timestamp_unix : Z;
  ev_count : Z
}.
#[export] Instance PodEvent_eq_dec : EqDecision PodEvent.
Proof. solve_decision. Defined.

Definition MAX_EVENTS : Z := 10000.
Definition MAX_EVENTS_PER_POD : Z := 100.
Definition TTL_SECS : Z := 3600.

Definition EVENT_TYPES : list string :=
  ["Pulled"; "Created"; "Started"; "ProbeFailed"; "BackOff"; "OOMKilled"; "Evicting";
   "GracePeriodExpired"; "FailedScheduling"; "Resizing"; "Resized"].

Definition is_valid_event_type (event_type : string) : bool :=
  bool_decide (event_type ∈ EVENT_TYPES).

Record PodEventStore : Type := {
  pes_pods : gmap string (list PodEvent);
  pes_total : Z
}.
Definition PodEventStore_new : PodEventStore := {| pes_pods := ∅; pes_total := 0 |}.

(** What coalescing compares. *)
Definition same_event (a b : PodEvent) : bool :=
  String.eqb (ev_event_type a) (ev_event_type b) && String.eqb (ev_reason a) (ev_reason b).

(** [iter_mut().find(..)] and the update of the event it finds. *)
Fixpoint coalesce (event : PodEvent) (deque : list PodEvent) : option (list PodEvent) :=
  match deque with
  | [] => None
  | existing :: rest =>
      if same_event existing event then
        Some ({| ev_pod_id := ev_pod_id existing;
                 ev_node_id := ev_node_id existing;
                 ev_event_type := ev_event_type existing;
                 ev_reason := ev_reason existing;
                 ev_message := if decide (ev_message event = "") then ev_message existing
                               else ev_message event;
                 ev_timestamp_unix :=
                   Z.max (ev_timestamp_unix existing) (ev_timestamp_unix event);
                 ev_count := Z.min (2 ^ 32 - 1) (ev_count existing + Z.max (ev_count event) 1)
              |} :: rest)
      else cons existing <$> coalesce event rest
  end.

(** The per-pod cap: drop from the front while the deque is too long. *)
Fixpoint trim (deque : list PodEvent) (total : Z) : list PodEvent * Z :=
  match deque with
  | [] => ([], total)
  | _ :: rest =>
      if MAX_EVENTS_PER_POD <? Z.of_nat (length deque) then trim rest (wrap_u64 (total - 1))
      else (deque, total)
  end.

Section Store.
Context `{C : Core}.

(** The number of events a store holds. *)
Definition stored (pods : gmap string (list PodEvent)) : Z :=
  foldl (λ n e, n + Z.of_nat (length e.2)) 0 (hash_iter pods).

Definition resync_total (s : PodEventStore) : PodEventStore :=
  {| pes_pods := pes_pods s; pes_total := stored (pes_pods s) |}.

(** The pod holding the oldest front event; the first of the iteration wins a tie. *)
Definition oldest (pods : gmap string (list PodEvent)) : option (string * Z) :=
  foldl (λ oldest entry,
    match head entry.2 with
    | None => oldest
    | Some front =>
        let better :=
          match oldest with
          | None => true
          | Some (_, ts) => ev_timestamp_unix front <? ts
          end in
        if better then Some (entry.1, ev_timestamp_unix front) else oldest
    end) None (hash_iter pods).

(** One round of [evict_to_cap]: pop the front of that pod's deque. *)
Definition pop_front (s : PodEventStore) (pod_id : string) : PodEventStore :=
  match pes_pods s !! pod_id with
  | Some (_ :: deque) =>
      {| pes_pods := if decide (deque = []) then delete pod_id (pes_pods s)
                     else <[pod_id := deque]> (pes_pods s);
         pes_total := wrap_u64 (pes_total s - 1) |}
  | Some [] => {| pes_pods := delete pod_id (pes_pods s); pes_total := pes_total s |}
  | None => s
  end.

(** [evict_to_cap]'s loop; [None] when the fuel runs out. *)
Fixpoint evict_to_cap (fuel : nat) (s : PodEventStore) : option PodEventStore :=
  match fuel with
  | O => None
  | S fuel =>
      if pes_total s <=? MAX_EVENTS then Some s
      else
        match oldest (pes_pods s) with
        | None => Some (resync_total s)
        | Some (pod_id, _) => evict_to_cap fuel (pop_front s pod_id)
        end
  end.

(** Every round but the last removes a stored event. *)
Definition evict_fuel (s : PodEventStore) : nat := S (Z.to_nat (stored (pes_pods s))).

Definition insert (s : PodEventStore) (event : PodEvent) : option PodEventStore :=
  let pod_id := ev_pod_id event in
  let deque := default [] (pes_pods s !! pod_id) in
  match coalesce event deque with
  | Some deque =>
      Some {| pes_pods := <[pod_id := deque]> (pes_pods s); pes_total := pes_total s |}
  | None =>
      let '(deque, total) := trim (deque ++ [event]) (wrap_u64 (pes_total s + 1)) in
      let s := {| pes_pods := <[pod_id := deque]> (pes_pods s); pes_total := total |} in
      if MAX_EVENTS <? pes_total s then evict_to_cap (evict_fuel s) s else Some s
  end.

Definition sweep_expired (s : PodEventStore) (now_unix : Z) : PodEventStore :=
  let cutoff := saturating_sub now_unix TTL_SECS in
  let pods := (λ deque, filter (λ e, cutoff ≤ ev_timestamp_unix e) deque) <$> pes_pods s in
  resync_total {| pes_pods := filter (λ '(_, deque), deque ≠ []) pods;
                  pes_total := pes_total s |}.

(** [PodEventEmitter]: the store and what the hub was sent. *)
Record PodEventEmitter : Type := {
  pee_store : PodEventStore;
  pee_published : list PodEvent
}.

Definition emit_one (em : PodEventEmitter) (event : PodEvent) : option PodEventEmitter :=
  store ← insert (pee_store em) event;
  Some {| pee_store := store; pee_published := pee_published em ++ [event] |}.

Definition emit (em : PodEventEmitter) (now_unix : Z) (event : PodEvent) :
    option PodEventEmitter :=
  if is_valid_event_type (ev_event_type event) then
    emit_one em
      {| ev_pod_id := ev_pod_id event; ev_node_id := ev_node_id event;
         ev_event_type := ev_event_type event; ev_reason := ev_reason event;
         ev_message := ev_message event;
         ev_timestamp_unix := if ev_timestamp_unix event =? 0 then now_unix
                              else ev_timestamp_unix event;
         ev_count := if ev_count event =? 0 then 1 else ev_count event |}
  else Some em.

Definition emit_batch (em : PodEventEmitter) (events : list PodEvent) : option PodEventEmitter :=
  foldl (λ em event, em ← em; emit_one em event) (Some em) events.
End Store.

(** ** Well-formed stores

    Every deque is non-empty, within the per-pod cap, holds the events of its own
    pod and no two that coalescing should have merged; the counter is exact and
    within the global cap. *)
Definition event_key (e : PodEvent) : string * string := (ev_event_type e, ev_reason e).

Definition pod_wf (pod_id : string) (deque : list PodEvent) : Prop :=
  deque ≠ [] ∧ Z.of_nat (length deque) ≤ MAX_EVENTS_PER_POD ∧
  NoDup (event_key <$> deque) ∧ Forall (λ e, ev_pod_id e = pod_id) deque.

Definition events_wf `{C : Core} (s : PodEventStore) : Prop :=
  map_Forall pod_wf (pes_pods s) ∧ pes_total s = stored (pes_pods s) ∧
  pes_total s ≤ MAX_EVENTS.

Definition deque_of (s : PodEventStore) (pod_id : string) : list PodEvent :=
  default [] (pes_pods s !! pod_id).

(** The events a store holds, pod by pod. *)
Definition events (s : PodEventStore) : list PodEvent :=
  concat (map_to_list (pes_pods s)).*2.

(** ** Coalescing *)
Lemma same_event_iff a b : same_event a b = true ↔ event_key a = event_key b.
Proof.
  unfold same_event, event_key. rewrite andb_true_iff, !String.eqb_eq.
  split; [intros [-> ->]; done|by intros [= -> ->]].
Qed.

Lemma coalesce_none e d : coalesce e d = None → event_key e ∉ event_key <$> d.
Proof.
  induction d as [|x d IH]; cbn; [set_solver|].
  destruct (same_event x e) eqn:E; [done|]. intros H. apply not_elem_of_cons. split.
  - intros Hk. by rewrite (proj2 (same_event_iff x e)) in E.
  - apply IH. by destruct (coalesce e d).
Qed.

Lemma coalesce_some e d d' : coalesce e d = Some d' →
  event_key <$> d' = event_key <$> d ∧ ev_pod_id <$> d' = ev_pod_id <$> d.
Proof.
  revert d'. induction d as [|x d IH]; intros d'; cbn; [done|].
  destruct (same_event x e); [by intros [= <-]|].
  destruct (coalesce e d) as [d1|]; [|done]. intros [= <-].
  destruct (IH d1 eq_refl) as [H1 H2]. cbn. by rewrite H1, H2.
Qed.

Lemma coalesce_wf p e d d' : pod_wf p d → coalesce e d = Some d' → pod_wf p d'.
Proof.
  intros (Hne & Hl & Hd & Hp) [H1 H2]%coalesce_some.
  assert (length d' = length d) as Hlen
    by (rewrite <- (length_fmap event_key d'), H1; by rewrite length_fmap).
  split_and!.
  - intros ->. by destruct d.
  - by rewrite Hlen.
  - by rewrite H1.
  - apply (Forall_fmap ev_pod_id (λ x, x = p)) in Hp. apply (Forall_fmap ev_pod_id (λ x, x = p)).
    by rewrite H2.
Qed.

(** ** The per-pod cap *)
Lemma trim_short d n : Z.of_nat (length d) ≤ MAX_EVENTS_PER_POD → trim d n = (d, n).
Proof. intros Hd. destruct d as [|x d]; [done|]. cbn [trim]. by rewrite (proj2 (Z.ltb_ge _ _)). Qed.

(** A deque grows by one event at a time, so the loop drops at most its front. *)
Lemma trim_snoc d e n : Z.of_nat (length d) ≤ MAX_EVENTS_PER_POD →
  trim (d ++ [e]) n =
    if MAX_EVENTS_PER_POD <=? Z.of_nat (length d) then (tail d ++ [e], wrap_u64 (n - 1))
    else (d ++ [e], n).
Proof.
  intros Hd. destruct (Z.leb_spec MAX_EVENTS_PER_POD (Z.of_nat (length d))) as [Hle|Hlt].
  - destruct d as [|x d]; [done|]. cbn [app trim tail].
    rewrite (proj2 (Z.ltb_lt _ _)) by (cbn [length] in *; rewrite length_app; cbn; lia).
    apply trim_short. rewrite length_app. cbn [length] in *. lia.
  - apply trim_short. rewrite length_app. cbn. lia.
Qed.

(** ** Counting *)
Section Counting.
Context `{C : Core} `{!CoreSpec C}.

Lemma events_hash_iter pods :
  concat (hash_iter pods).*2 ≡ₚ concat (map_to_list pods : list (string * list PodEvent)).*2.
Proof. by rewrite hash_iter_perm. Qed.

Lemma stored_events s : stored (pes_pods s) = Z.of_nat (length (events s)).
Proof.
  unfold events. rewrite <- events_hash_iter. unfold stored.
  assert (∀ l n, foldl (λ (n : Z) (e : string * list PodEvent), n + Z.of_nat (length e.2)) n l
    = n + Z.of_nat (length (concat l.*2))) as H; [|by rewrite H].
  induction l as [|x l IH]; intros n; cbn; [lia|]. rewrite IH, length_app. lia.
Qed.

Lemma stored_pods pods n : stored pods = Z.of_nat (length (events {| pes_pods := pods; pes_total := n |})).
Proof. exact (stored_events {| pes_pods := pods; pes_total := n |}). Qed.

(** The events of a store, with one pod's deque taken out. *)
Lemma events_insert s p d n :
  events {| pes_pods := <[p := d]> (pes_pods s); pes_total := n |} ≡ₚ
  d ++ events {| pes_pods := delete p (pes_pods s); pes_total := n |}.
Proof.
  unfold events. cbn. rewrite <- insert_delete_eq, map_to_list_insert by apply lookup_delete_eq.
  done.
Qed.
Lemma events_delete s p n :
  events s ≡ₚ deque_of s p ++ events {| pes_pods := delete p (pes_pods s); pes_total := n |}.
Proof.
  unfold deque_of. destruct (pes_pods s !! p) as [d|] eqn:E; cbn.
  - rewrite <- events_insert. unfold events. cbn. by rewrite insert_id.
  - unfold events. cbn. by rewrite delete_id.
Qed.
Lemma events_update s p d n :
  deque_of s p ++ events {| pes_pods := <[p := d]> (pes_pods s); pes_total := n |} ≡ₚ
  d ++ events s.
Proof. rewrite events_insert, (events_delete s p n). solve_Permutation. Qed.
End Counting.

(** ** Eviction *)

(** [f] is the front of the deque of [p], and no front is older. *)
Definition oldest_front (pods : gmap string (list PodEvent)) (p : string) (f : PodEvent) : Prop :=
  (∃ d, pods !! p = Some (f :: d)) ∧
  ∀ q g d, pods !! q = Some (g :: d) → ev_timestamp_unix f ≤ ev_timestamp_unix g.

Section Evicting.
Context `{C : Core} `{!CoreSpec C}.

Lemma oldest_fold (l : list (string * list PodEvent)) :
  match
    foldl (λ oldest entry,
      match head entry.2 with
      | None => oldest
      | Some front =>
          if match oldest with None => true | Some (_, ts) => ev_timestamp_unix front <? ts end
          then Some (entry.1, ev_timestamp_unix front) else oldest
      end) None l
  with
  | Some (p, ts) => ∃ f, (∃ d, (p, f :: d) ∈ l) ∧
      (∀ q g d, (q, g :: d) ∈ l → ev_timestamp_unix f ≤ ev_timestamp_unix g) ∧
      ts = ev_timestamp_unix f
  | None => ∀ q d, (q, d) ∈ l → d = []
  end.
Proof.
  induction l as [|[p d] l IH] using rev_ind; [set_solver|].
  rewrite foldl_app. cbn [foldl fst snd].
  destruct d as [|f d]; cbn [head].
  { destruct (foldl _ _ l) as [[p' ts]|]; set_solver. }
  destruct (foldl _ _ l) as [[p' ts]|].
  - destruct IH as (f' & [d' Hd'] & Hmin & ->).
    destruct (Z.ltb_spec (ev_timestamp_unix f) (ev_timestamp_unix f')) as [Hlt|Hle].
    + exists f. split_and!; [exists d; set_solver| |done].
      intros q g d1 [Hq|Hq%list_elem_of_singleton]%elem_of_app; [|by simplify_eq].
      specialize (Hmin _ _ _ Hq). lia.
    + exists f'. split_and!; [exists d'; set_solver| |done].
      intros q g d1 [Hq|Hq%list_elem_of_singleton]%elem_of_app; [by eapply Hmin|by simplify_eq].
  - exists f. split_and!; [exists d; set_solver| |done].
    intros q g d1 [Hq%IH|Hq%list_elem_of_singleton]%elem_of_app; [done|by simplify_eq].
Qed.

Lemma oldest_spec pods :
  match oldest pods with
  | Some (p, ts) => ∃ f, oldest_front pods p f ∧ ts = ev_timestamp_unix f
  | None => ∀ q d, pods !! q = Some d → d = []
  end.
Proof.
  assert (∀ q d, pods !! q = Some d ↔ (q, d) ∈ hash_iter pods) as Hin
    by (intros; by rewrite hash_iter_perm, elem_of_map_to_list).
  pose proof (oldest_fold (hash_iter pods)) as H0. fold (oldest pods) in H0.
  destruct (oldest pods) as [[p ts]|].
  - destruct H0 as (f & [d Hd] & Hmin & ->). exists f. split; [|done].
    split; [exists d; by apply Hin|]. intros q g d' Hq%Hin. by eapply Hmin.
  - intros q d Hq%Hin. by eapply H0.
Qed.

Lemma events_pop_front s p f d : pes_pods s !! p = Some (f :: d) →
  events s ≡ₚ f :: events (pop_front s p).
Proof.
  intros E. unfold pop_front. rewrite E.
  rewrite (events_delete s p (wrap_u64 (pes_total s - 1))). unfold deque_of. rewrite E. cbn.
  f_equiv. case_decide as Hd; [by rewrite Hd|]. by rewrite (events_insert s p d).
Qed.

(** The loop ends: each round but the last removes an event. *)
Lemma evict_to_cap_terminates fuel s :
  (length (events s) < fuel)%nat → ∃ s', evict_to_cap fuel s = Some s'.
Proof.
  revert s. induction fuel as [|fuel IH]; intros s Hf; [lia|]. cbn [evict_to_cap].
  destruct (Z.leb_spec (pes_total s) MAX_EVENTS); [by eexists|].
  pose proof (oldest_spec (pes_pods s)) as H0. destruct (oldest (pes_pods s)) as [[p ts]|].
  - destruct H0 as (f & [[d Hd] _] & _). apply IH.
    rewrite (events_pop_front s p f d Hd) in Hf. cbn in Hf. lia.
  - by eexists.
Qed.

Lemma insert_total s e : ∃ s', insert s e = Some s'.
Proof.
  unfold insert. destruct (coalesce e _); [by eexists|]. destruct (trim _ _) as [d total].
  cbv zeta. destruct (MAX_EVENTS <? _); [|by eexists].
  apply evict_to_cap_terminates. unfold evict_fuel. rewrite stored_events. lia.
Qed.

(** From an exact counter one above the cap, the loop drops exactly one event. *)
Lemma evict_one s :
  pes_total s = stored (pes_pods s) → pes_total s = MAX_EVENTS + 1 →
  ∃ p f, oldest_front (pes_pods s) p f ∧
    evict_to_cap (evict_fuel s) s = Some (pop_front s p) ∧
    pes_total (pop_front s p) = MAX_EVENTS.
Proof.
  intros Hex Hcap. pose proof (oldest_spec (pes_pods s)) as H0.
  unfold evict_fuel. rewrite <- Hex, Hcap. change (Z.to_nat (MAX_EVENTS + 1)) with (S (Z.to_nat MAX_EVENTS)).
  remember (S (Z.to_nat MAX_EVENTS)) as fuel eqn:Hfuel. cbn [evict_to_cap].
  rewrite (proj2 (Z.leb_gt _ _)) by lia.
  destruct (oldest (pes_pods s)) as [[p ts]|] eqn:E.
  - destruct H0 as (f & Hf & ->). exists p, f. pose proof Hf as [[d Hd] _].
    assert (pes_total (pop_front s p) = MAX_EVENTS) as Ht.
    { unfold pop_front. rewrite Hd. cbn. rewrite Hcap. by vm_compute. }
    split_and!; [done| |done]. rewrite Hfuel. cbn [evict_to_cap].
    by rewrite Ht.
  - exfalso. rewrite stored_events in Hex.
    assert (events s = []) as Hnil; [|rewrite Hnil in Hex; rewrite Hcap in Hex; by vm_compute in Hex].
    unfold events. apply concat_nil_Forall, Forall_forall. intros d Hd.
    apply list_elem_of_fmap in Hd as ([q d'] & -> & Hq%elem_of_map_to_list). by eapply H0.
Qed.

Lemma pop_front_wf s p f d : map_Forall pod_wf (pes_pods s) →
  pes_pods s !! p = Some (f :: d) → map_Forall pod_wf (pes_pods (pop_front s p)).
Proof.
  intros Hwf E. unfold pop_front. rewrite E. cbn. case_decide as Hd; [by apply map_Forall_delete|].
  apply map_Forall_insert_2; [|done]. destruct (Hwf p _ E) as (_ & Hl & Hk & Hp).
  apply NoDup_cons in Hk as [_ Hk]. apply Forall_cons in Hp as [_ Hp].
  split_and!; [done| |done..]. cbn in Hl. lia.
Qed.
End Evicting.

(** ** What an insertion does *)
Section Inserting.
Context `{C : Core} `{!CoreSpec C}.

(** The event an insertion that does not coalesce gives up: the front of a full
    deque; else, of a full store, the oldest front (the new event included). *)
Definition gives_up (s : PodEventStore) (e : PodEvent) (dropped : list PodEvent) : Prop :=
  let deque := deque_of s (ev_pod_id e) in
  if MAX_EVENTS_PER_POD <=? Z.of_nat (length deque) then dropped = take 1 deque
  else if MAX_EVENTS <=? pes_total s then
    ∃ p f, dropped = [f] ∧
      oldest_front (<[ev_pod_id e := deque ++ [e]]> (pes_pods s)) p f
  else dropped = [].

Lemma deque_of_wf s p : events_wf s →
  Z.of_nat (length (deque_of s p)) ≤ MAX_EVENTS_PER_POD ∧
  NoDup (event_key <$> deque_of s p) ∧ Forall (λ x, ev_pod_id x = p) (deque_of s p).
Proof.
  intros [Hwf _]. unfold deque_of. destruct (pes_pods s !! p) as [d|] eqn:E; cbn.
  - by destruct (Hwf p d E) as (_ & ? & ? & ?).
  - split_and!; [by vm_compute|constructor..].
Qed.

Lemma append_wf d p e :
  Z.of_nat (length d) < MAX_EVENTS_PER_POD → NoDup (event_key <$> d) →
  Forall (λ x, ev_pod_id x = p) d → event_key e ∉ event_key <$> d → ev_pod_id e = p →
  pod_wf p (d ++ [e]).
Proof.
  intros Hl Hd Hp Hk He. split_and!.
  - by destruct d.
  - rewrite length_app. cbn. lia.
  - rewrite fmap_app. apply NoDup_app. split_and!; [done| |apply NoDup_singleton].
    intros k Hin ->%list_elem_of_singleton. done.
  - apply Forall_app. split; [done|]. by constructor.
Qed.

Lemma events_wf_total s : events_wf s → is_u64 (pes_total s) ∧ is_u64 (pes_total s + 1).
Proof.
  intros (_ & Ht & Hm). rewrite stored_events in Ht. unfold is_u64, MAX_EVENTS in *. lia.
Qed.

(** The store with a deque that dropped its front for the new event. *)
Lemma insert_full_deque s e f d :
  events_wf s → deque_of s (ev_pod_id e) = f :: d →
  MAX_EVENTS_PER_POD ≤ Z.of_nat (length (f :: d)) →
  event_key e ∉ event_key <$> deque_of s (ev_pod_id e) →
  let s' := {| pes_pods := <[ev_pod_id e := d ++ [e]]> (pes_pods s); pes_total := pes_total s |} in
  events_wf s' ∧ e :: events s ≡ₚ [f] ++ events s'.
Proof.
  intros Hwf E Hfull Hk. cbn zeta. destruct (deque_of_wf s (ev_pod_id e) Hwf) as (Hl & Hd & Hp).
  pose proof Hwf as (HF & Ht & Hm). rewrite E in Hl, Hd, Hp, Hk.
  rewrite fmap_cons in Hd, Hk. apply not_elem_of_cons in Hk as [_ Hk].
  apply NoDup_cons in Hd as [_ Hd]. apply Forall_cons in Hp as [_ Hp].
  pose proof (events_update s (ev_pod_id e) (d ++ [e]) (pes_total s)) as Hev.
  rewrite E in Hev.
  assert (e :: events s ≡ₚ [f] ++ events {| pes_pods := <[ev_pod_id e := d ++ [e]]> (pes_pods s);
    pes_total := pes_total s |}) as Hperm.
  { apply (Permutation_app_inv_l d). cbn.
    transitivity ((d ++ [e]) ++ events s); [by rewrite <- app_assoc|]. rewrite <- Hev. cbn.
    solve_Permutation. }
  split; [|done]. split_and!; cbn; [|rewrite Ht|done].
  - apply map_Forall_insert_2; [|done]. apply append_wf; [cbn in Hl; lia|done..].
  - rewrite (stored_events s).
    rewrite (stored_pods (<[_:=_]> _) (pes_total s)).
    apply Permutation_length in Hperm. cbn in Hperm. lia.
Qed.

Lemma insert_append s e :
  events_wf s → Z.of_nat (length (deque_of s (ev_pod_id e))) < MAX_EVENTS_PER_POD →
  event_key e ∉ event_key <$> deque_of s (ev_pod_id e) →
  let s' := {| pes_pods := <[ev_pod_id e := deque_of s (ev_pod_id e) ++ [e]]> (pes_pods s);
               pes_total := pes_total s + 1 |} in
  map_Forall pod_wf (pes_pods s') ∧ pes_total s' = stored (pes_pods s') ∧
  e :: events s ≡ₚ events s'.
Proof.
  intros Hwf Hl Hk. cbn zeta. destruct (deque_of_wf s (ev_pod_id e) Hwf) as (_ & Hd & Hp).
  destruct Hwf as (HF & Ht & Hm).
  pose proof (events_update s (ev_pod_id e) (deque_of s (ev_pod_id e) ++ [e]) (pes_total s + 1))
    as Hev. rewrite <- app_assoc in Hev. apply Permutation_app_inv_l in Hev. cbn in Hev.
  split_and!; [|cbn|by symmetry].
  - apply map_Forall_insert_2; [|done]. by apply append_wf.
  - rewrite Ht, (stored_events s).
    rewrite (stored_pods (<[_:=_]> _) (pes_total s + 1)).
    apply Permutation_length in Hev. rewrite Hev. cbn. lia.
Qed.

Lemma coalesce_events_wf s e d :
  events_wf s → coalesce e (deque_of s (ev_pod_id e)) = Some d →
  events_wf {| pes_pods := <[ev_pod_id e := d]> (pes_pods s); pes_total := pes_total s |}.
Proof.
  intros (HF & Ht & Hm) Hc. unfold deque_of in Hc.
  destruct (pes_pods s !! ev_pod_id e) as [d0|] eqn:E; [|done]. cbn in Hc.
  split_and!; cbn; [|rewrite Ht|done].
  - apply map_Forall_insert_2; [|done]. by eapply coalesce_wf; [apply HF|].
  - rewrite (stored_events s).
    rewrite (stored_pods (<[_:=_]> _) (pes_total s)).
    pose proof (events_update s (ev_pod_id e) d (pes_total s)) as Hev.
    unfold deque_of in Hev. rewrite E in Hev. cbn in Hev. apply Permutation_length in Hev.
    rewrite !length_app in Hev. apply coalesce_some in Hc as [Hk _].
    apply (f_equal length) in Hk. rewrite !length_fmap in Hk. lia.
Qed.

(** Reporting an event to a well-formed store always returns (the eviction
    loop terminates), keeps the store well formed (at most 100 distinct events per
    pod, at most 10000 in all, the counter exact, no two events of a pod with the
    same type and reason), and does exactly this: an event of a known type and
    reason is merged into the one recorded; otherwise it is added, and nothing is
    given up unless its pod's deque is full (then that deque's front) or the store
    is full (then the front with the smallest timestamp). *)
Theorem pod_event_insert_exact s e :
  events_wf s →
  ∃ s', insert s e = Some s' ∧ events_wf s' ∧
    match coalesce e (deque_of s (ev_pod_id e)) with
    | Some deque => s' = {| pes_pods := <[ev_pod_id e := deque]> (pes_pods s);
                            pes_total := pes_total s |}
    | None => ∃ dropped, gives_up s e dropped ∧ e :: events s ≡ₚ dropped ++ events s'
    end.
Proof.
  intros Hwf. destruct (deque_of_wf s (ev_pod_id e) Hwf) as (Hl & Hd & Hp).
  destruct (events_wf_total s Hwf) as [Hu Hu']. pose proof Hwf as (HF & Ht & Hm).
  unfold insert. fold (deque_of s (ev_pod_id e)).
  destruct (coalesce e (deque_of s (ev_pod_id e))) as [d|] eqn:Hc.
  { eexists. split; [done|]. split; [|done]. by apply coalesce_events_wf. }
  apply coalesce_none in Hc. rewrite (wrap_u64_small _ Hu'), trim_snoc by done. unfold gives_up.
  destruct (Z.leb_spec MAX_EVENTS_PER_POD (Z.of_nat (length (deque_of s (ev_pod_id e))))) as [Hfull|Hroom].
  - destruct (deque_of s (ev_pod_id e)) as [|f d] eqn:Ed; [done|].
    replace (pes_total s + 1 - 1) with (pes_total s) by lia. rewrite (wrap_u64_small _ Hu).
    cbn [tail pes_total]. rewrite (proj2 (Z.ltb_ge _ _)) by done.
    eexists. split; [done|]. rewrite <- Ed in Hc.
    destruct (insert_full_deque s e f d Hwf Ed Hfull Hc) as [Hwf' Hperm].
    split; [done|]. by exists [f].
  - destruct (insert_append s e Hwf Hroom Hc) as (HF' & Ht' & Hperm). cbn [pes_total].
    destruct (Z.leb_spec MAX_EVENTS (pes_total s)) as [Hcap|Hcap].
    + rewrite (proj2 (Z.ltb_lt _ _)) by lia.
      destruct (evict_one _ Ht') as (p & f & Hf & -> & Htot); [cbn; lia|].
      pose proof Hf as [[d Hd'] _]. pose proof (events_pop_front _ p f d Hd') as Hpop.
      eexists. split; [done|]. rewrite Hpop in Hperm. split; [|by exists [f]; eauto].
      split_and!; [by eapply pop_front_wf| |by rewrite Htot].
      rewrite stored_events. apply Permutation_length in Hperm, Hpop. rewrite Htot.
      rewrite (stored_events s) in Ht. cbn in Hperm. lia.
    + rewrite (proj2 (Z.ltb_ge _ _)) by lia. eexists. split; [done|]. split; [|by exists []].
      split_and!; [done..|]. cbn. lia.
Qed.
End Inserting.

(** ** Start and sweep *)
Section Sweeping.
Context `{C : Core} `{!CoreSpec C}.

Lemma PodEventStore_new_wf : events_wf PodEventStore_new.
Proof. split_and!; [done| |done]. by rewrite stored_events. Qed.

Lemma filter_pod_wf (P : PodEvent → Prop) `{∀ e, Decision (P e)} p d :
  pod_wf p d → filter P d ≠ [] → pod_wf p (filter P d).
Proof.
  intros (_ & Hl & Hd & Hp) Hne. split_and!; [done| | |].
  - pose proof (length_filter P d). lia.
  - eapply sublist_NoDup; [done|]. apply fmap_sublist, sublist_filter.
  - apply Forall_forall. intros e [_ He]%list_elem_of_filter. by eapply Forall_forall in Hp.
Qed.

(** A sweep keeps a pod's recent events, in order, and drops a pod left with none. *)
Lemma sweep_expired_deque s now p :
  let keep := filter (λ e, saturating_sub now TTL_SECS ≤ ev_timestamp_unix e) in
  deque_of (sweep_expired s now) p = keep (deque_of s p).
Proof.
  cbn zeta. unfold deque_of, sweep_expired. cbn. rewrite map_lookup_filter, lookup_fmap.
  destruct (pes_pods s !! p) as [d|]; [|done]. cbn.
  by destruct (filter _ d).
Qed.

Lemma events_nil_pods_length (m : gmap string (list PodEvent)) (f : list PodEvent → list PodEvent) n n' :
  (∀ d, length (f d) ≤ length d)%nat →
  (length (events {| pes_pods := filter (λ '(_, d), d ≠ []) (f <$> m); pes_total := n |}) ≤
   length (events {| pes_pods := m; pes_total := n' |}))%nat.
Proof.
  intros Hf. induction m as [|p d m Hp IH] using map_ind; [done|].
  unfold events in *. cbn in *. rewrite fmap_insert, map_to_list_insert by done. cbn.
  rewrite length_app. specialize (Hf d). destruct (decide (f d = [])) as [E|E].
  - rewrite map_filter_insert_False by naive_solver.
    rewrite delete_id by (by rewrite lookup_fmap, Hp). lia.
  - rewrite map_filter_insert_True by done.
    rewrite map_to_list_insert by (by rewrite map_lookup_filter, lookup_fmap, Hp).
    cbn. rewrite length_app. lia.
Qed.

Lemma sweep_expired_wf s now : events_wf s → events_wf (sweep_expired s now).
Proof.
  intros (HF & Ht & Hm). split_and!; [|done|].
  - intros p d. unfold sweep_expired. cbn. rewrite map_lookup_filter, lookup_fmap.
    destruct (pes_pods s !! p) as [d0|] eqn:E; [|done]. cbn.
    destruct (filter _ d0) as [|e l] eqn:Ef; cbn; [done|].
    intros [= <-]. rewrite <- Ef. apply filter_pod_wf; [by apply HF|by rewrite Ef].
  - unfold sweep_expired, resync_total. cbn. rewrite (stored_pods _ 0).
    rewrite Ht, (stored_pods _ 0) in Hm. etrans; [|done]. apply inj_le.
    apply events_nil_pods_length. intros d. apply length_filter.
Qed.
End Sweeping.

(** ** Witnesses *)
Import DemoInstances.

Definition demo_event (event_type reason : string) (ts : Z) : PodEvent := {|
  ev_pod_id := "web-primary-0"; ev_node_id := "n1"; ev_event_type := event_type;
  ev_reason := reason; ev_message := ""; ev_timestamp_unix := ts; ev_count := 1 |}.

Lemma pod_event_insert_exact_witness :
  ∃ s', insert PodEventStore_new (demo_event "Started" "boot" 7) = Some s' ∧ events_wf s' ∧
    events s' ≡ₚ [demo_event "Started" "boot" 7].
Proof.
  destruct (pod_event_insert_exact PodEventStore_new (demo_event "Started" "boot" 7)
    PodEventStore_new_wf) as (s' & Hs & Hwf & Hev).
  exists s'. split_and!; [done..|]. destruct Hev as (dropped & -> & Hp). by rewrite Hp.
Defined.

(** The deque of a pod is documented as chronological, and the per-pod cap as
    dropping the oldest event. An event that is reported again keeps its place, so
    the front, which the cap drops, can be the most recent event of the pod. *)
Lemma coalesced_deque_not_chronological :
  (λ s, ev_timestamp_unix <$> deque_of s "web-primary-0") <$>
    (s ← insert PodEventStore_new (demo_event "BackOff" "crash" 1);
     s ← insert s (demo_event "Pulled" "image" 2);
     insert s (demo_event "BackOff" "crash" 3)) = Some [3; 2].
Proof. vm_compute. reflexivity. Qed.
