(* ===== verification/Metrics.v ===== *)
(** * Metrics: the leader-local store of pod metrics

    Models [src/watch/metrics_store.rs]: a bounded window of metrics per placed pod.
    Reports run one at a time; the clock and the placements keyspace are
    arguments. *)

From S2P Require Import Prelude.
From S2P Require Import Storage.
From S2P Require Import Core.
From S2P Require Import Records.
From S2P Require Import Schema.

Definition MAX_PODS : Z := 16384.
Definition MAX_WINDOWS_PER_POD : Z := 10.
Definition TTL_SECONDS : Z := 3600.

Section Metrics.
Context `{F : Fjall} `{C : Core}.

Record PodMetricsRecord : Type := {
  pmr_windows : list PodMetrics;
  pmr_last_updated_unix : Z
}.
Record MetricsStore : Type := { ms_pods : gmap string PodMetricsRecord }.
Definition MetricsStore_new : MetricsStore := {| ms_pods := ∅ |}.

(** The errors of [report] are messages. *)
Inductive ReportError : Type :=
| EmptyPodId
| UnknownPod (pod_id : string)
| ReportStorage (e : IoError)
| CapReached.

(** The windows after a push: the oldest one goes when there are too many. *)
Definition push_window (windows : list PodMetrics) (metrics : PodMetrics) : list PodMetrics :=
  let windows := windows ++ [metrics] in
  if MAX_WINDOWS_PER_POD <? Z.of_nat (length windows) then tail windows else windows.

Definition report (s : MetricsStore) (db : Db) (now : Z) (metrics : PodMetrics) :
    MetricsStore * result ReportError bool :=
  if decide (pm_pod_id metrics = "") then (s, Err EmptyPodId)
  else
    match get db ks_placements (pm_pod_id metrics) with
    | Err e => (s, Err (ReportStorage e))
    | Ok None => (s, Err (UnknownPod (pm_pod_id metrics)))
    | Ok (Some _) =>
        let pod_id := pm_pod_id metrics in
        match ms_pods s !! pod_id with
        | None =>
            if MAX_PODS <=? Z.of_nat (size (ms_pods s)) then (s, Err CapReached)
            else
              ({| ms_pods := <[pod_id := {| pmr_windows := [metrics];
                                            pmr_last_updated_unix := now |}]> (ms_pods s) |},
               Ok true)
        | Some record =>
            let stale :=
              match last (pmr_windows record) with
              | Some newest => pm_window_unix metrics <=? pm_window_unix newest
              | None => false
              end in
            if stale then (s, Ok false)
            else
              ({| ms_pods := <[pod_id := {| pmr_windows := push_window (pmr_windows record) metrics;
                                            pmr_last_updated_unix := now |}]> (ms_pods s) |},
               Ok true)
        end
    end.

Definition sweep_expired_metrics (s : MetricsStore) (now : Z) : MetricsStore :=
  let cutoff := saturating_sub now TTL_SECONDS in
  {| ms_pods := filter (λ '(_, record), cutoff < pmr_last_updated_unix record) (ms_pods s) |}.

Definition get_windows (s : MetricsStore) (pod_id : string) : option (list PodMetrics) :=
  pmr_windows <$> ms_pods s !! pod_id.

(** ** Well-formed stores: bounded, and every pod's windows newest last *)
Definition windows_wf (pod_id : string) (record : PodMetricsRecord) : Prop :=
  pmr_windows record ≠ [] ∧
  Z.of_nat (length (pmr_windows record)) ≤ MAX_WINDOWS_PER_POD ∧
  StronglySorted (λ a b, pm_window_unix a < pm_window_unix b) (pmr_windows record) ∧
  Forall (λ m, pm_pod_id m = pod_id) (pmr_windows record).
Definition metrics_wf (s : MetricsStore) : Prop :=
  Z.of_nat (size (ms_pods s)) ≤ MAX_PODS ∧ map_Forall windows_wf (ms_pods s).

Lemma push_window_wf pod_id record metrics now :
  windows_wf pod_id record → pm_pod_id metrics = pod_id →
  (∀ newest, last (pmr_windows record) = Some newest →
    pm_window_unix newest < pm_window_unix metrics) →
  windows_wf pod_id {| pmr_windows := push_window (pmr_windows record) metrics;
                       pmr_last_updated_unix := now |}.
Proof.
  intros (Hne & Hl & Hs & Hp) Hid Hnew.
  assert (StronglySorted (λ a b, pm_window_unix a < pm_window_unix b)
    (pmr_windows record ++ [metrics])) as Hs'.
  { apply StronglySorted_app. split_and!; [|done|repeat constructor].
    intros x y Hx ->%list_elem_of_singleton. destruct (last (pmr_windows record)) as [m|] eqn:E.
    - specialize (Hnew m eq_refl). apply last_Some in E as [l E]. rewrite E in Hx, Hs.
      apply elem_of_app in Hx as [Hx|Hx%list_elem_of_singleton]; [|by subst].
      apply StronglySorted_app in Hs as (Hs & _ & _). specialize (Hs x m Hx ltac:(left)). cbn in *. lia.
    - by apply last_None in E. }
  assert (Forall (λ m, pm_pod_id m = pod_id) (pmr_windows record ++ [metrics])) as Hp'
    by (apply Forall_app; by split; [|constructor]).
  unfold push_window. destruct (Z.ltb_spec MAX_WINDOWS_PER_POD
    (Z.of_nat (length (pmr_windows record ++ [metrics])))) as [Hlt|Hle].
  - destruct (pmr_windows record) as [|w ws] eqn:E; [done|]. cbn in *.
    apply Forall_cons in Hp' as [_ Hp']. inversion Hs' as [|? ? Hs'' _]; subst.
    split_and!; cbn; [by destruct ws| |done..]. rewrite length_app. cbn. lia.
  - split_and!; cbn; [by destruct (pmr_windows record)|done..].
Qed.

Lemma report_wf s db now metrics s' r :
  metrics_wf s → report s db now metrics = (s', r) → metrics_wf s'.
Proof.
  intros [Hsz Hw] H. unfold report in H. case_decide; [by simplify_eq|].
  destruct (get db ks_placements (pm_pod_id metrics)) as [[v|]|]; [|by simplify_eq..].
  destruct (ms_pods s !! pm_pod_id metrics) as [record|] eqn:E.
  - destruct (match last _ with Some _ => _ | None => _ end) eqn:Es; [by simplify_eq|].
    injection H as <- <-. split; cbn.
    + rewrite map_size_insert_Some; [done|by eexists].
    + apply map_Forall_insert_2; [|done]. apply push_window_wf; [by apply Hw|done|].
      intros newest Hn. rewrite Hn in Es. by apply Z.leb_gt in Es.
  - destruct (Z.leb_spec MAX_PODS (Z.of_nat (size (ms_pods s)))); [by simplify_eq|].
    injection H as <- <-. split; cbn.
    + rewrite map_size_insert_None by done. lia.
    + apply map_Forall_insert_2; [|done]. split_and!; cbn; [done|by vm_compute|repeat constructor|].
      by constructor.
Qed.

Lemma sweep_expired_metrics_wf s now : metrics_wf s → metrics_wf (sweep_expired_metrics s now).
Proof.
  intros [Hsz Hw]. split; cbn.
  - etrans; [|done]. apply inj_le. apply map_size_filter.
  - intros p record [Hr _]%map_lookup_filter_Some. by apply Hw.
Qed.
End Metrics.
