(* ===== verification/Status.v ===== *)
(** * Status: the readiness gate

    The state machine stamps each workload status report with the time the current
    readiness-gate violation began ([UpsertWorkloadStatus],
    [src/raft/state_machine.rs]); the pod controller replaces a pod whose violation
    lasted too long ([readiness_gate_violation_sustained],
    [src/controllers/pod_controller.rs]). *)

From S2P Require Import Prelude.
From S2P Require Import Storage.
From S2P Require Import Core.
From S2P Require Import Records.
From S2P Require Import WireInstance.
From S2P Require Import Schema.
From S2P Require Import Expansion.
From S2P Require Import Watch.
From S2P Require Import Acl.
From S2P Require Import StateMachine.
From S2P Require Import Apply.
From S2P Require Import Invariant.
From S2P Require Import Demo.
From S2P Require Import Staging.
From S2P Require Import Frame.

(** [controllers/pod_controller.rs]. *)
Definition READINESS_GATE_GRACE_SECS : Z := 30.

Definition readiness_gate_violation_sustained (record : WorkloadStatusRecord)
    (grace_secs now_unix : Z) : bool :=
  (0 <? wst_gate_violation_since_unix record) &&
  (grace_secs <? now_unix - wst_gate_violation_since_unix record).

(** The verdict of the pod check loop ([main.rs]) on a pod with a status record. *)
Definition status_is_dead (status : WorkloadStatusRecord) (now staleness_secs : Z) : bool :=
  let stale := staleness_secs <? now - wst_observed_at_unix status in
  let gate_violation :=
    readiness_gate_violation_sustained status READINESS_GATE_GRACE_SECS now in
  negb (wst_live status) || stale || gate_violation.

(** ** The violation a sequence of reports ends in

    [violation_since rs since]: after the reports [rs], [since] is 0 and the last
    report is not violating, or [since] is the time of the first report of the
    longest violating run the sequence ends with. *)
Inductive violation_since : list WorkloadStatusRecord → Z → Prop :=
| since_none rs r : in_violation r = false → violation_since (rs ++ [r]) 0
| since_run rs r run :
    (rs = [] ∨ ∃ rs' q, rs = rs' ++ [q] ∧ in_violation q = false) →
    Forall (λ q, in_violation q = true) (r :: run) →
    violation_since (rs ++ r :: run) (wst_observed_at_unix r).

(** What the state machine keeps for a pod, report by report. *)
Definition gate_step (prev : option WorkloadStatusRecord) (r : WorkloadStatusRecord) :
    option WorkloadStatusRecord :=
  Some (set_gate_violation_since r (gate_violation_since prev r)).

Lemma in_violation_set r x : in_violation (set_gate_violation_since r x) = in_violation r.
Proof. done. Qed.

Lemma gate_fold_spec rs r :
  Forall (λ q, 0 < wst_observed_at_unix q) (rs ++ [r]) →
  ∃ since, violation_since (rs ++ [r]) since ∧
    foldl gate_step None (rs ++ [r]) = Some (set_gate_violation_since r since).
Proof.
  revert r. induction rs as [|q rs IH] using rev_ind; intros r Hpos.
  - destruct (in_violation r) eqn:Hv.
    + exists (wst_observed_at_unix r). split.
      * apply (since_run [] r []); [by left|]. by constructor.
      * cbn. unfold gate_step, gate_violation_since. by rewrite Hv.
    + exists 0. split; [by apply (since_none [])|].
      cbn. unfold gate_step, gate_violation_since. by rewrite Hv.
  - apply Forall_app in Hpos as [Hpos Hr]. destruct (IH q Hpos) as (since & Hs & Hf).
    rewrite foldl_app, Hf. cbn. unfold gate_step, gate_violation_since.
    destruct (in_violation r) eqn:Hv; [|exists 0; split; [by constructor|done]].
    cbn [wst_gate_violation_since_unix set_gate_violation_since].
    inversion Hs as [rs' q' Hq Heq Hz|rs' q' run Hpre Hrun Heq Hz].
    + apply app_inj_tail in Heq as [-> ->]. exists (wst_observed_at_unix r).
      split; [|done]. apply (since_run (rs ++ [q]) r []); [right; by eexists _, _|].
      by constructor.
    + assert (Hpos' : 0 < wst_observed_at_unix q').
      { rewrite <- Heq in Hpos. apply Forall_app in Hpos as [_ Hpos].
        by apply Forall_cons in Hpos as [? _]. }
      rewrite (proj2 (Z.ltb_lt _ _)) by done. exists (wst_observed_at_unix q'). split; [|done].
      rewrite <- app_assoc; cbn [app]. apply (since_run rs' q' (run ++ [r])); [done|].
      change (q' :: run ++ [r]) with ((q' :: run) ++ [r]). apply Forall_app. split; [done|].
      by constructor.
Qed.

Section Status.
Context `{F : Fjall} `{C : Core} `{W : !Wire C} `{!FjallSpec F}.

Definition status_of (st : store) (pod : string) : option WorkloadStatusRecord :=
  st !! (ks_workload_status, pod) ≫= from_bytes.

(** The report an entry carries for a pod. *)
Definition report_of (pod : string) (e : Entry) : option WorkloadStatusRecord :=
  match payload e with
  | Normal a => match cmd a with
      | UpsertWorkloadStatus r => if decide (wst_pod_id r = pod) then Some r else None
      | _ => None
      end
  | _ => None
  end.

Lemma apply_entry_status sm e sm' r pod :
  apply_entry sm e = (sm', Ok r) →
  status_of (contents (sm_db sm')) pod =
  match report_of pod e with
  | Some rep => gate_step (status_of (contents (sm_db sm)) pod) rep
  | None => status_of (contents (sm_db sm)) pod
  end.
Proof.
  intros H. unfold report_of.
  destruct (decide (ks_workload_status ∈ entry_keyspaces e)) as [Hks|Hks].
  - unfold entry_keyspaces in Hks. destruct (payload e) as [|a|m] eqn:Hp; [set_solver| |set_solver].
    destruct (cmd a) eqn:Hc; cbn [cmd_keyspaces] in Hks; try (exfalso; set_solver).
    destruct (apply_entry_command _ _ _ _ _ Hp H) as (b & ck & Hb & Hl).
    rewrite Hc in Hb. cbn [apply_command] in Hb. unfold apply_upsert_workload_status in Hb.
    apply bind_ok in Hb as (o & Ho & Hb). apply bind_ok in Hb as (v & Hv & Hb). ok_inv. ser_inv.
    unfold status_of. rewrite (Hl ks_workload_status pod eq_refl), apply_batch_lookup. cbn.
    destruct (decide (wst_pod_id record = pod)) as [<-|Hne].
    + rewrite decide_True by done. cbn. rewrite Hv. unfold gate_step. by subst o.
    + by rewrite decide_False by naive_solver.
  - unfold status_of at 1. rewrite (apply_entry_frame _ _ _ _ ks_workload_status pod eq_refl Hks H).
    unfold entry_keyspaces in Hks. destruct (payload e) as [|a|m]; [done| |done].
    destruct (cmd a); try done. exfalso. apply Hks. cbn. set_solver.
Qed.

Lemma apply_status sm es sm' rs pod :
  apply sm es = (sm', Ok rs) →
  status_of (contents (sm_db sm')) pod =
  foldl gate_step (status_of (contents (sm_db sm)) pod) (omap (report_of pod) es).
Proof.
  revert sm rs. induction es as [|e es IH]; intros sm rs H.
  { cbn in H. by injection H as <- _. }
  apply apply_cons_ok in H as (sm1 & r & rs' & He & H & ->). rewrite (IH _ _ H).
  rewrite (apply_entry_status _ _ _ _ pod He). cbn. by destruct (report_of pod e).
Qed.

(** The readiness gate measures the current violation: after any log, the
    status stored for a pod is its last report, stamped with the time of the first
    report of the violating run the pod is in, or 0 when its last report is not
    violating; reports of other pods and other commands do not disturb it. *)
Theorem readiness_gate_tracks_violation sm es sm' rs pod reports r :
  status_of (contents (sm_db sm)) pod = None → apply sm es = (sm', Ok rs) →
  omap (report_of pod) es = reports ++ [r] →
  Forall (λ q, 0 < wst_observed_at_unix q) (reports ++ [r]) →
  ∃ since, violation_since (reports ++ [r]) since ∧
    status_of (contents (sm_db sm')) pod = Some (set_gate_violation_since r since).
Proof.
  intros H0 H Hrep Hpos. rewrite (apply_status _ _ _ _ pod H), H0, Hrep.
  by apply gate_fold_spec.
Qed.
End Status.

(** ** Witness *)
Import DemoInstances.
Definition demo_report (at_ : Z) (enforced : bool) : WorkloadStatusRecord := {|
  wst_pod_id := "web-primary-0"; wst_workload_id := "web"; wst_tenant_id := "acme";
  wst_ready := true; wst_live := true; wst_started := true; wst_policy_enforced := enforced;
  wst_restart_count := 0; wst_observed_at_unix := at_; wst_router_connected := true;
  wst_gate_violation_since_unix := 0 |}.
Definition demo_reports : list Entry :=
  [demo_entry 7 (UpsertWorkloadStatus (demo_report 10 true));
   demo_entry 8 (UpsertWorkloadStatus (demo_report 20 false));
   demo_entry 9 (UpsertWorkloadStatus (demo_report 30 false))].

Lemma readiness_gate_tracks_violation_witness :
  ∃ since, violation_since [demo_report 10 true; demo_report 20 false; demo_report 30 false] since ∧
    status_of (contents (sm_db (apply demo_sm demo_reports).1)) "web-primary-0" =
      Some (set_gate_violation_since (demo_report 30 false) since).
Proof.
  apply (readiness_gate_tracks_violation demo_sm demo_reports (apply demo_sm demo_reports).1
    (Build_FleetosResponse <$> [7; 8; 9]) "web-primary-0"
    [demo_report 10 true; demo_report 20 false] (demo_report 30 false)).
  - vm_refl.
  - apply result_pair. vm_refl.
  - reflexivity.
  - repeat constructor.
Defined.
