(* ===== verification/Snapshot.v ===== *)
(** * Snapshot: building, installing and serving snapshots

    Models [src/raft/snapshot.rs] and the snapshot operations of
    [FjallStateMachine] ([install_snapshot], [get_current_snapshot] in
    [src/raft/state_machine.rs]). A [Cursor<Vec<u8>>] is its bytes. *)

From S2P Require Import Prelude.
From S2P Require Import Storage.
From S2P Require Import Core.
From S2P Require Import Records.
From S2P Require Import WireInstance.
From S2P Require Import Schema.
From S2P Require Import Expansion.
From S2P Require Import Watch.
From S2P Require Import Acl.
From S2P Require Import StateMachine.
From S2P Require Import Apply.
From S2P Require Import Invariant.
From S2P Require Import Demo.
From S2P Require Import Replication.
From S2P Require Import Staging.
From S2P Require Import Frame.

Section Snapshot.
Context `{F : Fjall} `{C : Core} `{W : !Wire C}.

(** [openraft::Snapshot]. *)
Record Snapshot : Type := { snap_meta : SnapshotMeta; snap_data : bytes }.

(** [collect_keyspaces_from_view]: a [fjall::Snapshot] is the database as it was
    when the view was taken. *)
Definition collect_keyspaces_from_view (snapshot_view : Db) :
    result SmError (list (string * list (bytes * bytes))) :=
  foldM (λ result '(name, ks),
    pairs ← foldM (λ pairs guard, '(key, value) ← read guard; Ok (pairs ++ [(key, value)]))
      (prefix snapshot_view ks "") [];
    Ok (result ++ [(name, pairs)])) snapshot_keyspaces [].

Definition snapshot_id_of (last_applied : option LogId) : string :=
  match last_applied with
  | Some lid => "snap-" +:+ pretty (lid_term lid) +:+ "-" +:+ pretty (lid_index lid)
  | None => "snap-initial"
  end.

(** [build_snapshot]. The builder runs beside the state machine: [snapshot_view] is
    the database when it starts, [live1] and [live2] what it is when [last_applied]
    and [last_membership] are read. *)
Definition build_snapshot (snapshot_view live1 live2 : Db) : result SmError Snapshot :=
  keyspace_data ← collect_keyspaces_from_view snapshot_view;
  data ← ser {| snap_keyspaces := keyspace_data |};
  r ← read (get live1 ks_raft_state "last_applied");
  last_applied ← match r with Some b => lid ← de b; Ok (Some lid) | None => Ok None end;
  r ← read (get live2 ks_raft_state "last_membership");
  last_membership ← match r with Some b => de b | None => Ok StoredMembership_default end;
  Ok {| snap_meta := {| meta_last_log_id := last_applied;
                        meta_last_membership := last_membership;
                        meta_snapshot_id := snapshot_id_of last_applied |};
        snap_data := data |}.

(** [install_snapshot], phase by phase. *)
Definition clear_keyspaces (db : Db) (batch : write_batch) : result SmError write_batch :=
  foldM (λ batch '(_, ks),
    foldM (λ batch guard, '(key, _) ← read guard; Ok (batch_remove ks key batch))
      (prefix db ks "") batch) snapshot_keyspaces batch.

Definition find_keyspace (name : string) : option Keyspace :=
  snd <$> head (filter (λ nk, nk.1 = name) snapshot_keyspaces).

Definition restore_keyspaces (keyspaces : list (string * list (bytes * bytes)))
    (batch : write_batch) : write_batch :=
  foldl (λ batch '(name, pairs),
    match find_keyspace name with
    | Some ks => foldl (λ batch '(key, value), batch_insert ks key value batch) batch pairs
    | None => batch
    end) batch keyspaces.

Definition set_db (sm : FjallStateMachine) (db : Db) : FjallStateMachine := {|
  sm_db := db; sm_version := sm_version sm; sm_data_trust_domain := sm_data_trust_domain sm;
  sm_published := sm_published sm; sm_notified := sm_notified sm |}.

(** On an error the state is as it was. *)
Definition install_snapshot (sm : FjallStateMachine) (meta : SnapshotMeta) (data : bytes) :
    result SmError FjallStateMachine :=
  app_snapshot ← (de data : result SmError ApplicationSnapshot);
  batch ← clear_keyspaces (sm_db sm) [];
  let batch := restore_keyspaces (snap_keyspaces app_snapshot) batch in
  serialized_meta ← ser meta;
  let batch := batch_insert ks_raft_snapshot (to_be_bytes 8 0) data batch in
  let batch := batch_insert ks_raft_state "snapshot_meta" serialized_meta batch in
  db ← map_err CommitErr (commit (sm_db sm) batch);
  Ok (set_db sm db).

Definition get_current_snapshot (db : Db) : result SmError (option Snapshot) :=
  r ← read (get db ks_raft_state "snapshot_meta");
  match r with
  | None => Ok None
  | Some b =>
      meta ← de b;
      r ← read (get db ks_raft_snapshot (to_be_bytes 8 0));
      match r with
      | Some data => Ok (Some {| snap_meta := meta; snap_data := data |})
      | None => Ok None
      end
  end.
End Snapshot.

(** ** Facts *)
Section SnapshotFacts.
Context `{F : Fjall} `{C : Core} `{W : !Wire C} `{!FjallSpec F}.

(** What a snapshot of a store holds. *)
Definition store_image (st : store) : list (string * list (bytes * bytes)) :=
  (λ nk, (nk.1, scan st nk.2 "")) <$> snapshot_keyspaces.

Lemma collect_ok (view : Db) l :
  collect_keyspaces_from_view view = Ok l → l = store_image (contents view).
Proof.
  unfold collect_keyspaces_from_view, store_image.
  enough (∀ nks acc, foldM (λ result '(name, ks),
    pairs ← foldM (λ pairs guard, '(key, value) ← read guard; Ok (pairs ++ [(key, value)]))
      (prefix view ks "") [];
    Ok (result ++ [(name, pairs)])) nks acc = Ok l →
    l = acc ++ ((λ nk, (nk.1, scan (contents view) nk.2 "")) <$> nks)) as He by (intros H; apply (He _ [] H)).
  induction nks as [|[name ks] nks IH]; intros acc H; [cbn in H; ok_inv; by rewrite app_nil_r|].
  cbn in H. apply bind_ok in H as (acc' & H1 & H). apply bind_ok in H1 as (pairs & Hp & H1). ok_inv.
  apply (foldM_guards (λ acc k v, acc ++ [(k, v)])) in Hp.
  rewrite (foldl_snoc (λ kv, (kv.1, kv.2))) in Hp. cbn in Hp.
  rewrite (list_fmap_ext _ id) in Hp by (by intros ? [? ?] _). rewrite list_fmap_id in Hp.
  rewrite (IH _ H), <- app_assoc. subst pairs. done.
Qed.

(** The operations of the first two phases, in a list. *)
Definition keyspace_ops (f : Keyspace → bytes * bytes → batch_op) (st : store) : write_batch :=
  snapshot_keyspaces.*2 ≫= λ ks, f ks <$> scan st ks "".
Definition clear_ops : store → write_batch := keyspace_ops (λ ks kv, BRemove ks kv.1).
Definition restore_ops : store → write_batch := keyspace_ops (λ ks kv, BInsert ks kv.1 kv.2).

Lemma clear_ok (db : Db) b b' :
  clear_keyspaces db b = Ok b' → b' = b ++ clear_ops (contents db).
Proof.
  unfold clear_keyspaces, clear_ops, keyspace_ops. generalize snapshot_keyspaces. intros nks. revert b.
  induction nks as [|[name ks] nks IH]; intros b H; [cbn in H; ok_inv; by rewrite app_nil_r|].
  cbn in H. apply bind_ok in H as (b1 & H1 & H).
  apply (foldM_guards (λ b k _, batch_remove ks k b)) in H1. unfold batch_remove in H1.
  rewrite (foldl_snoc (λ kv : bytes * bytes, BRemove ks kv.1)) in H1. subst b1.
  rewrite (IH _ H). cbn. by rewrite <- app_assoc.
Qed.

Lemma find_keyspace_name ks : in_snapshot ks = true → find_keyspace (keyspace_name ks) = Some ks.
Proof. destruct ks; first [reflexivity | discriminate]. Qed.

Lemma in_snapshot_elem ks : in_snapshot ks = true ↔ ks ∈ snapshot_keyspaces.*2.
Proof. unfold in_snapshot. by rewrite bool_decide_eq_true. Qed.

Lemma restore_image st b : restore_keyspaces (store_image st) b = b ++ restore_ops st.
Proof.
  unfold restore_keyspaces, store_image, restore_ops, keyspace_ops.
  assert (H : Forall (λ nk, find_keyspace nk.1 = Some nk.2) snapshot_keyspaces)
    by (repeat constructor).
  revert b. induction H as [|[name ks] nks Hk _ IH]; intros b; [by rewrite app_nil_r|].
  cbn in *. rewrite Hk, IH. rewrite app_assoc. f_equal.
  rewrite <- (foldl_snoc (λ kv : bytes * bytes, BInsert ks kv.1 kv.2)).
  generalize (scan st ks ""). intros l. revert b. clear.
  induction l as [|[k v] l IH]; intros b; [done|]. cbn. by rewrite <- IH.
Qed.

Lemma elem_of_ops (f : Keyspace → bytes * bytes → batch_op) st op :
  op ∈ keyspace_ops f st ↔
  ∃ ks k v, in_snapshot ks = true ∧ st !! (ks, k) = Some v ∧ op = f ks (k, v).
Proof.
  unfold keyspace_ops. rewrite list_elem_of_bind. split.
  - intros (ks & Hop & Hks). apply list_elem_of_fmap in Hop as ([k v] & -> & Hkv).
    apply elem_of_scan in Hkv as [Hkv _]. exists ks, k, v. by rewrite in_snapshot_elem.
  - intros (ks & k & v & Hks & Hkv & ->). exists ks. rewrite <- in_snapshot_elem. split; [|done].
    apply list_elem_of_fmap. exists (k, v). split; [done|]. apply elem_of_scan. split; [done|].
    apply starts_with_nil.
Qed.

Lemma restore_ops_last st ks k :
  last_write (restore_ops st) (ks, k) =
  if in_snapshot ks then Some <$> st !! (ks, k) else None.
Proof.
  destruct (in_snapshot ks) eqn:Hks; [destruct (st !! (ks, k)) as [v|] eqn:Hv|].
  - cbn [fmap option_fmap option_map]. apply (last_write_unique _ (BInsert ks k v)); [|done|].
    + apply (elem_of_ops (λ ks kv, BInsert ks kv.1 kv.2)). by exists ks, k, v.
    + intros op (ks' & k' & v' & _ & Hv' & ->)%(elem_of_ops (λ ks kv, BInsert ks kv.1 kv.2)). cbn. intros [= -> ->]. congruence.
  - cbn [fmap option_fmap option_map]. apply last_write_none, Forall_forall. intros op (ks' & k' & v' & _ & Hv' & ->)%(elem_of_ops (λ ks kv, BInsert ks kv.1 kv.2)).
    cbn. intros [= -> ->]. congruence.
  - apply last_write_none, Forall_forall. intros op (ks' & k' & v' & Hs & _ & ->)%(elem_of_ops (λ ks kv, BInsert ks kv.1 kv.2)).
    cbn. intros [= -> ->]. congruence.
Qed.

Lemma clear_ops_last st ks k :
  last_write (clear_ops st) (ks, k) =
  if in_snapshot ks then (λ _, None) <$> st !! (ks, k) else None.
Proof.
  destruct (in_snapshot ks) eqn:Hks; [destruct (st !! (ks, k)) as [v|] eqn:Hv|].
  - cbn [fmap option_fmap option_map]. apply (last_write_unique _ (BRemove ks k)); [|done|].
    + apply (elem_of_ops (λ ks kv, BRemove ks kv.1)). by exists ks, k, v.
    + by intros op (ks' & k' & v' & _ & Hv' & ->)%(elem_of_ops (λ ks kv, BRemove ks kv.1)).
  - cbn [fmap option_fmap option_map]. apply last_write_none, Forall_forall. intros op (ks' & k' & v' & _ & Hv' & ->)%(elem_of_ops (λ ks kv, BRemove ks kv.1)).
    cbn. intros [= -> ->]. congruence.
  - apply last_write_none, Forall_forall. intros op (ks' & k' & v' & Hs & _ & ->)%(elem_of_ops (λ ks kv, BRemove ks kv.1)).
    cbn. intros [= -> ->]. congruence.
Qed.

(** The contents after an installation, key by key. *)
Lemma install_lookup (sm : FjallStateMachine) meta data st sm' ks k :
  from_bytes data = Some {| snap_keyspaces := store_image st |} →
  install_snapshot sm meta data = Ok sm' →
  ∃ m, to_allocvec meta = Some m ∧ contents (sm_db sm') !! (ks, k) =
    if decide ((ks, k) = (ks_raft_state, "snapshot_meta")) then Some m
    else if decide ((ks, k) = (ks_raft_snapshot, to_be_bytes 8 0)) then Some data
    else if in_snapshot ks then st !! (ks, k) else contents (sm_db sm) !! (ks, k).
Proof.
  unfold install_snapshot, de. intros Hd H. rewrite Hd in H. cbn [ok_or] in H.
  apply bind_ok in H as (app & Happ & H). injection Happ as <-. cbn [snap_keyspaces] in H.
  apply bind_ok in H as (b & Hb & H). apply bind_ok in H as (m & Hm & H).
  apply bind_ok in H as (db & Hdb & H). ok_inv. apply clear_ok in Hb as ->. cbn [app] in Hdb.
  exists m. split; [unfold ser in Hm; by destruct (to_allocvec meta); cbn in Hm; simplify_eq|].
  destruct (commit _ _) as [db'|] eqn:E; [|done]. cbn in Hdb. injection Hdb as <-.
  cbn [sm_db set_db]. rewrite (commit_spec _ _ _ E), apply_batch_lookup. unfold batch_insert.
  rewrite !last_write_snoc, restore_image. cbn [op_key op_value].
  generalize (to_be_bytes 8 0). intros zero.
  destruct (decide ((ks, k) = (ks_raft_state, "snapshot_meta"))) as [->|H1];
    [by rewrite decide_True|rewrite decide_False by congruence].
  destruct (decide ((ks, k) = (ks_raft_snapshot, zero))) as [->|H2];
    [by rewrite decide_True|rewrite decide_False by congruence].
  rewrite last_write_app, restore_ops_last, clear_ops_last.
  destruct (in_snapshot ks), (st !! (ks, k)), (contents (sm_db sm) !! (ks, k)); done.
Qed.
End SnapshotFacts.

Section SnapshotTransfer.
Context `{F : Fjall} `{C : Core} `{W : !Wire C} `{!FjallSpec F} `{!FjallReliable F}.

Lemma build_snapshot_ok (view live1 live2 : Db) (snap : Snapshot) :
  build_snapshot view live1 live2 = Ok snap →
  from_bytes (snap_data snap) = Some {| snap_keyspaces := store_image (contents view) |} ∧
  (match contents live1 !! (ks_raft_state, "last_applied") with
   | Some b => lid ← (de b : result SmError LogId); Ok (Some lid)
   | None => Ok None
   end) = Ok (meta_last_log_id (snap_meta snap)) ∧
  match contents live2 !! (ks_raft_state, "last_membership") with
  | Some b => de b | None => Ok StoredMembership_default end =
    Ok (meta_last_membership (snap_meta snap)).
Proof.
  unfold build_snapshot. rewrite !get_eq. cbn [read map_err mbind result_bind]. intros H.
  apply bind_ok in H as (kd & Hkd & H). apply bind_ok in H as (d & Hd & H).
  apply bind_ok in H as (la & Hla & H). apply bind_ok in H as (lm & Hlm & H). ok_inv. ser_inv.
  apply collect_ok in Hkd as ->. cbn [snap_data snap_meta meta_last_log_id meta_last_membership].
  done.
Qed.

Lemma install_replicated (view live1 live2 : Db) (sm sm' : FjallStateMachine) (snap : Snapshot) :
  build_snapshot view live1 live2 = Ok snap →
  install_snapshot sm (snap_meta snap) (snap_data snap) = Ok sm' →
  db_equiv (sm_db sm') view.
Proof.
  intros (Hd & _ & _)%build_snapshot_ok Hi [ks k] Hr.
  destruct (install_lookup _ _ _ _ _ ks k Hd Hi) as (m & _ & ->).
  unfold replicated in Hr. apply andb_true_iff in Hr as [Hs Hk]. cbn in Hs.
  apply bool_decide_eq_true in Hk. rewrite (decide_False (P := (ks, k) = _)) by done.
  rewrite Hs, decide_False; [done|]. intros [= -> _]. discriminate Hs.
Qed.

Lemma install_memory (sm : FjallStateMachine) meta data sm' :
  install_snapshot sm meta data = Ok sm' →
  sm_version sm' = sm_version sm ∧ sm_data_trust_domain sm' = sm_data_trust_domain sm.
Proof.
  unfold install_snapshot. intros H. apply bind_ok in H as (app & _ & H).
  apply bind_ok in H as (b & _ & H). apply bind_ok in H as (m & _ & H).
  apply bind_ok in H as (db & _ & H). by ok_inv.
Qed.

(** C27. A snapshot carries the whole replicated state: when a replica installs a
    snapshot of another one and reopens its database, it is in the same state as
    that replica; the positions it reports are those of the snapshot's metadata, it
    serves the very snapshot it installed, and its own log is left alone. *)
Theorem snapshot_catch_up (leader follower : FjallStateMachine) snap follower' :
  build_snapshot (sm_db leader) (sm_db leader) (sm_db leader) = Ok snap →
  install_snapshot follower (snap_meta snap) (snap_data snap) = Ok follower' →
  version_synced leader →
  sm_equiv (open (sm_db follower') (sm_data_trust_domain leader)) leader ∧
  applied_state (sm_db follower') =
    Ok (meta_last_log_id (snap_meta snap), meta_last_membership (snap_meta snap)) ∧
  get_current_snapshot (sm_db follower') = Ok (Some snap) ∧
  ∀ ks k, in_snapshot ks = false → ks ≠ ks_raft_snapshot →
    contents (sm_db follower') !! (ks, k) = contents (sm_db follower) !! (ks, k).
Proof.
  intros Hb Hi Hv. pose proof (install_replicated _ _ _ _ _ _ Hb Hi) as He.
  apply build_snapshot_ok in Hb as (Hd & Hla & Hlm).
  pose proof (λ ks k, install_lookup _ _ _ _ _ ks k Hd Hi) as Hl.
  split_and!.
  - split; cbn; [done| |done]. rewrite <- Hv. unfold VersionedState_new, load_persisted_version.
    by rewrite (get_equiv (sm_db follower') (sm_db leader) ks_version "current" eq_refl He).
  - unfold applied_state. rewrite !get_eq, !(He (ks_raft_state, _)) by reflexivity.
    cbn [read map_err mbind result_bind]. revert Hla Hlm.
    destruct (contents (sm_db leader) !! (ks_raft_state, "last_applied")) as [b|]; cbn.
    + destruct (de b); cbn; [|done]. intros [= <-] ->. done.
    + intros [= <-] ->. done.
  - unfold get_current_snapshot. rewrite !get_eq.
    destruct (Hl ks_raft_state "snapshot_meta") as (m & Hm & ->). rewrite decide_True by done.
    destruct (Hl ks_raft_snapshot (to_be_bytes 8 0)) as (m' & _ & ->).
    rewrite decide_False, decide_True by done. unfold de.
    cbn [read map_err mbind result_bind]. rewrite (from_to_allocvec _ _ Hm). by destruct snap.
  - intros ks k Hks Hk. destruct (Hl ks k) as (m & _ & ->). rewrite Hks, !decide_False; [done|..].
    + by intros [= -> _].
    + intros [= -> _]. discriminate Hks.
Qed.

(** Without a restart the installed version is not the one in memory: the next
    entry gets the follower's old counter, so it differs from the leader's version
    of the same entry, and the smaller version is what the follower persists. *)
Theorem snapshot_install_version_diverges (leader follower : FjallStateMachine) snap follower'
    e l' f' r1 r2 :
  build_snapshot (sm_db leader) (sm_db leader) (sm_db leader) = Ok snap →
  install_snapshot follower (snap_meta snap) (snap_data snap) = Ok follower' →
  0 ≤ sm_version follower < sm_version leader → sm_version leader < 2 ^ 64 - 1 →
  apply_entry leader e = (l', Ok r1) → apply_entry follower' e = (f', Ok r2) →
  version r2 = sm_version follower + 1 ∧ version r2 < version r1 ∧
  contents (sm_db f') !! (ks_version, "current") = Some (to_le_bytes 8 (version r2)).
Proof.
  intros Hb Hi Hlt Hmax H1 H2. destruct (install_memory _ _ _ _ Hi) as [Hv _].
  apply apply_entry_ok in H1 as (b1 & ck1 & db1 & _ & _ & _ & ->).
  apply apply_entry_ok in H2 as (b2 & ck2 & db2 & Hb2 & Hc & -> & ->).
  cbn [version sm_db applied_sm]. rewrite Hv, !allocate_version_small in * by lia.
  split_and!; [done|lia|]. rewrite (commit_spec _ _ _ Hc), apply_batch_lookup.
  by apply entry_last_writes in Hb2 as [-> _].
Qed.

(** A snapshot built while an entry is applied is torn: its metadata names the
    entry as included, but the state it restores is the one before the entry. *)
Theorem concurrent_snapshot_torn (sm follower : FjallStateMachine) e sm' r snap follower' :
  apply_entry sm e = (sm', Ok r) →
  build_snapshot (sm_db sm) (sm_db sm') (sm_db sm') = Ok snap →
  install_snapshot follower (snap_meta snap) (snap_data snap) = Ok follower' →
  meta_last_log_id (snap_meta snap) = Some (log_id e) ∧ db_equiv (sm_db follower') (sm_db sm).
Proof.
  intros He Hb Hi. split; [|by eapply install_replicated].
  apply build_snapshot_ok in Hb as (_ & Hla & _).
  apply apply_entry_ok in He as (b & ck & db' & Hb & Hc & -> & _). cbn [sm_db applied_sm] in Hla.
  apply entry_last_writes in Hb as [_ (lid & Hlid & Hw)].
  rewrite (commit_spec _ _ _ Hc), apply_batch_lookup, Hw in Hla. cbn in Hla.
  unfold de in Hla. rewrite Hlid in Hla. cbn in Hla. congruence.
Qed.

Lemma raft_state_unwritten c : ks_raft_state ∉ cmd_keyspaces c.
Proof. destruct c; cbn [cmd_keyspaces]; set_solver. Qed.

Lemma apply_entry_no_meta sm e sm' r :
  apply_entry sm e = (sm', Ok r) →
  contents (sm_db sm) !! (ks_raft_state, "snapshot_meta") = None →
  contents (sm_db sm') !! (ks_raft_state, "snapshot_meta") = None.
Proof.
  intros (b & ck & db' & Hb & Hc & -> & _)%apply_entry_ok H. cbn [sm_db applied_sm].
  apply entry_batch_ok in Hb as (b0 & p & lid & Hs & _ & Ha).
  rewrite (commit_spec _ _ _ Hc), apply_batch_lookup.
  enough (last_write b (ks_raft_state, "snapshot_meta") = None) as -> by done.
  assert (last_write b0 (ks_raft_state, "snapshot_meta") = None) as H0.
  { unfold stage_payload in Hs. destruct (payload e) as [|a|m]; [by ok_inv| |].
    - apply bind_ok in Hs as ([b1 ck1] & Hc1 & Hs). ok_inv.
      apply (apply_command_frame _ _ _ _ _ _ (raft_state_unwritten (cmd a)) Hc1).
    - apply bind_ok in Hs as (v & _ & Hs). by ok_inv. }
  apply stage_audit_ok in Ha as [[-> ->]|(ctx & action & bs & -> & _ & ->)];
    unfold persist_version, batch_insert; by rewrite !last_write_snoc, !decide_False.
Qed.

(** A replica that never installed a snapshot serves none, whatever it applied:
    what [build_snapshot] returns is not stored for [get_current_snapshot]. *)
Theorem built_snapshot_not_served (db : Db) domain es sm' res :
  contents db = ∅ → apply (open db domain) es = (sm', res) →
  get_current_snapshot (sm_db sm') = Ok None.
Proof.
  intros Hdb H. unfold get_current_snapshot. rewrite !get_eq.
  assert (contents (sm_db sm') !! (ks_raft_state, "snapshot_meta") = None) as ->; [|done].
  refine (apply_invariant (λ db, contents db !! (ks_raft_state, "snapshot_meta") = None)
    _ _ _ _ _ _ H).
  - intros sm e sm1 r _ H0 He. by eapply apply_entry_no_meta.
  - cbn. by rewrite Hdb.
Qed.
End SnapshotTransfer.

(** ** Witnesses *)
Import DemoInstances.

(** A snapshot of the demo cluster, for an empty replica. *)
Definition demo_snapshot : Snapshot :=
  default {| snap_meta := {| meta_last_log_id := None;
               meta_last_membership := StoredMembership_default; meta_snapshot_id := "" |};
             snap_data := "" |}
    (ok (build_snapshot (sm_db demo_sm) (sm_db demo_sm) (sm_db demo_sm))).
Definition demo_follower : FjallStateMachine :=
  default demo_init (ok (install_snapshot demo_init (snap_meta demo_snapshot) (snap_data demo_snapshot))).

Lemma demo_snapshot_built :
  build_snapshot (sm_db demo_sm) (sm_db demo_sm) (sm_db demo_sm) = Ok demo_snapshot.
Proof.
  apply result_default. vm_refl.
Defined.

Lemma demo_snapshot_installed :
  install_snapshot demo_init (snap_meta demo_snapshot) (snap_data demo_snapshot) = Ok demo_follower.
Proof.
  apply result_default. vm_refl.
Defined.

Lemma snapshot_catch_up_witness :
  sm_equiv (open (sm_db demo_follower) "fleet.internal") demo_sm.
Proof.
  apply (snapshot_catch_up demo_sm demo_init demo_snapshot demo_follower
    demo_snapshot_built demo_snapshot_installed).
  unfold version_synced. vm_refl.
Defined.

Lemma snapshot_install_version_diverges_witness :
  let e := demo_entry 7 (DeleteTenant "acme") in
  (apply_entry demo_sm e).2 = Ok {| version := 7 |} ∧
  (apply_entry demo_follower e).2 = Ok {| version := 1 |} ∧
  contents (sm_db (apply_entry demo_follower e).1) !! (ks_version, "current") =
    Some (to_le_bytes 8 1).
Proof.
  intros e. split; [vm_refl|]. split; [vm_refl|].
  apply (snapshot_install_version_diverges demo_sm demo_init demo_snapshot demo_follower e
    (apply_entry demo_sm e).1 (apply_entry demo_follower e).1 {| version := 7 |} {| version := 1 |}
    demo_snapshot_built demo_snapshot_installed).
  - assert (sm_version demo_sm = 6) as -> by vm_refl. done.
  - assert (sm_version demo_sm = 6) as -> by vm_refl. done.
  - apply result_pair. vm_refl.
  - apply result_pair. vm_refl.
Defined.

(** The builder takes its view, then entry 7 registers a node. *)
Definition demo_entry7 : Entry := demo_entry 7 (RegisterNode (demo_node "spiffe://n3")).
Definition demo_later : FjallStateMachine := (apply_entry demo_sm demo_entry7).1.
Definition torn_snapshot : Snapshot :=
  default demo_snapshot (ok (build_snapshot (sm_db demo_sm) (sm_db demo_later) (sm_db demo_later))).
Definition torn_follower : FjallStateMachine :=
  default demo_init (ok (install_snapshot demo_init (snap_meta torn_snapshot) (snap_data torn_snapshot))).

Lemma concurrent_snapshot_torn_witness :
  meta_last_log_id (snap_meta torn_snapshot) = Some (log_id demo_entry7) ∧
  contents (sm_db torn_follower) !! (ks_nodes, "spiffe://n3") = None ∧
  contents (sm_db demo_later) !! (ks_nodes, "spiffe://n3") ≠ None.
Proof.
  destruct (concurrent_snapshot_torn demo_sm demo_init demo_entry7 demo_later {| version := 7 |}
    torn_snapshot torn_follower) as [Hm He].
  - apply result_pair. vm_refl.
  - apply result_default. vm_refl.
  - apply result_default. vm_refl.
  - split; [exact Hm|]. split.
    + rewrite (He (ks_nodes, "spiffe://n3") eq_refl). vm_refl.
    + apply isSome_ne. vm_refl.
Defined.

Lemma built_snapshot_not_served_witness : get_current_snapshot (sm_db demo_sm) = Ok None.
Proof.
  apply (built_snapshot_not_served (sm_db demo_init) "fleet.internal" demo_entries demo_sm
    (apply demo_init demo_entries).2); [reflexivity|apply surjective_pairing].
Defined.
