(* ===== verification/LogStore.v ===== *)
(** * LogStore: the raft log on disk

    Models [FjallLogStorage] and [FjallLogReader] ([src/raft/store.rs]): entries
    under the big-endian bytes of their index in [raft_log], the vote and the purge
    watermark in [raft_log_meta]. The abstract log is a finite map from indices to
    entries; each operation refines one on that map. *)

From S2P Require Import Prelude.
From S2P Require Import Storage.
From S2P Require Import Core.
From S2P Require Import Records.
From S2P Require Import WireInstance.
From S2P Require Import Demo.

(** [std::ops::Bound]. *)
Inductive Bound (A : Type) : Type :=
| Included (a : A)
| Excluded (a : A)
| Unbounded.
Arguments Included {_} _.
Arguments Excluded {_} _.
Arguments Unbounded {_}.

Definition bound_map {A B} (f : A → B) (b : Bound A) : Bound B :=
  match b with
  | Included a => Included (f a)
  | Excluded a => Excluded (f a)
  | Unbounded => Unbounded
  end.

(** [k] is above the lower bound [lo]; below the upper bound [hi]. *)
Definition above (lo : Bound bytes) (k : bytes) : Prop :=
  match lo with
  | Included a => String.le a k
  | Excluded a => String.le a k ∧ a ≠ k
  | Unbounded => True
  end.
Definition below (hi : Bound bytes) (k : bytes) : Prop :=
  match hi with
  | Included a => String.le k a
  | Excluded a => String.le k a ∧ k ≠ a
  | Unbounded => True
  end.
#[export] Instance above_dec lo k : Decision (above lo k).
Proof. destruct lo; cbn; apply _. Defined.
#[export] Instance below_dec hi k : Decision (below hi k).
Proof. destruct hi; cbn; apply _. Defined.

(** ** The fjall operations the log uses besides those of the state machine

    [keyspace.range((lo, hi))] yields the pairs between the bounds in key order,
    [keyspace.last_key_value()] the pair with the greatest key. *)
Class FjallLog (F : Fjall) : Type := {
  range : Db → Keyspace → Bound bytes → Bound bytes → list (result IoError (bytes * bytes));
  last_key_value : Db → Keyspace → option (result IoError (bytes * bytes))
}.

Definition opens_to {E} (r : result E (bytes * bytes)) (kv : bytes * bytes) : Prop :=
  ∀ x, r = Ok x → x = kv.

Class FjallLogSpec (F : Fjall) `{!FjallLog F} : Prop := {
  range_spec db ks lo hi :
    Forall2 opens_to (range db ks lo hi)
      (filter (λ kv, above lo kv.1 ∧ below hi kv.1) (scan (contents db) ks ""));
  last_key_value_spec db ks :
    option_Forall2 opens_to (last_key_value db ks) (last (scan (contents db) ks ""))
}.

Class FjallLogReliable (F : Fjall) `{!FjallLog F} : Prop := {
  range_reliable db ks lo hi : Forall (λ r, ∃ kv, r = Ok kv) (range db ks lo hi);
  last_reliable db ks r : last_key_value db ks = Some r → ∃ kv, r = Ok kv
}.

(** ** Log types of openraft *)
Record Vote : Type := { vote_term : Z; vote_node_id : Z; vote_committed : bool }.
Record LogState : Type := { last_purged_log_id : option LogId; last_log_id : option LogId }.

Section LogStore.
Context `{F : Fjall} `{!FjallLog F} `{C : Core} `{W : !Wire C}.
Context `{!Postcard Entry} `{!Postcard Vote}.

(** [StorageError::IO] with its subject, and what caused it. *)
Inductive Cause : Type := IoCause (e : IoError) | PostcardCause.
Inductive LogError : Type :=
| ReadLogs (c : Cause)
| WriteLogs (c : Cause)
| WriteLogEntry (id : LogId) (c : Cause)
| ReadVote (c : Cause)
| WriteVote (c : Cause).

(** [raft/entry.rs]. *)
Definition serialize_entry (entry : Entry) : option bytes := to_allocvec entry.
Definition deserialize_entry (b : bytes) : option Entry := from_bytes b.

Definition log_key (index : Z) : bytes := to_be_bytes 8 index.

(** [try_get_log_entries]: an entry that does not decode is skipped. *)
Definition try_get_log_entries (db : Db) (start end_ : Bound Z) :
    result LogError (list Entry) :=
  foldM (λ entries guard,
    '(_, value) ← map_err (ReadLogs ∘ IoCause) guard;
    Ok (match deserialize_entry value with
        | Some entry => entries ++ [entry]
        | None => entries
        end)) (range db ks_raft_log (bound_map log_key start) (bound_map log_key end_)) [].

Definition get_log_state (db : Db) : result LogError LogState :=
  let last_log_id :=
    guard ← last_key_value db ks_raft_log;
    '(_, slice) ← ok guard;
    e ← deserialize_entry slice;
    Some (log_id e) in
  r ← map_err (ReadLogs ∘ IoCause) (get db ks_raft_log_meta "last_purged");
  last_purged ← match r with
    | Some b => lid ← ok_or (ReadLogs PostcardCause) (from_bytes b); Ok (Some lid)
    | None => Ok None
    end;
  Ok {| last_purged_log_id := last_purged; last_log_id := last_log_id |}.

Definition save_vote (db : Db) (vote : Vote) : result LogError Db :=
  serialized ← ok_or (WriteVote PostcardCause) (to_allocvec vote);
  map_err (WriteVote ∘ IoCause) (commit db (batch_insert ks_raft_log_meta "vote" serialized [])).

Definition read_vote (db : Db) : result LogError (option Vote) :=
  r ← map_err (ReadVote ∘ IoCause) (get db ks_raft_log_meta "vote");
  match r with
  | Some b => vote ← ok_or (ReadVote PostcardCause) (from_bytes b); Ok (Some vote)
  | None => Ok None
  end.

(** [append]: the callback runs when the result is [Ok]. *)
Definition append (db : Db) (entries : list Entry) : result LogError Db :=
  batch ← foldM (λ batch entry,
    serialized ← ok_or (WriteLogEntry (log_id entry) PostcardCause) (serialize_entry entry);
    Ok (batch_insert ks_raft_log (log_key (lid_index (log_id entry))) serialized batch))
    entries [];
  map_err (WriteLogs ∘ IoCause) (commit db batch).

Definition remove_range (db : Db) (lo hi : Bound bytes) : result LogError write_batch :=
  keys_to_remove ← foldM (λ keys guard,
    '(key, _) ← map_err (WriteLogs ∘ IoCause) guard; Ok (keys ++ [key]))
    (range db ks_raft_log lo hi) [];
  Ok (foldl (λ batch key, batch_remove ks_raft_log key batch) [] keys_to_remove).

Definition truncate (db : Db) (id : LogId) : result LogError Db :=
  batch ← remove_range db (Included (log_key (lid_index id))) Unbounded;
  map_err (WriteLogs ∘ IoCause) (commit db batch).

Definition purge (db : Db) (id : LogId) : result LogError Db :=
  batch ← remove_range db Unbounded (Included (log_key (lid_index id)));
  serialized ← ok_or (WriteLogs PostcardCause) (to_allocvec id);
  map_err (WriteLogs ∘ IoCause)
    (commit db (batch_insert ks_raft_log_meta "last_purged" serialized batch)).
End LogStore.

(** ** The abstract log *)
#[local] Arguments log_key : simpl never.

(** Index order of the keys. *)
Lemma log_key_le i j : is_u64 i → is_u64 j → String.le (log_key i) (log_key j) ↔ i ≤ j.
Proof.
  unfold is_u64. intros Hi Hj. unfold String.le, String.leb, log_key.
  rewrite to_be_bytes_compare, !Z.mod_small by done.
  destruct (Z.compare_spec i j); cbn; split; intros; done || lia.
Qed.

Lemma log_key_inj i j : is_u64 i → is_u64 j → log_key i = log_key j → i = j.
Proof.
  intros Hi Hj E. assert (i ≤ j ∧ j ≤ i) as [??]; [|lia].
  rewrite <- (log_key_le i j), <- (log_key_le j i) by done. by rewrite E.
Qed.

Definition above_Z (lo : Bound Z) (i : Z) : Prop :=
  match lo with Included a => a ≤ i | Excluded a => a < i | Unbounded => True end.
Definition below_Z (hi : Bound Z) (i : Z) : Prop :=
  match hi with Included a => i ≤ a | Excluded a => i < a | Unbounded => True end.
#[export] Instance above_Z_dec lo i : Decision (above_Z lo i).
Proof. destruct lo; cbn; apply _. Defined.
#[export] Instance below_Z_dec hi i : Decision (below_Z hi i).
Proof. destruct hi; cbn; apply _. Defined.
Definition u64_bound (b : Bound Z) : Prop :=
  match b with Included a | Excluded a => is_u64 a | Unbounded => True end.

Lemma above_key lo i : u64_bound lo → is_u64 i → above (bound_map log_key lo) (log_key i) ↔ above_Z lo i.
Proof.
  destruct lo as [a|a|]; cbn; intros Ha Hi; [by apply log_key_le| |done].
  rewrite log_key_le by done. split.
  - intros [Hle Hne]. destruct (decide (a = i)) as [->|]; [done|lia].
  - intros Hlt. split; [lia|]. intros E%log_key_inj; [lia|done..].
Qed.

Lemma below_key hi i : u64_bound hi → is_u64 i → below (bound_map log_key hi) (log_key i) ↔ below_Z hi i.
Proof.
  destruct hi as [a|a|]; cbn; intros Ha Hi; [by apply log_key_le| |done].
  rewrite log_key_le by done. split.
  - intros [Hle Hne]. destruct (decide (i = a)) as [->|]; [done|lia].
  - intros Hlt. split; [lia|]. intros E%log_key_inj; [lia|done..].
Qed.

(** A loop over guards that returned [Ok] opened every one of them. *)
Lemma foldM_opened {E E' A} (f : E → E') (h : A → bytes → bytes → A) gs l a a' :
  Forall2 opens_to gs l →
  foldM (λ acc guard, '(k, v) ← map_err f guard; Ok (h acc k v)) gs a = Ok a' →
  a' = foldl (λ acc kv, h acc kv.1 kv.2) a l.
Proof.
  intros Hs. revert a. induction Hs as [|g kv gs l Hg _ IH]; intros a H; cbn in H; [by ok_inv|].
  apply bind_ok in H as (a1 & Ha & H). destruct g as [[k v]|]; [|done]. cbn in Ha. ok_inv.
  rewrite (IH _ H). cbn. by rewrite <- (Hg _ eq_refl).
Qed.

(** A strictly sorted list keeps its order under a partial decoding. *)
Lemma omap_sorted {A B} (f : A → option B) (R : relation A) (R' : relation B) l :
  (∀ a a' b b', a ∈ l → a' ∈ l → R a a' → f a = Some b → f a' = Some b' → R' b b') →
  StronglySorted R l → StronglySorted R' (omap f l).
Proof.
  intros Hf. induction 1 as [|a l Hs IH Ha]; cbn; [constructor|].
  assert (IH' : StronglySorted R' (omap f l)).
  { apply IH. intros a1 a2 b1 b2 H1 H2. apply Hf; by right. }
  destruct (f a) as [b|] eqn:E; [|done]. constructor; [done|].
  apply Forall_forall. intros b' Hb'. apply list_elem_of_omap in Hb' as (a' & Hin & Ha').
  rewrite Forall_forall in Ha. eapply Hf; [left|by right|by apply Ha|done|done].
Qed.

Definition key_lt (a b : bytes * bytes) : Prop := String.le a.1 b.1 ∧ a.1 ≠ b.1.

Lemma strictly_sorted (l : list (bytes * bytes)) :
  StronglySorted key_le l → NoDup l.*1 → StronglySorted key_lt l.
Proof.
  induction 1 as [|a l Hs IH Ha]; cbn; [constructor|]. intros [Hni Hnd]%NoDup_cons.
  constructor; [by apply IH|]. rewrite Forall_forall in *. intros b Hb. split; [by apply Ha|].
  intros E. apply Hni. rewrite E. by apply list_elem_of_fmap_2.
Qed.

Lemma StronglySorted_filter {A} (R : relation A) (P : A → Prop) `{!∀ a, Decision (P a)} l :
  StronglySorted R l → StronglySorted R (filter P l).
Proof.
  induction 1 as [|a l Hs IH Ha]; [constructor|]. rewrite filter_cons. case_decide; [|done].
  constructor; [done|]. rewrite Forall_forall in *. intros b [_ Hb]%list_elem_of_filter. by apply Ha.
Qed.

Lemma last_Some_elem_of {A} (l : list A) x : last l = Some x → x ∈ l.
Proof. intros (l' & ->)%last_Some. set_solver. Qed.

Lemma sorted_last_le (l : list (bytes * bytes)) x y :
  StronglySorted key_le l → last l = Some x → y ∈ l → key_le y x.
Proof.
  induction 1 as [|a l Hs IH Ha]; [done|]. rewrite last_cons. intros Hl [->|Hy]%elem_of_cons.
  - destruct (last l) as [z|] eqn:E; injection Hl as ->; [|unfold key_le; done].
    rewrite Forall_forall in Ha. by apply Ha, last_Some_elem_of.
  - destruct (last l) as [z|] eqn:E; [by apply IH|]. apply last_None in E as ->.
    by apply not_elem_of_nil in Hy.
Qed.

Section LogFacts.
Context `{F : Fjall} `{!FjallLog F} `{C : Core} `{W : !Wire C}.
Context `{!Postcard Entry} `{!Postcard Vote} `{!FjallSpec F} `{!FjallLogSpec F}.

(** The store holds the log [m]. *)
Record represents (st : store) (m : gmap Z Entry) : Prop := {
  rep_keys k v : st !! (ks_raft_log, k) = Some v →
    ∃ i e, k = log_key i ∧ m !! i = Some e ∧ from_bytes v = Some e;
  rep_entries i e : m !! i = Some e → is_u64 i ∧ lid_index (log_id e) = i ∧
    ∃ v, st !! (ks_raft_log, log_key i) = Some v
}.

Lemma represents_lookup st m i v :
  represents st m → is_u64 i → st !! (ks_raft_log, log_key i) = Some v →
  ∃ e, m !! i = Some e ∧ from_bytes v = Some e.
Proof.
  intros Hr Hi Hv. destruct (rep_keys _ _ Hr _ _ Hv) as (j & e & Hk & Hm & He).
  destruct (rep_entries _ _ Hr _ _ Hm) as (Hj & _).
  apply log_key_inj in Hk as ->; [|done..]. eauto.
Qed.

(** [represents] needs only the entries of [raft_log]; what a batch does to them. *)
Lemma represents_batch st m m' b :
  represents st m →
  (∀ op, op ∈ b → (op_key op).1 = ks_raft_log → ∃ i, is_u64 i ∧ (op_key op).2 = log_key i) →
  (∀ i, is_u64 i → match last_write b (ks_raft_log, log_key i) with
    | None => m' !! i = m !! i
    | Some None => m' !! i = None
    | Some (Some v) => ∃ e, from_bytes v = Some e ∧ m' !! i = Some e ∧ lid_index (log_id e) = i
    end) →
  (∀ i, is_Some (m' !! i) → is_u64 i) →
  represents (apply_batch st b) m'.
Proof.
  intros Hr Hops Hw Hdom. split.
  - intros k v. rewrite apply_batch_lookup. intros Hv.
    assert (∃ i, is_u64 i ∧ k = log_key i) as (i & Hi & ->).
    { destruct (last_write b (ks_raft_log, k)) as [w|] eqn:E.
      - apply last_write_some in E as (op & Hop & Hk & _).
        destruct (Hops op Hop) as (i & Hi & Hk'); rewrite Hk in *; [done|]. eauto.
      - cbn in Hv. destruct (rep_keys _ _ Hr _ _ Hv) as (i & e & -> & Hm & _).
        exists i. split; [|done]. by destruct (rep_entries _ _ Hr _ _ Hm). }
    specialize (Hw i Hi). destruct (last_write b (ks_raft_log, log_key i)) as [[w|]|]; cbn in Hv.
    + injection Hv as ->. destruct Hw as (e & ? & ? & _). eauto.
    + done.
    + destruct (represents_lookup _ _ _ _ Hr Hi Hv) as (e & He & ?). exists i, e.
      by rewrite Hw.
  - intros i e He. assert (Hi : is_u64 i) by eauto. specialize (Hw i Hi). split; [done|].
    rewrite apply_batch_lookup. destruct (last_write b (ks_raft_log, log_key i)) as [[w|]|]; cbn.
    + destruct Hw as (e' & _ & He' & Hid). split; [congruence|eauto].
    + congruence.
    + rewrite Hw in He. by apply (rep_entries _ _ Hr).
Qed.

(** *** Abstract operations *)
Definition log_append (m : gmap Z Entry) (es : list Entry) : gmap Z Entry :=
  foldl (λ m e, <[lid_index (log_id e) := e]> m) m es.
Definition log_truncate (m : gmap Z Entry) (n : Z) : gmap Z Entry :=
  filter (λ ie, ie.1 < n) m.
Definition log_purge (m : gmap Z Entry) (n : Z) : gmap Z Entry :=
  filter (λ ie, n < ie.1) m.

Lemma represents_insert st m e v :
  represents st m → is_u64 (lid_index (log_id e)) → to_allocvec e = Some v →
  represents (apply_op st (BInsert ks_raft_log (log_key (lid_index (log_id e))) v))
    (<[lid_index (log_id e) := e]> m).
Proof.
  intros Hr Hi Hv. set (i := lid_index (log_id e)) in *.
  change (apply_op st ?op) with (apply_batch st [op]). eapply represents_batch; [done|..].
  - intros op Hop _. apply list_elem_of_singleton in Hop as ->. cbn. eauto.
  - intros j Hj. cbn. rewrite lookup_insert. case_decide as E.
    + apply (f_equal snd), log_key_inj in E; [|done..]. subst j. rewrite decide_True by done.
      exists e. split; [by apply from_to_allocvec|done].
    + rewrite decide_False; [done|]. by intros ->.
  - intros j. rewrite lookup_insert. case_decide; [by subst|]. intros [e' He'].
    by destruct (rep_entries _ _ Hr _ _ He').
Qed.

Lemma append_represents (db db' : Db) m es :
  represents (contents db) m → Forall (λ e, is_u64 (lid_index (log_id e))) es →
  append db es = Ok db' → represents (contents db') (log_append m es).
Proof.
  intros Hr Hes H. unfold append in H. apply bind_ok in H as (b & Hb & H).
  destruct (commit db b) as [db1|] eqn:Hc; [|done]. cbn in H. injection H as <-.
  rewrite (commit_spec _ _ _ Hc). clear Hc.
  assert (Hgen : ∀ b0 m0, represents (apply_batch (contents db) b0) m0 →
    foldM (λ batch entry,
      serialized ← ok_or (WriteLogEntry (log_id entry) PostcardCause) (serialize_entry entry);
      Ok (batch_insert ks_raft_log (log_key (lid_index (log_id entry))) serialized batch))
      es b0 = Ok b → represents (apply_batch (contents db) b) (log_append m0 es));
    [|by apply (Hgen [])].
  clear Hb. induction Hes as [|e es He _ IH]; intros b0 m0 H0 Hb; cbn in Hb; [by ok_inv|].
  apply bind_ok in Hb as (b1 & H1 & Hb). apply bind_ok in H1 as (v & Hv & H1). ok_inv.
  cbn [log_append foldl]. eapply IH; [|exact Hb]. unfold batch_insert. rewrite apply_batch_snoc.
  apply represents_insert; [done..|]. unfold serialize_entry in Hv.
  by destruct (to_allocvec e); cbn in Hv; simplify_eq.
Qed.

Lemma remove_range_ok (db : Db) lo hi b :
  remove_range db lo hi = Ok b →
  b = (λ kv, BRemove ks_raft_log kv.1) <$>
    filter (λ kv, above lo kv.1 ∧ below hi kv.1) (scan (contents db) ks_raft_log "").
Proof.
  unfold remove_range. intros H. apply bind_ok in H as (keys & Hk & H). ok_inv.
  apply (foldM_opened _ (λ keys k _, keys ++ [k]) _ _ _ _ (range_spec db ks_raft_log lo hi)) in Hk.
  rewrite (foldl_snoc fst) in Hk. subst keys. unfold batch_remove.
  rewrite (foldl_snoc (BRemove ks_raft_log)). cbn [app]. by rewrite <- list_fmap_compose.
Qed.

(** Removing the keys between two bounds, and writes outside the log. *)
Lemma remove_represents st m lo hi b0 :
  represents st m → u64_bound lo → u64_bound hi →
  Forall (λ op, (op_key op).1 ≠ ks_raft_log) b0 →
  represents (apply_batch st (((λ kv, BRemove ks_raft_log kv.1) <$>
    filter (λ kv, above (bound_map log_key lo) kv.1 ∧ below (bound_map log_key hi) kv.1)
      (scan st ks_raft_log "")) ++ b0))
    (filter (λ ie, ¬ (above_Z lo ie.1 ∧ below_Z hi ie.1)) m).
Proof.
  intros Hr Hlo Hhi Hb0.
  set (rem := (λ kv, BRemove ks_raft_log kv.1) <$> _).
  assert (Hin : ∀ op, op ∈ rem ↔ ∃ i v, is_u64 i ∧ op = BRemove ks_raft_log (log_key i) ∧
    st !! (ks_raft_log, log_key i) = Some v ∧ above_Z lo i ∧ below_Z hi i).
  { intros op. unfold rem. rewrite list_elem_of_fmap. split.
    - intros ([k v] & -> & [[Ha Hb] Hk]%list_elem_of_filter). apply elem_of_scan in Hk as [Hk _].
      destruct (rep_keys _ _ Hr _ _ Hk) as (i & e & -> & Hm & _).
      destruct (rep_entries _ _ Hr _ _ Hm) as (Hi & _). cbn in Ha, Hb.
      rewrite above_key in Ha by done. rewrite below_key in Hb by done. by exists i, v.
    - intros (i & v & Hi & -> & Hk & Ha & Hb). exists (log_key i, v). split; [done|].
      apply list_elem_of_filter. cbn. rewrite above_key, below_key by done. split; [done|].
      apply elem_of_scan. split; [done|]. apply starts_with_nil. }
  assert (H0 : ∀ k, last_write b0 (ks_raft_log, k) = None).
  { intros k. apply last_write_none. eapply Forall_impl; [exact Hb0|]. cbn. intros op Ho E.
    by rewrite E in Ho. }
  eapply represents_batch; [done|..].
  - intros op [Hop|Hop]%elem_of_app Hks.
    + apply Hin in Hop as (i & v & Hi & -> & _). cbn. eauto.
    + rewrite Forall_forall in Hb0. by destruct (Hb0 _ Hop).
  - intros i Hi. rewrite last_write_app, H0.
    destruct (last_write rem (ks_raft_log, log_key i)) as [w|] eqn:E.
    + apply last_write_some in E as (op & Hop & Hk & <-).
      apply Hin in Hop as (j & v & Hj & -> & _ & Hab). cbn in Hk.
      apply (f_equal snd), log_key_inj in Hk; [|done..]. subst j. cbn.
      apply map_lookup_filter_None. right. intros e _. cbn. tauto.
    + destruct (m !! i) as [e|] eqn:Hm; [|by apply map_lookup_filter_None; left].
      apply map_lookup_filter_Some. split; [done|]. cbn. intros Hab.
      destruct (rep_entries _ _ Hr _ _ Hm) as (_ & _ & v & Hv).
      apply last_write_none in E. rewrite Forall_forall in E.
      apply (E (BRemove ks_raft_log (log_key i))); [|done]. apply Hin. by exists i, v.
  - intros i [e He]. apply map_lookup_filter_Some in He as [He _].
    by destruct (rep_entries _ _ Hr _ _ He).
Qed.
End LogFacts.

(** ** Properties *)
Section LogProperties.
Context `{F : Fjall} `{!FjallLog F} `{C : Core} `{W : !Wire C}.
Context `{!Postcard Entry} `{!Postcard Vote} `{!FjallSpec F} `{!FjallLogSpec F}.

Lemma truncate_represents (db db' : Db) m id :
  represents (contents db) m → is_u64 (lid_index id) → truncate db id = Ok db' →
  represents (contents db') (log_truncate m (lid_index id)).
Proof.
  intros Hr Hid H. unfold truncate in H. apply bind_ok in H as (b & Hb & H).
  destruct (commit db b) as [db1|] eqn:Hc; [|done]. cbn in H. injection H as <-.
  rewrite (commit_spec _ _ _ Hc). apply remove_range_ok in Hb as ->.
  pose proof (remove_represents _ _ (Included (lid_index id)) Unbounded [] Hr Hid I
    (Forall_nil_2 _)) as H. rewrite app_nil_r in H.
  replace (log_truncate m (lid_index id)) with
    (filter (λ ie : Z * Entry, ¬ (above_Z (Included (lid_index id)) ie.1 ∧ below_Z Unbounded ie.1)) m);
    [exact H|].
  apply map_filter_ext. intros i e _. cbn. lia.
Qed.

Lemma purge_represents (db db' : Db) m id :
  represents (contents db) m → is_u64 (lid_index id) → purge db id = Ok db' →
  represents (contents db') (log_purge m (lid_index id)) ∧
  ∃ v, to_allocvec id = Some v ∧ contents db' !! (ks_raft_log_meta, "last_purged") = Some v.
Proof.
  intros Hr Hid H. unfold purge in H. apply bind_ok in H as (b & Hb & H).
  apply bind_ok in H as (v & Hv & H).
  destruct (commit db _) as [db1|] eqn:Hc; [|done]. cbn in H. injection H as <-.
  rewrite (commit_spec _ _ _ Hc). apply remove_range_ok in Hb as ->. split.
  - pose proof (remove_represents _ _ Unbounded (Included (lid_index id))
      [BInsert ks_raft_log_meta "last_purged" v] Hr I Hid ltac:(by constructor)) as H.
    replace (log_purge m (lid_index id)) with
      (filter (λ ie : Z * Entry, ¬ (above_Z Unbounded ie.1 ∧ below_Z (Included (lid_index id)) ie.1)) m);
      [exact H|].
    apply map_filter_ext. intros i e _. cbn. lia.
  - exists v. split; [by destruct (to_allocvec id); cbn in Hv; simplify_eq|].
    unfold batch_insert. rewrite apply_batch_snoc, apply_op_lookup. by rewrite decide_True.
Qed.

Lemma represents_meta st m k v :
  represents st m → represents (apply_op st (BInsert ks_raft_log_meta k v)) m.
Proof.
  intros Hr. change (apply_op st ?op) with (apply_batch st [op]).
  eapply represents_batch; [done|..].
  - intros op Hop Hk. apply list_elem_of_singleton in Hop as ->. done.
  - intros i _. done.
  - intros i [e He]. by destruct (rep_entries _ _ Hr _ _ He).
Qed.

(** C28. The log store implements the log: an append stores the entries at their
    indices, a truncation drops exactly the entries from its index on, a purge
    drops exactly those up to its index and records the watermark, and a saved
    vote leaves the log alone and reads back. *)
Theorem log_store_refines `{!FjallReliable F} (db db' : Db) m :
  represents (contents db) m →
  (∀ es, Forall (λ e, is_u64 (lid_index (log_id e))) es → append db es = Ok db' →
    represents (contents db') (log_append m es)) ∧
  (∀ id, is_u64 (lid_index id) → truncate db id = Ok db' →
    represents (contents db') (log_truncate m (lid_index id))) ∧
  (∀ id, is_u64 (lid_index id) → purge db id = Ok db' →
    represents (contents db') (log_purge m (lid_index id)) ∧
    last_purged_log_id <$> ok (get_log_state db') = Some (Some id)) ∧
  (∀ vote, save_vote db vote = Ok db' →
    represents (contents db') m ∧ read_vote db' = Ok (Some vote)).
Proof.
  intros Hr. split_and!.
  - intros es Hes. by apply append_represents.
  - intros id Hid. by apply truncate_represents.
  - intros id Hid H. destruct (purge_represents _ _ _ _ Hr Hid H) as [Hr' (v & Hv & Hl)].
    split; [done|]. unfold get_log_state. rewrite get_eq, Hl. cbn.
    by rewrite (from_to_allocvec _ _ Hv).
  - intros vote H. unfold save_vote in H. apply bind_ok in H as (v & Hv & H).
    destruct (commit db _) as [db1|] eqn:Hc; [|done]. cbn in H. injection H as <-.
    apply commit_spec in Hc. split.
    + rewrite Hc. by apply represents_meta.
    + unfold read_vote. rewrite get_eq, Hc. cbn. rewrite lookup_insert, decide_True by done. cbn.
      destruct (to_allocvec vote) as [v'|] eqn:E; [|done]. cbn in Hv. injection Hv as <-.
      by rewrite (from_to_allocvec _ _ E).
Qed.

(** *** Reads *)
Context `{!FjallLogReliable F}.

Lemma foldM_guards_ok {E E' A} (f : E → E') (h : A → bytes → bytes → A) gs a :
  Forall (λ r, ∃ kv, r = Ok kv) gs →
  ∃ a', foldM (λ acc guard, '(k, v) ← map_err f guard; Ok (h acc k v)) gs a = Ok a'.
Proof.
  intros Hgs. revert a. induction Hgs as [|g gs [[k v] ->] _ IH]; intros a; [by exists a|]. cbn. eauto.
Qed.

Lemma try_get_ok (db : Db) lo hi :
  try_get_log_entries db lo hi =
  Ok (omap (λ kv, deserialize_entry kv.2) (filter (λ kv, above (bound_map log_key lo) kv.1 ∧
    below (bound_map log_key hi) kv.1) (scan (contents db) ks_raft_log ""))).
Proof.
  unfold try_get_log_entries.
  set (h := λ (es : list Entry) (_ v : bytes), match deserialize_entry v with
    | Some entry => es ++ [entry] | None => es end).
  destruct (foldM_guards_ok (ReadLogs ∘ IoCause) h _ [] (range_reliable db ks_raft_log
    (bound_map log_key lo) (bound_map log_key hi))) as [es Hes].
  pose proof (foldM_opened _ h _ _ _ _ (range_spec db ks_raft_log (bound_map log_key lo)
    (bound_map log_key hi)) Hes) as E.
  unfold h in Hes. rewrite Hes, E. f_equal. unfold h.
  by rewrite (foldl_collect (λ kv : bytes * bytes, deserialize_entry kv.2)).
Qed.

Definition entry_lt (e1 e2 : Entry) : Prop := lid_index (log_id e1) < lid_index (log_id e2).

Lemma scan_log_pair st m k v e :
  represents st m → (k, v) ∈ scan st ks_raft_log "" → deserialize_entry v = Some e →
  k = log_key (lid_index (log_id e)) ∧ is_u64 (lid_index (log_id e)) ∧
  m !! lid_index (log_id e) = Some e.
Proof.
  intros Hr Hk He. apply elem_of_scan in Hk as [Hk _].
  destruct (rep_keys _ _ Hr _ _ Hk) as (i & e' & -> & Hm & He').
  destruct (rep_entries _ _ Hr _ _ Hm) as (Hi & Hid & _).
  unfold deserialize_entry in He. rewrite He' in He. injection He as <-. by rewrite Hid.
Qed.

Lemma scan_log_sorted st m (P : bytes * bytes → Prop) `{!∀ kv, Decision (P kv)} :
  represents st m →
  StronglySorted entry_lt (omap (λ kv, deserialize_entry kv.2) (filter P (scan st ks_raft_log ""))).
Proof.
  intros Hr. eapply (omap_sorted _ key_lt).
  - intros [k v] [k' v'] e e' [_ H1]%list_elem_of_filter [_ H2]%list_elem_of_filter [Hle Hne] He He'.
    destruct (scan_log_pair _ _ _ _ _ Hr H1 He) as (-> & Hi & _).
    destruct (scan_log_pair _ _ _ _ _ Hr H2 He') as (-> & Hi' & _). cbn in Hle, Hne.
    rewrite log_key_le in Hle by done. unfold entry_lt.
    assert (lid_index (log_id e) ≠ lid_index (log_id e')); [by intros E; rewrite E in Hne|lia].
  - apply StronglySorted_filter, strictly_sorted; [apply scan_sorted|apply NoDup_scan].
Qed.

Lemma last_log_id_spec (db : Db) m :
  represents (contents db) m →
  match (guard ← last_key_value db ks_raft_log; '(_, slice) ← ok guard;
         e ← deserialize_entry slice; Some (log_id e)) with
  | None => m = ∅
  | Some id => ∃ e, m !! lid_index id = Some e ∧ log_id e = id ∧
      ∀ i e', m !! i = Some e' → i ≤ lid_index id
  end.
Proof.
  intros Hr. pose proof (last_key_value_spec db ks_raft_log) as Hl.
  pose proof (last_reliable db ks_raft_log) as Hok.
  inversion Hl as [g kv Hg E1 E2|E1 E2].
  - destruct (Hok g (eq_sym E1)) as [kv' ->]. rewrite (Hg kv' eq_refl). destruct kv as [k v].
    symmetry in E2. pose proof (last_Some_elem_of _ _ E2) as Hin. cbn.
    pose proof Hin as Hin'. apply elem_of_scan in Hin' as [Hv _].
    destruct (rep_keys _ _ Hr _ _ Hv) as (j & e & _ & _ & He).
    destruct (scan_log_pair _ _ _ _ _ Hr Hin He) as (-> & Hi & Hm).
    unfold deserialize_entry. rewrite He. cbn. exists e. split_and!; [done..|]. intros i e' Hm'.
    destruct (rep_entries _ _ Hr _ _ Hm') as (Hi' & _ & v' & Hv').
    apply log_key_le; [done..|].
    apply (sorted_last_le _ _ (log_key i, v') (scan_sorted _ _ _) E2).
    apply elem_of_scan. split; [done|]. apply starts_with_nil.
  - cbn. apply map_empty. intros i. destruct (m !! i) as [e|] eqn:Hm; [|done].
    destruct (rep_entries _ _ Hr _ _ Hm) as (Hi & _ & v & Hv). symmetry in E2.
    apply last_None in E2. assert ((log_key i, v) ∈ scan (contents db) ks_raft_log "") as Hin.
    { apply elem_of_scan. split; [done|]. apply starts_with_nil. }
    rewrite E2 in Hin. by apply not_elem_of_nil in Hin.
Qed.

(** Reads of the log store: a range read returns exactly the logged entries
    between the bounds, in index order, and the reported last log id is that of the
    entry with the greatest index, none when the log is empty. *)
Theorem log_store_reads `{!FjallReliable F} (db : Db) m lo hi :
  represents (contents db) m → u64_bound lo → u64_bound hi →
  (∃ es, try_get_log_entries db lo hi = Ok es ∧ StronglySorted entry_lt es ∧
    ∀ e, e ∈ es ↔ m !! lid_index (log_id e) = Some e ∧
      above_Z lo (lid_index (log_id e)) ∧ below_Z hi (lid_index (log_id e))) ∧
  ∀ s, get_log_state db = Ok s →
    match last_log_id s with
    | None => m = ∅
    | Some id => ∃ e, m !! lid_index id = Some e ∧ log_id e = id ∧
        ∀ i e', m !! i = Some e' → i ≤ lid_index id
    end.
Proof.
  intros Hr Hlo Hhi. split.
  - rewrite try_get_ok. eexists. split; [done|]. split; [by apply (scan_log_sorted _ m)|].
    intros e. rewrite list_elem_of_omap. split.
    + intros ([k v] & [[Ha Hb] Hk]%list_elem_of_filter & He).
      destruct (scan_log_pair _ _ _ _ _ Hr Hk He) as (-> & Hi & Hm). cbn in Ha, Hb.
      rewrite above_key in Ha by done. by rewrite below_key in Hb.
    + intros (Hm & Ha & Hb). destruct (rep_entries _ _ Hr _ _ Hm) as (Hi & _ & v & Hv).
      exists (log_key (lid_index (log_id e)), v). rewrite list_elem_of_filter, elem_of_scan. cbn.
      rewrite above_key, below_key by done. split.
      * split; [done|]. split; [done|]. apply starts_with_nil.
      * destruct (represents_lookup _ _ _ _ Hr Hi Hv) as (e' & He' & ?).
        unfold deserialize_entry. congruence.
  - intros s Hs. unfold get_log_state in Hs. apply bind_ok in Hs as (r & _ & Hs).
    apply bind_ok in Hs as (lp & _ & Hs). ok_inv. cbn [last_log_id].
    by apply last_log_id_spec.
Qed.
End LogProperties.

(** ** Witnesses *)
Import DemoInstances.

#[local] Instance mem_log : FjallLog MemFjall.mem_fjall := {
  range db ks lo hi :=
    Ok <$> filter (λ kv, above lo kv.1 ∧ below hi kv.1) (scan db ks "");
  last_key_value db ks := Ok <$> last (scan db ks "")
}.
Lemma mem_log_spec : FjallLogSpec MemFjall.mem_fjall.
Proof.
  split; cbn.
  - intros db ks lo hi. apply Forall2_fmap_l, Forall_Forall2_diag, Forall_true.
    intros x y H. by ok_inv.
  - intros db ks. destruct (last _); constructor. intros y H. by ok_inv.
Qed.
Lemma mem_log_reliable : FjallLogReliable MemFjall.mem_fjall.
Proof.
  split; cbn.
  - intros db ks lo hi. apply Forall_fmap, Forall_true. cbn; eauto.
  - intros db ks r. destruct (last _); cbn; naive_solver.
Qed.
#[local] Existing Instance mem_log_spec.
#[local] Existing Instance mem_log_reliable.

(** A codec for votes, and one for entries that carry no command. *)
#[local] Instance vote_codec : Postcard Vote :=
  postcard_of (codec_iso (λ v, (vote_term v, (vote_node_id v, vote_committed v)))
    (λ '(t, (n, c)), Build_Vote t n c) ltac:(by intros [])).

Definition put_entry (e : Entry) : option bytes :=
  match payload e with
  | Blank => Some (codec_put (log_id e, None : option Membership))
  | MembershipEntry m => Some (codec_put (log_id e, Some m))
  | Normal _ => None
  end.
Definition get_entry (b : bytes) : option Entry :=
  '((lid, o), rest) ← (codec_get b : option (LogId * option Membership * string));
  Some {| log_id := lid;
          payload := match o with Some m => MembershipEntry m | None => Blank end |}.
#[local] Instance entry_codec : Postcard Entry.
Proof.
  refine {| to_allocvec := put_entry; from_bytes := get_entry |}.
  enough (∀ x : LogId * option Membership, codec_get (codec_put x) = Some (x, "")) as E.
  { intros [lid [|a|m]] b; unfold put_entry, get_entry; cbn [payload log_id]; intros H;
      [|discriminate H|]; apply (inj Some) in H; subst b; by rewrite E. }
  intros x. rewrite <- (string_app_nil_r (codec_put x)) at 1. apply codec_get_put.
Defined.

Definition blank (i : Z) : Entry :=
  {| log_id := {| lid_term := 1; lid_node_id := 1; lid_index := i |}; payload := Blank |}.
Definition demo_log : @Db MemFjall.mem_fjall := default ∅ (ok (append (∅ : store) (blank <$> [1; 2; 256]))).

Lemma represents_empty : represents (∅ : store) ∅.
Proof. split; intros ? ? H; discriminate H. Qed.

Lemma log_store_refines_witness :
  represents demo_log (log_append ∅ (blank <$> [1; 2; 256])).
Proof.
  apply (log_store_refines (∅ : @Db MemFjall.mem_fjall) demo_log ∅).
  - apply represents_empty.
  - repeat (constructor; [done|]). constructor.
  - apply result_default. vm_refl.
Defined.

Lemma log_store_reads_witness :
  ∃ es, try_get_log_entries demo_log (Included 2) Unbounded = Ok es ∧
    blank 2 ∈ es ∧ blank 256 ∈ es ∧ blank 1 ∉ es.
Proof.
  destruct (log_store_reads demo_log (log_append ∅ (blank <$> [1; 2; 256])) (Included 2) Unbounded)
    as [(es & Hes & _ & Hin) _].
  - apply (append_represents (∅ : @Db MemFjall.mem_fjall) demo_log ∅).
    + apply represents_empty.
    + repeat (constructor; [done|]). constructor.
    + apply result_default. vm_refl.
  - split; done.
  - exact I.
  - exists es. rewrite !Hin. split; [exact Hes|]. split; [|split].
    + split; [vm_refl|split; [cbn; lia|exact I]].
    + split; [vm_refl|split; [cbn; lia|exact I]].
    + intros (_ & Habs & _). cbn in Habs. lia.
Defined.
