(* ===== verification/Float64.v ===== *)
(** * Float64: the [f64] arithmetic the scheduler and the autoscalers use

    IEEE 754 binary64 with round to nearest even, from the Standard Library's
    executable specification; conversions and [max] as Rust defines them. *)

From Stdlib Require Import SpecFloat.
From S2P Require Import Prelude.

Abbreviation f64 := spec_float.

Definition f64_prec : Z := 53.
Definition f64_emax : Z := 1024.

(** Integers as [f64]: [z as f64], and literals that are dyadic. *)
Definition f64_of_Z (z : Z) : f64 := binary_normalize f64_prec f64_emax z 0 false.
Definition f64_dyadic (m e : Z) : f64 := binary_normalize f64_prec f64_emax m e false.

Definition f64_add : f64 → f64 → f64 := SFadd f64_prec f64_emax.
Definition f64_sub : f64 → f64 → f64 := SFsub f64_prec f64_emax.
Definition f64_mul : f64 → f64 → f64 := SFmul f64_prec f64_emax.
Definition f64_div : f64 → f64 → f64 := SFdiv f64_prec f64_emax.

Definition f64_0 : f64 := f64_of_Z 0.
Definition f64_1 : f64 := f64_of_Z 1.

(** [a.partial_cmp(&b)], [a <= b], [a > b]. *)
Definition f64_partial_cmp (a b : f64) : option comparison := SFcompare a b.
Definition f64_le (a b : f64) : bool := SFleb a b.
Definition f64_gt (a b : f64) : bool := SFltb b a.

Definition f64_is_nan (a : f64) : bool := match a with S754_nan => true | _ => false end.

(** [f64::max]: the other argument when one is NaN. *)
Definition f64_max (a b : f64) : f64 :=
  if f64_is_nan a then b else if f64_is_nan b then a else if f64_le a b then b else a.

(** [a as i64]: toward zero, saturating, 0 for NaN. *)
Definition f64_to_i64 (a : f64) : Z :=
  match a with
  | S754_zero _ | S754_nan => 0
  | S754_infinity s => if s then - 2 ^ 63 else 2 ^ 63 - 1
  | S754_finite s m e =>
      let magnitude := if 0 <=? e then Zpos m * 2 ^ e else Zpos m / 2 ^ (- e) in
      clamp (if s then - magnitude else magnitude) (- 2 ^ 63) (2 ^ 63 - 1)
  end.

(** ** The order

    A float that is not NaN is ordered by its class, then exponent and mantissa,
    both reversed for negative numbers. *)
Definition f64_key (a : f64) : Z * Z * Z :=
  match a with
  | S754_zero _ => (0, 0, 0)
  | S754_infinity s => ((if s then -2 else 2), 0, 0)
  | S754_finite s m e => if s then (-1, - e, - Zpos m) else (1, e, Zpos m)
  | S754_nan => (0, 0, 0)
  end.

Definition key_compare (x y : Z * Z * Z) : comparison :=
  then_with (Z.compare x.1.1 y.1.1) (then_with (Z.compare x.1.2 y.1.2) (Z.compare x.2 y.2)).

Lemma f64_partial_cmp_key a b :
  f64_is_nan a = false → f64_is_nan b = false →
  f64_partial_cmp a b = Some (key_compare (f64_key a) (f64_key b)).
Proof.
  unfold f64_partial_cmp, key_compare.
  destruct a as [s|s| |s m e], b as [t|t| |t n d]; try done; intros _ _;
    destruct s; try destruct t; cbn; try done; f_equal; unfold then_with.
  - rewrite !Z.compare_opp, (Z.compare_antisym e d).
    destruct (Z.compare e d) eqn:E; cbn; [|done..]. symmetry. apply Pos.compare_antisym.
  - by destruct (Z.compare e d).
Qed.

Lemma key_compare_eq x y : key_compare x y = Eq → x = y.
Proof.
  destruct x as [[a b] c], y as [[a' b'] c']. unfold key_compare, then_with. cbn.
  destruct (Z.compare_spec a a'), (Z.compare_spec b b'), (Z.compare_spec c c');
    try done. by subst.
Qed.

Lemma orders_key : orders key_compare.
Proof.
  assert (H2 : orders (λ x y : Z * Z * Z, then_with (x.1.2 ?= y.1.2) (x.2 ?= y.2))).
  { apply (orders_then (λ x y : Z * Z * Z, x.1.2 ?= y.1.2) (λ x y, x.2 ?= y.2)).
    - apply (orders_map (λ x : Z * Z * Z, x.1.2)), orders_Z.
    - apply (orders_map (λ x : Z * Z * Z, x.2)), orders_Z.
    - intros x y z ->%Z.compare_eq. done.
    - intros x y z ->%Z.compare_eq. done. }
  apply (orders_then (λ x y : Z * Z * Z, x.1.1 ?= y.1.1) _).
  - apply (orders_map (λ x : Z * Z * Z, x.1.1)), orders_Z.
  - exact H2.
  - intros x y z ->%Z.compare_eq. done.
  - intros x y z ->%Z.compare_eq. done.
Qed.
