(* ===== verification/Scheduler.v ===== *)
(** * Scheduler: filtering, scoring and selecting a node

    Models [src/scheduler/mod.rs] (resources, the cluster view), [taints.rs],
    [anti_affinity.rs], [topology.rs], [binpack.rs] and [engine.rs]. *)

From S2P Require Import Prelude.
From S2P Require Import Storage.
From S2P Require Import Core.
From S2P Require Import Records.
From S2P Require Import Float64.

(** ** Resources ([scheduler/mod.rs]) *)
Definition ResourceSpec_zero : ResourceSpec := {| cpu_millicores := 0; memory_bytes := 0 |}.

Definition fits_within (r available : ResourceSpec) : bool :=
  (cpu_millicores r <=? cpu_millicores available) && (memory_bytes r <=? memory_bytes available).

Definition subtract (r other : ResourceSpec) : ResourceSpec := {|
  cpu_millicores := saturating_sub (cpu_millicores r) (cpu_millicores other);
  memory_bytes := saturating_sub (memory_bytes r) (memory_bytes other) |}.

Definition add (r other : ResourceSpec) : ResourceSpec := {|
  cpu_millicores := wrap_u64 (cpu_millicores r + cpu_millicores other);
  memory_bytes := wrap_u64 (memory_bytes r + memory_bytes other) |}.

(** ** Taints ([scheduler/taints.rs]) *)
Definition EFFECT_NO_SCHEDULE : string := "NoSchedule".
Definition EFFECT_PREFER_NO_SCHEDULE : string := "PreferNoSchedule".
Definition EFFECT_NO_EXECUTE : string := "NoExecute".
(** 0.25 *)
Definition PREFER_NO_SCHEDULE_PENALTY : f64 := f64_dyadic 1 (-2).

Definition tolerates (tol : Toleration) (taint : NodeTaint) : bool :=
  if negb (bool_decide (tol_effect tol = "")) && negb (bool_decide (tol_effect tol = nt_effect taint))
  then false
  else if bool_decide (tol_key tol = "") then bool_decide (tol_operator tol = "Exists")
  else if negb (bool_decide (tol_key tol = nt_key taint)) then false
  else if bool_decide (tol_operator tol = "Exists") then true
  else if bool_decide (tol_operator tol = "") || bool_decide (tol_operator tol = "Equal")
  then bool_decide (tol_value tol = nt_value taint)
  else false.

Definition is_tolerated (tolerations : list Toleration) (taint : NodeTaint) : bool :=
  existsb (λ t, tolerates t taint) tolerations.

Definition passes_taint_filter (tolerations : list Toleration) (node_taints : list NodeTaint) :
    bool :=
  forallb (is_tolerated tolerations)
    (filter (λ t, nt_effect t = EFFECT_NO_SCHEDULE ∨ nt_effect t = EFFECT_NO_EXECUTE) node_taints).

Definition prefer_no_schedule_penalties (tolerations : list Toleration)
    (node_taints : list NodeTaint) : Z :=
  wrap_u32 (Z.of_nat (length (filter
    (λ t, nt_effect t = EFFECT_PREFER_NO_SCHEDULE ∧ is_tolerated tolerations t = false)
    node_taints))).

(** The loop over the matching tolerations: [None] when one tolerates without end,
    else the largest grace. *)
Fixpoint max_grace (matching : list Toleration) (acc : Z) : option Z :=
  match matching with
  | [] => Some acc
  | tol :: matching =>
      if tol_toleration_seconds tol <=? 0 then None
      else max_grace matching (Z.max acc (tol_toleration_seconds tol))
  end.

(** A [NoExecute] taint drives out a pod with these tolerations. *)
Definition taint_evicts (now_unix : Z) (tolerations : list Toleration) (taint : NodeTaint) : bool :=
  let matching := filter (λ t, tolerates t taint = true) tolerations in
  match matching with
  | [] => true
  | _ => match max_grace matching 0 with
         | None => false
         | Some grace => grace <? now_unix - nt_time_added_unix taint
         end
  end.

(** [Vec::dedup]. *)
Fixpoint dedup (l : list string) : list string :=
  match l with
  | [] => []
  | x :: l' => match dedup l' with
               | y :: l'' => if decide (x = y) then y :: l'' else x :: y :: l''
               | [] => [x]
               end
  end.

Section Scheduler.
Context `{C : Core}.

Definition plan_no_execute_evictions (now_unix : Z) (node_taints : list NodeTaint)
    (node_placements : list Placement) (tolerations_for : Placement → list Toleration) :
    list string :=
  let no_execute := filter (λ t, nt_effect t = EFFECT_NO_EXECUTE) node_taints in
  match no_execute with
  | [] => []
  | _ =>
      let evict := omap (λ placement,
        if existsb (taint_evicts now_unix (tolerations_for placement)) no_execute
        then Some (pl_pod_id placement) else None) node_placements in
      dedup (sort_by String.compare evict)
  end.

(** ** The cluster view ([scheduler/mod.rs]) *)
Record NodeInfo : Type := {
  ni_node_id : SpiffeId;
  ni_capacity : ResourceSpec;
  ni_available : ResourceSpec;
  ni_failure_domain : string;
  ni_schedulable : bool;
  ni_pod_count : Z;
  ni_taints : list NodeTaint
}.

Record ClusterState : Type := { cs_nodes : list NodeInfo; cs_placements : list Placement }.

(** The inner loop of [build]: resources and pods placed on the node. *)
Definition node_usage (node_id : SpiffeId) (placements : list Placement) : ResourceSpec * Z :=
  foldl (λ '(used, pod_count) placement,
    if decide (pl_node_id placement = node_id)
    then (add used (pl_resources placement), wrap_u32 (pod_count + 1))
    else (used, pod_count)) (ResourceSpec_zero, 0) placements.

Definition build_node (placements : list Placement) (node_taints : gmap string (list NodeTaint))
    (record : NodeRecord) : option NodeInfo :=
  node_id ← spiffe_parse (nr_node_id record);
  let capacity := {| cpu_millicores := nr_capacity_cpu_millicores record;
                     memory_bytes := nr_capacity_memory_bytes record |} in
  let '(used, pod_count) := node_usage node_id placements in
  Some {| ni_node_id := node_id;
          ni_capacity := capacity;
          ni_available := subtract capacity used;
          ni_failure_domain := nr_failure_domain record;
          ni_schedulable := nr_schedulable record && bool_decide (nr_status record = Active);
          ni_pod_count := pod_count;
          ni_taints := default [] (node_taints !! nr_node_id record) |}.

Definition ClusterState_build (node_records : list NodeRecord) (placements : list Placement)
    (node_taints : gmap string (list NodeTaint)) : ClusterState :=
  {| cs_nodes := omap (build_node placements node_taints) node_records;
     cs_placements := placements |}.

Definition placements_for_service_role (state : ClusterState) (service role : string) :
    list Placement :=
  filter (λ p, pl_service p = service ∧ pl_role p = role) (cs_placements state).
Definition placements_on_node (state : ClusterState) (node_id : SpiffeId) : list Placement :=
  filter (λ p, pl_node_id p = node_id) (cs_placements state).
Definition placements_for_tenant (state : ClusterState) (tenant_id : string) : list Placement :=
  filter (λ p, pl_tenant_id p = tenant_id) (cs_placements state).
Definition find_node (state : ClusterState) (node_id : SpiffeId) : option NodeInfo :=
  head (filter (λ n, ni_node_id n = node_id) (cs_nodes state)).
Definition schedulable_nodes (state : ClusterState) : list NodeInfo :=
  filter (λ n, ni_schedulable n = true) (cs_nodes state).

Record PendingPod : Type := {
  pp_pod_id : string;
  pp_tenant_id : string;
  pp_service : string;
  pp_role : string;
  pp_ordinal : Z;
  pp_resources : ResourceSpec;
  pp_previous_node : option SpiffeId;
  pp_priority : Z;
  pp_tolerations : list Toleration
}.

(** ** Anti-affinity ([scheduler/anti_affinity.rs]) *)
Record AntiAffinityConfig : Type := { cross_zone : bool; enforced_roles : list string }.
Definition AntiAffinityConfig_default : AntiAffinityConfig :=
  {| cross_zone := true; enforced_roles := ["replica"] |}.

Definition violates (node : NodeInfo) (state : ClusterState) (config : AntiAffinityConfig)
    (placement : Placement) : bool :=
  if decide (pl_node_id placement = ni_node_id node) then true
  else cross_zone config &&
    match find_node state (pl_node_id placement) with
    | Some placement_node => bool_decide (ni_failure_domain placement_node = ni_failure_domain node)
    | None => false
    end.

Definition check_anti_affinity (pod : PendingPod) (node : NodeInfo) (state : ClusterState)
    (config : AntiAffinityConfig) : bool :=
  if decide (pp_role pod ∈ enforced_roles config)
  then negb (existsb (violates node state config)
         (placements_for_service_role state (pp_service pod) (pp_role pod)))
  else true.

(** ** Topology spread ([scheduler/topology.rs]) *)
Record TopologyConfig : Type := { tenant_spread_weight : f64; pod_spread_weight : f64 }.
(** Weights 1.0 and 0.5. *)
Definition TopologyConfig_default : TopologyConfig :=
  {| tenant_spread_weight := f64_1; pod_spread_weight := f64_dyadic 1 (-1) |}.

Definition f64_len {A} (l : list A) : f64 := f64_of_Z (Z.of_nat (length l)).

(** [iter().max()]. *)
Definition max_pod_count (nodes : list NodeInfo) : option Z :=
  foldl (λ acc n, Some (match acc with Some m => Z.max m (ni_pod_count n) | None => ni_pod_count n end))
    None nodes.

Definition score_topology_spread (pod : PendingPod) (node : NodeInfo) (state : ClusterState)
    (config : TopologyConfig) : f64 :=
  let tenant_pods_on_node :=
    f64_len (filter (λ p, pl_tenant_id p = pp_tenant_id pod)
      (placements_on_node state (ni_node_id node))) in
  let total_tenant_pods := f64_len (placements_for_tenant state (pp_tenant_id pod)) in
  let total_nodes := f64_of_Z (Z.max (Z.of_nat (length (cs_nodes state))) 1) in
  let ideal_per_node := f64_div total_tenant_pods total_nodes in
  let tenant_score :=
    if f64_le tenant_pods_on_node ideal_per_node then f64_1
    else
      let excess := f64_sub tenant_pods_on_node ideal_per_node in
      f64_max (f64_sub f64_1 (f64_div excess (f64_add ideal_per_node f64_1))) f64_0 in
  let score := f64_add f64_0 (f64_mul tenant_score (tenant_spread_weight config)) in
  let pod_count := f64_of_Z (ni_pod_count node) in
  let max_pods := f64_of_Z (default 1 (max_pod_count (cs_nodes state))) in
  let pod_score :=
    if f64_gt max_pods f64_0 then f64_sub f64_1 (f64_div pod_count max_pods) else f64_1 in
  let score := f64_add score (f64_mul pod_score (pod_spread_weight config)) in
  let max_possible := f64_add (tenant_spread_weight config) (pod_spread_weight config) in
  if f64_gt max_possible f64_0 then f64_div score max_possible else f64_0.

(** ** Bin-packing ([scheduler/binpack.rs]) *)
Inductive BinpackStrategy : Type := MostAllocated | LeastAllocated.

Definition utilization (after capacity : Z) : f64 :=
  if 0 <? capacity then f64_div (f64_of_Z after) (f64_of_Z capacity) else f64_0.

Definition score_binpack (pod_resources : ResourceSpec) (node : NodeInfo)
    (strategy : BinpackStrategy) : f64 :=
  let cpu_after := saturating_sub (cpu_millicores (ni_capacity node))
    (saturating_sub (cpu_millicores (ni_available node)) (cpu_millicores pod_resources)) in
  let mem_after := saturating_sub (memory_bytes (ni_capacity node))
    (saturating_sub (memory_bytes (ni_available node)) (memory_bytes pod_resources)) in
  let cpu_utilization := utilization cpu_after (cpu_millicores (ni_capacity node)) in
  let mem_utilization := utilization mem_after (memory_bytes (ni_capacity node)) in
  let combined_utilization :=
    f64_div (f64_add cpu_utilization mem_utilization) (f64_of_Z 2) in
  match strategy with
  | MostAllocated => combined_utilization
  | LeastAllocated => f64_sub f64_1 combined_utilization
  end.

(** ** The engine ([scheduler/engine.rs]) *)
Record ScoreBreakdown : Type := {
  binpack_score : f64;
  topology_score : f64;
  anti_affinity_pass : bool;
  resource_fit : bool;
  taint_penalty : f64
}.

Record ScheduleDecision : Type := {
  sd_node_id : SpiffeId;
  sd_pod_id : string;
  sd_score_breakdown : ScoreBreakdown
}.

Inductive SchedulerError : Type :=
| NoSuitableNode (pod_id reason : string).

Record DefaultScheduler : Type := {
  anti_affinity_config : AntiAffinityConfig;
  topology_config : TopologyConfig;
  binpack_strategy : BinpackStrategy
}.
Definition DefaultScheduler_new : DefaultScheduler := {|
  anti_affinity_config := AntiAffinityConfig_default;
  topology_config := TopologyConfig_default;
  binpack_strategy := MostAllocated |}.

(** The tests of the filter phase on a schedulable node. *)
Definition passes_filters (sch : DefaultScheduler) (pod : PendingPod) (state : ClusterState)
    (node : NodeInfo) : bool :=
  if negb (fits_within (pp_resources pod) (ni_available node)) then false
  else if negb (check_anti_affinity pod node state (anti_affinity_config sch)) then false
  else if negb (passes_taint_filter (pp_tolerations pod) (ni_taints node)) then false
  else true.

Definition filter_nodes (sch : DefaultScheduler) (pod : PendingPod) (state : ClusterState) :
    list NodeInfo :=
  filter (λ node, passes_filters sch pod state node = true) (schedulable_nodes state).

Definition score_node (sch : DefaultScheduler) (pod : PendingPod) (state : ClusterState)
    (node : NodeInfo) : ScoreBreakdown := {|
  binpack_score := score_binpack (pp_resources pod) node (binpack_strategy sch);
  topology_score := score_topology_spread pod node state (topology_config sch);
  anti_affinity_pass := true;
  resource_fit := true;
  taint_penalty := f64_mul (f64_of_Z (prefer_no_schedule_penalties (pp_tolerations pod)
    (ni_taints node))) PREFER_NO_SCHEDULE_PENALTY |}.

Definition total_score (b : ScoreBreakdown) : f64 :=
  f64_add (f64_mul (f64_sub (topology_score b) (taint_penalty b)) (f64_of_Z 1000))
    (binpack_score b).

Definition compare_scored (a b : ScoreBreakdown * NodeInfo) : comparison :=
  then_with (default Eq (f64_partial_cmp (total_score b.1) (total_score a.1)))
    (String.compare (spiffe_to_string (ni_node_id a.2)) (spiffe_to_string (ni_node_id b.2))).

Definition score_nodes (sch : DefaultScheduler) (pod : PendingPod) (candidates : list NodeInfo)
    (state : ClusterState) : list (ScoreBreakdown * NodeInfo) :=
  sort_by compare_scored ((λ node, (score_node sch pod state node, node)) <$> candidates).

Definition schedule (sch : DefaultScheduler) (pod : PendingPod) (state : ClusterState) :
    result SchedulerError ScheduleDecision :=
  match filter_nodes sch pod state with
  | [] => Err (NoSuitableNode (pp_pod_id pod)
            "no nodes passed all filters (capacity + anti-affinity)")
  | candidates =>
      match head (score_nodes sch pod candidates state) with
      | None => Err (NoSuitableNode (pp_pod_id pod) "scoring produced no results")
      | Some (best_breakdown, best_node) =>
          Ok {| sd_node_id := ni_node_id best_node; sd_pod_id := pp_pod_id pod;
                sd_score_breakdown := best_breakdown |}
      end
  end.
End Scheduler.
