(* ===== verification/Scheduling.v ===== *)
(** * Scheduling: what the scheduler guarantees

    Soundness and completeness of the filters, capacity, the choice among the
    candidates, and the [NoExecute] eviction plan. *)

From S2P Require Import Prelude.
From S2P Require Import Storage.
From S2P Require Import Core.
From S2P Require Import Records.
From S2P Require Import WireInstance.
From S2P Require Import Demo.
From S2P Require Import Float64.
From S2P Require Import Scheduler.

(** ** Feasible nodes *)
Section Feasible.
Context `{C : Core}.

(** What makes a node acceptable for a pod. *)
Record feasible (sch : DefaultScheduler) (pod : PendingPod) (state : ClusterState)
    (node : NodeInfo) : Prop := {
  feasible_schedulable : ni_schedulable node = true;
  feasible_cpu : cpu_millicores (pp_resources pod) ≤ cpu_millicores (ni_available node);
  feasible_memory : memory_bytes (pp_resources pod) ≤ memory_bytes (ni_available node);
  feasible_spread : pp_role pod ∈ enforced_roles (anti_affinity_config sch) →
    ∀ p, p ∈ cs_placements state → pl_service p = pp_service pod → pl_role p = pp_role pod →
      pl_node_id p ≠ ni_node_id node ∧
      (cross_zone (anti_affinity_config sch) = true →
        ∀ n', find_node state (pl_node_id p) = Some n' →
          ni_failure_domain n' ≠ ni_failure_domain node);
  feasible_taints taint : taint ∈ ni_taints node →
    nt_effect taint = EFFECT_NO_SCHEDULE ∨ nt_effect taint = EFFECT_NO_EXECUTE →
    ∃ tol, tol ∈ pp_tolerations pod ∧ tolerates tol taint = true
}.

Lemma is_tolerated_true tols taint :
  is_tolerated tols taint = true ↔ ∃ tol, tol ∈ tols ∧ tolerates tol taint = true.
Proof.
  unfold is_tolerated. rewrite existsb_exists. split; intros (t & Hin & Ht); exists t;
    by rewrite ?list_elem_of_In in *.
Qed.

Lemma passes_taint_filter_true tols taints :
  passes_taint_filter tols taints = true ↔
  ∀ taint, taint ∈ taints →
    nt_effect taint = EFFECT_NO_SCHEDULE ∨ nt_effect taint = EFFECT_NO_EXECUTE →
    ∃ tol, tol ∈ tols ∧ tolerates tol taint = true.
Proof.
  unfold passes_taint_filter. rewrite forallb_forall. split.
  - intros H taint Hin Heff. apply is_tolerated_true, H, list_elem_of_In, list_elem_of_filter.
    done.
  - intros H taint Hin. apply list_elem_of_In, list_elem_of_filter in Hin as [Heff Hin].
    apply is_tolerated_true. by apply H.
Qed.

Lemma violates_false node state config p :
  violates node state config p = false ↔
  pl_node_id p ≠ ni_node_id node ∧
  (cross_zone config = true → ∀ n', find_node state (pl_node_id p) = Some n' →
    ni_failure_domain n' ≠ ni_failure_domain node).
Proof.
  unfold violates. case_decide as E; [split; [done|tauto]|].
  destruct (cross_zone config); cbn; [|split; [done|done]].
  destruct (find_node state (pl_node_id p)) as [n'|]; [|split; naive_solver].
  rewrite bool_decide_eq_false. split.
  - intros Hd. split; [done|]. intros _ n'' [= <-]. done.
  - intros [_ H]. by apply H.
Qed.

Lemma check_anti_affinity_true pod node state config :
  check_anti_affinity pod node state config = true ↔
  (pp_role pod ∈ enforced_roles config →
    ∀ p, p ∈ cs_placements state → pl_service p = pp_service pod → pl_role p = pp_role pod →
      violates node state config p = false).
Proof.
  unfold check_anti_affinity, placements_for_service_role. case_decide as E; [|done].
  rewrite negb_true_iff. split.
  - intros H _ p Hin Hs Hr. destruct (violates node state config p) eqn:V; [|done].
    rewrite <- H. symmetry. apply existsb_exists. exists p. split; [|done].
    apply list_elem_of_In, list_elem_of_filter. done.
  - intros H. apply not_true_iff_false. intros (p & Hin & V)%existsb_exists.
    apply list_elem_of_In, list_elem_of_filter in Hin as [[Hs Hr] Hin].
    by rewrite (H E p Hin Hs Hr) in V.
Qed.

Lemma elem_of_filter_nodes sch pod state node :
  node ∈ filter_nodes sch pod state ↔ node ∈ cs_nodes state ∧ feasible sch pod state node.
Proof.
  unfold filter_nodes, schedulable_nodes. rewrite !list_elem_of_filter. unfold passes_filters.
  split.
  - intros (H & Hs & Hin). split; [done|].
    destruct (fits_within _ _) eqn:Hf; [|done]. destruct (check_anti_affinity _ _ _ _) eqn:Ha; [|done].
    destruct (passes_taint_filter _ _) eqn:Ht; [|done].
    apply andb_true_iff in Hf as [Hc%Z.leb_le Hm%Z.leb_le]. rewrite check_anti_affinity_true in Ha.
    rewrite passes_taint_filter_true in Ht. split; try done.
    intros Hr p H1 H2 H3. apply violates_false. by apply Ha.
  - intros (Hin & [Hs Hc Hm Ha Ht]).
    assert (fits_within (pp_resources pod) (ni_available node) = true) as ->.
    { apply andb_true_iff. by rewrite !Z.leb_le. }
    rewrite (proj2 (check_anti_affinity_true _ _ _ _)).
    + by rewrite (proj2 (passes_taint_filter_true _ _)).
    + intros Hr p H1 H2 H3. apply violates_false. by apply Ha.
Qed.

Lemma schedule_ok sch pod state d :
  schedule sch pod state = Ok d ↔
  ∃ b node, head (score_nodes sch pod (filter_nodes sch pod state) state) = Some (b, node) ∧
    d = {| sd_node_id := ni_node_id node; sd_pod_id := pp_pod_id pod; sd_score_breakdown := b |}.
Proof.
  unfold schedule. destruct (filter_nodes sch pod state) as [|n l].
  { split; [done|]. by intros (b & node & H & _). }
  destruct (head _) as [[b node]|]; [|split; [done|naive_solver]].
  split; [intros H; ok_inv; by eexists _, _|]. intros (b' & node' & [= <- <-] & ->). done.
Qed.

Lemma score_nodes_head sch pod state cands b node :
  head (score_nodes sch pod cands state) = Some (b, node) →
  node ∈ cands ∧ b = score_node sch pod state node.
Proof.
  intros H%head_Some_elem_of. unfold score_nodes in H. rewrite sort_by_perm in H.
  apply list_elem_of_fmap in H as (n & [= -> ->] & Hin). done.
Qed.

Lemma score_nodes_nonempty sch pod state cands :
  head (score_nodes sch pod cands state) = None → cands = [].
Proof.
  intros H%head_None. pose proof (sort_by_perm compare_scored
    ((λ node, (score_node sch pod state node, node)) <$> cands)) as Hp.
  unfold score_nodes in H. rewrite H in Hp. apply Permutation_nil_l in Hp.
  symmetry in Hp. by apply fmap_nil_inv in Hp.
Qed.

(** The resources of the placements on a node, not wrapped. *)
Definition placed (f : ResourceSpec → Z) (node_id : SpiffeId) (placements : list Placement) : Z :=
  foldr (λ p acc, if decide (pl_node_id p = node_id) then f (pl_resources p) + acc else acc)
    0 placements.

Definition u64_resources (r : ResourceSpec) : Prop :=
  0 ≤ cpu_millicores r ∧ 0 ≤ memory_bytes r.

Lemma placed_nonneg f node_id ps :
  (∀ p, p ∈ ps → 0 ≤ f (pl_resources p)) → 0 ≤ placed f node_id ps.
Proof.
  induction ps as [|p ps IH]; intros H; cbn; [done|].
  pose proof (H p ltac:(left)). assert (0 ≤ placed f node_id ps).
  { apply IH. intros. apply H. by right. }
  unfold placed in *. case_decide; lia.
Qed.

Lemma node_usage_sum node_id ps :
  (∀ p, p ∈ ps → u64_resources (pl_resources p)) →
  placed cpu_millicores node_id ps < 2 ^ 64 → placed memory_bytes node_id ps < 2 ^ 64 →
  (node_usage node_id ps).1 =
    {| cpu_millicores := placed cpu_millicores node_id ps;
       memory_bytes := placed memory_bytes node_id ps |}.
Proof.
  unfold node_usage. intros Hps Hc Hm.
  enough (∀ u n, u64_resources u → cpu_millicores u + placed cpu_millicores node_id ps < 2 ^ 64 →
    memory_bytes u + placed memory_bytes node_id ps < 2 ^ 64 →
    (foldl (λ '(used, pod_count) placement, if decide (pl_node_id placement = node_id)
      then (add used (pl_resources placement), wrap_u32 (pod_count + 1))
      else (used, pod_count)) (u, n) ps).1 =
    {| cpu_millicores := cpu_millicores u + placed cpu_millicores node_id ps;
       memory_bytes := memory_bytes u + placed memory_bytes node_id ps |}) as H
    by (apply H; [done|cbn; lia..]).
  clear Hc Hm. induction ps as [|p ps IH]; intros u n [Hu1 Hu2] Hc Hm.
  { cbn. rewrite !Z.add_0_r. by destruct u. }
  assert (Hps' : ∀ p, p ∈ ps → u64_resources (pl_resources p)) by (intros; apply Hps; by right).
  pose proof (Hps p ltac:(left)) as [Hp1 Hp2].
  pose proof (placed_nonneg cpu_millicores node_id ps ltac:(intros; by apply Hps')).
  pose proof (placed_nonneg memory_bytes node_id ps ltac:(intros; by apply Hps')).
  cbn [foldl placed foldr] in *. fold (placed cpu_millicores node_id ps) in *.
  fold (placed memory_bytes node_id ps) in *.
  destruct (decide (pl_node_id p = node_id)); [|by apply IH].
  rewrite IH; [|done|..]; unfold add, u64_resources; cbn;
    rewrite ?wrap_u64_small by (unfold is_u64; lia); [f_equal; lia|lia..].
Qed.
End Feasible.

(** ** The choice among the candidates *)
Section Choice.
Context `{C : Core}.

(** No candidate has a score that is not a number. *)
Definition scores_defined (sch : DefaultScheduler) (pod : PendingPod) (state : ClusterState) : Prop :=
  ∀ node, node ∈ cs_nodes state → f64_is_nan (total_score (score_node sch pod state node)) = false.

(** [compare_scored] through the keys of the scores, an order on all pairs. *)
Definition score_order (a b : ScoreBreakdown * NodeInfo) : comparison :=
  then_with (key_compare (f64_key (total_score b.1)) (f64_key (total_score a.1)))
    (String.compare (spiffe_to_string (ni_node_id a.2)) (spiffe_to_string (ni_node_id b.2))).

Lemma orders_flip {A} (c : A → A → comparison) : orders c → orders (λ x y, c y x).
Proof. intros [H1 H2]. split; eauto. Qed.

Lemma orders_score : orders score_order.
Proof.
  apply (orders_then (λ a b : ScoreBreakdown * NodeInfo,
    key_compare (f64_key (total_score b.1)) (f64_key (total_score a.1)))).
  - apply (orders_flip (λ b a : ScoreBreakdown * NodeInfo,
      key_compare (f64_key (total_score b.1)) (f64_key (total_score a.1)))).
    apply (orders_map (λ a : ScoreBreakdown * NodeInfo, f64_key (total_score a.1))), orders_key.
  - apply (orders_map (λ a : ScoreBreakdown * NodeInfo, spiffe_to_string (ni_node_id a.2))),
      orders_string.
  - intros x y z E%key_compare_eq. by rewrite E.
  - intros x y z E%key_compare_eq. by rewrite E.
Qed.

Lemma score_nodes_order sch pod state cands :
  scores_defined sch pod state → (∀ n, n ∈ cands → n ∈ cs_nodes state) →
  score_nodes sch pod cands state =
  sort_by score_order ((λ node, (score_node sch pod state node, node)) <$> cands).
Proof.
  intros Hd Hin. apply sort_by_ext. intros x y Hx Hy.
  apply list_elem_of_fmap in Hx as (n & -> & Hn). apply list_elem_of_fmap in Hy as (m & -> & Hm).
  unfold compare_scored, score_order. cbn.
  by rewrite f64_partial_cmp_key by (apply Hd, Hin; done).
Qed.

Lemma filter_nodes_in sch pod state n : n ∈ filter_nodes sch pod state → n ∈ cs_nodes state.
Proof. by intros [H _]%elem_of_filter_nodes. Qed.

(** *** The order of nodes and placements does not matter *)
Lemma find_node_some state id n :
  NoDup (ni_node_id <$> cs_nodes state) →
  find_node state id = Some n ↔ n ∈ cs_nodes state ∧ ni_node_id n = id.
Proof.
  unfold find_node. generalize (cs_nodes state). intros l Hnd. split.
  - intros H%head_Some_elem_of. by apply list_elem_of_filter in H as [??].
  - induction l as [|m l IH]; [by intros [?%not_elem_of_nil _]|].
    apply NoDup_cons in Hnd as [Hni Hnd]. rewrite filter_cons. intros [[->|Hin]%elem_of_cons Hid].
    + by rewrite decide_True.
    + rewrite decide_False; [by apply IH|]. intros E. apply Hni. rewrite E, <- Hid.
      by apply list_elem_of_fmap_2.
Qed.

Lemma find_node_perm st1 st2 id :
  NoDup (ni_node_id <$> cs_nodes st1) → cs_nodes st1 ≡ₚ cs_nodes st2 →
  find_node st1 id = find_node st2 id.
Proof.
  intros Hnd Hp. apply option_eq. intros n.
  rewrite !find_node_some; [by rewrite Hp| |done]. by rewrite <- Hp.
Qed.

Lemma existsb_perm {A} (f : A → bool) l1 l2 : l1 ≡ₚ l2 → existsb f l1 = existsb f l2.
Proof.
  intros Hp. apply eq_bool_prop_intro. rewrite !Is_true_true, !existsb_exists.
  setoid_rewrite <- list_elem_of_In. by setoid_rewrite Hp.
Qed.

Lemma max_pod_count_spec l m :
  max_pod_count l = Some m ↔ (∃ n, n ∈ l ∧ ni_pod_count n = m) ∧ ∀ n, n ∈ l → ni_pod_count n ≤ m.
Proof.
  unfold max_pod_count. revert m. induction l as [|x l IH] using rev_ind; intros m.
  { split; [done|]. by intros [(n & ?%not_elem_of_nil & _) _]. }
  rewrite foldl_app. cbn. destruct (foldl _ None l) as [m'|] eqn:E.
  - destruct (proj1 (IH m') eq_refl) as [(n & Hn & Hm) Hle]. split.
    + intros [= <-]. split; [|intros n' [Hn'|Hn'%list_elem_of_singleton]%elem_of_app; [|subst; lia]].
      * destruct (Z.max_spec m' (ni_pod_count x)) as [[_ ->]|[_ ->]].
        -- exists x. split; [|done]. apply elem_of_app. right. by apply list_elem_of_singleton.
        -- exists n. split; [|done]. apply elem_of_app. by left.
      * specialize (Hle n' Hn'). lia.
    + intros [(y & [Hy|Hy%list_elem_of_singleton]%elem_of_app & <-) Hall]; f_equal; [|subst y].
      * specialize (Hle y Hy). pose proof (Hall x ltac:(apply elem_of_app; right; by apply list_elem_of_singleton)).
        pose proof (Hall n ltac:(apply elem_of_app; by left)). lia.
      * pose proof (Hall n ltac:(apply elem_of_app; by left)). lia.
  - destruct l as [|y l].
    + cbn. split.
      * intros [= <-]. split; [exists x; split; [by apply list_elem_of_singleton|done]|].
        by intros n Hn%list_elem_of_singleton; subst.
      * by intros [(n & Hn%list_elem_of_singleton & <-) _]; subst.
    + exfalso. clear -E. cbn in E. revert E. generalize (ni_pod_count y). clear y.
      induction l as [|z l IH]; intros p E; cbn in E; [done|]. by eapply IH.
Qed.

Lemma max_pod_count_perm l1 l2 : l1 ≡ₚ l2 → max_pod_count l1 = max_pod_count l2.
Proof.
  intros Hp. apply option_eq. intros m. rewrite !max_pod_count_spec. by setoid_rewrite Hp.
Qed.

Lemma f64_len_perm {A} (l1 l2 : list A) : l1 ≡ₚ l2 → f64_len l1 = f64_len l2.
Proof. intros Hp. unfold f64_len. by rewrite Hp. Qed.

Lemma score_node_perm sch pod st1 st2 node :
  cs_nodes st1 ≡ₚ cs_nodes st2 → cs_placements st1 ≡ₚ cs_placements st2 →
  score_node sch pod st1 node = score_node sch pod st2 node.
Proof.
  intros Hn Hp. unfold score_node. f_equal. unfold score_topology_spread, placements_on_node,
    placements_for_tenant. rewrite (max_pod_count_perm _ _ Hn).
  rewrite (f64_len_perm (filter (λ p, pl_tenant_id p = pp_tenant_id pod)
      (filter (λ p, pl_node_id p = ni_node_id node) (cs_placements st1))) (filter
      (λ p, pl_tenant_id p = pp_tenant_id pod) (filter (λ p, pl_node_id p = ni_node_id node)
      (cs_placements st2)))) by (by rewrite Hp).
  rewrite (f64_len_perm (filter (λ p, pl_tenant_id p = pp_tenant_id pod) (cs_placements st1))
    (filter (λ p, pl_tenant_id p = pp_tenant_id pod) (cs_placements st2))) by (by rewrite Hp).
  by rewrite (Permutation_length Hn).
Qed.

Lemma passes_filters_perm sch pod st1 st2 node :
  NoDup (ni_node_id <$> cs_nodes st1) →
  cs_nodes st1 ≡ₚ cs_nodes st2 → cs_placements st1 ≡ₚ cs_placements st2 →
  passes_filters sch pod st1 node = passes_filters sch pod st2 node.
Proof.
  intros Hnd Hn Hp. unfold passes_filters. enough (check_anti_affinity pod node st1
    (anti_affinity_config sch) = check_anti_affinity pod node st2 (anti_affinity_config sch)) as ->
    by done.
  unfold check_anti_affinity. case_decide; [|done]. f_equal.
  transitivity (existsb (violates node st1 (anti_affinity_config sch))
    (placements_for_service_role st2 (pp_service pod) (pp_role pod))).
  - apply existsb_perm. unfold placements_for_service_role. by rewrite Hp.
  - generalize (placements_for_service_role st2 (pp_service pod) (pp_role pod)). intros l.
    induction l as [|p l IH]; cbn; [done|]. rewrite IH. f_equal. unfold violates.
    by rewrite (find_node_perm st1 st2 _ Hnd Hn).
Qed.

Lemma filter_nodes_perm sch pod st1 st2 :
  NoDup (ni_node_id <$> cs_nodes st1) →
  cs_nodes st1 ≡ₚ cs_nodes st2 → cs_placements st1 ≡ₚ cs_placements st2 →
  filter_nodes sch pod st1 ≡ₚ filter_nodes sch pod st2.
Proof.
  intros Hnd Hn Hp. unfold filter_nodes, schedulable_nodes.
  rewrite (list_filter_iff _ (λ node, passes_filters sch pod st2 node = true)).
  - by rewrite Hn.
  - intros node. by rewrite (passes_filters_perm sch pod st1 st2).
Qed.
End Choice.

(** ** The eviction plan *)
Lemma elem_of_dedup x l : x ∈ dedup l ↔ x ∈ l.
Proof.
  induction l as [|y l IH]; [done|]. cbn. destruct (dedup l) as [|z l'].
  - rewrite !elem_of_cons, <- IH. done.
  - case_decide as E; rewrite !elem_of_cons, <- IH, !elem_of_cons; subst; tauto.
Qed.

Lemma dedup_sorted l :
  StronglySorted String.le l → StronglySorted String.le (dedup l) ∧ NoDup (dedup l).
Proof.
  induction 1 as [|x l Hs [IHs IHn] Hx]; [repeat constructor|]. cbn.
  assert (Hx' : Forall (String.le x) (dedup l)).
  { rewrite Forall_forall in *. intros y Hy. rewrite elem_of_dedup in Hy. by apply Hx. }
  destruct (dedup l) as [|y l'] eqn:E; [split; [repeat constructor|apply NoDup_singleton]|].
  case_decide as Hxy; [done|]. split; [by constructor|].
  constructor; [|done]. intros [->|Hin]%elem_of_cons; [done|].
  apply Forall_cons in Hx' as [Hxy' _]. inversion IHs as [|? ? _ Hall]; subst.
  rewrite Forall_forall in Hall. specialize (Hall x Hin).
  apply Hxy. by apply (anti_symm String.le).
Qed.

Lemma sort_strings_sorted l : StronglySorted String.le (sort_by String.compare l).
Proof.
  pose proof (sort_by_sorted _ l orders_string) as H.
  induction H as [|x l' _ IH Hx]; [constructor|]. constructor; [done|].
  eapply Forall_impl; [exact Hx|]. intros y. unfold String.le, String.leb.
  by destruct (String.compare x y).
Qed.

Lemma max_grace_exceeded l acc elapsed :
  0 ≤ acc → (∀ t, t ∈ l → 0 < tol_toleration_seconds t ∧ tol_toleration_seconds t < elapsed) ∧
    acc < elapsed ↔ ∃ g, max_grace l acc = Some g ∧ g < elapsed.
Proof.
  revert acc. induction l as [|t l IH]; intros acc Hacc; cbn.
  { split; [intros [_ ?]; by exists acc|]. intros (g & [= <-] & ?). split; [set_solver|done]. }
  destruct (Z.leb_spec (tol_toleration_seconds t) 0) as [Ht|Ht].
  { split; [|by intros (g & ? & _)]. intros [H _]. destruct (H t ltac:(left)). lia. }
  rewrite <- IH by lia. split.
  - intros [H Ha]. split; [intros t' Hin; apply H; by right|].
    destruct (H t ltac:(left)). lia.
  - intros [H Ha]. split; [|lia]. intros t' [->|Hin]%elem_of_cons; [lia|by apply H].
Qed.

Lemma taint_evicts_true now tols taint :
  taint_evicts now tols taint = true ↔
  ∀ tol, tol ∈ tols → tolerates tol taint = true →
    0 < tol_toleration_seconds tol < now - nt_time_added_unix taint.
Proof.
  unfold taint_evicts.
  assert (Hin : ∀ tol, tol ∈ filter (λ t, tolerates t taint = true) tols ↔
    tol ∈ tols ∧ tolerates tol taint = true) by (intros; rewrite list_elem_of_filter; tauto).
  destruct (filter _ tols) as [|t l].
  { split; [|done]. intros _ tol H1 H2. exfalso. by apply (not_elem_of_nil tol), Hin. }
  transitivity (∃ g, max_grace (t :: l) 0 = Some g ∧ g < now - nt_time_added_unix taint).
  - destruct (max_grace (t :: l) 0) as [g|]; [|split; [done|by intros (? & ? & _)]].
    rewrite Z.ltb_lt. split; [by exists g|]. by intros (g' & [= <-] & ?).
  - rewrite <- max_grace_exceeded by done. split.
    + intros [H _] tol H1 H2. apply H, Hin. done.
    + intros H. assert (Ht : t ∈ tols ∧ tolerates t taint = true) by (apply Hin; left).
      destruct Ht as [H1 H2]. specialize (H t H1 H2) as Hb. split; [|lia].
      intros t' [H1' H2']%Hin. by apply H.
Qed.

(** ** Properties *)
Section SchedulingProperties.
Context `{C : Core}.

(** The scheduler places a pod exactly when some node can take it: a decision
    names a node of the cluster that is schedulable, has room for the pod, keeps the
    anti-affinity of its role and whose hard taints are all tolerated; an error
    means that no node of the cluster is such. *)
Theorem schedule_feasible sch pod state :
  (∀ d, schedule sch pod state = Ok d →
    ∃ node, node ∈ cs_nodes state ∧ feasible sch pod state node ∧
      sd_node_id d = ni_node_id node ∧ sd_pod_id d = pp_pod_id pod) ∧
  (∀ err, schedule sch pod state = Err err →
    ∀ node, node ∈ cs_nodes state → ¬ feasible sch pod state node).
Proof.
  split.
  - intros d (b & node & Hh & ->)%schedule_ok. apply score_nodes_head in Hh as [Hin _].
    apply elem_of_filter_nodes in Hin as [Hin Hf]. by exists node.
  - intros err H node Hin Hf.
    assert (Hc : node ∈ filter_nodes sch pod state) by (by apply elem_of_filter_nodes).
    unfold schedule in H. destruct (filter_nodes sch pod state) as [|n l] eqn:E;
      [by apply not_elem_of_nil in Hc|].
    destruct (head (score_nodes sch pod (n :: l) state)) as [[b m]|] eqn:Hh; [done|].
    apply score_nodes_nonempty in Hh. done.
Qed.



(** Scheduling is deterministic: the decision does not depend on the order in
    which nodes and placements are listed. *)
Theorem schedule_order_independent `{!CoreSpec C} sch pod st1 st2 :
  NoDup (ni_node_id <$> cs_nodes st1) → cs_nodes st1 ≡ₚ cs_nodes st2 →
  cs_placements st1 ≡ₚ cs_placements st2 → scores_defined sch pod st1 →
  schedule sch pod st1 = schedule sch pod st2.
Proof.
  intros Hnd Hn Hp Hd1.
  assert (Hd2 : scores_defined sch pod st2).
  { intros node Hin. rewrite <- (score_node_perm sch pod st1 st2) by done. apply Hd1. by rewrite Hn. }
  pose proof (filter_nodes_perm sch pod st1 st2 Hnd Hn Hp) as Hf.
  assert (Hh : head (score_nodes sch pod (filter_nodes sch pod st1) st1) =
    head (score_nodes sch pod (filter_nodes sch pod st2) st2)).
  { rewrite !score_nodes_order by (done || apply filter_nodes_in).
    apply sort_by_head_perm; [apply orders_score| |].
    - intros x y Hx Hy E. apply list_elem_of_fmap in Hx as (n & -> & Hx).
      apply list_elem_of_fmap in Hy as (m & -> & Hy). unfold score_order, then_with in E. cbn in E.
      destruct (key_compare _ _); [|done..]. apply String.compare_eq_iff, (inj _) in E.
      apply filter_nodes_in in Hx, Hy.
      assert (find_node st1 (ni_node_id n) = Some n) as H1 by (by apply find_node_some).
      assert (find_node st1 (ni_node_id n) = Some m) as H2 by (by apply find_node_some).
      congruence.
    - rewrite Hf.
      erewrite list_fmap_ext; [reflexivity|]. intros i n _. cbn.
      by rewrite (score_node_perm sch pod st1 st2). }
  destruct (schedule sch pod st1) as [d|err] eqn:E1.
  - symmetry. apply schedule_ok. apply schedule_ok in E1 as (b & node & H & ->).
    rewrite Hh in H. by exists b, node.
  - unfold schedule in *. destruct (filter_nodes sch pod st1) as [|n1 l1] eqn:F1.
    + apply Permutation_nil_l in Hf. by rewrite <- Hf.
    + destruct (filter_nodes sch pod st2) as [|n2 l2]; [by apply Permutation_nil_r in Hf|].
      rewrite Hh in E1. by destruct (head _) as [[??]|].
Qed.

(** The [NoExecute] plan is exact: it lists, in order and once, the pods on the
    node for which some [NoExecute] taint is not tolerated any more, that is, every
    toleration of theirs that matches it has a positive grace period, and that has
    elapsed since the taint was added (none matching: at once). *)
Theorem no_execute_plan_exact now taints placements tolerations_for :
  let plan := plan_no_execute_evictions now taints placements tolerations_for in
  StronglySorted String.le plan ∧ NoDup plan ∧
  ∀ pod, pod ∈ plan ↔ ∃ p taint, p ∈ placements ∧ pl_pod_id p = pod ∧
    taint ∈ taints ∧ nt_effect taint = EFFECT_NO_EXECUTE ∧
    ∀ tol, tol ∈ tolerations_for p → tolerates tol taint = true →
      0 < tol_toleration_seconds tol < now - nt_time_added_unix taint.
Proof.
  intros plan. set (evict := omap (λ p, if existsb (taint_evicts now (tolerations_for p))
    (filter (λ t, nt_effect t = EFFECT_NO_EXECUTE) taints) then Some (pl_pod_id p) else None)
    placements).
  assert (Hplan : plan = dedup (sort_by String.compare evict)).
  { unfold plan, plan_no_execute_evictions. fold evict.
    destruct (filter _ taints) eqn:E; [|done].
    assert (evict = []) as ->; [|done]. unfold evict. clear. by induction placements. }
  destruct (dedup_sorted _ (sort_strings_sorted evict)) as [H1 H2]. rewrite Hplan. split; [done|]. split; [done|].
  intros pod. rewrite elem_of_dedup, sort_by_perm. unfold evict. rewrite list_elem_of_omap. split.
  - intros (p & Hp & E). destruct (existsb _ _) eqn:Ex; [|done]. injection E as <-.
    apply existsb_exists in Ex as (t & Ht & Hev). apply list_elem_of_In, list_elem_of_filter in Ht as [??].
    exists p, t. split_and!; try done. by apply taint_evicts_true.
  - intros (p & t & Hp & <- & Ht & He & Hall). exists p. split; [done|].
    assert (existsb (taint_evicts now (tolerations_for p))
      (filter (λ t, nt_effect t = EFFECT_NO_EXECUTE) taints) = true) as ->; [|done].
    apply existsb_exists. exists t. split; [apply list_elem_of_In, list_elem_of_filter; done|].
    by apply taint_evicts_true.
Qed.
End SchedulingProperties.

(** ** Witnesses *)
Import DemoInstances.

Definition demo_pod : PendingPod := {|
  pp_pod_id := "web-primary-2"; pp_tenant_id := "acme"; pp_service := "web"; pp_role := "primary";
  pp_ordinal := 2; pp_resources := {| cpu_millicores := 500; memory_bytes := 1000 |};
  pp_previous_node := None; pp_priority := 0; pp_tolerations := [] |}.
Definition demo_records : list NodeRecord := [demo_node "spiffe://n1"; demo_node "spiffe://n2"].
Definition demo_placements : list Placement := [demo_placement "web-primary-0" "n1" 0].
Definition demo_cluster : ClusterState := ClusterState_build demo_records demo_placements ∅.
Definition demo_decision : ScheduleDecision := {|
  sd_node_id := ("n2" : @SpiffeId demo_core); sd_pod_id := "web-primary-2";
  sd_score_breakdown := score_node DefaultScheduler_new demo_pod demo_cluster
    (default {| ni_node_id := ("" : @SpiffeId demo_core); ni_capacity := ResourceSpec_zero;
        ni_available := ResourceSpec_zero; ni_failure_domain := ""; ni_schedulable := false;
        ni_pod_count := 0; ni_taints := [] |}
      (cs_nodes demo_cluster !! 1%nat)) |}.

Lemma demo_scores : scores_defined DefaultScheduler_new demo_pod demo_cluster.
Proof.
  intros node Hin. apply list_elem_of_lookup in Hin as [[|[|i]] Hi]; [..|discriminate Hi];
    injection Hi as <-; vm_refl.
Qed.



Lemma schedule_order_independent_witness :
  schedule DefaultScheduler_new demo_pod demo_cluster =
  schedule DefaultScheduler_new demo_pod
    {| cs_nodes := reverse (cs_nodes demo_cluster); cs_placements := demo_placements |}.
Proof.
  apply schedule_order_independent.
  - apply (bool_decide_eq_true_1 (NoDup _)). vm_compute. reflexivity.
  - symmetry. apply reverse_Permutation.
  - reflexivity.
  - apply demo_scores.
Defined.
