(* ===== verification/Preemption.v ===== *)
(** * Preemption: ordering pending pods and choosing victims

    Models the pure part of the workload controller
    ([src/controllers/workload_controller.rs]): [order_pending],
    [workload_priority_map] and [find_preemption_plan]. *)

From S2P Require Import Prelude.
From S2P Require Import Storage.
From S2P Require Import Core.
From S2P Require Import Records.
From S2P Require Import WireInstance.
From S2P Require Import Demo.
From S2P Require Import Float64.
From S2P Require Import Scheduler.
From S2P Require Import Scheduling.

Section Preemption.
Context `{C : Core}.

(** [PreemptionPlan] ([scheduler/mod.rs]). *)
Record PreemptionPlan : Type := { plan_node_id : SpiffeId; plan_victims : list Placement }.

(** Higher priority first, [pod_id] ascending as the tiebreak. *)
Definition pending_order (a b : PendingPod) : comparison :=
  then_with (Z.compare (pp_priority b) (pp_priority a)) (String.compare (pp_pod_id a) (pp_pod_id b)).
Definition order_pending (pending : list PendingPod) : list PendingPod :=
  sort_by pending_order pending.

(** [collect] into a [HashMap]: a later workload replaces an earlier one. *)
Definition workload_priority_map (specs : list WorkloadSpec) : gmap (string * string) Z :=
  foldl (λ m s, <[(ws_tenant_id s, ws_workload_id s) :=
    default 0 (ps_priority <$> ws_pod_spec s)]> m) ∅ specs.

Section Plan.
Context (pod : PendingPod) (state : ClusterState) (workload_priority : Placement → Z).

Definition victim_order (a b : Placement) : comparison :=
  then_with (Z.compare (workload_priority a) (workload_priority b))
    (String.compare (pl_pod_id a) (pl_pod_id b)).

(** Eligible victims on a node, in the order they are given up. *)
Definition candidates (node : NodeInfo) : list Placement :=
  sort_by victim_order
    (filter (λ p, workload_priority p < pp_priority pod)
      (placements_on_node state (ni_node_id node))).

(** The loop over the candidates, until the pod fits. *)
Fixpoint take_victims (available : ResourceSpec) (victims candidates : list Placement) :
    ResourceSpec * list Placement :=
  match candidates with
  | [] => (available, victims)
  | victim :: candidates =>
      if fits_within (pp_resources pod) available then (available, victims)
      else take_victims (add available (pl_resources victim)) (victims ++ [victim]) candidates
  end.

(** The body of the loop over the nodes: the plan for one node. *)
Definition node_plan (node : NodeInfo) : option PreemptionPlan :=
  if negb (passes_taint_filter (pp_tolerations pod) (ni_taints node)) then None
  else
    let '(available, victims) := take_victims (ni_available node) [] (candidates node) in
    if negb (fits_within (pp_resources pod) available) then None
    else Some {| plan_node_id := ni_node_id node; plan_victims := victims |}.

(** [p.victims.iter().map(|v| workload_priority(v) as i64).sum()]: a sum of [i32]s,
    far from the bounds of an [i64]. *)
Definition priority_sum (p : PreemptionPlan) : Z :=
  foldl (λ acc v, acc + workload_priority v) 0 (plan_victims p).

(** The order of the triples the code compares. *)
Definition plan_order (a b : PreemptionPlan) : comparison :=
  then_with (Nat.compare (length (plan_victims a)) (length (plan_victims b)))
    (then_with (Z.compare (priority_sum a) (priority_sum b))
      (String.compare (spiffe_to_string (plan_node_id a)) (spiffe_to_string (plan_node_id b)))).

Definition find_preemption_plan : option PreemptionPlan :=
  foldl (λ best node,
    match node_plan node with
    | None => best
    | Some plan =>
        let better :=
          match best with
          | None => true
          | Some b => match plan_order plan b with Lt => true | _ => false end
          end in
        if better then Some plan else best
    end) None (schedulable_nodes state).
End Plan.
End Preemption.

(** ** Which plan is found *)

(** Comparing by one measure first keeps a comparator an order. *)
Lemma orders_Z_then {A} (f : A → Z) (d : A → A → comparison) :
  orders d → orders (λ x y, then_with (Z.compare (f x) (f y)) (d x y)).
Proof.
  intros Hd. apply (orders_then (λ x y, Z.compare (f x) (f y)) d); [|done|..].
  - apply (orders_map f), orders_Z.
  - by intros x y z ->%Z.compare_eq.
  - by intros x y z ->%Z.compare_eq.
Qed.

Lemma elem_of_snoc {A} (l : list A) x y : x ∈ l ++ [y] ↔ x ∈ l ∨ x = y.
Proof. by rewrite elem_of_app, list_elem_of_singleton. Qed.

(** Keeping the better of the candidates seen so far ends with a least one. *)
Lemma foldl_least {A B} (cmp : A → A → comparison) (f : B → option A) (l : list B) :
  orders cmp →
  match
    foldl (λ best x, match f x with
      | None => best
      | Some y =>
          if match best with
             | None => true
             | Some b => match cmp y b with Lt => true | _ => false end
             end
          then Some y else best
      end) None l
  with
  | Some b => (∃ x, x ∈ l ∧ f x = Some b) ∧ ∀ x y, x ∈ l → f x = Some y → cmp b y ≠ Gt
  | None => ∀ x, x ∈ l → f x = None
  end.
Proof.
  intros Ho. induction l as [|x l IH] using rev_ind; [by intros x ?%not_elem_of_nil|].
  rewrite foldl_app. cbn [foldl]. destruct (foldl _ None l) as [b|].
  - destruct IH as [(x' & Hx' & Hb) Hmin]. destruct (f x) as [y|] eqn:Hx.
    2:{ split; [exists x'; set_solver|]. intros z w [Hz| ->]%elem_of_snoc Hw;
          [by eapply Hmin|congruence]. }
    assert (cmp y b = Lt ∨ cmp b y ≠ Gt) as Hyb
      by (rewrite (orders_opp _ Ho y b); destruct (cmp y b); naive_solver).
    destruct (cmp y b) eqn:E.
    1,3: split; [exists x'; set_solver|];
      intros z w [Hz| ->]%elem_of_snoc Hw; [by eapply Hmin|];
      rewrite Hx in Hw; injection Hw as <-; by destruct Hyb.
    split; [exists x; set_solver|].
    intros z w [Hz| ->]%elem_of_snoc Hw.
    + apply (orders_trans _ Ho y b w); [by rewrite E|by eapply Hmin].
    + rewrite Hx in Hw. injection Hw as <-. pose proof (orders_opp _ Ho y y). by destruct (cmp y y).
  - destruct (f x) as [y|] eqn:Hx.
    + split; [exists x; set_solver|].
      intros z w [Hz| ->]%elem_of_snoc Hw; [by rewrite IH in Hw|].
      rewrite Hx in Hw. injection Hw as <-. pose proof (orders_opp _ Ho y y). by destruct (cmp y y).
    + intros z [Hz| ->]%elem_of_snoc; [by apply IH|done].
Qed.

Section PreemptionFacts.
Context `{C : Core}.
Context (pod : PendingPod) (state : ClusterState) (wp : Placement → Z).

(** The pod fits on the node once these pods are gone. *)
Definition makes_room (node : NodeInfo) (victims : list Placement) : bool :=
  fits_within (pp_resources pod)
    (foldl (λ available v, add available (pl_resources v)) (ni_available node) victims).

(** A plan for a node: the shortest run of candidates that makes room. *)
Definition plan_for (node : NodeInfo) (plan : PreemptionPlan) : Prop :=
  passes_taint_filter (pp_tolerations pod) (ni_taints node) = true ∧
  plan_node_id plan = ni_node_id node ∧
  ∃ k, plan_victims plan = take k (candidates pod state wp node) ∧
    makes_room node (plan_victims plan) = true ∧
    ∀ j, (j < k)%nat → makes_room node (take j (candidates pod state wp node)) = false.

Lemma take_victims_spec cands av vs :
  ∃ k, take_victims pod av vs cands =
      (foldl (λ a v, add a (pl_resources v)) av (take k cands), vs ++ take k cands) ∧
    (∀ j, (j < k)%nat → fits_within (pp_resources pod)
      (foldl (λ a v, add a (pl_resources v)) av (take j cands)) = false) ∧
    (k = length cands ∨
     fits_within (pp_resources pod) (foldl (λ a v, add a (pl_resources v)) av (take k cands)) = true).
Proof.
  revert av vs. induction cands as [|c cands IH]; intros av vs; cbn.
  { exists 0%nat. cbn. rewrite app_nil_r. split_and!; [done|lia|by left]. }
  destruct (fits_within (pp_resources pod) av) eqn:E.
  { exists 0%nat. cbn. rewrite app_nil_r. split_and!; [done|lia|by right]. }
  destruct (IH (add av (pl_resources c)) (vs ++ [c])) as (k & -> & Hj & Hk).
  exists (S k). cbn. rewrite <- app_assoc. split_and!; [done| |].
  - intros [|j] Hlt; [done|]. cbn. apply Hj. lia.
  - destruct Hk as [->|Hk]; [by left|by right].
Qed.

Lemma node_plan_some node plan :
  node_plan pod state wp node = Some plan → plan_for node plan.
Proof.
  unfold node_plan, plan_for, makes_room.
  destruct (passes_taint_filter _ _); cbn; [|done].
  destruct (take_victims_spec (candidates pod state wp node) (ni_available node) [])
    as (k & -> & Hj & _).
  destruct (fits_within _ _) eqn:E; cbn; [|done]. intros [= <-]. cbn. eauto 6.
Qed.

Lemma node_plan_none node :
  node_plan pod state wp node = None →
  passes_taint_filter (pp_tolerations pod) (ni_taints node) = true →
  ∀ k, makes_room node (take k (candidates pod state wp node)) = false.
Proof.
  unfold node_plan, makes_room. intros H Ht k. rewrite Ht in H. cbn in H.
  destruct (take_victims_spec (candidates pod state wp node) (ni_available node) [])
    as (k' & E & Hj & Hk). rewrite E in H.
  destruct (fits_within _ _) eqn:Ef; cbn in H; [done|]. destruct Hk as [->|]; [|done].
  destruct (decide (k < length (candidates pod state wp node))%nat) as [Hlt|Hge]; [by apply Hj|].
  rewrite (take_ge _ k) by lia. by rewrite take_ge in Ef.
Qed.

(** A node has one plan at most. *)
Lemma plan_for_unique node p1 p2 : plan_for node p1 → plan_for node p2 → p1 = p2.
Proof.
  intros (_ & Hn1 & k1 & Hv1 & Hr1 & Hs1) (_ & Hn2 & k2 & Hv2 & Hr2 & Hs2).
  assert (k1 = k2) as ->.
  { destruct (lt_eq_lt_dec k1 k2) as [[H|]|H]; [|done|].
    - apply Hs2 in H. congruence.
    - apply Hs1 in H. congruence. }
  destruct p1, p2. cbn in *. congruence.
Qed.

Lemma plan_order_orders : orders (plan_order wp).
Proof.
  pose proof (orders_Z_then (λ p, Z.of_nat (length (plan_victims p)))
    (λ x y, then_with (Z.compare (priority_sum wp x) (priority_sum wp y))
      (String.compare (spiffe_to_string (plan_node_id x)) (spiffe_to_string (plan_node_id y))))) as H.
  assert (orders (λ x y : PreemptionPlan, then_with (Z.compare (priority_sum wp x) (priority_sum wp y))
      (String.compare (spiffe_to_string (plan_node_id x)) (spiffe_to_string (plan_node_id y))))) as H'.
  { apply (orders_Z_then (priority_sum wp)).
    apply (orders_map (λ p, spiffe_to_string (plan_node_id p)) String.compare), orders_string. }
  specialize (H H'). destruct H as [H1 H2]. split.
  - intros x y. specialize (H1 x y). by rewrite !Nat2Z.inj_compare in H1.
  - intros x y z. specialize (H2 x y z). by rewrite !Nat2Z.inj_compare in H2.
Qed.

Lemma victim_order_orders : orders (victim_order wp).
Proof.
  apply (orders_Z_then wp), (orders_map pl_pod_id String.compare), orders_string.
Qed.

(** Candidates run in order of priority: nobody is spared for a pod that counts less. *)
Lemma candidates_prefix node k v p :
  v ∈ take k (candidates pod state wp node) → p ∈ drop k (candidates pod state wp node) →
  wp v ≤ wp p.
Proof.
  intros Hv Hp. pose proof (sort_by_sorted (victim_order wp)
    (filter (λ p, wp p < pp_priority pod) (placements_on_node state (ni_node_id node)))
    victim_order_orders) as Hs. fold (candidates pod state wp node) in Hs.
  rewrite <- (take_drop k (candidates pod state wp node)) in Hs.
  apply StronglySorted_app in Hs as (Hs & _ & _). specialize (Hs v p Hv Hp).
  unfold victim_order in Hs. destruct (Z.compare_spec (wp v) (wp p)); [lia..|done].
Qed.

Lemma elem_of_candidates node p :
  p ∈ candidates pod state wp node ↔
  p ∈ cs_placements state ∧ pl_node_id p = ni_node_id node ∧ wp p < pp_priority pod.
Proof.
  unfold candidates, placements_on_node. rewrite sort_by_perm, !list_elem_of_filter. naive_solver.
Qed.
End PreemptionFacts.

(** ** Properties *)
Section PreemptionProperties.
Context `{C : Core}.

(** Where a plan was found, it is that of a schedulable node, and no node's plan
    comes before it; where none was, no schedulable node has one. *)
Lemma find_preemption_plan_spec pod state wp :
  match find_preemption_plan pod state wp with
  | Some plan =>
      (∃ node, node ∈ schedulable_nodes state ∧ plan_for pod state wp node plan) ∧
      ∀ node' plan', node' ∈ schedulable_nodes state → plan_for pod state wp node' plan' →
        plan_order wp plan plan' ≠ Gt
  | None => ∀ node, node ∈ schedulable_nodes state → node_plan pod state wp node = None
  end.
Proof.
  pose proof (foldl_least (plan_order wp) (node_plan pod state wp) (schedulable_nodes state)
    (plan_order_orders wp)) as H.
  fold (find_preemption_plan pod state wp) in H.
  destruct (find_preemption_plan pod state wp) as [plan|]; [|done].
  destruct H as [(node & Hn & Hp) Hmin]. split.
  - exists node. split; [done|]. by apply node_plan_some.
  - intros node' plan' Hn' Hp'. apply (Hmin node'); [done|].
    destruct (node_plan pod state wp node') as [q|] eqn:E.
    + f_equal. by eapply plan_for_unique; [apply node_plan_some|].
    + destruct Hp' as (Ht & _ & k & Hk & Hr & _). rewrite Hk in Hr.
      rewrite (node_plan_none pod state wp node' E Ht k) in Hr. done.
Qed.


Lemma schedule_err_filter sch pod state e :
  schedule sch pod state = Err e → filter_nodes sch pod state = [].
Proof.
  unfold schedule. destruct (filter_nodes sch pod state) as [|n l]; [done|]. intros H. exfalso.
  assert (score_nodes sch pod (n :: l) state ≡ₚ
    (λ node, (score_node sch pod state node, node)) <$> (n :: l)) as Hp by apply sort_by_perm.
  destruct (score_nodes sch pod (n :: l) state) as [|[b best] rest]; [|done].
  by apply Permutation_nil_l in Hp.
Qed.

(** Preemption does not consult anti-affinity: when scheduling fails although a
    schedulable, tolerated node has room for the pod (so that only anti-affinity
    stood in the way), the analysis returns a plan without victims for a node on
    which the pod violates anti-affinity. *)
Theorem preemption_ignores_anti_affinity sch pod state wp e node :
  schedule sch pod state = Err e → node ∈ schedulable_nodes state →
  passes_taint_filter (pp_tolerations pod) (ni_taints node) = true →
  fits_within (pp_resources pod) (ni_available node) = true →
  ∃ plan node', find_preemption_plan pod state wp = Some plan ∧ plan_victims plan = [] ∧
    node' ∈ schedulable_nodes state ∧ plan_node_id plan = ni_node_id node' ∧
    check_anti_affinity pod node' state (anti_affinity_config sch) = false.
Proof.
  intros He Hn Ht Hf. pose proof (find_preemption_plan_spec pod state wp) as H.
  assert (plan_for pod state wp node {| plan_node_id := ni_node_id node; plan_victims := [] |}) as Hp0.
  { split_and!; [done..|]. exists 0%nat. split_and!; [done..|lia]. }
  destruct (find_preemption_plan pod state wp) as [plan|].
  2:{ pose proof (node_plan_none _ _ _ _ (H _ Hn) Ht 0) as Hz.
      change (fits_within (pp_resources pod) (ni_available node) = false) in Hz. congruence. }
  destruct H as [(node' & Hn' & Hp) Hmin]. exists plan, node'.
  assert (plan_victims plan = []) as Hv.
  { pose proof (Hmin _ _ Hn Hp0) as Hc. unfold plan_order in Hc. cbn in Hc.
    by destruct (plan_victims plan). }
  destruct Hp as (Ht' & Hid & k & _ & Hr & _). rewrite Hv in Hr.
  change (fits_within (pp_resources pod) (ni_available node') = true) in Hr.
  split_and!; [done..|]. apply schedule_err_filter in He.
  destruct (check_anti_affinity pod node' state _) eqn:E; [|done]. exfalso.
  assert (node' ∈ filter_nodes sch pod state) as Hin.
  { apply list_elem_of_filter. split; [|done]. unfold passes_filters. by rewrite Hr, E, Ht'. }
  rewrite He in Hin. by apply not_elem_of_nil in Hin.
Qed.
End PreemptionProperties.

(** ** Witnesses *)
Import DemoInstances.

Definition demo_place (pod service role node : string) (cpu : Z) : Placement := {|
  pl_pod_id := pod; pl_tenant_id := "acme"; pl_service := service; pl_role := role;
  pl_ordinal := 0; pl_node_id := node;
  pl_resources := {| cpu_millicores := cpu; memory_bytes := 1000 |} |}.
Definition demo_pending (service role : string) (cpu priority : Z) : PendingPod := {|
  pp_pod_id := service +:+ "-" +:+ role +:+ "-1"; pp_tenant_id := "acme"; pp_service := service;
  pp_role := role; pp_ordinal := 1;
  pp_resources := {| cpu_millicores := cpu; memory_bytes := 1000 |};
  pp_previous_node := None; pp_priority := priority; pp_tolerations := [] |}.

(** One node, with a replica of the service on it. *)
Definition replica_cluster : ClusterState :=
  ClusterState_build [demo_node "spiffe://n1"] [demo_place "db-replica-0" "db" "replica" "n1" 500] ∅.

Definition no_node : NodeInfo := {|
  ni_node_id := ("" : @SpiffeId demo_core); ni_capacity := ResourceSpec_zero;
  ni_available := ResourceSpec_zero; ni_failure_domain := ""; ni_schedulable := false;
  ni_pod_count := 0; ni_taints := [] |}.
Definition replica_node : NodeInfo := default no_node (head (schedulable_nodes replica_cluster)).

Lemma preemption_ignores_anti_affinity_witness :
  ∃ plan node', find_preemption_plan (demo_pending "db" "replica" 500 7) replica_cluster (λ _, 0) = Some plan ∧
    plan_victims plan = [] ∧ node' ∈ schedulable_nodes replica_cluster ∧
    plan_node_id plan = ni_node_id node' ∧
    check_anti_affinity (demo_pending "db" "replica" 500 7) node' replica_cluster
      (anti_affinity_config DefaultScheduler_new) = false.
Proof.
  destruct (schedule DefaultScheduler_new (demo_pending "db" "replica" 500 7) replica_cluster)
    as [d|e] eqn:E.
  - assert (isSome (ok (schedule DefaultScheduler_new (demo_pending "db" "replica" 500 7)
      replica_cluster)) = false) as H by vm_refl. rewrite E in H. discriminate H.
  - eapply (preemption_ignores_anti_affinity DefaultScheduler_new _ _ _ _ replica_node E).
    + apply head_Some_elem_of, isSome_default. vm_refl.
    + vm_refl.
    + vm_refl.
Defined.

(** The best plan is documented as the one with the fewest victims. Victims of one
    node are taken in the order of their priority until the pod fits, so two are
    evicted here where the second one alone would make room. *)
Definition crowded_cluster : ClusterState :=
  ClusterState_build [demo_node "spiffe://n1"]
    [demo_place "small-primary-0" "small" "primary" "n1" 500;
     demo_place "large-primary-0" "large" "primary" "n1" 3500] ∅.
Definition crowded_priority (p : Placement) : Z := if decide (pl_service p = "small") then 1 else 2.

Lemma preemption_not_fewest :
  (λ plan, pl_pod_id <$> plan_victims plan) <$>
    find_preemption_plan (demo_pending "web" "primary" 3000 7) crowded_cluster crowded_priority =
    Some ["small-primary-0"; "large-primary-0"] ∧
  ∀ node, node ∈ cs_nodes crowded_cluster →
    makes_room (demo_pending "web" "primary" 3000 7) node
      [demo_place "large-primary-0" "large" "primary" "n1" 3500] = true.
Proof.
  split; [vm_refl|]. intros node Hn.
  assert (forallb (λ node, makes_room (demo_pending "web" "primary" 3000 7) node
    [demo_place "large-primary-0" "large" "primary" "n1" 3500]) (cs_nodes crowded_cluster) = true)
    as H by vm_refl.
  by apply (proj1 (forallb_forall _ _) H), list_elem_of_In.
Qed.
