(* ===== verification/Engine.v ===== *)
(** * Engine: the read paths of the storage engine

    Models the lookups and listings of [StorageEngine] ([src/storage/engine.rs])
    that services and controllers use, and those of [OrdinalTracker]
    ([src/scheduler/ordinal.rs]). A record that does not decode is an error for a
    lookup and is skipped by a listing. *)

From S2P Require Import Prelude.
From S2P Require Import Storage.
From S2P Require Import Core.
From S2P Require Import Records.
From S2P Require Import Schema.
From S2P Require Import Expansion.
From S2P Require Import Watch.
From S2P Require Import Acl.
From S2P Require Import StateMachine.

Section Engine.
Context `{F : Fjall} `{C : Core} `{W : !Wire C}.

(** [storage::StorageError], as far as reads return it. *)
Inductive StorageError : Type :=
| StorageIo (e : IoError)
| StorageSerialization
| StorageNotFound (what : string).

(** The shape all lookups share, and that of all listings. *)
Definition get_record {A} `{Postcard A} (db : Db) (ks : Keyspace) (key : bytes) :
    result StorageError (option A) :=
  r ← map_err StorageIo (get db ks key);
  match r with
  | Some b => record ← ok_or StorageSerialization (from_bytes b); Ok (Some record)
  | None => Ok None
  end.

Definition list_records {A} `{Postcard A} (db : Db) (ks : Keyspace) (p : bytes) :
    result StorageError (list A) :=
  foldM (λ records guard,
    '(_, value) ← map_err StorageIo guard;
    Ok (match from_bytes value with
        | Some record => records ++ [record]
        | None => records
        end)) (prefix db ks p) [].

Definition get_tenant (db : Db) (tenant_id : string) : result StorageError (option TenantRecord) :=
  get_record db ks_tenants tenant_id.
Definition list_tenants (db : Db) : result StorageError (list TenantRecord) :=
  list_records db ks_tenants "".
Definition get_workload_spec (db : Db) (tenant_id workload_id : string) :
    result StorageError (option bytes) :=
  map_err StorageIo (get db ks_workloads (pair_key tenant_id workload_id)).
Definition list_workloads (db : Db) : result StorageError (list WorkloadSpecRecord) :=
  list_records db ks_workloads "".
Definition list_cron_workloads (db : Db) : result StorageError (list CronWorkloadRecord) :=
  list_records db ks_workloads "cron:".
Definition list_node_records (db : Db) : result StorageError (list NodeRecord) :=
  list_records db ks_nodes "".
Definition get_placement (db : Db) (pod_id : string) : result StorageError (option Placement) :=
  get_record db ks_placements pod_id.
Definition list_placements (db : Db) : result StorageError (list Placement) :=
  list_records db ks_placements "".
Definition get_placements_for_node (db : Db) (node_id : SpiffeId) :
    result StorageError (list Placement) :=
  all ← list_placements db;
  Ok (filter (λ p, pl_node_id p = node_id) all).
Definition get_node_pool (db : Db) (pool_id : string) : result StorageError (option NodePoolRecord) :=
  get_record db ks_node_pools pool_id.
Definition list_node_pools (db : Db) : result StorageError (list NodePoolRecord) :=
  list_records db ks_node_pools "".
Definition get_workload_status (db : Db) (pod_id : string) :
    result StorageError (option WorkloadStatusRecord) :=
  get_record db ks_workload_status pod_id.
Definition get_tenant_quota (db : Db) (tenant_id : string) :
    result StorageError (option TenantQuotaRecord) :=
  get_record db ks_tenant_quotas tenant_id.
Definition get_vpa_recommendation (db : Db) (tenant_id workload_id : string) :
    result StorageError (option VpaRecommendationRecord) :=
  get_record db ks_vpa_recommendations (pair_key tenant_id workload_id).

(** [spec.replicas.values().map(|&c| c as u64).sum()]. *)
Definition total_replicas (spec : WorkloadSpec) : Z :=
  foldl (λ acc kv, wrap_u64 (acc + kv.2)) 0 (hash_iter (ws_replicas spec)).

(** What one workload of a tenant uses: CPU millicores and memory bytes. *)
Definition workload_usage (spec : WorkloadSpec) : Z * Z :=
  let resources := ps ← ws_pod_spec spec; ps_resources ps in
  let cpu_per_pod := default 0 ((λ r, wrap_u64 (rr_vcpus r * 1000)) <$> resources) in
  let mem_per_pod := default 0 ((λ r, wrap_u64 (rr_memory_mb r * 1024 * 1024)) <$> resources) in
  (wrap_u64 (cpu_per_pod * total_replicas spec), wrap_u64 (mem_per_pod * total_replicas spec)).

(** [compute_tenant_usage]: [(total_cpu_millicores, total_memory_bytes, workload_count)]. *)
Definition compute_tenant_usage (db : Db) (tenant_id : string) :
    result StorageError (Z * Z * Z) :=
  foldM (λ '(total_cpu, total_memory, workload_count) guard,
    '(_, value) ← map_err StorageIo guard;
    Ok (match from_bytes value : option WorkloadSpecRecord with
        | None => (total_cpu, total_memory, workload_count)
        | Some record =>
            if decide (wsr_tenant_id record = tenant_id) then
              let workload_count := wrap_u32 (workload_count + 1) in
              match decode (wsr_spec_bytes record) : option WorkloadSpec with
              | Some spec =>
                  let '(cpu, mem) := workload_usage spec in
                  (wrap_u64 (total_cpu + cpu), wrap_u64 (total_memory + mem), workload_count)
              | None => (total_cpu, total_memory, workload_count)
              end
            else (total_cpu, total_memory, workload_count)
        end)) (prefix db ks_workloads "") (0, 0, 0).

(** ** [OrdinalTracker] *)
Definition get_assignment (db : Db) (tenant_id service role : string) (ordinal : Z) :
    result StorageError (option OrdinalAssignment) :=
  get_record db ks_ordinals (ordinal_key tenant_id service role ordinal).

Definition get_assignments_for_service_role (db : Db) (tenant_id service role : string) :
    result StorageError (list OrdinalAssignment) :=
  assignments ← list_records db ks_ordinals
    (tenant_id +:+ ":" +:+ service +:+ ":" +:+ role +:+ ":");
  Ok (sort_by (λ a b, Z.compare (oa_ordinal a) (oa_ordinal b)) assignments).
End Engine.

(** ** Facts *)
Section EngineFacts.
Context `{F : Fjall} `{C : Core} `{W : !Wire C} `{!FjallSpec F}.

Lemma get_record_ok {A} `{Postcard A} (db : Db) ks key (o : option A) :
  get_record db ks key = Ok o →
  match contents db !! (ks, key) with
  | Some v => from_bytes v = o ∧ is_Some o
  | None => o = None
  end.
Proof.
  unfold get_record. intros H0. apply bind_ok in H0 as (r & Hr & H0).
  destruct (get db ks key) as [r'|] eqn:E; [|done]. injection Hr as <-.
  apply get_spec in E as <-. destruct r' as [v|]; [|by ok_inv].
  apply bind_ok in H0 as (a & Ha & H0). ok_inv. destruct (from_bytes v) as [a'|]; [|done].
  injection Ha as ->. split; [done|by eexists].
Qed.

Lemma list_records_ok {A} `{Postcard A} (db : Db) ks p (l : list A) :
  list_records db ks p = Ok l →
  l = omap (λ kv, from_bytes kv.2) (scan (contents db) ks p).
Proof.
  unfold list_records. intros H0.
  assert (∀ gs sc acc, Forall2 (λ r kv, ∀ x : bytes * bytes, r = Ok x → x = kv) gs sc →
    foldM (λ records guard, '(_, value) ← map_err StorageIo guard;
      Ok (match from_bytes value with Some record => records ++ [record] | None => records end))
      gs acc = Ok l → l = acc ++ omap (λ kv, from_bytes kv.2) sc) as Hg.
  { intros gs sc acc HF. revert acc. induction HF as [|g kv gs sc Hg HF IH]; intros acc Hl; cbn in Hl.
    - ok_inv. by rewrite app_nil_r.
    - apply bind_ok in Hl as (acc' & Ha & Hl). destruct g as [[k v]|]; [|done]. cbn in Ha.
      injection Ha as <-. rewrite (IH _ Hl). rewrite <- (Hg _ eq_refl). cbn.
      destruct (from_bytes v); [by rewrite <- app_assoc|done]. }
  apply (Hg _ _ [] (prefix_spec db ks p) H0).
Qed.
End EngineFacts.
