(* ===== verification/Disruption.v ===== *)
(** * Disruption: the disruption budget guard

    Models [src/disruption/mod.rs]: the [DisruptionGuard] trait as a class, the no-op
    guard, the budget-backed guard and the resolution of a budget. *)

From S2P Require Import Prelude.
From S2P Require Import Storage.
From S2P Require Import Core.
From S2P Require Import Records.
From S2P Require Import WireInstance.
From S2P Require Import Schema.
From S2P Require Import Expansion.
From S2P Require Import Watch.
From S2P Require Import Acl.
From S2P Require Import StateMachine.
From S2P Require Import Apply.
From S2P Require Import Invariant.
From S2P Require Import Demo.
From S2P Require Import Engine.

Inductive DisruptionTarget : Set := Eviction | ScaleDown | Delete | VerticalResize.

Record DisruptionDenied : Type := {
  den_min_available : Z;
  den_current_healthy : Z;
  den_requested : Z;
  den_forced : bool
}.
Definition deny (min_available current_healthy requested : Z) : DisruptionDenied := {|
  den_min_available := min_available; den_current_healthy := current_healthy;
  den_requested := requested; den_forced := false |}.

(** The trait: may [count] pods of a role be disrupted? The typed tenant and role
    are the strings that [TenantId] and [WorkloadRole] accepted. *)
Class DisruptionGuard `{F : Fjall} : Type :=
  allow_disruption : Db → string → string → string → Z → DisruptionTarget →
    result DisruptionDenied ().

Definition NoopDisruptionGuard `{F : Fjall} : DisruptionGuard := λ _ _ _ _ _ _, Ok ().

(** [resolve_min_available]; the products are computed in [u64]. *)
Definition resolve_min_available (budget : DisruptionBudget) (desired : Z) : option Z :=
  policy ← db_policy budget;
  match policy with
  | MinAvailable v =>
      v ← v;
      match v with
      | Count c => Some c
      | Percent p => if 100 <? p then None else Some (wrap_u32 ((desired * p + 99) / 100))
      end
  | MaxUnavailable v =>
      v ← v;
      max_unavailable ←
        match v with
        | Count c => Some c
        | Percent p => if 100 <? p then None else Some (wrap_u32 (desired * p / 100))
        end;
      Some (saturating_sub desired max_unavailable)
  end.

Section Guard.
Context `{F : Fjall} `{C : Core} `{W : !Wire C}.

Definition of_role (tenant workload role : string) (p : Placement) : Prop :=
  pl_tenant_id p = tenant ∧ pl_service p = workload ∧ pl_role p = role.
#[export] Instance of_role_dec t w r p : Decision (of_role t w r p).
Proof. unfold of_role. apply _. Defined.

Definition count_placed (db : Db) (tenant workload role : string) : result DisruptionDenied Z :=
  placements ← map_err (λ _, deny 0 0 0) (list_placements db);
  Ok (wrap_u32 (Z.of_nat (length (filter (of_role tenant workload role) placements)))).

Definition BudgetBackedDisruptionGuard : DisruptionGuard := λ db tenant workload role count _,
  raw ← map_err (λ _, deny 0 0 count) (get_workload_spec db tenant workload);
  match raw with
  | None => Ok ()
  | Some raw =>
      spec ← ok_or (deny 0 0 count) (decode raw : option WorkloadSpec);
      match ws_budgets spec !! role with
      | None => Ok ()
      | Some budget =>
          if negb (isSome (db_policy budget)) then Ok ()
          else
            let desired := default 0 (ws_replicas spec !! role) in
            min_available ← ok_or (deny 0 0 count) (resolve_min_available budget desired);
            current_healthy ← count_placed db tenant workload role;
            if saturating_sub current_healthy count <? min_available
            then Err (deny min_available current_healthy count)
            else Ok ()
      end
  end.
End Guard.

(** ** Resolution of a budget *)

(** What a budget asks for, as a relation between the role's replicas and the number
    that must stay: a share rounds in favour of availability. *)
Definition budget_requires (budget : DisruptionBudget) (desired m : Z) : Prop :=
  match db_policy budget with
  | Some (MinAvailable (Some (Count c))) => m = c
  | Some (MinAvailable (Some (Percent p))) =>
      p ≤ 100 ∧ desired * p ≤ 100 * m < desired * p + 100
  | Some (MaxUnavailable (Some (Count c))) => m = Z.max 0 (desired - c)
  | Some (MaxUnavailable (Some (Percent p))) =>
      p ≤ 100 ∧ desired * (100 - p) ≤ 100 * m < desired * (100 - p) + 100
  | _ => False
  end.

(** The numbers of a budget, as [u32]s. *)
Definition budget_u32 (budget : DisruptionBudget) : Prop :=
  match db_policy budget with
  | Some (MinAvailable (Some (Count x | Percent x)))
  | Some (MaxUnavailable (Some (Count x | Percent x))) => is_u32 x
  | _ => True
  end.

Lemma resolve_min_available_spec budget desired m :
  budget_u32 budget → is_u32 desired →
  resolve_min_available budget desired = Some m ↔ budget_requires budget desired m.
Proof.
  unfold resolve_min_available, budget_requires, budget_u32, is_u32.
  destruct (db_policy budget) as [[[[c|p]|]|[[c|p]|]]|]; cbn; intros Hb Hd; try (by split).
  - split; [by intros [= ->]|by intros ->].
  - destruct (Z.ltb_spec 100 p); [split; [done|lia]|].
    assert (0 ≤ (desired * p + 99) / 100 < 2 ^ 32) as Hr.
    { split; [apply Z.div_pos; nia|apply Z.div_lt_upper_bound; nia]. }
    rewrite wrap_u32_small by done.
    pose proof (Z.div_mod (desired * p + 99) 100 ltac:(lia)).
    pose proof (Z.mod_pos_bound (desired * p + 99) 100 ltac:(lia)).
    split; [intros [= <-]; lia|]. intros [_ Hm]. f_equal. lia.
  - unfold saturating_sub. split; [by intros [= <-]|by intros ->].
  - destruct (Z.ltb_spec 100 p); cbn; [split; [done|lia]|].
    assert (0 ≤ desired * p / 100 < 2 ^ 32) as Hr.
    { split; [apply Z.div_pos; nia|apply Z.div_lt_upper_bound; nia]. }
    rewrite wrap_u32_small by done. unfold saturating_sub.
    pose proof (Z.div_mod (desired * p) 100 ltac:(lia)).
    pose proof (Z.mod_pos_bound (desired * p) 100 ltac:(lia)).
    assert (desired * p / 100 ≤ desired) by (apply Z.div_le_upper_bound; nia).
    split; [intros [= <-]; lia|]. intros [_ Hm]. f_equal. lia.
Qed.

(** ** The guard's decision *)
Section GuardFacts.
Context `{F : Fjall} `{C : Core} `{W : !Wire C} `{!FjallSpec F} `{!FjallReliable F}.

(** The placements of a role in a state. *)
Definition placed_of_role (st : store) (tenant workload role : string) : Z :=
  Z.of_nat (length (filter (of_role tenant workload role)
    (omap (λ kv, (from_bytes kv.2 : option Placement)) (scan st ks_placements "")))).

Lemma list_placements_reliable (db : Db) :
  list_placements db =
    Ok (omap (λ kv, (from_bytes kv.2 : option Placement)) (scan (contents db) ks_placements "")).
Proof.
  unfold list_placements, list_records. rewrite prefix_eq.
  assert (∀ l acc, foldM (λ records guard,
      '(_, value) ← map_err StorageIo guard;
      Ok (match from_bytes value with
          | Some record => records ++ [record] | None => records end)) (Ok <$> l) acc =
    Ok (acc ++ omap (λ kv : bytes * bytes, (from_bytes kv.2 : option Placement)) l)) as H;
    [|by rewrite H].
  induction l as [|[k v] l IH]; intros acc; cbn; [by rewrite app_nil_r|].
  rewrite IH. destruct (from_bytes v); [by rewrite <- app_assoc|done].
Qed.

(** What the budget-backed guard allows: a disruption is allowed exactly when
    the workload is unknown, or its bytes decode to a spec in which the role has no
    budget (or an empty one), or the pods of the role that stay placed are at least
    those the budget requires; a percentage of the replicas is rounded in favour of
    availability, and a budget that cannot be resolved allows nothing. *)
Theorem budget_guard_exact (db : Db) tenant workload role count target :
  (∀ raw spec budget, contents db !! (ks_workloads, pair_key tenant workload) = Some raw →
    decode raw = Some spec → ws_budgets spec !! role = Some budget →
    budget_u32 budget ∧ is_u32 (default 0 (ws_replicas spec !! role))) →
  placed_of_role (contents db) tenant workload role < 2 ^ 32 →
  BudgetBackedDisruptionGuard db tenant workload role count target = Ok () ↔
  match contents db !! (ks_workloads, pair_key tenant workload) with
  | None => True
  | Some raw =>
      ∃ spec, decode raw = Some spec ∧
        match ws_budgets spec !! role with
        | None => True
        | Some budget =>
            db_policy budget = None ∨
            ∃ m, budget_requires budget (default 0 (ws_replicas spec !! role)) m ∧
              m ≤ Z.max 0 (placed_of_role (contents db) tenant workload role - count)
        end
  end.
Proof.
  intros Hu Hn. unfold BudgetBackedDisruptionGuard, get_workload_spec. rewrite get_eq.
  cbn [map_err mbind result_bind].
  destruct (contents db !! (ks_workloads, pair_key tenant workload)) as [raw|] eqn:Er; [|done].
  specialize (Hu raw). destruct (decode raw) as [spec|] eqn:Ed; cbn [ok_or mbind result_bind];
    [|by split; [|intros (? & ? & _)]].
  specialize (Hu spec). destruct (ws_budgets spec !! role) as [budget|] eqn:Eb;
    [|split; [by exists spec; rewrite Eb|done]].
  destruct (Hu budget eq_refl eq_refl eq_refl) as [Hb Hd].
  pose proof (λ m, resolve_min_available_spec budget _ m Hb Hd) as Hres.
  destruct (db_policy budget) as [pol|] eqn:Epol; cbn [isSome negb].
  2:{ split; [|done]. intros _. exists spec. split; [done|]. rewrite Eb. by left. }
  assert (placed_of_role (contents db) tenant workload role = wrap_u32
    (placed_of_role (contents db) tenant workload role)) as Hwrap.
  { symmetry. apply wrap_u32_small. unfold is_u32, placed_of_role in *. lia. }
  unfold count_placed. rewrite list_placements_reliable. cbn [map_err mbind result_bind].
  fold (placed_of_role (contents db) tenant workload role). rewrite <- Hwrap.
  destruct (resolve_min_available budget _) as [m|] eqn:Em; cbn [ok_or mbind result_bind].
  - unfold saturating_sub. destruct (Z.ltb_spec
      (Z.max 0 (placed_of_role (contents db) tenant workload role - count)) m) as [Hlt|Hle].
    + split; [done|]. intros (spec' & [= <-] & Hx). rewrite Eb in Hx.
      destruct Hx as [|(m' & Hm' & Hle)]; [congruence|]. apply Hres in Hm'. injection Hm' as ->. lia.
    + split; [|done]. intros _. exists spec. split; [done|]. rewrite Eb. right. exists m.
      split; [by apply Hres|done].
  - split; [done|]. intros (spec' & [= <-] & Hx). rewrite Eb in Hx.
    destruct Hx as [|(m' & Hm' & Hle)]; [congruence|]. by apply Hres in Hm'.
Qed.
End GuardFacts.

(** ** Witnesses *)
Import DemoInstances.

(** A workload of two replicas of which 75 percent, so both, must stay. *)
Definition budget_spec : WorkloadSpec := {|
  ws_tenant_id := "acme"; ws_workload_id := "web"; ws_image := "web:1";
  ws_replicas := {["primary" := 2]}; ws_pod_spec := None; ws_autoscaling := None;
  ws_vertical_autoscaling := None;
  ws_budgets := {["primary" := {| db_policy := Some (MinAvailable (Some (Percent 75))) |}]};
  ws_placement := 0; ws_rest := tt |}.
Definition budget_db : @Db MemFjall.mem_fjall :=
  <[(ks_workloads, pair_key "acme" "web") := encode_to_vec budget_spec]> (contents (sm_db demo_sm)).

Lemma mem_insert_lookup (st : store) key v :
  contents (<[key := v]> st : @Db MemFjall.mem_fjall) !! key = Some v.
Proof. apply lookup_insert_eq. Qed.
Lemma budget_db_raw :
  contents budget_db !! (ks_workloads, pair_key "acme" "web") = Some (encode_to_vec budget_spec).
Proof. exact (mem_insert_lookup _ _ _). Qed.
Lemma budget_db_spec raw spec :
  contents budget_db !! (ks_workloads, pair_key "acme" "web") = Some raw →
  decode raw = Some spec → spec = budget_spec.
Proof.
  intros Hr Hs. rewrite budget_db_raw in Hr. apply (inj Some) in Hr. rewrite <- Hr in Hs.
  pose proof (decode_encode budget_spec) as Hd. exact (inj Some _ _ (eq_trans (eq_sym Hs) Hd)).
Qed.

Lemma budget_guard_exact_witness :
  isSome (ok (BudgetBackedDisruptionGuard budget_db "acme" "web" "primary" 1 ScaleDown)) = false.
Proof.
  destruct (BudgetBackedDisruptionGuard budget_db "acme" "web" "primary" 1 ScaleDown) as [[]|] eqn:H;
    [exfalso|done]. apply budget_guard_exact in H.
  - destruct (contents budget_db !! (ks_workloads, pair_key "acme" "web")) as [raw|] eqn:Er.
    + destruct H as (spec & Hs & H). rewrite (budget_db_spec raw spec Er Hs) in H.
      destruct H as [H|(m & [_ [Hm _]] & Hle)]; [discriminate H|].
      assert (placed_of_role (contents budget_db) "acme" "web" "primary" = 2) as E by vm_refl.
      assert (default 0 (ws_replicas budget_spec !! "primary") = 2) as E2 by vm_refl.
      rewrite E in Hle. rewrite E2 in Hm. lia.
    + assert (isSome (contents budget_db !! (ks_workloads, pair_key "acme" "web")) = true) as E
        by vm_refl. rewrite Er in E. discriminate E.
  - intros raw spec budget Hr Hs Hb. rewrite (budget_db_spec raw spec Hr Hs) in Hb |- *.
    injection Hb as <-. split; split; done.
  - assert (placed_of_role (contents budget_db) "acme" "web" "primary" = 2) as -> by vm_refl. done.
Defined.

(** The guard decodes the bytes of the workload keyspace as a [WorkloadSpec]. They
    hold a [WorkloadSpecRecord], and the spec is one of its fields: the guard denies
    every disruption of a submitted workload, one without budgets and without pods
    to disrupt included. *)
Definition free_spec : WorkloadSpec := {|
  ws_tenant_id := "acme"; ws_workload_id := "free"; ws_image := "web:1";
  ws_replicas := {["primary" := 2]}; ws_pod_spec := None; ws_autoscaling := None;
  ws_vertical_autoscaling := None; ws_budgets := ∅; ws_placement := 0; ws_rest := tt |}.
Definition submitted_sm : FjallStateMachine :=
  (apply_entry demo_sm (demo_entry 7 (SubmitWorkloadSpec {|
    wsr_tenant_id := "acme"; wsr_workload_id := "free";
    wsr_spec_bytes := encode_to_vec free_spec; wsr_last_applied_bytes := "" |}))).1.
Lemma guard_denies_submitted_workload :
  isSome (ok (BudgetBackedDisruptionGuard (sm_db submitted_sm) "acme" "free" "primary" 0 Delete))
    = false.
Proof. vm_refl. Qed.
