(* ===== verification/DummyIp.v ===== *)
(** * DummyIp: the dummy address allocator

    Models [src/dummy_ip/allocator.rs]: a block of [240.0.0.0/4] per tenant and an
    address of the block per [(service, role)]. The allocator only computes; the
    blocks and addresses are stored by commands. *)

From S2P Require Import Prelude.
From S2P Require Import Storage.
From S2P Require Import Core.
From S2P Require Import Records.
From S2P Require Import WireInstance.
From S2P Require Import Schema.
From S2P Require Import Expansion.
From S2P Require Import Watch.
From S2P Require Import Acl.
From S2P Require Import StateMachine.
From S2P Require Import Apply.
From S2P Require Import Invariant.
From S2P Require Import Demo.
From S2P Require Import Frame.
From S2P Require Import Engine.

(** ** [u32] arithmetic of the allocator: shifts take their count modulo 32 *)
Definition shl_u32 (x n : Z) : Z := wrap_u32 (Z.shiftl x (n mod 32)).
Definition shr_u32 (x n : Z) : Z := Z.shiftr x (n mod 32).
Definition sub_u8 (a b : Z) : Z := (a - b) mod 256.

Definition DUMMY_SPACE_BASE : Z := 0xF0000000.
Definition DUMMY_SPACE_PREFIX : Z := 4.
Definition DEFAULT_TENANT_BLOCK_PREFIX : Z := 16.

Definition max_hosts (block : TenantBlock) : Z := shl_u32 1 (sub_u8 32 (tb_prefix block)).

Section DummyIp.
Context `{F : Fjall} `{C : Core} `{W : !Wire C}.

(** [DummyIpError]; [BlockMissing] is the panic of the [unwrap] on a tenant without
    a block. *)
Inductive DummyIpError : Type :=
| TenantSpaceExhausted
| ServiceSpaceExhausted (tenant : string)
| TenantNotFound (tenant : string)
| TenantAlreadyAllocated (tenant : string)
| InvalidPrefixLength (p : Z)
| DummyIpStorage (e : StorageError)
| BlockMissing.

(** [DummyIpAllocator]: the keyspace is read from the database of each call. *)
Record DummyIpAllocator : Type := { tenant_block_prefix : Z }.

Definition DummyIpAllocator_new (prefix : Z) : result DummyIpError DummyIpAllocator :=
  if (prefix <=? DUMMY_SPACE_PREFIX) || (32 <? prefix) then Err (InvalidPrefixLength prefix)
  else Ok {| tenant_block_prefix := prefix |}.

Definition max_tenant_blocks (al : DummyIpAllocator) : Z :=
  shl_u32 1 (sub_u8 (tenant_block_prefix al) DUMMY_SPACE_PREFIX).

Definition block_base (al : DummyIpAllocator) (block_index : Z) : Z :=
  let host_bits := sub_u8 32 (tenant_block_prefix al) in
  wrap_u32 (DUMMY_SPACE_BASE + shl_u32 block_index host_bits).

(** The index of a stored block, from its base. *)
Definition block_index (al : DummyIpAllocator) (block : TenantBlock) : Z :=
  let host_bits := sub_u8 32 (tenant_block_prefix al) in
  shr_u32 (wrap_u32 (tb_base block - DUMMY_SPACE_BASE)) host_bits.

Definition used_block_indices (al : DummyIpAllocator) (db : Db) : result DummyIpError (list Z) :=
  blocks ← map_err DummyIpStorage
    (list_records db ks_dummy_ips "tenant:" : result StorageError (list TenantBlock));
  Ok (map (block_index al) blocks).

Definition get_tenant_block (db : Db) (tenant_id : string) :
    result DummyIpError (option TenantBlock) :=
  map_err DummyIpStorage (get_record db ks_dummy_ips (tenant_block_key tenant_id)).

Definition get_service_address (db : Db) (tenant_id service role : string) :
    result DummyIpError (option ServiceAddress) :=
  map_err DummyIpStorage
    (get_record db ks_dummy_ips ("service:" +:+ tenant_id +:+ ":" +:+ service +:+ ":" +:+ role)).

(** [(0..max_blocks).find(|i| !used.contains(i))]: the loop reaches at most the
    number of used indices. *)
Fixpoint find_free (fuel : nat) (i max_blocks : Z) (used : list Z) : option Z :=
  match fuel with
  | O => None
  | S fuel =>
      if max_blocks <=? i then None
      else if decide (i ∈ used) then find_free fuel (i + 1) max_blocks used
      else Some i
  end.

Definition compute_tenant_block_allocation (al : DummyIpAllocator) (db : Db) (tenant_id : string) :
    result DummyIpError TenantBlock :=
  o ← get_tenant_block db tenant_id;
  match o with
  | Some _ => Err (TenantAlreadyAllocated tenant_id)
  | None =>
      used ← used_block_indices al db;
      let max_blocks := max_tenant_blocks al in
      index ← ok_or TenantSpaceExhausted (find_free (S (length used)) 0 max_blocks used);
      Ok {| tb_tenant_id := tenant_id; tb_base := block_base al index;
            tb_prefix := tenant_block_prefix al; tb_next_offset := 0 |}
  end.

Definition compute_service_address_allocation (db : Db) (tenant_id service role : string) :
    result DummyIpError (TenantBlock * ServiceAddress) :=
  o ← get_service_address db tenant_id service role;
  match o with
  | Some existing =>
      b ← get_tenant_block db tenant_id;
      block ← ok_or BlockMissing b;
      Ok (block, existing)
  | None =>
      b ← get_tenant_block db tenant_id;
      block ← ok_or (TenantNotFound tenant_id) b;
      if max_hosts block <=? tb_next_offset block then Err (ServiceSpaceExhausted tenant_id)
      else
        let address := wrap_u32 (tb_base block + tb_next_offset block) in
        Ok ({| tb_tenant_id := tb_tenant_id block; tb_base := tb_base block;
               tb_prefix := tb_prefix block;
               tb_next_offset := wrap_u32 (tb_next_offset block + 1) |},
            {| sa_tenant_id := tenant_id; sa_service := service; sa_role := role;
               sa_address := address |})
  end.
End DummyIp.

(** ** Facts *)

(** The search finds the least free index below the bound, if there is one. *)
Lemma length_filter_lt (P Q : Z → Prop) `{!∀ x, Decision (P x), !∀ x, Decision (Q x)} l x :
  (∀ y, Q y → P y) → x ∈ l → P x → ¬ Q x → (length (filter Q l) < length (filter P l))%nat.
Proof.
  intros HQP. induction l as [|y l IH]; [by intros ?%not_elem_of_nil|].
  assert (Hle : (length (filter Q l) ≤ length (filter P l))%nat).
  { clear IH. induction l as [|z l IH]; [done|]. rewrite !filter_cons.
    destruct (decide (Q z)) as [HQ|]; [rewrite decide_True by auto; cbn; lia|].
    case_decide; cbn; lia. }
  intros [->|Hin]%elem_of_cons HP HQ; rewrite !filter_cons.
  - rewrite decide_False, decide_True by done. cbn. lia.
  - specialize (IH Hin HP HQ). destruct (decide (Q y)); [rewrite decide_True by auto|case_decide];
      cbn; lia.
Qed.

Lemma find_free_spec fuel i max used :
  (length (filter (λ j, (i ≤ j)%Z) used) < fuel)%nat →
  match find_free fuel i max used with
  | Some k => i ≤ k < max ∧ k ∉ used
  | None => ∀ j, i ≤ j < max → j ∈ used
  end.
Proof.
  revert i. induction fuel as [|fuel IH]; intros i Hf; [lia|]. cbn.
  destruct (Z.leb_spec max i) as [Hm|Hm]; [intros j ?; lia|].
  case_decide as Hi; [|split; [lia|done]].
  assert (Hlt : (length (filter (λ j, (i + 1 ≤ j)%Z) used) < fuel)%nat).
  { pose proof (length_filter_lt (λ j, i ≤ j) (λ j, i + 1 ≤ j) used i ltac:(cbn; lia) Hi
      ltac:(cbn; lia) ltac:(cbn; lia)). lia. }
  specialize (IH (i + 1) Hlt). destruct (find_free fuel (i + 1) max used) as [k|].
  - destruct IH as [??]. split; [lia|done].
  - intros j Hj. destruct (decide (j = i)) as [->|]; [done|]. apply IH. lia.
Qed.

(** *** Blocks *)
Section Blocks.
Context (al : DummyIpAllocator).
Hypothesis Hprefix : DUMMY_SPACE_PREFIX < tenant_block_prefix al ≤ 32.

Let p := tenant_block_prefix al.

(** Addresses in a block. *)
Definition block_size : Z := 2 ^ (32 - p).

Lemma block_bits : 0 ≤ 32 - p < 28 ∧ 0 < p - 4 ≤ 28.
Proof. unfold p, DUMMY_SPACE_PREFIX in *. lia. Qed.

Lemma block_size_pos : 0 < block_size.
Proof. unfold block_size. pose proof block_bits. apply Z.pow_pos_nonneg; lia. Qed.

Lemma max_tenant_blocks_eq : max_tenant_blocks al = 2 ^ (p - 4).
Proof.
  unfold max_tenant_blocks, shl_u32, sub_u8, DUMMY_SPACE_PREFIX. fold p. pose proof block_bits.
  rewrite (Z.mod_small (p - 4)), (Z.mod_small (p - 4)) by lia.
  rewrite Z.shiftl_1_l. apply Z.mod_small. split; [lia|].
  apply (Z.le_lt_trans _ (2 ^ 28)); [apply Z.pow_le_mono_r; lia|done].
Qed.

Lemma blocks_fill_space : 2 ^ (p - 4) * block_size = 2 ^ 28.
Proof.
  unfold block_size. pose proof block_bits. rewrite <- Z.pow_add_r by lia. f_equal. lia.
Qed.

Lemma block_base_eq i : 0 ≤ i < 2 ^ (p - 4) → block_base al i = DUMMY_SPACE_BASE + i * block_size.
Proof.
  intros Hi. unfold block_base, shl_u32, sub_u8. fold p. pose proof block_bits.
  pose proof blocks_fill_space. pose proof block_size_pos.
  rewrite (Z.mod_small (32 - p)), (Z.mod_small (32 - p)) by lia.
  rewrite Z.shiftl_mul_pow2 by lia. fold block_size. unfold wrap_u32.
  assert (i * block_size + block_size ≤ 2 ^ 28) by nia.
  rewrite (Z.mod_small (i * block_size)) by nia.
  apply Z.mod_small. unfold DUMMY_SPACE_BASE. nia.
Qed.

(** The index read back from a block is the one it was allocated with. *)
Lemma block_index_base i b :
  0 ≤ i < 2 ^ (p - 4) → tb_base b = DUMMY_SPACE_BASE + i * block_size → block_index al b = i.
Proof.
  intros Hi Hb. unfold block_index, shr_u32, sub_u8, wrap_u32. fold p. rewrite Hb.
  pose proof block_bits. pose proof blocks_fill_space. pose proof block_size_pos.
  assert (i * block_size + block_size ≤ 2 ^ 28) by nia.
  rewrite (Z.mod_small (32 - p)), (Z.mod_small (32 - p)) by lia.
  rewrite (Z.mod_small (_ - _)) by nia.
  replace (DUMMY_SPACE_BASE + i * block_size - DUMMY_SPACE_BASE) with (i * block_size) by lia.
  rewrite Z.shiftr_div_pow2 by lia. fold block_size. apply Z.div_mul. lia.
Qed.
End Blocks.

(** ** The invariant of the stored allocations *)
Section Allocations.
Context `{C : Core} `{W : !Wire C} (al : DummyIpAllocator).
Hypothesis Hprefix : DUMMY_SPACE_PREFIX < tenant_block_prefix al ≤ 32.

(** The keyspace [dummy_ips] as a function of the key. *)
Implicit Types D : bytes → option bytes.

Definition block_of D (tenant : string) : option TenantBlock :=
  D (tenant_block_key tenant) ≫= from_bytes.

(** [b] is a block of the allocator for [tenant]. *)
Definition block_ok (tenant : string) (b : TenantBlock) : Prop :=
  tb_tenant_id b = tenant ∧ tb_prefix b = tenant_block_prefix al ∧
  (∃ i, 0 ≤ i < 2 ^ (tenant_block_prefix al - 4) ∧
    tb_base b = DUMMY_SPACE_BASE + i * block_size al) ∧
  0 ≤ tb_next_offset b ≤ block_size al.

Definition in_block (b : TenantBlock) (address : Z) : Prop :=
  tb_base b ≤ address < tb_base b + tb_next_offset b.

Record dummy_wf D : Prop := {
  dw_block t v : D (tenant_block_key t) = Some v → ∃ b, from_bytes v = Some b ∧ block_ok t b;
  dw_distinct t1 t2 b1 b2 : block_of D t1 = Some b1 → block_of D t2 = Some b2 →
    tb_base b1 = tb_base b2 → t1 = t2;
  dw_address k v : D k = Some v → starts_with "service:" k = true →
    ∃ a b, from_bytes v = Some a ∧ k = service_address_key a ∧
      block_of D (sa_tenant_id a) = Some b ∧ in_block b (sa_address a);
  dw_unique k1 k2 v1 v2 a1 a2 : D k1 = Some v1 → D k2 = Some v2 →
    starts_with "service:" k1 = true → starts_with "service:" k2 = true →
    from_bytes v1 = Some a1 → from_bytes v2 = Some a2 →
    sa_address a1 = sa_address a2 → k1 = k2
}.

Lemma dummy_wf_ext D D' : (∀ k, D' k = D k) → dummy_wf D → dummy_wf D'.
Proof.
  intros E [H1 H2 H3 H4]. unfold block_of in *. split; unfold block_of.
  - intros t v. rewrite E. apply H1.
  - intros t1 t2 b1 b2. rewrite !E. apply H2.
  - intros k v. rewrite E. intros Hk Hs. destruct (H3 k v Hk Hs) as (a & b & ? & ? & ? & ?).
    exists a, b. by rewrite E.
  - intros k1 k2 v1 v2 a1 a2. rewrite !E. apply H4.
Qed.

Lemma dummy_wf_empty : dummy_wf (λ _, None).
Proof. split; unfold block_of; cbn; intros; discriminate. Qed.

Lemma tenant_key_inj t1 t2 : tenant_block_key t1 = tenant_block_key t2 → t1 = t2.
Proof. unfold tenant_block_key. intros H. by injection H. Qed.

Lemma tenant_key_not_service t : starts_with "service:" (tenant_block_key t) = false.
Proof. done. Qed.

Lemma service_key_prefix a : starts_with "service:" (service_address_key a) = true.
Proof. apply starts_with_app. Qed.

Lemma service_key_not_tenant a t : service_address_key a ≠ tenant_block_key t.
Proof. done. Qed.

Lemma block_of_ok D t b : dummy_wf D → block_of D t = Some b → block_ok t b.
Proof.
  intros Hwf H. unfold block_of in H. destruct (D (tenant_block_key t)) as [v|] eqn:E; [|done].
  destruct (dw_block _ Hwf _ _ E) as (b' & Hb & Hok). cbn in H. congruence.
Qed.

(** Two tenants have no address in common. *)
Lemma blocks_disjoint D t1 t2 b1 b2 x :
  dummy_wf D → block_of D t1 = Some b1 → block_of D t2 = Some b2 →
  in_block b1 x → in_block b2 x → t1 = t2.
Proof.
  intros Hwf H1 H2 Hx1 Hx2. apply (dw_distinct _ Hwf t1 t2 b1 b2 H1 H2).
  destruct (block_of_ok _ _ _ Hwf H1) as (_ & _ & (i & Hi & Hb1) & Ho1).
  destruct (block_of_ok _ _ _ Hwf H2) as (_ & _ & (j & Hj & Hb2) & Ho2).
  unfold in_block in *. pose proof (block_size_pos al Hprefix). rewrite Hb1, Hb2 in *.
  assert (i = j); [nia|by subst].
Qed.

Definition upd D (k v : bytes) : bytes → option bytes :=
  λ k', if decide (k' = k) then Some v else D k'.

(** A new block with an unused index. *)
Lemma dummy_wf_new_block D t b v :
  dummy_wf D → D (tenant_block_key t) = None → from_bytes v = Some b → block_ok t b →
  (∀ t' b', block_of D t' = Some b' → tb_base b' ≠ tb_base b) →
  dummy_wf (upd D (tenant_block_key t) v).
Proof.
  intros Hwf Hnone Hv Hb Hfresh.
  assert (Hbo : ∀ t', block_of (upd D (tenant_block_key t) v) t' =
    if decide (t' = t) then Some b else block_of D t').
  { intros t'. unfold block_of, upd. destruct (decide (t' = t)) as [->|Hne].
    - by rewrite decide_True.
    - rewrite decide_False; [done|]. by intros ?%tenant_key_inj. }
  assert (Hsvc : ∀ k, starts_with "service:" k = true → upd D (tenant_block_key t) v k = D k).
  { intros k Hk. unfold upd. rewrite decide_False; [done|]. by intros ->. }
  split.
  - intros t' v'. unfold upd. destruct (decide (tenant_block_key t' = tenant_block_key t)) as [E|_].
    + apply tenant_key_inj in E as ->. intros [= <-]. eauto.
    + apply (dw_block _ Hwf).
  - intros t1 t2 b1 b2. rewrite !Hbo. repeat case_decide; subst; intros H1 H2 E; simplify_eq; try done.
    + by destruct (Hfresh _ _ H2).
    + by destruct (Hfresh _ _ H1).
    + by apply (dw_distinct _ Hwf _ _ _ _ H1 H2).
  - intros k v' Hk Hs. rewrite Hsvc in Hk by done.
    destruct (dw_address _ Hwf _ _ Hk Hs) as (a & b' & Ha & Hka & Hb' & Hin). exists a, b'.
    rewrite Hbo. split_and!; try done. case_decide as E; [|done]. subst t.
    unfold block_of in Hb'. by rewrite Hnone in Hb'.
  - intros k1 k2 v1 v2 a1 a2 H1 H2 Hs1 Hs2. rewrite Hsvc in H1, H2 by done.
    by apply (dw_unique _ Hwf k1 k2 v1 v2).
Qed.

(** Writing a value again changes nothing. *)
Lemma dummy_wf_same D k v v0 :
  dummy_wf D → D k = Some v0 →
  (∀ t b, k = tenant_block_key t → from_bytes v0 = Some b → from_bytes v = Some (b : TenantBlock)) →
  (∀ a, starts_with "service:" k = true → from_bytes v0 = Some a →
    from_bytes v = Some (a : ServiceAddress)) →
  dummy_wf (upd D k v).
Proof.
  intros Hwf Hk Hb Ha.
  assert (Hbo : ∀ t, block_of (upd D k v) t = block_of D t).
  { intros t. unfold block_of, upd. case_decide as E; [|done]. rewrite E, Hk.
    destruct (dw_block _ Hwf t v0 ltac:(by rewrite E)) as (b & Hb0 & _). cbn. rewrite Hb0.
    by apply (Hb t). }
  assert (Hlk : ∀ k' v', upd D k v k' = Some v' → starts_with "service:" k' = true →
    ∃ v1, D k' = Some v1 ∧ (from_bytes v1 : option ServiceAddress) = from_bytes v').
  { intros k' v'. unfold upd. case_decide as E; [|by eauto]. subst k'. intros [= <-] Hs.
    exists v0. split; [done|]. destruct (dw_address _ Hwf _ _ Hk Hs) as (a & _ & Ha0 & _).
    rewrite Ha0. symmetry. by apply Ha. }
  split.
  - intros t v'. unfold upd. case_decide as E; [|apply (dw_block _ Hwf)]. intros [= <-].
    destruct (dw_block _ Hwf t v0 ltac:(by rewrite E)) as (b & Hb0 & Hok). exists b.
    split; [|done]. by eapply Hb.
  - intros t1 t2 b1 b2. rewrite !Hbo. apply (dw_distinct _ Hwf).
  - intros k' v' Hk' Hs. destruct (Hlk _ _ Hk' Hs) as (v1 & Hv1 & He).
    destruct (dw_address _ Hwf _ _ Hv1 Hs) as (a & b & Ha1 & ? & ? & ?). exists a, b.
    rewrite Hbo, <- He. done.
  - intros k1 k2 v1 v2 a1 a2 H1 H2 Hs1 Hs2. destruct (Hlk _ _ H1 Hs1) as (w1 & Hw1 & <-).
    destruct (Hlk _ _ H2 Hs2) as (w2 & Hw2 & <-). by apply (dw_unique _ Hwf k1 k2 w1 w2).
Qed.

(** The next address of a block is none of the stored ones. *)
Lemma next_address_fresh D t b k v a0 :
  dummy_wf D → block_of D t = Some b → tb_next_offset b < block_size al →
  D k = Some v → starts_with "service:" k = true → from_bytes v = Some a0 →
  sa_address a0 ≠ tb_base b + tb_next_offset b.
Proof.
  intros Hwf Hb Hoff Hk Hs Ha0 E.
  pose proof (block_of_ok _ _ _ Hwf Hb) as (_ & _ & (i & Hi & Hbase) & Hbo).
  destruct (dw_address _ Hwf _ _ Hk Hs) as (a1 & b1 & Ha1 & _ & Hb1 & Hin).
  rewrite Ha0 in Ha1. injection Ha1 as <-.
  destruct (decide (sa_tenant_id a0 = t)) as [Et|Et].
  - rewrite Et, Hb in Hb1. injection Hb1 as <-. unfold in_block in Hin. lia.
  - apply Et. pose proof (block_of_ok _ _ _ Hwf Hb1) as (_ & _ & (j & Hj & Hbase1) & Ho1).
    apply (dw_distinct _ Hwf _ _ _ _ Hb1 Hb). unfold in_block in Hin.
    pose proof (block_size_pos al Hprefix). assert (i = j) by nia. subst j; congruence.
Qed.

(** A new address: the first free one of the tenant's block. *)
Lemma dummy_wf_new_address D t b b' a bv av :
  dummy_wf D → block_of D t = Some b → tb_next_offset b < block_size al →
  sa_tenant_id a = t → sa_address a = tb_base b + tb_next_offset b →
  D (service_address_key a) = None →
  b' = {| tb_tenant_id := tb_tenant_id b; tb_base := tb_base b; tb_prefix := tb_prefix b;
          tb_next_offset := tb_next_offset b + 1 |} →
  from_bytes bv = Some b' → from_bytes av = Some a →
  dummy_wf (upd (upd D (tenant_block_key t) bv) (service_address_key a) av).
Proof.
  intros Hwf Hb Hoff Hta Haddr Hnone Hb' Hbv Hav. set (D' := upd (upd D _ bv) _ av).
  pose proof (block_of_ok _ _ _ Hwf Hb) as (Hbt & Hbp & (i & Hi & Hbase) & Hbo).
  assert (Hblk : ∀ t', block_of D' t' = if decide (t' = t) then Some b' else block_of D t').
  { intros t'. unfold D', block_of, upd.
    rewrite (decide_False (P := tenant_block_key t' = service_address_key a)) by done.
    destruct (decide (t' = t)) as [->|Hne]; [by rewrite decide_True|].
    rewrite decide_False; [done|]. by intros ?%tenant_key_inj. }
  assert (Hsvc : ∀ k v, D' k = Some v → starts_with "service:" k = true →
    (k = service_address_key a ∧ v = av) ∨ (k ≠ service_address_key a ∧ D k = Some v)).
  { intros k v. unfold D', upd. intros Hk Hs. case_decide; [left; by simplify_eq|right].
    split; [done|]. by case_decide; [subst k|]. }
  assert (Hold : ∀ k v a0, D k = Some v → starts_with "service:" k = true →
    from_bytes v = Some a0 → sa_address a0 ≠ sa_address a).
  { intros k v a0 Hk Hs Ha0. rewrite Haddr. by eapply next_address_fresh. }
  split.
  - intros t' v. unfold D', upd. rewrite (decide_False (P := tenant_block_key t' = _)) by done.
    case_decide as E; [|apply (dw_block _ Hwf)]. apply tenant_key_inj in E as ->. intros [= <-].
    exists b'. split; [done|]. subst b'. repeat split; cbn; [done|done|eauto|lia|lia].
  - intros t1 t2 b1 b2. rewrite !Hblk.
    assert (Heq : ∀ t' b0, block_of D t' = Some b0 → tb_base b0 = tb_base b' → t' = t).
    { intros t' b0 H0 E. apply (dw_distinct _ Hwf _ _ _ _ H0 Hb). by subst b'. }
    repeat case_decide; subst; intros H1 H2 E; simplify_eq; try done.
    + symmetry. by eapply Heq.
    + by eapply Heq.
    + by apply (dw_distinct _ Hwf _ _ _ _ H1 H2).
  - intros k v Hk Hs. destruct (Hsvc _ _ Hk Hs) as [[-> ->]|[_ Hk']].
    + exists a, b'. rewrite Hblk, decide_True by done. split_and!; try done.
      subst b'. unfold in_block. cbn. lia.
    + destruct (dw_address _ Hwf _ _ Hk' Hs) as (a0 & b0 & Ha0 & Hka & Hb0 & Hin).
      destruct (decide (sa_tenant_id a0 = t)) as [Et|Et].
      * exists a0, b'. rewrite Hblk, decide_True by done. split_and!; try done.
        rewrite Et, Hb in Hb0. injection Hb0 as <-. subst b'. unfold in_block in *. cbn. lia.
      * exists a0, b0. by rewrite Hblk, decide_False by done.
  - intros k1 k2 v1 v2 a1 a2 H1 H2 Hs1 Hs2 Ha1 Ha2 E.
    destruct (Hsvc _ _ H1 Hs1) as [[-> ->]|[_ H1']], (Hsvc _ _ H2 Hs2) as [[-> ->]|[_ H2']]; try done.
    + rewrite Hav in Ha1. injection Ha1 as <-. by destruct (Hold _ _ _ H2' Hs2 Ha2).
    + rewrite Hav in Ha2. injection Ha2 as <-. by destruct (Hold _ _ _ H1' Hs1 Ha1).
    + by apply (dw_unique _ Hwf k1 k2 v1 v2 a1 a2).
Qed.
End Allocations.

(** ** Allocation through the log *)
Section AllocationSteps.
Context `{F : Fjall} `{C : Core} `{W : !Wire C} `{!FjallSpec F} (al : DummyIpAllocator).
Hypothesis Hprefix : DUMMY_SPACE_PREFIX < tenant_block_prefix al ≤ 32.

(** The keyspace of a database. *)
Definition dummy_ips (db : Db) (k : bytes) : option bytes := contents db !! (ks_dummy_ips, k).

(** A command that stores an allocation carries one computed on the state it is
    applied to; manifests do not store allocations. *)
Definition allocated_by (db : Db) (c : FleetosCommand) : Prop :=
  match c with
  | CreateTenant record block =>
      compute_tenant_block_allocation al db (tr_tenant_id record) = Ok block
  | AllocateTenantBlock block =>
      compute_tenant_block_allocation al db (tb_tenant_id block) = Ok block
  | AllocateServiceAddress block a =>
      compute_service_address_allocation db (sa_tenant_id a) (sa_service a) (sa_role a) =
        Ok (block, a)
  | ApplyManifests updates => Forall (λ u, mu_target_keyspace u ≠ "dummy_ips") updates
  | _ => True
  end.

Lemma get_tenant_block_ok (db : Db) t o :
  dummy_wf al (dummy_ips db) → get_tenant_block db t = Ok o →
  block_of (dummy_ips db) t = o ∧ (o = None → dummy_ips db (tenant_block_key t) = None).
Proof.
  unfold get_tenant_block, block_of, dummy_ips. intros Hwf H.
  destruct (get_record db ks_dummy_ips (tenant_block_key t)) as [o'|] eqn:E; [|done].
  injection H as ->. apply get_record_ok in E.
  destruct (contents db !! (ks_dummy_ips, tenant_block_key t)) as [v|]; cbn; [|by subst].
  destruct E as [-> [b ->]]. done.
Qed.

Lemma used_block_indices_ok (db : Db) used t b :
  dummy_wf al (dummy_ips db) → used_block_indices al db = Ok used →
  block_of (dummy_ips db) t = Some b → block_index al b ∈ used.
Proof.
  unfold used_block_indices. intros Hwf H Hb.
  destruct (list_records db ks_dummy_ips "tenant:") as [l|] eqn:E; [|done]. cbn in H.
  injection H as <-. apply list_records_ok in E as ->. apply list_elem_of_fmap_2, list_elem_of_omap.
  unfold block_of, dummy_ips in Hb.
  destruct (contents db !! (ks_dummy_ips, tenant_block_key t)) as [v|] eqn:Hv; [|done].
  exists (tenant_block_key t, v). split; [|done]. apply elem_of_scan. split; [done|].
  apply starts_with_app.
Qed.

Lemma compute_tenant_block_ok (db : Db) t b :
  dummy_wf al (dummy_ips db) → compute_tenant_block_allocation al db t = Ok b →
  dummy_ips db (tenant_block_key t) = None ∧ block_ok al t b ∧
  ∀ t' b', block_of (dummy_ips db) t' = Some b' → tb_base b' ≠ tb_base b.
Proof.
  unfold compute_tenant_block_allocation. intros Hwf H. apply bind_ok in H as (o & Ho & H).
  apply get_tenant_block_ok in Ho as [Hbo Hnone]; [|done]. destruct o as [|]; [done|].
  apply bind_ok in H as (used & Hu & H). apply bind_ok in H as (i & Hi & H). ok_inv.
  pose proof (find_free_spec (S (length used)) 0 (max_tenant_blocks al) used) as Hs.
  destruct (find_free _ _ _ _) as [k|]; [|done]. injection Hi as ->.
  destruct Hs as [Hk Hfree]; [pose proof (length_filter (λ j, 0 ≤ j) used); lia|].
  rewrite max_tenant_blocks_eq in Hk by done. split; [by apply Hnone|]. split.
  - repeat split; cbn; [|lia|apply Z.lt_le_incl, block_size_pos, Hprefix].
    exists i. split; [done|]. by apply block_base_eq.
  - cbn. rewrite block_base_eq by done. intros t' b' Hb' E. apply Hfree.
    rewrite <- (block_index_base al Hprefix i b' Hk E). by eapply used_block_indices_ok.
Qed.

Lemma max_hosts_eq b : tb_prefix b = tenant_block_prefix al → max_hosts b = block_size al.
Proof.
  intros E. unfold max_hosts, block_size, shl_u32, sub_u8. rewrite E.
  pose proof (block_bits al Hprefix).
  rewrite (Z.mod_small (32 - _)), (Z.mod_small (32 - _)) by lia. rewrite Z.shiftl_1_l.
  apply Z.mod_small. split; [lia|]. apply Z.pow_lt_mono_r; lia.
Qed.

(** A computed address: the stored one, or the next of the tenant's block. *)
Lemma compute_service_address_ok (db : Db) t s r b' a :
  dummy_wf al (dummy_ips db) → compute_service_address_allocation db t s r = Ok (b', a) →
  let k := "service:" +:+ t +:+ ":" +:+ s +:+ ":" +:+ r in
  (∃ v, dummy_ips db k = Some v ∧ from_bytes v = Some a ∧ block_of (dummy_ips db) t = Some b') ∨
  (dummy_ips db k = None ∧ k = service_address_key a ∧ sa_tenant_id a = t ∧
   ∃ b, block_of (dummy_ips db) t = Some b ∧ tb_next_offset b < block_size al ∧
     sa_address a = tb_base b + tb_next_offset b ∧
     b' = {| tb_tenant_id := tb_tenant_id b; tb_base := tb_base b; tb_prefix := tb_prefix b;
             tb_next_offset := tb_next_offset b + 1 |}).
Proof.
  intros Hwf H k. unfold compute_service_address_allocation, get_service_address in H. fold k in H.
  apply bind_ok in H as (o & Ho & H).
  destruct (get_record db ks_dummy_ips k) as [o'|] eqn:E; [|done]. injection Ho as ->.
  apply get_record_ok in E. unfold dummy_ips at 1 3.
  destruct o as [a'|]; apply bind_ok in H as (o & Ho & H); apply bind_ok in H as (b & Hb & H);
    (destruct o as [b0|]; [|done]); cbn in Hb; injection Hb as <-;
    destruct (get_tenant_block_ok _ _ _ Hwf Ho) as [Hbo _].
  - ok_inv. left. destruct (contents db !! (ks_dummy_ips, k)) as [v|]; [|done]. exists v. tauto.
  - right. destruct (contents db !! (ks_dummy_ips, k)) as [v|]; [by destruct E as [_ [? ?]]|].
    rename b0 into b.
    pose proof (block_of_ok _ _ _ _ Hwf Hbo) as (Ht & Hp & (i & Hi & Hbase) & Hoff).
    rewrite (max_hosts_eq _ Hp) in H.
    destruct (Z.leb_spec (block_size al) (tb_next_offset b)); [done|]. ok_inv.
    pose proof (blocks_fill_space al Hprefix). pose proof (block_size_pos al Hprefix).
    assert (tb_base b + block_size al ≤ 2 ^ 32).
    { rewrite Hbase. unfold DUMMY_SPACE_BASE. nia. }
    assert (0 ≤ tb_base b) by (rewrite Hbase; unfold DUMMY_SPACE_BASE; nia).
    assert (block_size al ≤ 2 ^ 28) by nia.
    split; [done|]. split; [done|]. split; [done|]. exists b. cbn.
    rewrite !wrap_u32_small by (unfold is_u32; lia). done.
Qed.

Lemma dummy_ips_batch (sm sm' : FjallStateMachine) e r a :
  payload e = Normal a → apply_entry sm e = (sm', Ok r) →
  ∃ b ck, apply_command (sm_db sm) (cmd a) [] = Ok (b, ck) ∧
    ∀ k, dummy_ips (sm_db sm') k = default (dummy_ips (sm_db sm) k) (last_write b (ks_dummy_ips, k)).
Proof.
  intros Hp H. destruct (apply_entry_command _ _ _ _ _ Hp H) as (b & ck & Hb & Hl).
  exists b, ck. split; [done|]. intros k. unfold dummy_ips.
  by rewrite (Hl ks_dummy_ips k eq_refl), apply_batch_lookup.
Qed.

Lemma manifests_no_dummy updates k :
  Forall (λ u, mu_target_keyspace u ≠ "dummy_ips") updates →
  last_write (foldl (λ batch update, match manifest_keyspace (mu_target_keyspace update) with
    | Some ks => batch_insert ks (mu_target_key update) (mu_new_record_bytes update) batch
    | None => batch end) [] updates) (ks_dummy_ips, k) = None.
Proof.
  intros Hu. enough (∀ b, last_write b (ks_dummy_ips, k) = None → last_write (foldl (λ batch update,
    match manifest_keyspace (mu_target_keyspace update) with
    | Some ks => batch_insert ks (mu_target_key update) (mu_new_record_bytes update) batch
    | None => batch end) b updates) (ks_dummy_ips, k) = None) as H by (by apply H).
  induction Hu as [|u us Hu _ IH]; intros b Hb; [done|]. cbn. apply IH.
  destruct (manifest_keyspace _) as [ks|] eqn:E; [|done]. unfold batch_insert.
  rewrite last_write_snoc, decide_False; [done|]. cbn. intros [= -> _].
  unfold manifest_keyspace in E. by simplify_option_eq.
Qed.

Lemma allocation_step (sm sm' : FjallStateMachine) e r :
  dummy_wf al (dummy_ips (sm_db sm)) →
  (∀ a, payload e = Normal a → allocated_by (sm_db sm) (cmd a)) →
  apply_entry sm e = (sm', Ok r) → dummy_wf al (dummy_ips (sm_db sm')).
Proof.
  intros Hwf Hal H.
  destruct (decide (ks_dummy_ips ∈ entry_keyspaces e)) as [Hks|Hks].
  2:{ eapply dummy_wf_ext; [|exact Hwf]. intros k. unfold dummy_ips.
      exact (apply_entry_frame _ _ _ _ ks_dummy_ips k eq_refl Hks H). }
  unfold entry_keyspaces in Hks. destruct (payload e) as [|a|m] eqn:Hp; [set_solver| |set_solver].
  specialize (Hal a eq_refl). destruct (dummy_ips_batch _ _ _ _ _ Hp H) as (b & ck & Hb & Hl).
  destruct (cmd a) eqn:Hc; cbn [cmd_keyspaces] in Hks; try (exfalso; set_solver);
    cbn [apply_command allocated_by] in Hb, Hal.
  - unfold apply_create_tenant in Hb. apply bind_ok in Hb as (v1 & _ & Hb).
    apply bind_ok in Hb as (v & Hv & Hb). ok_inv. ser_inv.
    destruct (compute_tenant_block_ok _ _ _ Hwf Hal) as (Hn & Hok & Hfresh).
    eapply dummy_wf_ext; [|exact (dummy_wf_new_block _ _ _ _ _ Hwf Hn Hv Hok Hfresh)].
    intros k. rewrite Hl. unfold upd. cbn. repeat case_decide; naive_solver.
  - unfold apply_allocate_tenant_block in Hb. apply bind_ok in Hb as (v & Hv & Hb). ok_inv. ser_inv.
    destruct (compute_tenant_block_ok _ _ _ Hwf Hal) as (Hn & Hok & Hfresh).
    eapply dummy_wf_ext; [|exact (dummy_wf_new_block _ _ _ _ _ Hwf Hn Hv Hok Hfresh)].
    intros k. rewrite Hl. unfold upd. cbn. repeat case_decide; naive_solver.
  - unfold apply_allocate_service_address in Hb. apply bind_ok in Hb as (bv & Hbv & Hb).
    apply bind_ok in Hb as (av & Hav & Hb). ok_inv. ser_inv.
    apply compute_service_address_ok in Hal; [|done].
    eapply (dummy_wf_ext _ (upd (upd (dummy_ips (sm_db sm)) (tenant_block_key (tb_tenant_id block)) bv)
      (service_address_key address) av)).
    { intros k. rewrite Hl. unfold upd. cbn. repeat case_decide; naive_solver. }
    destruct Hal as [(v & Hk & Hva & Hbo)|(Hk & Hkey & _ & b & Hbo & Hoff & Haddr & Hb')].
    + pose proof (block_of_ok _ _ _ _ Hwf Hbo) as (Ht & _).
      unfold block_of in Hbo. rewrite Ht.
      destruct (dummy_ips (sm_db sm) (tenant_block_key (sa_tenant_id address))) as [bv0|] eqn:Hbv0;
        [|done]. cbn in Hbo.
      apply (dummy_wf_same _ _ _ _ v).
      * apply (dummy_wf_same _ _ _ _ bv0); [done..| |done].
        intros t b' _ Hb'. congruence.
      * unfold upd. by rewrite decide_False.
      * intros t b' E. by destruct (service_key_not_tenant address t).
      * intros a' _ Ha'. congruence.
    + pose proof (block_of_ok _ _ _ _ Hwf Hbo) as (Ht & _). subst block. cbn [tb_tenant_id].
      rewrite Ht. eapply (dummy_wf_new_address al Hprefix _ (sa_tenant_id address) b); try done.
  - unfold apply_manifests in Hb. ok_inv. eapply dummy_wf_ext; [|exact Hwf]. intros k.
    by rewrite Hl, manifests_no_dummy.
Qed.

(** The states reached when allocations are computed on the state they are applied
    to: one proposer at a time. *)
Inductive alloc_reachable : FjallStateMachine → Prop :=
| alloc_start db domain : contents db = ∅ → alloc_reachable (open db domain)
| alloc_step sm e sm' r :
    alloc_reachable sm → (∀ a, payload e = Normal a → allocated_by (sm_db sm) (cmd a)) →
    apply_entry sm e = (sm', Ok r) → alloc_reachable sm'.

Lemma alloc_reachable_wf sm : alloc_reachable sm → dummy_wf al (dummy_ips (sm_db sm)).
Proof.
  induction 1 as [db domain Hdb|sm e sm' r _ IH Hal H].
  - eapply dummy_wf_ext; [|exact (dummy_wf_empty al)]. intros k. unfold dummy_ips. cbn.
    by rewrite Hdb.
  - by eapply allocation_step.
Qed.

(** C31. Dummy addresses are unique: in every state reached with allocations computed
    on the state they are applied to, two stored addresses that are equal are the
    same assignment, every address lies in [240.0.0.0/4] and in the block of its
    tenant, and no address lies in the blocks of two tenants. *)
Theorem dummy_addresses_unique sm :
  alloc_reachable sm →
  (∀ k v, dummy_ips (sm_db sm) k = Some v → starts_with "service:" k = true →
    ∃ a b, from_bytes v = Some a ∧ k = service_address_key a ∧
      block_of (dummy_ips (sm_db sm)) (sa_tenant_id a) = Some b ∧ in_block b (sa_address a) ∧
      DUMMY_SPACE_BASE ≤ sa_address a < DUMMY_SPACE_BASE + 2 ^ 28) ∧
  (∀ k1 k2 v1 v2 a1 a2, dummy_ips (sm_db sm) k1 = Some v1 → dummy_ips (sm_db sm) k2 = Some v2 →
    starts_with "service:" k1 = true → starts_with "service:" k2 = true →
    from_bytes v1 = Some a1 → from_bytes v2 = Some a2 → sa_address a1 = sa_address a2 → k1 = k2) ∧
  (∀ t1 t2 b1 b2 x, block_of (dummy_ips (sm_db sm)) t1 = Some b1 →
    block_of (dummy_ips (sm_db sm)) t2 = Some b2 → in_block b1 x → in_block b2 x → t1 = t2).
Proof.
  intros Hr. pose proof (alloc_reachable_wf sm Hr) as Hwf. split_and!.
  - intros k v Hk Hs. destruct (dw_address _ _ Hwf _ _ Hk Hs) as (a & b & Ha & Hka & Hb & Hin).
    exists a, b. split_and!; try done; destruct (block_of_ok _ _ _ _ Hwf Hb) as (_ & _ & (i & Hi & Hbase) & Ho);
      unfold in_block in Hin; pose proof (blocks_fill_space al Hprefix);
      pose proof (block_size_pos al Hprefix); nia.
  - apply (dw_unique _ _ Hwf).
  - intros t1 t2 b1 b2 x. by apply (blocks_disjoint al Hprefix).
Qed.

(** The allocator hands out a block as long as one is free: it reports the
    space exhausted only when every block index is taken by a stored block. *)
Theorem tenant_space_exhausted (db : Db) t :
  compute_tenant_block_allocation al db t = Err TenantSpaceExhausted →
  ∀ i, 0 ≤ i < max_tenant_blocks al →
    ∃ k v b, dummy_ips db k = Some v ∧ from_bytes v = Some b ∧ block_index al b = i.
Proof.
  unfold compute_tenant_block_allocation, used_block_indices, get_tenant_block. intros H i Hi.
  destruct (get_record db ks_dummy_ips (tenant_block_key t)) as [[o|]|];
    cbn [map_err mbind result_bind] in H; try done.
  destruct (list_records db ks_dummy_ips "tenant:") as [l|] eqn:E; [|done].
  cbn [map_err mbind result_bind] in H.
  pose proof (find_free_spec (S (length (map (block_index al) l))) 0 (max_tenant_blocks al)
    (map (block_index al) l)) as Hs.
  destruct (find_free _ _ _ _) as [k|]; [discriminate H|].
  assert (Hin : i ∈ map (block_index al) l).
  { apply Hs; [|done]. pose proof (length_filter (λ j, 0 ≤ j) (map (block_index al) l)). lia. }
  apply list_records_ok in E as ->. apply list_elem_of_fmap in Hin as (b & -> & Hb).
  apply list_elem_of_omap in Hb as ([k v] & Hk & Hv). apply elem_of_scan in Hk as [Hk _].
  by exists k, v, b.
Qed.

(** Two tenants created from the same state get the same block: when the two
    allocations are computed before either is applied, applying both leaves two
    tenants with one address range. *)
Theorem concurrent_tenants_share_block (sm sm1 sm2 : FjallStateMachine) e1 e2 a1 a2 r1 r2
    rec1 rec2 b1 b2 :
  tr_tenant_id rec1 ≠ tr_tenant_id rec2 →
  compute_tenant_block_allocation al (sm_db sm) (tr_tenant_id rec1) = Ok b1 →
  compute_tenant_block_allocation al (sm_db sm) (tr_tenant_id rec2) = Ok b2 →
  payload e1 = Normal a1 → cmd a1 = CreateTenant rec1 b1 → apply_entry sm e1 = (sm1, Ok r1) →
  payload e2 = Normal a2 → cmd a2 = CreateTenant rec2 b2 → apply_entry sm1 e2 = (sm2, Ok r2) →
  block_of (dummy_ips (sm_db sm2)) (tr_tenant_id rec1) = Some b1 ∧
  block_of (dummy_ips (sm_db sm2)) (tr_tenant_id rec2) = Some b2 ∧ tb_base b1 = tb_base b2.
Proof.
  intros Hne H1 H2 Hp1 Hc1 Ha1 Hp2 Hc2 Ha2.
  assert (Hbase : tb_base b1 = tb_base b2).
  { unfold compute_tenant_block_allocation in H1, H2.
    apply bind_ok in H1 as (o1 & _ & H1). destruct o1; [done|].
    apply bind_ok in H2 as (o2 & _ & H2). destruct o2; [done|].
    apply bind_ok in H1 as (u1 & Hu1 & H1). apply bind_ok in H2 as (u2 & Hu2 & H2).
    rewrite Hu1 in Hu2. injection Hu2 as <-.
    apply bind_ok in H1 as (i1 & Hi1 & H1). apply bind_ok in H2 as (i2 & Hi2 & H2).
    rewrite Hi1 in Hi2. injection Hi2 as <-. ok_inv. done. }
  destruct (dummy_ips_batch _ _ _ _ _ Hp1 Ha1) as (w1 & ck1 & Hw1 & Hl1).
  destruct (dummy_ips_batch _ _ _ _ _ Hp2 Ha2) as (w2 & ck2 & Hw2 & Hl2).
  rewrite Hc1 in Hw1. rewrite Hc2 in Hw2. cbn [apply_command] in Hw1, Hw2.
  unfold apply_create_tenant in Hw1, Hw2.
  apply bind_ok in Hw1 as (v1 & _ & Hw1). apply bind_ok in Hw1 as (bv1 & Hbv1 & Hw1).
  apply bind_ok in Hw2 as (v2 & _ & Hw2). apply bind_ok in Hw2 as (bv2 & Hbv2 & Hw2). ok_inv. ser_inv.
  unfold block_of. rewrite !Hl2. cbn. rewrite (decide_False (P := (ks_tenants, _) = _)) by done.
  rewrite (decide_False (P := (ks_tenants, _) = _)) by done.
  rewrite (decide_False (P := (ks_dummy_ips, tenant_block_key (tr_tenant_id rec2)) = _))
    by (intros [= E]; by apply Hne).
  rewrite (decide_True (P := (ks_dummy_ips, tenant_block_key (tr_tenant_id rec2)) = _)) by done.
  cbn. rewrite Hl1. cbn. rewrite (decide_False (P := (ks_tenants, _) = _)) by done.
  rewrite decide_True by done. cbn. rewrite Hbv1, Hbv2. done.
Qed.
End AllocationSteps.

(** ** Witnesses *)
Import DemoInstances.

Definition demo_al : DummyIpAllocator := {| tenant_block_prefix := 16 |}.
Definition demo_tenant (t : string) : TenantRecord :=
  {| tr_tenant_id := t; tr_created_at := 100; tr_last_applied_bytes := "" |}.
Definition demo_block (al : DummyIpAllocator) (t : string) (i off : Z) : TenantBlock :=
  {| tb_tenant_id := t; tb_base := block_base al i; tb_prefix := tenant_block_prefix al;
     tb_next_offset := off |}.
Definition demo_create (al : DummyIpAllocator) (n : Z) (t : string) (i : Z) : Entry :=
  demo_entry n (CreateTenant (demo_tenant t) (demo_block al t i 0)).
Definition tenants2 : FjallStateMachine :=
  (apply_entry (apply_entry demo_init (demo_create demo_al 1 "acme" 0)).1
    (demo_create demo_al 2 "globex" 1)).1.
Definition demo_address : ServiceAddress :=
  {| sa_tenant_id := "globex"; sa_service := "web"; sa_role := "primary"; sa_address := 0xF0010000 |}.
Definition addressed : FjallStateMachine :=
  (apply_entry tenants2 (demo_entry 3 (AllocateServiceAddress (demo_block demo_al "globex" 1 1)
    demo_address))).1.

Lemma dummy_addresses_unique_witness :
  ∃ a b, from_bytes (default "" (dummy_ips (sm_db addressed) "service:globex:web:primary")) =
      Some a ∧
    block_of (dummy_ips (sm_db addressed)) (sa_tenant_id a) = Some b ∧ in_block b (sa_address a).
Proof.
  destruct (dummy_addresses_unique demo_al ltac:(done) addressed) as (H & _ & _).
  - eapply (alloc_step _ tenants2 (demo_entry 3 (AllocateServiceAddress
      (demo_block demo_al "globex" 1 1) demo_address)) addressed {| version := 3 |}).
    + eapply (alloc_step _ (apply_entry demo_init (demo_create demo_al 1 "acme" 0)).1
        (demo_create demo_al 2 "globex" 1) tenants2 {| version := 2 |}).
      * eapply (alloc_step _ demo_init (demo_create demo_al 1 "acme" 0) _ {| version := 1 |}).
        -- by apply alloc_start.
        -- intros a [= <-]. apply ok_some. vm_refl.
        -- apply result_pair. vm_refl.
      * intros a [= <-]. apply ok_some. vm_refl.
      * apply result_pair. vm_refl.
    + intros a [= <-]. apply ok_some. vm_refl.
    + apply result_pair. vm_refl.
  - destruct (H "service:globex:web:primary"
      (default "" (dummy_ips (sm_db addressed) "service:globex:web:primary")))
      as (a & b & Ha & _ & Hb & Hin & _); [vm_refl|reflexivity|].
    exists a, b. split; [exact Ha|]. split; [exact Hb|exact Hin].
Defined.

(** A [/5] leaves room for two tenants. *)
Definition tiny_al : DummyIpAllocator := {| tenant_block_prefix := 5 |}.
Definition tiny_full : FjallStateMachine :=
  (apply demo_init [demo_create tiny_al 1 "acme" 0; demo_create tiny_al 2 "globex" 1]).1.

Definition is_exhausted {A} (r : result DummyIpError A) : bool :=
  match r with Err TenantSpaceExhausted => true | _ => false end.
Lemma exhausted_err {A} (r : result DummyIpError A) :
  is_exhausted r = true → r = Err TenantSpaceExhausted.
Proof. by destruct r as [|[]]. Qed.

Lemma tenant_space_exhausted_witness :
  ∃ k v b, dummy_ips (sm_db tiny_full) k = Some v ∧ from_bytes v = Some b ∧
    block_index tiny_al b = 1.
Proof.
  apply (tenant_space_exhausted tiny_al (sm_db tiny_full) "initech").
  - apply exhausted_err. vm_refl.
  - split; done.
Defined.

Lemma concurrent_tenants_share_block_witness :
  let sm1 := (apply_entry demo_init (demo_create demo_al 1 "acme" 0)).1 in
  let sm2 := (apply_entry sm1 (demo_create demo_al 2 "globex" 0)).1 in
  block_of (dummy_ips (sm_db sm2)) "acme" = Some (demo_block demo_al "acme" 0 0) ∧
  block_of (dummy_ips (sm_db sm2)) "globex" = Some (demo_block demo_al "globex" 0 0).
Proof.
  intros sm1 sm2.
  destruct (concurrent_tenants_share_block demo_al demo_init sm1 sm2 (demo_create demo_al 1 "acme" 0)
    (demo_create demo_al 2 "globex" 0) (system (CreateTenant (demo_tenant "acme")
    (demo_block demo_al "acme" 0 0))) (system (CreateTenant (demo_tenant "globex")
    (demo_block demo_al "globex" 0 0))) {| version := 1 |} {| version := 2 |} (demo_tenant "acme")
    (demo_tenant "globex") (demo_block demo_al "acme" 0 0) (demo_block demo_al "globex" 0 0))
    as (H1 & H2 & _).
  - done.
  - apply ok_some. vm_refl.
  - apply ok_some. vm_refl.
  - reflexivity.
  - reflexivity.
  - apply result_pair. vm_refl.
  - reflexivity.
  - reflexivity.
  - apply result_pair. vm_refl.
  - split; [exact H1|exact H2].
Defined.
