(* ===== verification/Controllers.v ===== *)
(** * Controllers: the reconciliation loops of the leader

    Models [src/controllers/]: the workload, pod, node and cron controllers, and
    the bodies of the loops [src/main.rs] ([start_controllers]) runs them in. A
    controller reads the replicated database and changes it only by proposing
    commands, which [Raft] does; its other effect is a pod event. *)

From S2P Require Import Prelude.
From S2P Require Import Storage.
From S2P Require Import Core.
From S2P Require Import Records.
From S2P Require Import Schema.
From S2P Require Import Expansion.
From S2P Require Import Watch.
From S2P Require Import Acl.
From S2P Require Import StateMachine.
From S2P Require Import Apply.
From S2P Require Import Raft.
From S2P Require Import PodEvents.
From S2P Require Import Metrics.
From S2P Require Import Status.
From S2P Require Import Float64.
From S2P Require Import Scheduler.
From S2P Require Import Preemption.
From S2P Require Import Engine.
From S2P Require Import DummyIp.

Section Monad.
Context `{F : Fjall} `{C : Core} `{W : !Wire C}.

(** [ControllerError]. *)
Inductive ControllerError : Type :=
| CtrlStorage (e : StorageError)
| CtrlSerialization
| CtrlRaft (message : string)
| CtrlDummyIp (e : DummyIpError).

(** What a loop logs and goes on from. *)
Inductive Warning : Type :=
| Failed (e : ControllerError)
| UndecodableSpec (id : string)
| UnparsableNode (id : string).

(** What lives on the leader only: the metrics store, and since when the autoscalers
    have been seeing a reason to shrink a workload. *)
Record LeaderState : Type := {
  ls_metrics : MetricsStore;
  ls_scale_down_since : gmap (string * string) Z;
  ls_shrink_since : gmap (string * string) Z
}.

(** What a controller reads and changes. *)
Record World : Type := {
  w_sm : FjallStateMachine;
  w_events : PodEventEmitter;
  w_local : LeaderState;
  w_warnings : list Warning
}.
Definition w_db (w : World) : Db := sm_db (w_sm w).

(** A controller computation: it may fail, and keeps what it did before. *)
Definition ctrl (A : Type) : Type := World → World * result ControllerError A.
#[export] Instance ctrl_ret : MRet ctrl := λ A a w, (w, Ok a).
#[export] Instance ctrl_bind : MBind ctrl := λ A B k m w,
  match m w with
  | (w, Ok a) => k a w
  | (w, Err e) => (w, Err e)
  end.

(** A read of the database, and its error. *)
Definition reads {A} (f : Db → result ControllerError A) : ctrl A := λ w, (w, f (w_db w)).
(** [for x in l { f(x)?; }]. *)
Fixpoint for_each {A} (f : A → ctrl ()) (l : list A) : ctrl () :=
  match l with
  | [] => mret ()
  | x :: l => f x ≫= λ _, for_each f l
  end.
Definition warn (x : Warning) : ctrl () := λ w,
  ({| w_sm := w_sm w; w_events := w_events w; w_local := w_local w;
      w_warnings := w_warnings w ++ [x] |}, Ok ()).
(** [if let Err(e) = m { warn }]. *)
Definition logged {A} (m : ctrl A) : ctrl () := λ w,
  match m w with
  | (w, Ok _) => (w, Ok ())
  | (w, Err e) => warn (Failed e) w
  end.

(** [self.pod_event_emitter.emit(event)]; the emitter always returns. *)
Definition emit_event (now : Z) (event : PodEvent) : ctrl () := λ w,
  ({| w_sm := w_sm w; w_events := default (w_events w) (emit (w_events w) now event);
      w_local := w_local w; w_warnings := w_warnings w |}, Ok ()).
End Monad.

(** [self.raft.client_write(c).await.map_err(..)?], and with a system command. *)
Definition write `{R : Raft} (c : AuditedCommand) : ctrl () := λ w,
  let '(sm, r) := client_write (w_sm w) c in
  ({| w_sm := sm; w_events := w_events w; w_local := w_local w; w_warnings := w_warnings w |},
   match r with Ok _ => Ok () | Err e => Err (CtrlRaft (raft_error_to_string e)) end).
Definition propose `{R : Raft} (c : FleetosCommand) : ctrl () := write (system c).

(** ** The workload controller *)
Section WorkloadController.
Context `{R : Raft}.

(** [PodId::new(format!("{}-{}-{}", workload_id, role, ordinal))]. *)
Definition make_pod_id (workload_id role : string) (ordinal : Z) : string :=
  workload_id +:+ "-" +:+ role +:+ "-" +:+ pretty ordinal.

(** Iteration of a [BTreeMap<String, _>]. *)
Definition btree_map_iter {A} (m : gmap string A) : list (string * A) :=
  sort_by (λ a b, String.compare a.1 b.1) (map_to_list m).

(** [build_cluster_state]. Keys of [node_taints] are node ids, so valid UTF-8. *)
Definition read_taints (db : Db) : result ControllerError (gmap string (list NodeTaint)) :=
  foldM (λ taints guard,
    '(key, value) ← map_err (CtrlStorage ∘ StorageIo) guard;
    Ok (match from_bytes value : option (list NodeTaint) with
        | Some node_taints => <[key := node_taints]> taints
        | None => taints
        end)) (prefix db ks_node_taints "") ∅.
Definition build_cluster_state (db : Db) : result ControllerError ClusterState :=
  node_records ← map_err CtrlStorage (list_node_records db);
  placements ← map_err CtrlStorage (list_placements db);
  taints ← read_taints db;
  Ok (ClusterState_build node_records placements taints).

Definition default_resources : ResourceSpec :=
  {| cpu_millicores := 500; memory_bytes := 512 * 1024 * 1024 |}.

(** The pod of a slot without a record. [build_pod_spec] is [expand_pod_spec]. *)
Definition new_pod (spec : WorkloadSpec) (role : string) (ordinal : Z) : PendingPod :=
  let pod_id := make_pod_id (ws_workload_id spec) role ordinal in
  let pod_spec := expand_pod_spec spec pod_id (ws_tenant_id spec) (ws_workload_id spec) role ordinal in
  {| pp_pod_id := pod_id;
     pp_tenant_id := ws_tenant_id spec;
     pp_service := ws_workload_id spec;
     pp_role := role;
     pp_ordinal := ordinal;
     pp_resources :=
       match ps_resources pod_spec with
       | None => default_resources
       | Some r => {| cpu_millicores := wrap_u64 (rr_vcpus r * 1000);
                      memory_bytes := wrap_u64 (rr_memory_mb r * 1024 * 1024) |}
       end;
     pp_previous_node := None;
     pp_priority := ps_priority pod_spec;
     pp_tolerations := ps_tolerations pod_spec |}.

Definition placement_exists (cs : ClusterState) (spec : WorkloadSpec) (role : string)
    (ordinal : Z) : bool :=
  existsb (λ p, bool_decide (pl_tenant_id p = ws_tenant_id spec ∧
    pl_service p = ws_workload_id spec ∧ pl_role p = role ∧ pl_ordinal p = ordinal))
    (cs_placements cs).

(** Pass 1, the body of the loops: the pod to schedule for a slot, if any. *)
Definition pending_slot (db : Db) (cs : ClusterState) (spec : WorkloadSpec) (role : string)
    (ordinal : Z) : result ControllerError (option PendingPod) :=
  existing ← map_err CtrlStorage
    (get_assignment db (ws_tenant_id spec) (ws_workload_id spec) role ordinal);
  let skip :=
    match existing with
    | Some assignment =>
        isSome (oa_current_pod_id assignment) && placement_exists cs spec role ordinal
    | None => false
    end in
  if skip then Ok None
  else if isSome existing then Ok None
  else Ok (Some (new_pod spec role ordinal)).

(** The slots of a workload, in the order of the loops. *)
Definition slots (spec : WorkloadSpec) : list (string * Z) :=
  '(role, count) ← btree_map_iter (ws_replicas spec); (role,.) <$> seqZ 0 count.

Definition collect_pending (db : Db) (cs : ClusterState) (specs : list WorkloadSpec) :
    result ControllerError (list PendingPod) :=
  foldM (λ pending spec,
    foldM (λ pending '(role, ordinal),
      pod ← pending_slot db cs spec role ordinal;
      Ok (pending ++ option_list pod)) (slots spec) pending) specs [].

Definition commit_scheduling (pod : PendingPod) (node_id : SpiffeId) : ctrl () :=
  propose (RecordOrdinalAssignment {|
    oa_tenant_id := pp_tenant_id pod; oa_service := pp_service pod; oa_role := pp_role pod;
    oa_ordinal := pp_ordinal pod;
    oa_current_pod_id := Some (pp_pod_id pod);
    oa_current_node_id := Some (spiffe_to_string node_id) |});;
  propose (CommitPlacement {|
    pl_pod_id := pp_pod_id pod; pl_tenant_id := pp_tenant_id pod; pl_service := pp_service pod;
    pl_role := pp_role pod; pl_ordinal := pp_ordinal pod; pl_node_id := node_id;
    pl_resources := pp_resources pod |}).

(** The record of a slot nobody is in. *)
Definition freed_assignment (p : Placement) : OrdinalAssignment := {|
  oa_tenant_id := pl_tenant_id p; oa_service := pl_service p; oa_role := pl_role p;
  oa_ordinal := pl_ordinal p; oa_current_pod_id := None; oa_current_node_id := None |}.

(** The event of an eviction; [timestamp_unix: 0] is filled in by the emitter. *)
Definition evicting_event (pod_id node_id reason message : string) : PodEvent := {|
  ev_pod_id := pod_id; ev_node_id := node_id; ev_event_type := "Evicting";
  ev_reason := reason; ev_message := message; ev_timestamp_unix := 0; ev_count := 1 |}.

Definition apply_preemption (now : Z) (pod : PendingPod) (plan : PreemptionPlan) : ctrl () :=
  for_each (λ victim,
    emit_event now (evicting_event (pl_pod_id victim) (spiffe_to_string (pl_node_id victim))
      "Preemption" ("preempted by " +:+ pp_pod_id pod));;
    propose (RemovePlacement (pl_pod_id victim));;
    propose (RecordOrdinalAssignment (freed_assignment victim))) (plan_victims plan);;
  commit_scheduling pod (plan_node_id plan).

Definition allocate_service_addresses (spec : WorkloadSpec) : ctrl () :=
  for_each (λ '(role, _),
    o ← reads (λ db, map_err CtrlDummyIp
      (get_service_address db (ws_tenant_id spec) (ws_workload_id spec) role));
    match o with
    | Some _ => mret ()
    | None =>
        '(block, address) ← reads (λ db, map_err CtrlDummyIp
          (compute_service_address_allocation db (ws_tenant_id spec) (ws_workload_id spec) role));
        propose (AllocateServiceAddress block address)
    end) (btree_map_iter (ws_replicas spec)).

(** [e.to_string()] of the scheduler's error. *)
Definition scheduler_error_message (e : SchedulerError) : string :=
  match e with
  | NoSuitableNode pod_id reason =>
      "no suitable node found for pod " +:+ pod_id +:+ ": " +:+ reason
  end.
Definition failed_scheduling_event (pod_id message : string) : PodEvent := {|
  ev_pod_id := pod_id; ev_node_id := ""; ev_event_type := "FailedScheduling";
  ev_reason := "Unschedulable"; ev_message := message; ev_timestamp_unix := 0; ev_count := 1 |}.

(** Pass 3: every pod against the same cluster view; the pods left over. *)
Fixpoint schedule_pending (now : Z) (cs : ClusterState) (pending : list PendingPod) :
    ctrl (list PendingPod) :=
  match pending with
  | [] => mret []
  | pod :: pending =>
      match schedule DefaultScheduler_new pod cs with
      | Ok decision =>
          commit_scheduling pod (sd_node_id decision);;
          schedule_pending now cs pending
      | Err e =>
          emit_event now (failed_scheduling_event (pp_pod_id pod) (scheduler_error_message e));;
          unscheduled ← schedule_pending now cs pending;
          mret (pod :: unscheduled)
      end
  end.

(** Pass 4. *)
Definition preempt_for (now : Z) (cs : ClusterState) (specs : list WorkloadSpec)
    (pod : PendingPod) : ctrl () :=
  let priorities := workload_priority_map specs in
  let priority_of p := default 0 (priorities !! (pl_tenant_id p, pl_service p)) in
  match find_preemption_plan pod cs priority_of with
  | Some plan => apply_preemption now pod plan
  | None => mret ()
  end.

Definition reconcile_all (now : Z) (specs : list WorkloadSpec) : ctrl () :=
  match specs with
  | [] => mret ()
  | _ =>
      cluster_state ← reads build_cluster_state;
      pending ← reads (λ db, collect_pending db cluster_state specs);
      unscheduled ← schedule_pending now cluster_state (order_pending pending);
      for_each (preempt_for now cluster_state specs) (filter (λ p, 0 < pp_priority p) unscheduled);;
      for_each allocate_service_addresses specs
  end.

Definition reconcile (now : Z) (spec : WorkloadSpec) : ctrl () := reconcile_all now [spec].

(** The body of the workload loop ([main.rs]). *)
Definition workload_tick (now : Z) : ctrl () :=
  logged (
    workloads ← reads (λ db, map_err CtrlStorage (list_workloads db));
    for_each (λ record,
      match (decode (wsr_spec_bytes record) : option WorkloadSpec) with
      | Some _ => mret ()
      | None => warn (UndecodableSpec (wsr_workload_id record))
      end) workloads;;
    reconcile_all now (omap (λ record, decode (wsr_spec_bytes record)) workloads)).
End WorkloadController.

(** ** The pod controller *)
Section PodController.
Context `{R : Raft}.

Definition reconcile_dead_pod (tenant_id workload_id role : string) (ordinal : Z) : ctrl () :=
  assignment ← reads (λ db, map_err CtrlStorage (get_assignment db tenant_id workload_id role ordinal));
  match assignment with
  | None => λ w, (w, Err (CtrlStorage (StorageNotFound
      ("ordinal assignment for " +:+ ordinal_key tenant_id workload_id role ordinal))))
  | Some _ =>
      propose (ReassignPodId tenant_id workload_id role ordinal
        (make_pod_id workload_id role ordinal))
  end.

Definition handle_scale_down (tenant_id workload_id role : string) (new_count : Z) : ctrl () :=
  assignments ← reads (λ db, map_err CtrlStorage
    (get_assignments_for_service_role db tenant_id workload_id role));
  for_each (λ assignment,
    if new_count <=? oa_ordinal assignment then
      propose (RecordOrdinalAssignment {|
        oa_tenant_id := tenant_id; oa_service := workload_id; oa_role := role;
        oa_ordinal := oa_ordinal assignment;
        oa_current_pod_id := None; oa_current_node_id := None |});;
      match oa_current_pod_id assignment with
      | Some pod_id => propose (RemovePlacement pod_id)
      | None => mret ()
      end
    else mret ()) assignments.

(** The verdict of the pod loop on a slot ([main.rs]). *)
Definition is_dead (db : Db) (now staleness_secs : Z) (spec : WorkloadSpec) (role : string)
    (ordinal : Z) : bool :=
  let placement :=
    placements ← ok (list_placements db);
    head (filter (λ p, pl_tenant_id p = ws_tenant_id spec ∧ pl_service p = ws_workload_id spec ∧
      pl_role p = role ∧ pl_ordinal p = ordinal) placements) in
  match placement with
  | None => true
  | Some p =>
      match get_workload_status db (pl_pod_id p) with
      | Ok (Some status) => status_is_dead status now staleness_secs
      | _ => false
      end
  end.

(** The body of the pod loop. *)
Definition pod_tick (now staleness_secs : Z) : ctrl () :=
  logged (
    workloads ← reads (λ db, map_err CtrlStorage (list_workloads db));
    for_each (λ record,
      match (decode (wsr_spec_bytes record) : option WorkloadSpec) with
      | None => mret ()
      | Some spec =>
          for_each (λ '(role, count),
            for_each (λ ordinal, λ w,
              if is_dead (w_db w) now staleness_secs spec role ordinal
              then logged (reconcile_dead_pod (ws_tenant_id spec) (ws_workload_id spec) role ordinal) w
              else (w, Ok ())) (seqZ 0 count)) (hash_iter (ws_replicas spec))
      end) workloads).
End PodController.

(** ** The node controller *)
Section NodeController.
Context `{R : Raft}.

(** [now + self.node_ttl_secs as i64]. *)
Definition evict_node (now node_ttl_secs : Z) (node_id : SpiffeId) : ctrl () :=
  propose (EvictNode (spiffe_to_string node_id) (now + node_ttl_secs));;
  propose (PruneExpiredRevokedSvids now).

(** [handle_heartbeat] only logs. *)
Definition handle_heartbeat (node_id : SpiffeId) : ctrl () := mret ().

Definition lookup_tolerations (db : Db) (tenant_id service : string) : list Toleration :=
  match lookup_workload_spec db tenant_id service with
  | Some spec => default [] (ps_tolerations <$> ws_pod_spec spec)
  | None => []
  end.

Definition node_placements (db : Db) (node_id : SpiffeId) : list Placement :=
  filter (λ p, pl_node_id p = node_id) (omap (λ v, from_bytes v) (values db ks_placements "")).

(** Evicting one pod of the plan. *)
Definition evict_pod (now : Z) (node_id : string) (placements : list Placement) (pod_id : string) :
    ctrl () :=
  match head (filter (λ p, pl_pod_id p = pod_id) placements) with
  | None => mret ()
  | Some p =>
      emit_event now (evicting_event pod_id node_id "NoExecuteTaint" "");;
      propose (RemovePlacement pod_id);;
      propose (RecordOrdinalAssignment (freed_assignment p))
  end.

Definition enforce_on (now : Z) (node_id : string) (taints : list NodeTaint)
    (node_spiffe : SpiffeId) : ctrl () := λ w,
  let placements := node_placements (w_db w) node_spiffe in
  match placements with
  | [] => (w, Ok ())
  | _ =>
      let evictions := plan_no_execute_evictions now taints placements
        (λ p, lookup_tolerations (w_db w) (pl_tenant_id p) (pl_service p)) in
      for_each (evict_pod now node_id placements) evictions w
  end.

(** The body of the loop over the tainted nodes. *)
Definition enforce_node (now : Z) (guard : result IoError (bytes * bytes)) : ctrl () :=
  '(key, value) ← reads (λ _, map_err (CtrlStorage ∘ StorageIo) guard);
  match (from_bytes value : option (list NodeTaint)) with
  | None => mret ()
  | Some taints =>
      if existsb (λ t, bool_decide (nt_effect t = EFFECT_NO_EXECUTE)) taints then
        match spiffe_parse key with
        | None => mret ()
        | Some node_spiffe => enforce_on now key taints node_spiffe
        end
      else mret ()
  end.

(** The scan runs over a snapshot of the keyspace. *)
Definition enforce_no_execute_taints (now : Z) : ctrl () := λ w,
  for_each (enforce_node now) (prefix (w_db w) ks_node_taints "") w.

(** The lease of one node ([main.rs], the node loop). *)
Definition check_lease (now lease_timeout node_ttl_secs : Z) (record : NodeRecord) : ctrl () :=
  if decide (nr_status record = Evicted) then mret ()
  else if lease_timeout <? now - nr_last_heartbeat record then
    match spiffe_parse (nr_node_id record) with
    | Some spiffe_id => logged (evict_node now node_ttl_secs spiffe_id)
    | None => warn (UnparsableNode (nr_node_id record))
    end
  else mret ().
Definition check_leases (now lease_timeout node_ttl_secs : Z) : ctrl () :=
  logged (
    records ← reads (λ db, map_err CtrlStorage (list_node_records db));
    for_each (check_lease now lease_timeout node_ttl_secs) records).

(** The body of the node loop. *)
Definition node_tick (now lease_timeout node_ttl_secs : Z) : ctrl () :=
  check_leases now lease_timeout node_ttl_secs;;
  logged (enforce_no_execute_taints now).
End NodeController.

(** ** The cron controller

    The [cron] crate parses an expression into a [Schedule]; [due s since now] is
    [schedule.after(&since).take_while(|t| *t <= now)]. Instants are whole seconds;
    [from_timestamp] rejects what a [DateTime] cannot hold. [CronWorkload] is a
    message of [fleetos-core]. *)
Record CronSchedule : Type := { cs_expression : string; cs_suspend : bool }.
Record CronWorkload `{C : Core} : Type := {
  cw_tenant_id : string;
  cw_cron_workload_id : string;
  cw_schedule : option CronSchedule;
  cw_workload_template : option WorkloadSpec
}.

Class Cron `{C : Core} : Type := {
  Schedule : Type;
  schedule_from_str : string → option Schedule;
  due : Schedule → Z → Z → list Z;
  from_timestamp : Z → option Z;
  cron_codec :: Prost CronWorkload
}.

(** Documented behaviour: the iterator yields the scheduled instants after [since],
    in order; a timestamp that is accepted denotes itself. *)
Class CronSpec `{C : Core} (K : Cron) (scheduled : Schedule → Z → Prop) : Prop := {
  elem_of_due s since now t : t ∈ due s since now ↔ scheduled s t ∧ since < t ≤ now;
  due_sorted s since now : StronglySorted Z.lt (due s since now);
  from_timestamp_id t t' : from_timestamp t = Some t' → t' = t
}.

Section CronController.
Context `{R : Raft} `{K : !Cron}.

Definition validate_expression (expr : string) : result ControllerError Schedule :=
  ok_or (CtrlRaft ("invalid cron expression '" +:+ expr +:+ "'")) (schedule_from_str expr).

Definition load_checkpoint (db : Db) (tenant_id cron_workload_id : string) :
    result ControllerError (option CronCheckpointRecord) :=
  r ← map_err (CtrlStorage ∘ StorageIo) (get db ks_cron_checkpoints (pair_key tenant_id cron_workload_id));
  match r with
  | Some b => cp ← ok_or CtrlSerialization (from_bytes b); Ok (Some cp)
  | None => Ok None
  end.

(** The run that is due, with the checkpoint it advances to. *)
Definition cron_run (cron : CronWorkload) (latest_due : Z) (template : WorkloadSpec) : WorkloadSpec := {|
  ws_tenant_id := cw_tenant_id cron;
  ws_workload_id := cw_cron_workload_id cron +:+ "-" +:+ pretty latest_due;
  ws_image := ws_image template; ws_replicas := ws_replicas template;
  ws_pod_spec := ws_pod_spec template; ws_autoscaling := ws_autoscaling template;
  ws_vertical_autoscaling := ws_vertical_autoscaling template;
  ws_budgets := ws_budgets template; ws_placement := ws_placement template;
  ws_rest := ws_rest template |}.

(** The latest instant of [(since, now]], where [since] is the checkpoint. *)
Definition latest_due (db : Db) (now : Z) (cron : CronWorkload) :
    result ControllerError (option Z) :=
  expr ← ok_or (CtrlRaft "cron workload missing schedule") (cs_expression <$> cw_schedule cron);
  schedule ← validate_expression expr;
  checkpoint ← load_checkpoint db (cw_tenant_id cron) (cw_cron_workload_id cron);
  since ← match checkpoint with
    | Some cp => ok_or (CtrlRaft "invalid checkpoint timestamp")
                   (from_timestamp (ccr_last_triggered_at_unix cp))
    | None => Ok now
    end;
  Ok (last (due schedule since now)).

Definition evaluate_and_trigger (now : Z) (cron : CronWorkload) : ctrl bool :=
  if default false (cs_suspend <$> cw_schedule cron) then mret false
  else
    latest ← reads (λ db, latest_due db now cron);
    match latest with
    | None => mret false
    | Some latest =>
        template ← reads (λ _, ok_or (CtrlRaft "cron workload missing workload_template")
          (cw_workload_template cron));
        let spec := cron_run cron latest template in
        propose (TriggerCronWorkload
          {| wsr_tenant_id := ws_tenant_id spec; wsr_workload_id := ws_workload_id spec;
             wsr_spec_bytes := encode_to_vec spec; wsr_last_applied_bytes := "" |}
          {| ccr_tenant_id := cw_tenant_id cron; ccr_cron_workload_id := cw_cron_workload_id cron;
             ccr_last_triggered_at_unix := latest |});;
        reconcile now spec;;
        mret true
    end.

(** The body of the cron loop ([main.rs]). *)
Definition cron_tick (now : Z) : ctrl () :=
  logged (
    cron_workloads ← reads (λ db, map_err CtrlStorage (list_cron_workloads db));
    for_each (λ record,
      match decode (cwr_spec_bytes record) with
      | Some cron => logged (evaluate_and_trigger now cron)
      | None => warn (UndecodableSpec (cwr_cron_workload_id record))
      end) cron_workloads).
End CronController.
