(* ===== verification/Reconcile.v ===== *)
(** * Reconcile: what the controllers' loops do to the replicated state

    Theorems on [Controllers]: an invariant rule for controller computations, the
    pods a reconciliation considers, slots that are never filled again, and the
    lease check. *)

From S2P Require Import Prelude.
From S2P Require Import Storage.
From S2P Require Import Core.
From S2P Require Import Records.
From S2P Require Import WireInstance.
From S2P Require Import Schema.
From S2P Require Import Expansion.
From S2P Require Import Watch.
From S2P Require Import Acl.
From S2P Require Import StateMachine.
From S2P Require Import Apply.
From S2P Require Import Invariant.
From S2P Require Import Demo.
From S2P Require Import Staging.
From S2P Require Import Frame.
From S2P Require Import Eviction.
From S2P Require Import Nodes.
From S2P Require Import Placements.
From S2P Require Import PodEvents.
From S2P Require Import Metrics.
From S2P Require Import Status.
From S2P Require Import Float64.
From S2P Require Import Scheduler.
From S2P Require Import Preemption.
From S2P Require Import Engine.
From S2P Require Import DummyIp.
From S2P Require Import Raft.
From S2P Require Import Controllers.

(** ** Invariants of controller computations

    [keeps P m Q]: [m] keeps [P] of the database, however far it gets, and when it
    returns a value, the value satisfies [Q]. *)
Section Keeps.
Context `{R : Raft} `{!FjallSpec F} `{!RaftSpec R}.

Definition keeps {A} (P : Db → Prop) (m : ctrl A) (Q : A → Prop) : Prop :=
  ∀ w w' r, P (w_db w) → m w = (w', r) → P (w_db w') ∧ ∀ a, r = Ok a → Q a.

Context (P : Db → Prop).

Lemma keeps_ret {A} (a : A) (Q : A → Prop) : Q a → keeps P (mret a) Q.
Proof. intros HQ w w' r HP [= <- <-]. split; [done|]. by intros b [= <-]. Qed.

Lemma keeps_bind {A B} (m : ctrl A) (k : A → ctrl B) Q Q' :
  keeps P m Q → (∀ a, Q a → keeps P (k a) Q') → keeps P (m ≫= k) Q'.
Proof.
  intros Hm Hk w w' r HP H. cbv [mbind ctrl_bind] in H.
  destruct (m w) as [w1 [a|e]] eqn:E; destruct (Hm _ _ _ HP E) as [HP1 HQ].
  - exact (Hk a (HQ a eq_refl) _ _ _ HP1 H).
  - injection H as <- <-. by split.
Qed.

Lemma keeps_reads {A} (f : Db → result ControllerError A) (Q : A → Prop) :
  (∀ db a, P db → f db = Ok a → Q a) → keeps P (reads f) Q.
Proof. intros Hf w w' r HP [= <- <-]. split; [done|]. intros a Ha. by eapply Hf. Qed.

Lemma keeps_weaken {A} (m : ctrl A) (Q Q' : A → Prop) :
  keeps P m Q → (∀ a, Q a → Q' a) → keeps P m Q'.
Proof. intros Hm HQ w w' r HP H. destruct (Hm _ _ _ HP H) as [HP' Ha]. eauto. Qed.

Lemma keeps_for_each {A} (f : A → ctrl ()) l :
  (∀ x, x ∈ l → keeps P (f x) (λ _, True)) → keeps P (for_each f l) (λ _, True).
Proof.
  induction l as [|x l IH]; intros H; cbn; [by apply keeps_ret|].
  eapply keeps_bind; [apply H; left|]. intros _ _. apply IH. intros y Hy. apply H. by right.
Qed.

Lemma keeps_warn x : keeps P (warn x) (λ _, True).
Proof. by intros w w' r HP [= <- <-]. Qed.

Lemma keeps_logged {A} (m : ctrl A) Q : keeps P m Q → keeps P (logged m) (λ _, True).
Proof.
  intros Hm w w' r HP H. unfold logged in H. destruct (m w) as [w1 [a|e]] eqn:E;
    destruct (Hm _ _ _ HP E) as [HP1 _]; injection H as <- <-; by split.
Qed.

Lemma keeps_emit now ev : keeps P (emit_event now ev) (λ _, True).
Proof. by intros w w' r HP [= <- <-]. Qed.

(** A proposal keeps what the entry it may become keeps. *)
Lemma keeps_propose c :
  (∀ sm e sm' r, P (sm_db sm) → payload e = Normal (system c) →
    apply_entry sm e = (sm', Ok r) → P (sm_db sm')) →
  keeps P (propose c) (λ _, True).
Proof.
  intros Hstep w w' r HP H. split; [|done]. unfold propose, write, w_db in *.
  assert (∀ e, payload e = Normal (system c) → P (sm_db (apply_entry (w_sm w) e).1)) as He.
  { intros e Hp. destruct (apply_entry (w_sm w) e) as [sm1 [x|x]] eqn:E; cbn; [by eapply Hstep|].
    by rewrite (proj1 (apply_entry_err _ _ _ _ E)). }
  destruct (client_write (w_sm w) (system c)) as [sm1 [x|m]] eqn:E; injection H as <- <-; cbn.
  - apply client_write_ok in E as (e & Hp & E). specialize (He e Hp). by rewrite E in He.
  - apply client_write_err in E as [->|(e & Hp & <-)]; [done|by apply He].
Qed.
End Keeps.
#[export] Hint Resolve keeps_warn keeps_emit : keeps.

(** ** The commands controllers propose *)
Section Commands.
Context `{C : Core}.

(** Every command a controller loop proposes, but for the runs of cron workloads;
    [Pl] holds of what it places. *)
Definition controller_cmd (Pl : Placement → Prop) (c : FleetosCommand) : Prop :=
  match c with
  | RecordOrdinalAssignment _ | RemovePlacement _ | AllocateServiceAddress _ _
  | ReassignPodId _ _ _ _ _ | EvictNode _ _ | PruneExpiredRevokedSvids _ => True
  | CommitPlacement p => Pl p
  | _ => False
  end.

Definition placement_at (pod : PendingPod) (node_id : SpiffeId) : Placement := {|
  pl_pod_id := pp_pod_id pod; pl_tenant_id := pp_tenant_id pod; pl_service := pp_service pod;
  pl_role := pp_role pod; pl_ordinal := pp_ordinal pod; pl_node_id := node_id;
  pl_resources := pp_resources pod |}.
End Commands.

(** ** The pods a reconciliation considers *)
Section Pending.
Context `{R : Raft} `{!FjallSpec F}.

(** A slot without a record. *)
Definition unrecorded (st : store) (spec : WorkloadSpec) (role : string) (ordinal : Z) : Prop :=
  st !! (ks_ordinals, ordinal_key (ws_tenant_id spec) (ws_workload_id spec) role ordinal) = None.

Lemma pending_slot_ok (db : Db) cs spec role ordinal o :
  pending_slot db cs spec role ordinal = Ok o →
  (o = Some (new_pod spec role ordinal) ∧ unrecorded (contents db) spec role ordinal) ∨
  (o = None ∧ ¬ unrecorded (contents db) spec role ordinal).
Proof.
  unfold pending_slot. intros H. apply bind_ok in H as (existing & Hx & H).
  destruct (get_assignment _ _ _ _ _) as [x|] eqn:E; [|done]. injection Hx as ->.
  unfold get_assignment in E. apply get_record_ok in E. unfold unrecorded.
  destruct (contents db !! _) as [v|]; destruct existing as [a|];
    [|by destruct E as [_ [? ?]]|done|].
  - right. split; [|done]. destruct (_ && _); by injection H as <-.
  - left. by injection H as <-.
Qed.

Lemma collect_slots_ok (db : Db) cs spec l acc pods :
  foldM (λ pending '(role, ordinal),
    pod ← pending_slot db cs spec role ordinal;
    Ok (pending ++ option_list pod)) l acc = Ok pods →
  ∀ pod, pod ∈ pods ↔ pod ∈ acc ∨ ∃ role ordinal, (role, ordinal) ∈ l ∧
    unrecorded (contents db) spec role ordinal ∧ pod = new_pod spec role ordinal.
Proof.
  revert acc. induction l as [|[role ordinal] l IH]; intros acc H pod; cbn in H.
  { injection H as ->. setoid_rewrite elem_of_nil. naive_solver. }
  apply bind_ok in H as (acc' & Ha & H). apply bind_ok in Ha as (o & Ho & Ha).
  injection Ha as <-. rewrite (IH _ H pod), elem_of_app. setoid_rewrite elem_of_cons.
  apply pending_slot_ok in Ho as [[-> Hu]|[-> Hu]].
  - change (option_list (Some ?x)) with [x]. rewrite list_elem_of_singleton. naive_solver.
  - change (option_list None) with (@nil PendingPod). rewrite elem_of_nil. naive_solver.
Qed.

(** A pod is considered exactly when a workload asks for its slot and the slot has
    no record, whether or not somebody is in it. *)
Lemma collect_pending_ok (db : Db) cs specs pods :
  collect_pending db cs specs = Ok pods →
  ∀ pod, pod ∈ pods ↔ ∃ spec role ordinal, spec ∈ specs ∧ (role, ordinal) ∈ slots spec ∧
    unrecorded (contents db) spec role ordinal ∧ pod = new_pod spec role ordinal.
Proof.
  unfold collect_pending. intros H pod.
  assert (∀ l acc, foldM (λ pending spec, foldM (λ pending '(role, ordinal),
      pod ← pending_slot db cs spec role ordinal;
      Ok (pending ++ option_list pod)) (slots spec) pending) l acc = Ok pods →
    (pod ∈ pods ↔ pod ∈ acc ∨ ∃ spec role ordinal, spec ∈ l ∧ (role, ordinal) ∈ slots spec ∧
      unrecorded (contents db) spec role ordinal ∧ pod = new_pod spec role ordinal)) as G.
  { induction l as [|spec l IH]; intros acc Hl; cbn in Hl.
    { injection Hl as ->. setoid_rewrite elem_of_nil. naive_solver. }
    apply bind_ok in Hl as (acc' & Ha & Hl). rewrite (IH _ Hl).
    rewrite (collect_slots_ok _ _ _ _ _ _ Ha pod). setoid_rewrite elem_of_cons. split.
    - intros [[?|(role & o & ?)]|(s & role & o & ? & ?)]; [by left|right; exists spec; eauto|].
      right. exists s, role, o. eauto.
    - intros [?|(s & role & o & [->|?] & ?)]; [by left; left|left; right; eauto|].
      right. exists s, role, o. eauto. }
  rewrite (G _ _ H), elem_of_nil. naive_solver.
Qed.
End Pending.

(** ** What the loops keep *)
Section Ticks.
Context `{R : Raft} `{!FjallSpec F} `{!RaftSpec R}.
Context (P : Db → Prop) (Pl : Placement → Prop).

(** Applied commands keep [P], and where [P] holds, the pods to schedule may be
    placed anywhere. *)
Hypothesis Hstep : ∀ c sm e sm' r, controller_cmd Pl c → P (sm_db sm) →
  payload e = Normal (system c) → apply_entry sm e = (sm', Ok r) → P (sm_db sm').
Hypothesis Hpl : ∀ db cs specs pods pod node, P db → collect_pending db cs specs = Ok pods →
  pod ∈ pods → Pl (placement_at pod node).

Lemma keeps_cmd c : controller_cmd Pl c → keeps P (propose c) (λ _, True).
Proof. intros Hc. apply keeps_propose. intros sm e sm' r. by apply Hstep. Qed.
Hint Extern 1 (keeps _ (propose _) _) => apply keeps_cmd; done : keeps.

Lemma keeps_then {A B} (m : ctrl A) (k : ctrl B) Q :
  keeps P m (λ _, True) → keeps P k Q → keeps P (m;; k) Q.
Proof. intros Hm Hk. by eapply keeps_bind. Qed.

Lemma keeps_commit pod node :
  Pl (placement_at pod node) → keeps P (commit_scheduling pod node) (λ _, True).
Proof. intros H. apply keeps_then; [auto with keeps|]. by apply keeps_cmd. Qed.

Lemma keeps_preemption now pod plan :
  (∀ n, Pl (placement_at pod n)) → keeps P (apply_preemption now pod plan) (λ _, True).
Proof.
  intros H. apply keeps_then; [|by apply keeps_commit]. apply keeps_for_each. intros v _.
  apply keeps_then; [auto with keeps|]. apply keeps_then; auto with keeps.
Qed.

Lemma keeps_schedule_pending now cs pending :
  (∀ pod n, pod ∈ pending → Pl (placement_at pod n)) →
  keeps P (schedule_pending now cs pending) (λ un, ∀ pod, pod ∈ un → pod ∈ pending).
Proof.
  induction pending as [|pod pending IH]; intros H; cbn [schedule_pending].
  { apply keeps_ret. done. }
  specialize (IH ltac:(intros; apply H; by right)).
  destruct (schedule _ pod cs) as [d|e].
  - apply keeps_then; [apply keeps_commit, H; left|].
    eapply keeps_weaken; [exact IH|]. intros un Hun q Hq. right. by apply Hun.
  - apply keeps_then; [auto with keeps|]. eapply keeps_bind; [exact IH|]. intros un Hun.
    apply keeps_ret. intros q [->|Hq]%elem_of_cons; [left|right; by apply Hun].
Qed.

Lemma keeps_addresses spec : keeps P (allocate_service_addresses spec) (λ _, True).
Proof.
  apply keeps_for_each. intros [role n] _. eapply (keeps_bind _ _ _ (λ _, True)).
  { by apply keeps_reads. }
  intros [a|] _; [by apply keeps_ret|]. eapply (keeps_bind _ _ _ (λ _, True)).
  { by apply keeps_reads. }
  intros [block address] _. auto with keeps.
Qed.

Lemma keeps_reconcile_all now specs : keeps P (reconcile_all now specs) (λ _, True).
Proof.
  destruct specs as [|s l]; [by apply keeps_ret|]. set (specs := s :: l). unfold reconcile_all.
  eapply (keeps_bind _ _ _ (λ _, True)); [by apply keeps_reads|]. intros cs _.
  eapply (keeps_bind _ _ _ (λ pods, ∀ pod n, pod ∈ pods → Pl (placement_at pod n))).
  { apply keeps_reads. intros db pods HP H pod n Hin. by eapply Hpl. }
  intros pods Hpods. eapply keeps_bind.
  { apply keeps_schedule_pending. intros pod n Hin. apply Hpods.
    by rewrite <- (sort_by_perm pending_order pods). }
  intros un Hun. apply keeps_then.
  - apply keeps_for_each. intros pod [_ Hin]%list_elem_of_filter. unfold preempt_for.
    destruct (find_preemption_plan _ _ _); [|by apply keeps_ret].
    apply keeps_preemption. intros n. apply Hpods. rewrite <- (sort_by_perm pending_order pods).
    by apply Hun.
  - apply keeps_for_each. intros spec _. apply keeps_addresses.
Qed.

Lemma keeps_workload_tick now : keeps P (workload_tick now) (λ _, True).
Proof.
  eapply keeps_logged, (keeps_bind _ _ _ (λ _, True)); [by apply keeps_reads|]. intros ws _.
  apply keeps_then; [|apply keeps_reconcile_all].
  apply keeps_for_each. intros r _. destruct (decode _); [by apply keeps_ret|auto with keeps].
Qed.

Lemma keeps_dead_pod t w role o : keeps P (reconcile_dead_pod t w role o) (λ _, True).
Proof.
  eapply (keeps_bind _ _ _ (λ _, True)); [by apply keeps_reads|].
  intros [a|] _; [auto with keeps|]. by intros w0 w' r HP [= <- <-].
Qed.

Lemma keeps_pod_tick now stale : keeps P (pod_tick now stale) (λ _, True).
Proof.
  eapply keeps_logged, (keeps_bind _ _ _ (λ _, True)); [by apply keeps_reads|]. intros ws _.
  apply keeps_for_each. intros r _. destruct (decode _) as [spec|]; [|by apply keeps_ret].
  apply keeps_for_each. intros [role n] _. apply keeps_for_each. intros o _ w w' res HP H.
  destruct (is_dead _ _ _ _ _ _); [|by injection H as <- <-].
  by eapply (keeps_logged P _ _ (keeps_dead_pod _ _ _ _)).
Qed.

Lemma keeps_evict_node now ttl id : keeps P (evict_node now ttl id) (λ _, True).
Proof. apply keeps_then; auto with keeps. Qed.

Lemma keeps_enforce now : keeps P (enforce_no_execute_taints now) (λ _, True).
Proof.
  intros w. unfold enforce_no_execute_taints. revert w. intros w w' r HP.
  refine (keeps_for_each P _ _ _ w w' r HP). intros g _.
  eapply (keeps_bind _ _ _ (λ _, True)); [by apply keeps_reads|]. intros [key v] _.
  destruct (from_bytes v) as [ts|]; [|by apply keeps_ret].
  destruct (existsb _ ts); [|by apply keeps_ret].
  destruct (spiffe_parse key) as [id|]; [|by apply keeps_ret].
  intros w1 w2 res HP1. unfold enforce_on.
  destruct (node_placements _ _); [intros [= <- <-]; by split|].
  refine (keeps_for_each P _ _ _ w1 w2 res HP1). intros pod _. unfold evict_pod.
  destruct (head _); [|by apply keeps_ret].
  apply keeps_then; [auto with keeps|]. apply keeps_then; auto with keeps.
Qed.

Lemma keeps_check_lease now lease ttl r : keeps P (check_lease now lease ttl r) (λ _, True).
Proof.
  unfold check_lease. case_decide; [by apply keeps_ret|].
  destruct (_ <? _); [|by apply keeps_ret].
  destruct (spiffe_parse _) as [id|]; [|auto with keeps].
  eapply keeps_logged, keeps_evict_node.
Qed.

Lemma keeps_node_tick now lease ttl : keeps P (node_tick now lease ttl) (λ _, True).
Proof.
  apply keeps_then; [|eapply keeps_logged, keeps_enforce].
  eapply keeps_logged, (keeps_bind _ _ _ (λ _, True)); [by apply keeps_reads|]. intros rs _.
  apply keeps_for_each. intros r _. apply keeps_check_lease.
Qed.

(** The runs of cron workloads are proposed by the cron loop alone. *)
Hypothesis Hrun : ∀ rec cp sm e sm' r, P (sm_db sm) →
  payload e = Normal (system (TriggerCronWorkload rec cp)) →
  apply_entry sm e = (sm', Ok r) → P (sm_db sm').

Lemma keeps_cron_tick `{K : !Cron} now : keeps P (cron_tick now) (λ _, True).
Proof.
  eapply keeps_logged, (keeps_bind _ _ _ (λ _, True)); [by apply keeps_reads|]. intros rs _.
  apply keeps_for_each. intros r _. destruct (decode _) as [cron|]; [|auto with keeps].
  eapply (keeps_logged _ _ (λ _, True)). unfold evaluate_and_trigger.
  destruct (default false _); [by apply keeps_ret|].
  eapply (keeps_bind _ _ _ (λ _, True)); [by apply keeps_reads|].
  intros [latest|] _; [|by apply keeps_ret].
  eapply (keeps_bind _ _ _ (λ _, True)); [by apply keeps_reads|]. intros template _.
  apply keeps_then; [apply keeps_propose, Hrun|]. apply keeps_then; [apply keeps_reconcile_all|].
  by apply keeps_ret.
Qed.
End Ticks.

(** ** Runs of the leader's loops *)
Section Leader.
Context `{R : Raft} `{K : !Cron}.

(** What the leader runs: its loops, in any order, any number of times. *)
Inductive tick : Type :=
| WorkloadTick (now : Z)
| PodTick (now staleness_secs : Z)
| NodeTick (now lease_timeout node_ttl_secs : Z)
| CronTick (now : Z).

Definition run_tick (t : tick) : ctrl () :=
  match t with
  | WorkloadTick now => workload_tick now
  | PodTick now staleness_secs => pod_tick now staleness_secs
  | NodeTick now lease_timeout node_ttl_secs => node_tick now lease_timeout node_ttl_secs
  | CronTick now => cron_tick now
  end.
Definition leader_runs (ts : list tick) (w : World) : World :=
  foldl (λ w t, (run_tick t w).1) w ts.

Lemma leader_keeps `{!FjallSpec F} `{!RaftSpec R} (P : Db → Prop) (Pl : Placement → Prop) ts w :
  (∀ c sm e sm' r, controller_cmd Pl c → P (sm_db sm) →
    payload e = Normal (system c) → apply_entry sm e = (sm', Ok r) → P (sm_db sm')) →
  (∀ rec cp sm e sm' r, P (sm_db sm) → payload e = Normal (system (TriggerCronWorkload rec cp)) →
    apply_entry sm e = (sm', Ok r) → P (sm_db sm')) →
  (∀ db cs specs pods pod node, P db → collect_pending db cs specs = Ok pods →
    pod ∈ pods → Pl (placement_at pod node)) →
  P (w_db w) → P (w_db (leader_runs ts w)).
Proof.
  intros Hstep Hrun Hpl. revert w. induction ts as [|t ts IH]; intros w HP; [done|]. apply IH.
  assert (keeps P (run_tick t) (λ _, True)) as Hk.
  { destruct t; cbn [run_tick].
    - by eapply keeps_workload_tick.
    - by eapply keeps_pod_tick.
    - by eapply keeps_node_tick.
    - by eapply keeps_cron_tick. }
  by apply (Hk w _ _ HP (surjective_pairing _)).
Qed.
End Leader.

(** ** What controller commands write *)
Section CommandWrites.
Context `{F : Fjall} `{C : Core} `{W : !Wire C} `{!FjallSpec F} `{!CoreSpec C}.

(** No controller command removes the record of a slot. *)
Lemma controller_cmd_keeps_record Pl db c b ck k :
  controller_cmd Pl c → apply_command db c [] = Ok (b, ck) →
  last_write b (ks_ordinals, k) ≠ Some None.
Proof.
  intros Hc Hb Hl. destruct (decide (ks_ordinals ∈ cmd_keyspaces c)) as [Hks|Hks];
    [|by rewrite (apply_command_frame _ _ _ _ _ _ Hks Hb) in Hl].
  destruct c; cbn [cmd_keyspaces controller_cmd] in *; try done; try (exfalso; set_solver);
    cbn [apply_command] in Hb.
  - unfold apply_record_ordinal_assignment in Hb. ok_inv. apply last_write_one in Hl as [_ Hl]. done.
  - apply reassign_batch in Hb as [[-> _]|(old & v & p & v1 & v2 & _ & _ & _ & _ & _ & ->)]; [done|].
    cbn in Hl. repeat case_decide; done.
Qed.

(** A placement a controller command writes is one it may place, or a stored one
    under another pod id. *)
Lemma controller_cmd_places Pl db c b ck pod v p :
  controller_cmd Pl c → store_wf (contents db) → apply_command db c [] = Ok (b, ck) →
  last_write b (ks_placements, pod) = Some (Some v) → from_bytes v = Some p →
  Pl p ∨ ∃ old p0 new, placement_of (contents db) old = Some p0 ∧ p = set_pod_id p0 new.
Proof.
  intros Hc Hwf Hb Hl Hv. destruct (decide (ks_placements ∈ cmd_keyspaces c)) as [Hks|Hks];
    [|by rewrite (apply_command_frame _ _ _ _ _ _ Hks Hb) in Hl].
  destruct c; cbn [cmd_keyspaces controller_cmd] in *; try done; try (exfalso; set_solver);
    cbn [apply_command] in Hb.
  - apply apply_evict_node_ok in Hb as (id & v1 & r1 & v2 & _ & _ & _ & _ & _ & _ & ->).
    rewrite evict_last_write, decide_False in Hl by done.
    rewrite evict_placement_ops_write, evict_delegation_ops_other in Hl by naive_solver.
    destruct (_ ≫= _) as [q|]; repeat case_decide; by simplify_eq.
  - unfold apply_commit_placement in Hb. ok_inv. ser_inv. apply last_write_one in Hl as [_ [= ->]].
    left. congruence.
  - unfold apply_remove_placement in Hb. ok_inv. cbn in Hl. by case_decide.
  - apply reassign_batch in Hb as [[-> _]|(old & v0 & p0 & v1 & v2 & Hv0 & Hp0 & _ & Hs1 & _ & ->)];
      [done|]. cbn in Hl. rewrite decide_False in Hl by done.
    repeat case_decide; try done. injection Hl as <-. rewrite Hs1 in Hv. injection Hv as <-.
    right. exists old, p0, new_pod_id. unfold placement_of. by rewrite Hv0.
Qed.
End CommandWrites.

(** ** Slots that have a record *)
Section Starvation.
Context `{R : Raft} `{!FjallSpec F} `{!RaftSpec R} `{!CoreSpec C}.
Context (t s role : string) (o : Z).

(** The slot has a record and nobody is in it. *)
Definition slot_vacant (st : store) : Prop :=
  is_Some (st !! (ks_ordinals, ordinal_key t s role o)) ∧
  ∀ pod p, placement_of st pod = Some p → occupies t s role o p = false.

(** A state that keeps the record and has no new placement of the slot. *)
Lemma slot_vacant_step st st' :
  (∀ k, st' !! (ks_ordinals, k) = st !! (ks_ordinals, k) ∨ is_Some (st' !! (ks_ordinals, k))) →
  (∀ pod p, placement_of st' pod = Some p → occupies t s role o p = true →
    ∃ pod' p', placement_of st pod' = Some p' ∧ occupies t s role o p' = true) →
  slot_vacant st → slot_vacant st'.
Proof.
  intros Ho Hp [Hr Hv]. split.
  - destruct (Ho (ordinal_key t s role o)) as [->|]; done.
  - intros pod p Hpl. destruct (occupies t s role o p) eqn:E; [|done].
    destruct (Hp pod p Hpl E) as (pod' & p' & H & H'). by rewrite (Hv _ _ H) in H'.
Qed.

Lemma controller_cmd_vacant c sm e sm' r :
  controller_cmd (λ p, occupies t s role o p = false) c →
  store_wf (contents (sm_db sm)) → slot_vacant (contents (sm_db sm)) →
  payload e = Normal (system c) → apply_entry sm e = (sm', Ok r) →
  slot_vacant (contents (sm_db sm')).
Proof.
  intros Hc Hwf Hv Hp H. destruct (apply_entry_command _ _ _ _ _ Hp H) as (b & ck & Hb & Hl).
  cbn [cmd system] in Hb.
  assert (∀ k, contents (sm_db sm') !! (ks_ordinals, k) =
    default (contents (sm_db sm) !! (ks_ordinals, k)) (last_write b (ks_ordinals, k))) as Ho
    by (intros k; by rewrite Hl, apply_batch_lookup).
  assert (∀ k, placement_of (contents (sm_db sm')) k =
    (default (contents (sm_db sm) !! (ks_placements, k)) (last_write b (ks_placements, k))
      ≫= from_bytes)) as Hpl
    by (intros k; unfold placement_of; by rewrite Hl, apply_batch_lookup).
  apply (slot_vacant_step (contents (sm_db sm)) (contents (sm_db sm'))); [| |done].
  - intros k. rewrite Ho. destruct (last_write b (ks_ordinals, k)) as [[v|]|] eqn:E; cbn;
      [right; by eexists| |by left]. exfalso.
    by eapply controller_cmd_keeps_record.
  - intros pod p Hq Hocc. rewrite Hpl in Hq.
    destruct (last_write b (ks_placements, pod)) as [[v|]|] eqn:E; cbn in Hq; [|done|by exists pod, p].
    destruct (controller_cmd_places _ _ _ _ _ _ _ _ Hc Hwf Hb E Hq) as [Hno|(old & p0 & new & H0 & ->)];
      [congruence|by exists old, p0].
Qed.
End Starvation.

Section StarvationProperty.
Context `{R : Raft} `{K : !Cron} `{!FjallSpec F} `{!RaftSpec R} `{!CoreSpec C}.

(** A slot that has a record is filled once only: when nobody is in it (its pod
    was preempted, evicted for a taint or with its node, scaled down or deleted),
    then however long the leader runs its loops, in whatever order, no pod is ever
    placed in it again, although the loops are meant to fill it. *)
Theorem vacant_slot_starves w ts t s role o :
  store_wf (contents (w_db w)) → slot_vacant t s role o (contents (w_db w)) →
  ∀ pod p, placement_of (contents (w_db (leader_runs ts w))) pod = Some p →
    occupies t s role o p = false.
Proof.
  intros Hwf Hv.
  assert (store_wf (contents (w_db (leader_runs ts w))) ∧
    slot_vacant t s role o (contents (w_db (leader_runs ts w)))) as [_ [_ H]]; [|exact H].
  apply (leader_keeps (λ db, store_wf (contents db) ∧ slot_vacant t s role o (contents db))
    (λ p, occupies t s role o p = false)); [| | |done].
  - intros c sm e sm' r Hc [Hwf1 Hv1] Hp H. split.
    + eapply apply_entry_wf; [done| |done]. unfold entry_ok. rewrite Hp. by destruct c.
    + by eapply controller_cmd_vacant.
  - intros rec cp sm e sm' r [Hwf1 Hv1] Hp H. split.
    + eapply apply_entry_wf; [done| |done]. unfold entry_ok. by rewrite Hp.
    + assert (∀ ks k, bookkeeping ks = false → ks ∉ [ks_workloads; ks_cron_checkpoints] →
        contents (sm_db sm') !! (ks, k) = contents (sm_db sm) !! (ks, k)) as Hf.
      { intros ks k Hbk Hks. apply (apply_entry_frame _ e _ r); [done| |done].
        unfold entry_keyspaces. by rewrite Hp. }
      unfold slot_vacant, placement_of in *. destruct Hv1 as [Ho Hpl].
      rewrite Hf by set_solver. split; [done|]. intros pod p.
      rewrite Hf by set_solver. apply Hpl.
  - intros db cs specs pods pod node [_ [[v Hrec] _]] Hcol Hin.
    apply (collect_pending_ok db cs specs pods Hcol) in Hin as (spec & role' & o' & _ & _ & Hu & ->).
    unfold occupies. cbn. destruct (_ && _) eqn:E; [|done].
    rewrite !andb_true_iff, !bool_decide_eq_true in E. destruct E as [[[<- <-] <-] <-].
    unfold unrecorded in Hu. congruence.
Qed.
End StarvationProperty.

(** ** The lease check *)
Section Lease.
Context `{R : Raft} `{!FjallSpec F} `{!RaftSpec R} `{!CoreSpec C}.

Lemma propose_ok c w w' :
  propose c w = (w', Ok ()) →
  w_warnings w' = w_warnings w ∧ ∃ e r, payload e = Normal (system c) ∧
    apply_entry (w_sm w) e = (w_sm w', Ok r).
Proof.
  unfold propose, write. destruct (client_write (w_sm w) (system c)) as [sm [r|m]] eqn:E; [|done].
  intros [= <-]. cbn. apply client_write_ok in E as (e & Hp & He). eauto.
Qed.

(** The node is marked evicted, and no pod is placed on it. *)
Definition node_cleared (n : string) (id : SpiffeId) (db : Db) : Prop :=
  store_wf (contents db) ∧ status_evicted (contents db) n ∧
  ∀ pod p, placement_of (contents db) pod = Some p → pl_node_id p ≠ id.

Lemma controller_cmd_cleared n id c sm e sm' r :
  controller_cmd (λ p, pl_node_id p ≠ id) c → node_cleared n id (sm_db sm) →
  payload e = Normal (system c) → apply_entry sm e = (sm', Ok r) → node_cleared n id (sm_db sm').
Proof.
  intros Hc (Hwf & Hev & Hpl) Hp H. split_and!.
  - eapply apply_entry_wf; [done| |done]. unfold entry_ok. rewrite Hp. by destruct c.
  - eapply apply_entry_keeps_evicted; [done..| |done].
    intros (a & r' & Ha & Hr & _). rewrite Hp in Ha. injection Ha as <-. cbn in Hr. by subst c.
  - destruct (apply_entry_command _ _ _ _ _ Hp H) as (b & ck & Hb & Hl).
    intros pod p. unfold placement_of. rewrite Hl, apply_batch_lookup by done.
    destruct (last_write b (ks_placements, pod)) as [[v|]|] eqn:E; cbn; [|done|apply Hpl].
    intros Hv. destruct (controller_cmd_places _ _ _ _ _ _ _ _ Hc Hwf Hb E Hv)
      as [|(old & p0 & new & H0 & ->)]; [done|]. by apply (Hpl old p0).
Qed.

(** A successful eviction clears the node. *)
Lemma evict_node_clears now ttl id w w' :
  store_wf (contents (w_db w)) → evict_node now ttl id w = (w', Ok ()) →
  node_cleared (spiffe_to_string id) id (w_db w').
Proof.
  intros Hwf H. unfold evict_node in H. cbv [mbind ctrl_bind] in H.
  destruct (propose (EvictNode _ _) w) as [w1 [[]|]] eqn:E1; [|done].
  apply propose_ok in E1 as (_ & e1 & r1 & Hp1 & He1).
  apply propose_ok in H as (_ & e2 & r2 & Hp2 & He2).
  unfold w_db in *. refine (controller_cmd_cleared _ _ _ _ _ _ _ _ _ Hp2 He2); [done|].
  destruct (evict_entry_lookup _ _ _ _ _ _ _ Hwf Hp1 eq_refl He1)
    as (id' & v1 & rec & v2 & Hid & Hv1 & Hst & _ & _ & Hl).
  rewrite parse_to_string in Hid. injection Hid as <-. split_and!.
  - eapply apply_entry_wf; [done| |done]. unfold entry_ok. by rewrite Hp1.
  - exists v1, rec. split_and!; [|done..]. rewrite Hl by done. rewrite decide_False by done.
    rewrite evict_placement_ops_other, evict_delegation_ops_other by naive_solver.
    by rewrite decide_True.
  - intros pod p. unfold placement_of. rewrite Hl by done. rewrite decide_False by done.
    rewrite evict_placement_ops_write by done.
    destruct (contents _ !! (ks_placements, pod)) as [v|] eqn:Ev; cbn.
    + destruct (from_bytes v) as [q|] eqn:Eq.
      * case_decide as Hd; [done|]. rewrite evict_delegation_ops_other, decide_False by naive_solver.
        cbn. rewrite Eq. naive_solver.
      * rewrite evict_delegation_ops_other, decide_False by naive_solver. cbn. by rewrite Eq.
    + by rewrite evict_delegation_ops_other, decide_False by naive_solver.
Qed.

Lemma evict_node_warnings now ttl id w : w_warnings (evict_node now ttl id w).1 = w_warnings w.
Proof.
  assert (∀ c w, w_warnings (propose c w).1 = w_warnings w) as Hp.
  { intros c w0. unfold propose, write. by destruct (client_write _ _). }
  unfold evict_node. cbv [mbind ctrl_bind].
  pose proof (Hp (EvictNode (spiffe_to_string id) (now + ttl)) w) as H1.
  destruct (propose (EvictNode _ _) w) as [w1 [x|x]]; cbn in *; [|done]. by rewrite Hp, H1.
Qed.

(** The lease of a node has run out. *)
Definition expired (now lease : Z) (r : NodeRecord) : Prop :=
  nr_status r ≠ Evicted ∧ lease < now - nr_last_heartbeat r.

(** Checking a lease never fails: it evicts the node, or leaves it, or warns. *)
Lemma check_lease_cases now lease ttl r w :
  ∃ w', check_lease now lease ttl r w = (w', Ok ()) ∧
    ((w_warnings w' = w_warnings w ∧ ∀ id, expired now lease r →
        spiffe_parse (nr_node_id r) = Some id → evict_node now ttl id w = (w', Ok ())) ∨
     ∃ x, w_warnings w' = w_warnings w ++ [x]).
Proof.
  unfold check_lease, expired. case_decide;
    [exists w; split; [done|left; split; [done|by intros id []]]|].
  destruct (Z.ltb_spec lease (now - nr_last_heartbeat r));
    [|exists w; split; [done|left; split; [done|intros id []; lia]]].
  destruct (spiffe_parse _) as [id|]; [|eexists; split; [done|right; by eexists]].
  unfold logged. pose proof (evict_node_warnings now ttl id w) as Hw.
  destruct (evict_node now ttl id w) as [w1 [[]|x]] eqn:E; cbn in Hw.
  - exists w1. split; [done|]. left. split; [done|]. intros id' _ [= <-]. exact E.
  - eexists. split; [done|]. right. eexists. cbn. by rewrite Hw.
Qed.

(** A pass over a list of records. *)
Definition lease_pass (now lease ttl : Z) (l : list NodeRecord) (w : World) : World :=
  foldl (λ w r, (check_lease now lease ttl r w).1) w l.

Lemma lease_pass_spec now lease ttl l w :
  for_each (check_lease now lease ttl) l w = (lease_pass now lease ttl l w, Ok ()) ∧
  ∃ g, w_warnings (lease_pass now lease ttl l w) = w_warnings w ++ g.
Proof.
  revert w. induction l as [|r l IH]; intros w.
  { split; [done|]. exists []. by rewrite app_nil_r. }
  unfold lease_pass. cbn [for_each foldl]. cbv [mbind ctrl_bind].
  destruct (check_lease_cases now lease ttl r w) as (w1 & E & Hw). rewrite E. cbn.
  destruct (IH w1) as [-> [g Hg]]. split; [done|]. fold (lease_pass now lease ttl l w1). rewrite Hg.
  destruct Hw as [[-> _]|[x ->]]; [by exists g|]. exists ([x] ++ g). by rewrite app_assoc.
Qed.

Lemma lease_pass_keeps (P : Db → Prop) Pl now lease ttl l w :
  (∀ c sm e sm' r, controller_cmd Pl c → P (sm_db sm) →
    payload e = Normal (system c) → apply_entry sm e = (sm', Ok r) → P (sm_db sm')) →
  P (w_db w) → P (w_db (lease_pass now lease ttl l w)).
Proof.
  intros Hstep HP. pose proof (proj1 (lease_pass_spec now lease ttl l w)) as E.
  refine (proj1 (keeps_for_each P _ l _ _ _ _ HP E)). intros r _. by eapply keeps_check_lease.
Qed.

Lemma controller_cmd_wf c sm e sm' r :
  controller_cmd (λ _, True) c → store_wf (contents (sm_db sm)) → payload e = Normal (system c) →
  apply_entry sm e = (sm', Ok r) → store_wf (contents (sm_db sm')).
Proof.
  intros Hc Hwf Hp H. eapply apply_entry_wf; [done| |done]. unfold entry_ok. rewrite Hp. by destruct c.
Qed.

(** The nodes with an expired lease, after a pass that warned of nothing. *)
Lemma lease_pass_clears now lease ttl rec id l w :
  store_wf (contents (w_db w)) → rec ∈ l → expired now lease rec →
  spiffe_parse (nr_node_id rec) = Some id →
  w_warnings (lease_pass now lease ttl l w) = w_warnings w →
  node_cleared (spiffe_to_string id) id (w_db (lease_pass now lease ttl l w)).
Proof.
  intros Hwf (l1 & l2 & ->)%list_elem_of_split Hexp Hid Hq.
  unfold lease_pass in *. rewrite foldl_app in Hq |- *. cbn [foldl] in Hq |- *.
  fold (lease_pass now lease ttl l1 w) in Hq |- *.
  destruct (check_lease_cases now lease ttl rec (lease_pass now lease ttl l1 w)) as (w2 & E & Hw).
  rewrite E in Hq |- *. cbn [fst] in Hq |- *. fold (lease_pass now lease ttl l2 w2) in Hq |- *.
  apply (lease_pass_keeps _ (λ p, pl_node_id p ≠ id)).
  { intros c sm e sm' r. apply controller_cmd_cleared. }
  destruct (proj2 (lease_pass_spec now lease ttl l1 w)) as [g1 H1].
  destruct (proj2 (lease_pass_spec now lease ttl l2 w2)) as [g2 H2].
  destruct Hw as [[_ Hev]|[x Hx]].
  - eapply evict_node_clears; [|by eapply Hev].
    eapply (lease_pass_keeps (λ db, store_wf (contents db)) (λ _, True)); [|done].
    intros c sm e sm' r. apply controller_cmd_wf.
  - apply (f_equal length) in Hq. rewrite H2, Hx, H1, !length_app in Hq. cbn in Hq. lia.
Qed.

(** C33. A node whose lease has run out is gone after one pass of the node loop: when
    the lease check logs no warning, every registered node that has not sent a
    heartbeat within the lease is marked evicted at the end of the pass, and no pod
    is placed on it. *)
Theorem lease_expiry_evicts now lease ttl w n v rec id :
  store_wf (contents (w_db w)) →
  contents (w_db w) !! (ks_nodes, n) = Some v → from_bytes v = Some rec →
  expired now lease rec → spiffe_parse n = Some id → spiffe_to_string id = n →
  w_warnings (check_leases now lease ttl w).1 = w_warnings w →
  let st' := contents (w_db (node_tick now lease ttl w).1) in
  status_evicted st' n ∧ ∀ pod p, placement_of st' pod = Some p → pl_node_id p ≠ id.
Proof.
  intros Hwf Hv Hrec Hexp Hid Hn Hq. cbv zeta. rewrite <- Hn at 1.
  enough (node_cleared (spiffe_to_string id) id (w_db (node_tick now lease ttl w).1)) as (_ & H & H');
    [done|].
  assert (node_cleared (spiffe_to_string id) id (w_db (check_leases now lease ttl w).1) ∧
    (check_leases now lease ttl w).2 = Ok ()) as [Hc Hok].
  { unfold check_leases, logged in *. cbv [mbind ctrl_bind reads] in *.
    destruct (list_node_records (w_db w)) as [records|x] eqn:El; cbn [map_err] in *.
    2:{ cbn in Hq. apply (f_equal length) in Hq. rewrite length_app in Hq. cbn in Hq. lia. }
    destruct (lease_pass_spec now lease ttl records w) as [E _]. rewrite E in *. cbn [fst snd] in *.
    split; [|done]. apply (lease_pass_clears _ _ _ rec); try done.
    - unfold list_node_records in El. apply list_records_ok in El as ->.
      apply list_elem_of_omap. exists (n, v). split; [|done]. apply elem_of_scan.
      by rewrite starts_with_nil.
    - by rewrite (wf_node _ _ _ _ Hwf Hv Hrec). }
  unfold node_tick. cbv [mbind ctrl_bind].
  destruct (check_leases now lease ttl w) as [w1 x]. cbn in Hc, Hok. subst x.
  refine (proj1 (keeps_logged _ _ _ (keeps_enforce _ (λ p, pl_node_id p ≠ id) _ now) _ _ _ Hc
    (surjective_pairing _))).
  intros c sm e sm' r. apply controller_cmd_cleared.
Qed.
End Lease.

(** ** Witnesses *)
Import DemoInstances.

(** A cluster of one, and the schedule that is due every minute. *)
Module LeaderDemo.
#[export] Instance demo_raft : Raft := local_raft.
#[export] Instance demo_raft_spec : RaftSpec demo_raft := local_raft_spec.

#[export] Instance codec_CronSchedule : Codec CronSchedule :=
  codec_iso (λ r, (cs_expression r, cs_suspend r)) (λ '(x1, x2), Build_CronSchedule x1 x2)
    ltac:(by intros []).
#[export] Instance codec_CronWorkload : Codec CronWorkload :=
  codec_iso (λ r : CronWorkload, (cw_tenant_id r, (cw_cron_workload_id r,
      (cw_schedule r, cw_workload_template r))))
    (λ '(x1, (x2, (x3, x4))), Build_CronWorkload _ x1 x2 x3 x4) ltac:(by intros []).

Definition every_minute (t : Z) : Prop := t mod 60 = 0.
#[export] Instance demo_cron : Cron := {|
  Schedule := ();
  schedule_from_str _ := Some tt;
  due _ since now := filter every_minute (seqZ (since + 1) (now - since));
  from_timestamp t := Some t;
  cron_codec := prost_of codec_CronWorkload
|}.
#[export] Instance demo_cron_spec : CronSpec demo_cron (λ _, every_minute).
Proof.
  split.
  - intros s since now t. cbn. rewrite list_elem_of_filter, elem_of_seqZ. intuition lia.
  - intros s since now. cbn. generalize (since + 1) (now - since). intros a n.
    destruct (Z.neg_nonneg_cases n) as [Hn|Hn]; [rewrite seqZ_nil by lia; constructor|].
    revert a. pattern n. apply natlike_ind; [constructor| |done]. clear n Hn. intros n Hn IH a.
    rewrite seqZ_cons by lia. rewrite filter_cons, Z.pred_succ.
    destruct (decide (every_minute a)); [|apply IH]. constructor; [apply IH|].
    apply Forall_forall. intros t [_ Ht%elem_of_seqZ]%list_elem_of_filter. lia.
  - by intros t t' [= <-].
Qed.
End LeaderDemo.
Import LeaderDemo.

Definition demo_emitter : PodEventEmitter :=
  {| pee_store := PodEventStore_new; pee_published := [] |}.
Definition demo_world (sm : FjallStateMachine) : World :=
  {| w_sm := sm; w_events := demo_emitter;
     w_local := {| ls_metrics := MetricsStore_new; ls_scale_down_since := ∅; ls_shrink_since := ∅ |};
     w_warnings := [] |}.

(** Slots that have a record and nobody in them, by evaluation. *)
Lemma slot_vacant_check t s role o st :
  isSome (st !! (ks_ordinals, ordinal_key t s role o)) = true →
  forallb (λ p, negb (occupies t s role o p)) (stored_placements st) = true →
  slot_vacant t s role o st.
Proof.
  intros H1 H2. split; [by destruct (st !! _)|].
  intros pod p (v & Hv & Hp)%bind_Some. apply negb_true_iff.
  apply (proj1 (forallb_forall _ _) H2 p), list_elem_of_In, elem_of_stored_placements.
  by exists pod, v.
Qed.

(** The third slot of the demo workload was freed; its spec still asks for it. *)
Definition freed_sm : FjallStateMachine :=
  (apply demo_sm [demo_entry 7 (SubmitWorkloadSpec (demo_workload 3));
    demo_entry 8 (RecordOrdinalAssignment {|
      oa_tenant_id := "acme"; oa_service := "web"; oa_role := "primary"; oa_ordinal := 2;
      oa_current_pod_id := None; oa_current_node_id := None |})]).1.

Lemma vacant_slot_starves_witness :
  slot_vacant "acme" "web" "primary" 2 (contents (w_db (demo_world freed_sm))) ∧
  ∀ pod p, placement_of (contents (w_db (leader_runs [WorkloadTick 200; PodTick 210 60;
      NodeTick 220 60 3600; WorkloadTick 230] (demo_world freed_sm)))) pod = Some p →
    occupies "acme" "web" "primary" 2 p = false.
Proof.
  split; [apply slot_vacant_check; vm_refl|]. apply vacant_slot_starves.
  - eapply (apply_wf demo_sm); [apply demo_wf| |apply surjective_pairing].
    repeat (constructor; [done|]). constructor.
  - apply slot_vacant_check; vm_refl.
Defined.

Lemma lease_expiry_evicts_witness :
  status_evicted (contents (w_db (node_tick 200 60 3600 (demo_world demo_sm)).1)) "spiffe://n1" ∧
  ∀ pod p, placement_of (contents (w_db (node_tick 200 60 3600 (demo_world demo_sm)).1)) pod = Some p →
    pl_node_id p ≠ ("n1" : @SpiffeId demo_core).
Proof.
  apply (lease_expiry_evicts 200 60 3600 (demo_world demo_sm) "spiffe://n1"
    (default "" (contents (sm_db demo_sm) !! (ks_nodes, "spiffe://n1"))) (demo_node "spiffe://n1") ("n1" : @SpiffeId demo_core)).
  - apply demo_wf.
  - apply isSome_default. vm_refl.
  - vm_refl.
  - split; [discriminate|reflexivity].
  - reflexivity.
  - reflexivity.
  - apply nil_length_inv. vm_refl.
Defined.

(** ** One pass overcommits a node

    All pods of a pass are scheduled against the cluster view built at its start, so
    that two pods that fit on the only node one at a time are both placed there. *)
Definition big_spec : WorkloadSpec := {|
  ws_tenant_id := "acme"; ws_workload_id := "big"; ws_image := "big:1";
  ws_replicas := {["primary" := 2]};
  ws_pod_spec := Some {|
    ps_tenant_id := ""; ps_workload_id := ""; ps_role := ""; ps_image := "";
    ps_ordinal := None; ps_pod_id := None;
    ps_resources := Some {| rr_vcpus := 3; rr_memory_mb := 0; rr_rest := tt |};
    ps_tolerations := []; ps_priority := 0; ps_runtime := ""; ps_env := [];
    ps_labels := []; ps_init_containers := []; ps_rest := tt |};
  ws_autoscaling := None; ws_vertical_autoscaling := None; ws_budgets := ∅; ws_placement := 0; ws_rest := tt |}.

Definition one_node_sm : FjallStateMachine :=
  (apply demo_init [
    demo_entry 1 (RegisterNode (demo_node "spiffe://n1"));
    demo_entry 2 (CreateTenant {| tr_tenant_id := "acme"; tr_created_at := 0; tr_last_applied_bytes := "" |}
      {| tb_tenant_id := "acme"; tb_base := 0xF0000000; tb_prefix := 16; tb_next_offset := 0 |})]).1.

(** One reconciliation can place more on a node than the node has: the two pods
    of a workload that asks for 3000 millicores each are both placed on the only
    node, which has 4000. *)
Theorem one_pass_overcommits :
  let out := reconcile_all 0 [big_spec] (demo_world one_node_sm) in
  ok out.2 = Some () ∧ nr_capacity_cpu_millicores (demo_node "spiffe://n1") = 4000 ∧
  ((λ p, (pl_pod_id p, spiffe_to_string (pl_node_id p), cpu_millicores (pl_resources p))) <$>
    stored_placements (contents (w_db out.1))) =
    [("big-primary-0", "spiffe://n1", 3000); ("big-primary-1", "spiffe://n1", 3000)].
Proof. cbv zeta. split_and!; vm_refl. Qed.
