(* ===== verification/Hpa.v ===== *)
(** * Hpa: the horizontal pod autoscaler

    Models [src/controllers/hpa_controller.rs]: the arithmetic of desired replicas,
    their distribution over the roles of a workload, and the evaluation of a
    workload, which proposes [ScaleWorkload]. *)

From S2P Require Import Prelude.
From S2P Require Import Storage.
From S2P Require Import Core.
From S2P Require Import Records.
From S2P Require Import WireInstance.
From S2P Require Import Schema.
From S2P Require Import Expansion.
From S2P Require Import Watch.
From S2P Require Import Acl.
From S2P Require Import StateMachine.
From S2P Require Import Apply.
From S2P Require Import Invariant.
From S2P Require Import Demo.
From S2P Require Import Staging.
From S2P Require Import Frame.
From S2P Require Import Eviction.
From S2P Require Import Nodes.
From S2P Require Import Placements.
From S2P Require Import PodEvents.
From S2P Require Import Metrics.
From S2P Require Import Status.
From S2P Require Import Float64.
From S2P Require Import Scheduler.
From S2P Require Import Preemption.
From S2P Require Import Engine.
From S2P Require Import DummyIp.
From S2P Require Import Raft.
From S2P Require Import Controllers.
From S2P Require Import Reconcile.
From S2P Require Import Disruption.

(** ** Arithmetic *)
Definition MIN_WINDOWS : Z := 3.
Definition DEADBAND_PERCENT : Z := 10.

(** [iter().sum::<u64>()] and [iter().sum::<u32>()], which wrap. *)
Definition sum_u64 (l : list Z) : Z := foldl (λ acc x, wrap_u64 (acc + x)) 0 l.
Definition sum_u32 (l : list Z) : Z := foldl (λ acc x, wrap_u32 (acc + x)) 0 l.

Section Averages.
Context `{C : Core}.

Definition pod_average_of (windows : list PodMetrics) (metric : PodMetrics → Z) : Z :=
  match windows with
  | [] => 0
  | _ => sum_u64 (metric <$> windows) / Z.of_nat (length windows)
  end.
Definition pod_average_cpu (windows : list PodMetrics) : Z := pod_average_of windows pm_cpu_millicores.
Definition pod_average_memory (windows : list PodMetrics) : Z := pod_average_of windows pm_memory_bytes.
Definition pod_average_net_rx (windows : list PodMetrics) : Z := pod_average_of windows pm_net_rx_bytes.
Definition pod_average_net_tx (windows : list PodMetrics) : Z := pod_average_of windows pm_net_tx_bytes.
End Averages.

Record MetricSignal : Type := { sig_avg : Z; sig_target : Z }.

(** [raw.clamp(min, max)] panics where [min > max]; the caller has excluded it. *)
Definition compute_desired_for_metric (current_total avg target min max : Z) : option Z :=
  if (current_total =? 0) || (target =? 0) then None
  else
    let raw := (current_total * avg + target - 1) / target in
    let raw := Z.min raw (2 ^ 32 - 1) in
    Some (clamp raw min max).

Definition compute_desired_total (current_total : Z) (signals : list MetricSignal) (min max : Z) :
    option Z :=
  foldl (λ best signal,
    match compute_desired_for_metric current_total (sig_avg signal) (sig_target signal) min max with
    | Some desired =>
        Some (match best with None => desired | Some cur => Z.max cur desired end)
    | None => best
    end) None signals.

Definition within_deadband (current_total desired_total : Z) : bool :=
  if current_total =? 0 then false
  else
    let diff := if current_total <? desired_total then desired_total - current_total
                else current_total - desired_total in
    diff * 100 <=? current_total * DEADBAND_PERCENT.

(** ** Distribution over the roles *)

(** A role's share: its base and the remainder of its quota. *)
Record part : Type := { part_role : string; part_base : Z; part_remainder : Z }.

Definition bump (p : part) : part :=
  {| part_role := part_role p; part_base := part_base p + 1; part_remainder := part_remainder p |}.

(** The loop that hands out the shortfall, one replica to an index. *)
Fixpoint hand_out (order : list nat) (shortfall : Z) (parts : list part) : list part :=
  match order with
  | [] => parts
  | idx :: order =>
      if shortfall =? 0 then parts
      else hand_out order (shortfall - 1) (alter bump idx parts)
  end.

(** The comparator of the order: largest remainder first, then the role's name. *)
Definition part_order (parts : list part) (a b : nat) : comparison :=
  match parts !! a, parts !! b with
  | Some pa, Some pb =>
      then_with (Z.compare (part_remainder pb) (part_remainder pa))
        (String.compare (part_role pa) (part_role pb))
  | _, _ => Eq
  end.

(** [current]: the entries of the [BTreeMap], in order. *)
Definition distribute_parts (current : list (string * Z)) (current_total desired : Z) : list part :=
  let parts := (λ rc, {| part_role := rc.1; part_base := desired * rc.2 / current_total;
                         part_remainder := desired * rc.2 mod current_total |}) <$> current in
  let allocated := foldl (λ acc p, acc + part_base p) 0 parts in
  let order := sort_by (part_order parts) (seq 0 (length parts)) in
  hand_out order (saturating_sub desired allocated) parts.

Definition distribute_replicas (current : list (string * Z)) (desired_total : Z) : gmap string Z :=
  let out := list_to_map ((λ rc, (rc.1, 0)) <$> current) in
  let current_total := foldl (λ acc rc, acc + rc.2) 0 current in
  if (current_total =? 0) || (desired_total =? 0) then out
  else
    foldl (λ out p, <[part_role p := wrap_u32 (part_base p)]> out) out
      (distribute_parts current current_total desired_total).

(** ** The controller *)
Section HpaController.
Context `{R : Raft} `{G : !DisruptionGuard}.

(** The windows of the workload's placed pods that have enough of them. *)
Definition qualifying (metrics : MetricsStore) (pod_ids : list string) : list (list PodMetrics) :=
  omap (λ pod_id,
    windows ← get_windows metrics pod_id;
    if MIN_WINDOWS <=? Z.of_nat (length windows) then Some windows else None) pod_ids.

Definition pods_of (spec : WorkloadSpec) (placements : list Placement) : list string :=
  pl_pod_id <$> filter (λ p, pl_tenant_id p = ws_tenant_id spec ∧ pl_service p = ws_workload_id spec)
    placements.

(** One signal per active metric. *)
Definition signals (policy : AutoscalingPolicy) (windows : list (list PodMetrics)) : list MetricSignal :=
  omap (λ '(target, average),
    if target =? 0 then None
    else Some {| sig_avg := sum_u64 (average <$> windows) / Z.of_nat (length windows);
                 sig_target := target |})
    [(ap_target_cpu_millicores policy, pod_average_cpu);
     (ap_target_memory_bytes policy, pod_average_memory);
     (ap_target_net_rx_bytes_per_sec policy, pod_average_net_rx);
     (ap_target_net_tx_bytes_per_sec policy, pod_average_net_tx)].

(** What an evaluation acts on; [None] where the code returns [Ok(false)] before it
    looks at the deadband. *)
Record HpaTarget : Type := {
  ht_policy : AutoscalingPolicy;
  ht_current : list (string * Z);
  ht_current_total : Z;
  ht_desired_total : Z
}.

Definition hpa_target (spec : WorkloadSpec) (placements : list Placement) (metrics : MetricsStore) :
    option HpaTarget :=
  policy ← ws_autoscaling spec;
  let no_active_target :=
    (ap_target_cpu_millicores policy =? 0) && (ap_target_memory_bytes policy =? 0) &&
    (ap_target_net_rx_bytes_per_sec policy =? 0) && (ap_target_net_tx_bytes_per_sec policy =? 0) in
  let min := Z.max (ap_min_replicas policy) 1 in
  let max := ap_max_replicas policy in
  let pod_ids := pods_of spec placements in
  let windows := qualifying metrics pod_ids in
  let current := btree_map_iter (ws_replicas spec) in
  let current_total := sum_u32 current.*2 in
  if negb (ap_enabled policy) then None
  else if no_active_target || (max =? 0) then None
  else if max <? min then None
  else if bool_decide (pod_ids = []) then None
  else if match windows with [] => true | _ => false end then None
  else if current_total =? 0 then None
  else
    desired_total ← compute_desired_total current_total (signals policy windows) min max;
    Some {| ht_policy := policy; ht_current := current; ht_current_total := current_total;
            ht_desired_total := desired_total |}.

(** Access to the markers of sustained scale-down pressure. *)
Definition set_scale_down (f : gmap (string * string) Z → gmap (string * string) Z) : ctrl () := λ w,
  ({| w_sm := w_sm w; w_events := w_events w;
      w_local := {| ls_metrics := ls_metrics (w_local w);
                    ls_scale_down_since := f (ls_scale_down_since (w_local w));
                    ls_shrink_since := ls_shrink_since (w_local w) |};
      w_warnings := w_warnings w |}, Ok ()).
(** [*m.entry(key).or_insert(now)]. *)
Definition scale_down_entry (key : string * string) (now : Z) : ctrl Z := λ w,
  let since := default now (ls_scale_down_since (w_local w) !! key) in
  ((set_scale_down (λ m, <[key := since]> m) w).1, Ok since).

(** The guard's consent for one role. *)
Definition scale_down_allowed (db : Db) (spec : WorkloadSpec) (current : list (string * Z))
    (new_role : string * Z) : bool :=
  let '(role, to) := new_role in
  let from := default 0 ((list_to_map current : gmap string Z) !! role) in
  if to <? from then
    tenant_id_valid (ws_tenant_id spec) && workload_role_valid role &&
    isSome (ok (allow_disruption db (ws_tenant_id spec) (ws_workload_id spec) role (from - to) ScaleDown))
  else true.

Definition with_replicas (spec : WorkloadSpec) (replicas : gmap string Z) : WorkloadSpec := {|
  ws_tenant_id := ws_tenant_id spec; ws_workload_id := ws_workload_id spec;
  ws_image := ws_image spec; ws_replicas := replicas; ws_pod_spec := ws_pod_spec spec;
  ws_autoscaling := ws_autoscaling spec;
  ws_vertical_autoscaling := ws_vertical_autoscaling spec;
  ws_budgets := ws_budgets spec; ws_placement := ws_placement spec;
  ws_rest := ws_rest spec |}.

(** The command of [propose_scale]; its clock reading is that of the evaluation. *)
Definition scale_command (record : WorkloadSpecRecord) (spec : WorkloadSpec)
    (new_replicas : gmap string Z) (now : Z) : AuditedCommand := {|
  cmd := ScaleWorkload {|
    wsr_tenant_id := wsr_tenant_id record; wsr_workload_id := wsr_workload_id record;
    wsr_spec_bytes := encode_to_vec (with_replicas spec new_replicas);
    wsr_last_applied_bytes := "" |};
  audit := Some {|
    ac_request_id := ""; ac_actor := "system:hpa-controller";
    ac_target := pair_key (wsr_tenant_id record) (wsr_workload_id record);
    ac_timestamp_unix := wrap_u64 now |} |}.
Definition propose_scale (record : WorkloadSpecRecord) (spec : WorkloadSpec)
    (new_replicas : gmap string Z) (now : Z) : ctrl () :=
  write (scale_command record spec new_replicas now).

(** The evaluation, from the deadband on. *)
Definition act_on_target (record : WorkloadSpecRecord) (spec : WorkloadSpec) (now : Z)
    (t : HpaTarget) : ctrl bool :=
  let key := (ws_tenant_id spec, ws_workload_id spec) in
  let new_replicas := distribute_replicas (ht_current t) (ht_desired_total t) in
  if within_deadband (ht_current_total t) (ht_desired_total t) then
    set_scale_down (delete key);; mret false
  else if ht_desired_total t <? ht_current_total t then
    since ← scale_down_entry key now;
    if now - since <? ap_stabilization_window_seconds (ht_policy t) then mret false
    else
      allowed ← reads (λ db, Ok (forallb (scale_down_allowed db spec (ht_current t))
        (btree_map_iter new_replicas)));
      if negb allowed then mret false
      else
        propose_scale record spec new_replicas now;;
        set_scale_down (delete key);; mret true
  else
    set_scale_down (delete key);;
    propose_scale record spec new_replicas now;; mret true.

Definition hpa_evaluate_workload (record : WorkloadSpecRecord) (placements : list Placement)
    (now : Z) : ctrl bool := λ w,
  match decode (wsr_spec_bytes record) with
  | None => (warn (UndecodableSpec (wsr_workload_id record));; mret false) w
  | Some spec =>
      match hpa_target spec placements (ls_metrics (w_local w)) with
      | None => (w, Ok false)
      | Some t => act_on_target record spec now t w
      end
  end.

Definition hpa_evaluate_at (now : Z) : ctrl () :=
  workloads ← reads (λ db, map_err CtrlStorage (list_workloads db));
  placements ← reads (λ db, map_err CtrlStorage (list_placements db));
  for_each (λ record, logged (hpa_evaluate_workload record placements now)) workloads.

(** The body of the HPA loop ([main.rs]). *)
Definition hpa_tick (now : Z) : ctrl () := logged (hpa_evaluate_at now).
End HpaController.

(** ** Facts on the distribution *)
Definition zsum (l : list Z) : Z := foldr Z.add 0 l.

Arguments zsum : simpl never.

Lemma zsum_cons x l : zsum (x :: l) = x + zsum l.
Proof. done. Qed.
Lemma zsum_app l1 l2 : zsum (l1 ++ l2) = zsum l1 + zsum l2.
Proof. induction l1 as [|x l1 IH]; [done|]. cbn [app]. rewrite !zsum_cons. lia. Qed.
Lemma zsum_perm l1 l2 : l1 ≡ₚ l2 → zsum l1 = zsum l2.
Proof. induction 1; rewrite ?zsum_cons in *; lia. Qed.
#[export] Instance zsum_proper : Proper ((≡ₚ) ==> (=)) zsum.
Proof. intros l l'. apply zsum_perm. Qed.
Lemma foldl_zsum {A} (f : A → Z) l acc : foldl (λ acc x, acc + f x) acc l = acc + zsum (f <$> l).
Proof.
  revert acc. induction l as [|x l IH]; intros acc; [cbn; unfold zsum; cbn; lia|].
  cbn [foldl]. rewrite IH, fmap_cons, zsum_cons. lia.
Qed.
Lemma zsum_nonneg l : Forall (Z.le 0) l → 0 ≤ zsum l.
Proof. induction 1; rewrite ?zsum_cons; [done|lia]. Qed.
Lemma zsum_elem l x : Forall (Z.le 0) l → x ∈ l → x ≤ zsum l.
Proof.
  intros Hl Hx. apply list_elem_of_split in Hx as (l1 & l2 & ->).
  rewrite zsum_app, zsum_cons. apply Forall_app in Hl as [H1 H2]. apply Forall_cons in H2 as [_ H2].
  apply zsum_nonneg in H1, H2. lia.
Qed.

(** The total of a replica map. *)
Definition replicas_total (m : gmap string Z) : Z := zsum (map_to_list m).*2.

Lemma hand_out_lookup order k parts i p :
  NoDup order → 0 ≤ k → parts !! i = Some p →
  hand_out order k parts !! i =
    Some (if decide (i ∈ take (Z.to_nat k) order) then bump p else p).
Proof.
  revert k parts p. induction order as [|idx order IH]; intros k parts p Hnd Hk Hi; cbn [hand_out].
  { rewrite take_nil. by rewrite decide_False by apply not_elem_of_nil. }
  apply NoDup_cons in Hnd as [Hni Hnd].
  destruct (Z.eqb_spec k 0) as [->|Hne].
  { cbn. by rewrite decide_False by apply not_elem_of_nil. }
  replace (Z.to_nat k) with (S (Z.to_nat (k - 1))) by lia. cbn [take].
  destruct (decide (i = idx)) as [->|Hd].
  - rewrite (IH _ _ (bump p)); [|done|lia|by rewrite list_lookup_alter_eq, Hi].
    rewrite decide_False by (intros H; apply Hni;
      rewrite <- (take_drop (Z.to_nat (k - 1)) order); apply elem_of_app; by left).
    by rewrite decide_True by left.
  - rewrite (IH _ _ p); [|done|lia|by rewrite list_lookup_alter_ne].
    f_equal. apply decide_ext. rewrite elem_of_cons. naive_solver.
Qed.

Lemma hand_out_sum order k parts :
  NoDup order → (∀ i, i ∈ order → is_Some (parts !! i)) → 0 ≤ k ≤ Z.of_nat (length order) →
  zsum (part_base <$> hand_out order k parts) = zsum (part_base <$> parts) + k.
Proof.
  revert k parts. induction order as [|idx order IH]; intros k parts Hnd Hin Hk; cbn [hand_out].
  { cbn in Hk. lia. }
  apply NoDup_cons in Hnd as [Hni Hnd].
  destruct (Z.eqb_spec k 0) as [->|Hne]; [lia|]. cbn [length] in Hk.
  destruct (Hin idx ltac:(left)) as [p Hp]. rewrite IH; [|done| |lia].
  - assert (zsum (part_base <$> alter bump idx parts) = zsum (part_base <$> parts) + 1) as ->; [|lia].
    rewrite <- (take_drop_middle parts idx p Hp) at 2.
    rewrite <- (take_drop_middle (alter bump idx parts) idx (bump p));
      [|by rewrite list_lookup_alter_eq, Hp].
    rewrite take_alter_ge, drop_alter_lt by lia. rewrite !fmap_app, !zsum_app, !fmap_cons, !zsum_cons.
    cbn [part_base bump]. lia.
  - intros i Hi. assert (i ≠ idx) by naive_solver. rewrite list_lookup_alter_ne by done.
    apply Hin. by right.
Qed.

Lemma hand_out_roles order k parts : part_role <$> hand_out order k parts = part_role <$> parts.
Proof.
  revert k parts. induction order as [|idx order IH]; intros k parts; cbn [hand_out]; [done|].
  destruct (k =? 0); [done|]. rewrite IH. apply list_eq. intros i. rewrite !list_lookup_fmap.
  destruct (decide (i = idx)) as [->|]; [|by rewrite list_lookup_alter_ne].
  rewrite list_lookup_alter_eq. by destruct (parts !! idx).
Qed.

(** Quotas and remainders: the bases fall short by less than one per role. *)
Lemma quota_shortfall (counts : list Z) T D :
  0 < T → 0 ≤ D → Forall (Z.le 0) counts → zsum counts = T →
  let short := D - zsum ((λ c, D * c / T) <$> counts) in
  0 ≤ short ∧ (short < Z.of_nat (length counts) ∨ counts = []).
Proof.
  intros HT HD Hc Hs short.
  assert (∀ l, Forall (Z.le 0) l →
    T * zsum ((λ c, D * c / T) <$> l) ≤ D * zsum l ∧
    D * zsum l ≤ T * zsum ((λ c, D * c / T) <$> l) + (T - 1) * Z.of_nat (length l)) as H.
  { induction 1 as [|c l Hc0 _ IH]; [unfold zsum; cbn; lia|].
    rewrite fmap_cons, !zsum_cons. cbn [length].
    pose proof (Z.div_mod (D * c) T ltac:(lia)). pose proof (Z.mod_pos_bound (D * c) T HT).
    rewrite Nat2Z.inj_succ. lia. }
  destruct (H counts Hc) as [H1 H2]. rewrite Hs in H1, H2. unfold short. split; [nia|].
  destruct counts as [|c l]; [by right|left]. cbn [length] in *. nia.
Qed.

(** The largest of a list of remainders that add up to [short] divisors are not 0. *)
Lemma largest_positive (l : list Z) short T x :
  0 < T → StronglySorted (λ a b, b ≤ a) l → Forall (λ r, 0 ≤ r < T) l →
  zsum l = short * T → x ∈ take (Z.to_nat short) l → 0 < x.
Proof.
  intros HT Hs Hl Hsum Hx. apply list_elem_of_lookup in Hx as [j Hj].
  apply lookup_take_Some in Hj as [Hj Hlt].
  assert (x ∈ l) as Hin by (by eapply list_elem_of_lookup_2).
  destruct (decide (x = 0)) as [->|]; [exfalso|rewrite Forall_forall in Hl; specialize (Hl x Hin); lia].
  rewrite <- (take_drop j l), zsum_app in Hsum.
  assert (zsum (drop j l) = 0) as Hz.
  { rewrite (drop_S l 0 j Hj) in *. rewrite <- (take_drop_middle l j 0 Hj) in Hs, Hl.
    apply StronglySorted_app in Hs as (_ & _ & Hs). inversion Hs as [|? ? _ Hle]; subst.
    apply Forall_app in Hl as [_ [_ Hl]%Forall_cons]. rewrite zsum_cons.
    revert Hl Hle. generalize (drop (S j) l). intros k Hk Hle.
    induction Hk as [|y k Hy _ IH]; [done|]. apply Forall_cons in Hle as [Hy' Hle].
    rewrite zsum_cons. specialize (IH Hle). lia. }
  assert (zsum (take j l) ≤ (T - 1) * Z.of_nat j) as Hb.
  { assert (length (take j l) ≤ j)%nat as Hlen by (rewrite length_take; lia).
    assert (Forall (λ r, 0 ≤ r < T) (take j l)) as Hl' by by apply Forall_take.
    revert Hlen Hl'. generalize (take j l). intros k Hk HF.
    assert (zsum k ≤ (T - 1) * Z.of_nat (length k)); [|nia].
    clear Hk. induction HF as [|y k Hy _ IH]; [unfold zsum; cbn; lia|]. rewrite zsum_cons. cbn [length]. nia. }
  nia.
Qed.

Section Distribution.
Context (current : list (string * Z)) (T D : Z).
Hypotheses (HT : 0 < T) (HD : 0 ≤ D) (Hc : Forall (Z.le 0) current.*2)
  (HsT : zsum current.*2 = T).

Let quota (rc : string * Z) : part :=
  {| part_role := rc.1; part_base := D * rc.2 / T; part_remainder := D * rc.2 mod T |}.
Let parts : list part := quota <$> current.
Let order : list nat := sort_by (part_order parts) (seq 0 (length parts)).
Let short : Z := D - zsum ((λ c, D * c / T) <$> current.*2).

Lemma parts_bases : part_base <$> parts = (λ c, D * c / T) <$> current.*2.
Proof. unfold parts. by rewrite <- !list_fmap_compose. Qed.

Lemma order_perm : order ≡ₚ seq 0 (length parts).
Proof. apply sort_by_perm. Qed.
Lemma order_nodup : NoDup order.
Proof. rewrite order_perm. apply NoDup_seq. Qed.
Lemma order_in i : i ∈ order → is_Some (parts !! i).
Proof. rewrite order_perm, elem_of_seq, lookup_lt_is_Some. lia. Qed.

Lemma short_bounds : 0 ≤ short ≤ Z.of_nat (length order).
Proof.
  rewrite order_perm, length_seq. unfold parts. rewrite length_fmap.
  destruct (quota_shortfall current.*2 T D HT HD Hc HsT) as [H1 H2]. fold short in H1, H2.
  rewrite length_fmap in H2. split; [done|]. destruct H2 as [H2|H2]; [lia|].
  exfalso. rewrite H2 in HsT. unfold zsum in HsT. cbn in HsT. lia.
Qed.

Lemma distribute_parts_eq : distribute_parts current T D = hand_out order short parts.
Proof.
  unfold distribute_parts. fold quota. change (quota <$> current) with parts. fold order. f_equal.
  rewrite foldl_zsum, parts_bases. unfold saturating_sub, short.
  pose proof short_bounds. unfold short in *. lia.
Qed.

Definition remainder_at (i : nat) : Z := default 0 (part_remainder <$> parts !! i).

Lemma order_sorted : StronglySorted (λ a b, b ≤ a) (remainder_at <$> order).
Proof.
  set (cmp' a b := then_with (Z.compare (- remainder_at a) (- remainder_at b))
    (String.compare (default "" (part_role <$> parts !! a)) (default "" (part_role <$> parts !! b)))).
  assert (order = sort_by cmp' (seq 0 (length parts))) as ->.
  { apply sort_by_ext. intros a b Ha Hb. unfold part_order, cmp', remainder_at.
    apply elem_of_seq in Ha, Hb.
    destruct (lookup_lt_is_Some_2 parts a ltac:(lia)) as [pa ->].
    destruct (lookup_lt_is_Some_2 parts b ltac:(lia)) as [pb ->]. cbn.
    by rewrite <- Z.compare_opp. }
  apply (StronglySorted_fmap _ (λ a b, cmp' a b ≠ Gt)).
  - intros a b H. unfold cmp' in H. destruct (Z.compare_spec (- remainder_at a) (- remainder_at b)); [lia..|done].
  - apply sort_by_sorted. apply (orders_Z_then (λ a, - remainder_at a)).
    apply (orders_map (λ a, default "" (part_role <$> parts !! a)) String.compare), orders_string.
Qed.

Lemma remainders_sum : zsum (remainder_at <$> order) = short * T.
Proof.
  assert (remainder_at <$> order ≡ₚ (λ c, D * c mod T) <$> current.*2) as Hp.
  { rewrite order_perm. assert (remainder_at <$> seq 0 (length parts) = part_remainder <$> parts) as ->.
    - apply list_eq. intros i. rewrite !list_lookup_fmap.
      destruct (decide (i < length parts)%nat) as [Hlt|Hge].
      + rewrite lookup_seq_lt by done. destruct (lookup_lt_is_Some_2 parts i Hlt) as [p Hp].
        unfold remainder_at. cbn. by rewrite Hp.
      + rewrite lookup_seq_ge, lookup_ge_None_2 by lia. done.
    - unfold parts. by rewrite <- !list_fmap_compose. }
  rewrite (zsum_perm _ _ Hp). unfold short.
  assert (∀ l, zsum ((λ c, D * c mod T) <$> l) = D * zsum l - T * zsum ((λ c, D * c / T) <$> l)) as H.
  { induction l as [|c l IH]; [unfold zsum; cbn; lia|]. rewrite !fmap_cons, !zsum_cons.
    pose proof (Z.div_mod (D * c) T ltac:(lia)). lia. }
  rewrite H, HsT. lia.
Qed.

(** The parts: their roles, their sum, and every base at its quota, or one above it
    where the quota is not whole. *)
Lemma distribute_parts_spec :
  let ps := distribute_parts current T D in
  part_role <$> ps = current.*1 ∧ zsum (part_base <$> ps) = D ∧
  ∀ i r c, current !! i = Some (r, c) → ∃ p, ps !! i = Some p ∧ part_role p = r ∧
    (part_base p = D * c / T ∨ (part_base p = D * c / T + 1 ∧ 0 < D * c mod T)).
Proof.
  cbn zeta. rewrite distribute_parts_eq. split_and!.
  - rewrite hand_out_roles. unfold parts. by rewrite <- !list_fmap_compose.
  - rewrite hand_out_sum; [|apply order_nodup|apply order_in|apply short_bounds].
    rewrite parts_bases. unfold short. lia.
  - intros i r c Hi. assert (parts !! i = Some (quota (r, c))) as Hp
      by (unfold parts; by rewrite list_lookup_fmap, Hi).
    eexists. split; [apply hand_out_lookup; [apply order_nodup|apply short_bounds|done]|].
    case_decide as Hin; [|by split; [|left]]. split; [done|]. right. split; [done|].
    assert (remainder_at i = D * c mod T) as <- by (unfold remainder_at; by rewrite Hp).
    apply (largest_positive (remainder_at <$> order) short T); [done|apply order_sorted| |apply remainders_sum|].
    + apply Forall_fmap, Forall_forall. intros k Hk. destruct (order_in k Hk) as [p Hpk].
      cbn. unfold remainder_at. rewrite Hpk. cbn. unfold parts in Hpk. rewrite list_lookup_fmap in Hpk.
      destruct (current !! k); [|done]. injection Hpk as <-. cbn. by apply Z.mod_pos_bound.
    + rewrite <- fmap_take. by apply list_elem_of_fmap_2.
Qed.

Lemma distribute_parts_nonneg : Forall (Z.le 0) (part_base <$> distribute_parts current T D).
Proof.
  destruct distribute_parts_spec as (Hroles & _ & Hparts).
  apply Forall_fmap, Forall_forall. intros p [i Hp]%list_elem_of_lookup.
  assert (is_Some (current.*1 !! i)) as [r Hr]
    by (rewrite <- Hroles, list_lookup_fmap, Hp; by eexists).
  rewrite list_lookup_fmap in Hr. destruct (current !! i) as [[r' c]|] eqn:Hi; [|done].
  destruct (Hparts i r' c Hi) as (p' & Hp' & _ & Hb).
  assert (0 ≤ c).
  { rewrite Forall_forall in Hc. apply Hc.
    exact (list_elem_of_fmap_2 snd _ _ (list_elem_of_lookup_2 _ _ _ Hi)). }
  assert (0 ≤ D * c / T) by (apply Z.div_pos; nia). cbn. rewrite Hp in Hp'. injection Hp' as <-.
  destruct Hb as [->|[-> _]]; lia.
Qed.
End Distribution.

Lemma btree_map_iter_perm {A} (m : gmap string A) : btree_map_iter m ≡ₚ map_to_list m.
Proof. apply sort_by_perm. Qed.

(** Inserting pairs with distinct keys one by one. *)
Lemma foldl_insert_pairs {A} (k : A → string) (v : A → Z) (l : list A) (m : gmap string Z) :
  NoDup (k <$> l) →
  foldl (λ m x, <[k x := v x]> m) m l = list_to_map ((λ x, (k x, v x)) <$> l) ∪ m.
Proof.
  revert m. induction l as [|x l IH]; intros m Hnd; [cbn; by rewrite (left_id_L ∅ (∪))|].
  rewrite fmap_cons in Hnd. apply NoDup_cons in Hnd as [Hni Hnd]. cbn [foldl].
  rewrite IH by done. rewrite fmap_cons. cbn [list_to_map foldr fst snd].
  rewrite <- insert_union_l, <- insert_union_r; [done|].
  apply not_elem_of_list_to_map_1. rewrite <- list_fmap_compose. exact Hni.
Qed.

Lemma union_dominated (m1 m0 : gmap string Z) : dom m0 ⊆ dom m1 → m1 ∪ m0 = m1.
Proof.
  intros Hd. apply map_eq. intros r. rewrite lookup_union.
  destruct (m1 !! r) as [c|] eqn:E; [by destruct (m0 !! r)|].
  assert (m0 !! r = None) as ->; [|done].
  apply not_elem_of_dom. apply not_elem_of_dom in E. set_solver.
Qed.

(** The result of the distribution is the map of the parts. *)
Lemma distribute_replicas_parts current T D :
  0 < T → 0 < D < 2 ^ 32 → Forall (Z.le 0) current.*2 → zsum current.*2 = T → NoDup current.*1 →
  distribute_replicas current D =
    list_to_map ((λ p, (part_role p, part_base p)) <$> distribute_parts current T D).
Proof.
  intros HT HD Hc HsT Hnd.
  destruct (distribute_parts_spec current T D HT ltac:(lia) Hc HsT) as (Hroles & Hsum & _).
  pose proof (distribute_parts_nonneg current T D HT ltac:(lia) Hc HsT) as Hnn.
  unfold distribute_replicas. rewrite foldl_zsum, HsT.
  rewrite (proj2 (Z.eqb_neq (0 + T) 0)), (proj2 (Z.eqb_neq D 0)) by lia. cbn [orb].
  replace (0 + T) with T by lia. set (ps := distribute_parts current T D) in *.
  rewrite (foldl_insert_pairs part_role) by (by rewrite Hroles).
  assert ((λ p, (part_role p, wrap_u32 (part_base p))) <$> ps =
    (λ p, (part_role p, part_base p)) <$> ps) as ->.
  { apply list_fmap_ext. intros i p Hp. f_equal. apply wrap_u32_small.
    assert (part_base p ∈ part_base <$> ps) as Hin
      by (apply list_elem_of_fmap_2; by eapply list_elem_of_lookup_2).
    pose proof (zsum_elem _ _ Hnn Hin). rewrite Forall_forall in Hnn. specialize (Hnn _ Hin).
    unfold is_u32. lia. }
  assert (((λ p, (part_role p, part_base p)) <$> ps).*1 = current.*1) as Hk
    by (rewrite <- list_fmap_compose; exact Hroles).
  assert (((λ rc : string * Z, (rc.1, 0)) <$> current).*1 = current.*1) as Hk0
    by (by rewrite <- list_fmap_compose).
  apply union_dominated. by rewrite !dom_list_to_map_L, Hk, Hk0.
Qed.

(** Replicas are distributed exactly: the roles are kept, the counts add up to the
    total asked for, and each role gets its proportional share, rounded down or up. *)
Lemma distribute_replicas_spec (m : gmap string Z) D :
  map_Forall (λ _ c, 0 ≤ c) m → 0 < replicas_total m → 0 < D < 2 ^ 32 →
  let out := distribute_replicas (btree_map_iter m) D in
  dom out = dom m ∧ replicas_total out = D ∧
  ∀ role c, m !! role = Some c → ∃ c', out !! role = Some c' ∧
    (c' = D * c / replicas_total m ∨
     (c' = D * c / replicas_total m + 1 ∧ 0 < D * c mod replicas_total m)).
Proof.
  intros Hm HT HD out. set (current := btree_map_iter m) in *. set (T := replicas_total m) in *.
  assert (current ≡ₚ map_to_list m) as Hperm by apply btree_map_iter_perm.
  assert (zsum current.*2 = T) as HsT by (unfold T, replicas_total; apply zsum_perm; by rewrite Hperm).
  assert (NoDup current.*1) as Hnd by (rewrite Hperm; apply NoDup_fst_map_to_list).
  assert (Forall (Z.le 0) current.*2) as Hc.
  { rewrite Hperm. apply Forall_fmap, Forall_forall. intros [r c] Hin%elem_of_map_to_list.
    exact (Hm r c Hin). }
  destruct (distribute_parts_spec current T D HT ltac:(lia) Hc HsT) as (Hroles & Hsum & Hparts).
  unfold out. rewrite (distribute_replicas_parts current T D) by done.
  set (ps := distribute_parts current T D) in *.
  assert (((λ p, (part_role p, part_base p)) <$> ps).*1 = current.*1) as Hk
    by (rewrite <- list_fmap_compose; exact Hroles).
  split_and!.
  - rewrite dom_list_to_map_L, Hk, Hperm. rewrite <- (list_to_map_to_list m) at 2.
    by rewrite dom_list_to_map_L.
  - unfold replicas_total. rewrite map_to_list_to_map by (by rewrite Hk).
    rewrite <- list_fmap_compose. exact Hsum.
  - intros role c Hr. apply elem_of_map_to_list in Hr. rewrite <- Hperm in Hr.
    apply list_elem_of_lookup in Hr as [i Hi]. destruct (Hparts i role c Hi) as (p & Hp & <- & Hb).
    exists (part_base p). split; [|done]. apply elem_of_list_to_map_1; [by rewrite Hk|].
    apply list_elem_of_fmap. exists p. split; [done|]. by eapply list_elem_of_lookup_2.
Qed.

(** ** What the autoscaler proposes *)
Lemma compute_desired_total_bounds cur sigs min max d :
  min ≤ max → compute_desired_total cur sigs min max = Some d → min ≤ d ≤ max.
Proof.
  intros Hmm. unfold compute_desired_total.
  assert (∀ l best, (∀ b, best = Some b → min ≤ b ≤ max) → foldl (λ best signal,
    match compute_desired_for_metric cur (sig_avg signal) (sig_target signal) min max with
    | Some desired => Some (match best with None => desired | Some cur => Z.max cur desired end)
    | None => best
    end) best l = Some d → min ≤ d ≤ max) as H; [|by apply H].
  induction l as [|s l IH]; intros best Hb; cbn [foldl]; [apply Hb|]. apply IH. intros b.
  unfold compute_desired_for_metric. destruct (_ || _); [apply Hb|].
  intros [= <-]. unfold clamp. destruct best as [b'|]; [specialize (Hb b' eq_refl)|]; lia.
Qed.

Lemma sum_u32_exact l : Forall (Z.le 0) l → zsum l < 2 ^ 32 → sum_u32 l = zsum l.
Proof.
  intros Hl Hs. unfold sum_u32. induction l as [|x l IH] using rev_ind; [done|].
  assert (zsum [x] = x) as Ex by (unfold zsum; cbn; lia).
  rewrite foldl_app, zsum_app, Ex in *. apply Forall_app in Hl as [Hl Hx].
  pose proof (zsum_nonneg _ Hl). apply Forall_cons in Hx as [Hx _]. cbn [foldl].
  rewrite IH by (done || lia). apply wrap_u32_small. unfold is_u32. lia.
Qed.

Lemma list_to_map_btree {A} (m : gmap string A) : list_to_map (btree_map_iter m) = m.
Proof.
  rewrite <- (list_to_map_to_list m) at 2. apply list_to_map_proper; [|apply btree_map_iter_perm].
  rewrite btree_map_iter_perm. apply NoDup_fst_map_to_list.
Qed.

Section HpaProperties.
Context `{R : Raft} `{G : !DisruptionGuard}.

Lemma hpa_target_spec spec placements metrics t :
  hpa_target spec placements metrics = Some t →
  ws_autoscaling spec = Some (ht_policy t) ∧ ap_enabled (ht_policy t) = true ∧
  ht_current t = btree_map_iter (ws_replicas spec) ∧
  ht_current_total t = sum_u32 (ht_current t).*2 ∧ ht_current_total t ≠ 0 ∧
  Z.max 1 (ap_min_replicas (ht_policy t)) ≤ ht_desired_total t ≤ ap_max_replicas (ht_policy t).
Proof.
  unfold hpa_target. intros H. apply bind_Some in H as (policy & Hp & H). cbv zeta in H.
  destruct (ap_enabled policy) eqn:He; cbn [negb] in H; [|done].
  destruct (_ || _); [done|]. destruct (Z.ltb_spec (ap_max_replicas policy)
    (Z.max (ap_min_replicas policy) 1)); [done|].
  case_bool_decide; [done|]. destruct (match qualifying _ _ with [] => true | _ => false end); [done|].
  destruct (Z.eqb_spec (sum_u32 (btree_map_iter (ws_replicas spec)).*2) 0); [done|].
  apply bind_Some in H as (d & Hd & H). injection H as <-. cbn.
  apply compute_desired_total_bounds in Hd; [|lia]. rewrite Z.max_comm. done.
Qed.

(** The guard consents to every reduction of a proposal. *)
Definition consents (db : Db) (spec : WorkloadSpec) (new : gmap string Z) : Prop :=
  ∀ role c c', ws_replicas spec !! role = Some c → new !! role = Some c' → c' < c →
    tenant_id_valid (ws_tenant_id spec) = true ∧ workload_role_valid role = true ∧
    allow_disruption db (ws_tenant_id spec) (ws_workload_id spec) role (c - c') ScaleDown = Ok ().

Lemma scale_down_allowed_consents db spec new :
  forallb (scale_down_allowed db spec (btree_map_iter (ws_replicas spec))) (btree_map_iter new) = true →
  consents db spec new.
Proof.
  intros H role c c' Hc Hc' Hlt.
  assert ((role, c') ∈ btree_map_iter new) as Hin
    by (by rewrite btree_map_iter_perm, elem_of_map_to_list).
  apply list_elem_of_In, (proj1 (forallb_forall _ _) H) in Hin. unfold scale_down_allowed in Hin.
  rewrite list_to_map_btree, Hc in Hin. cbn in Hin. rewrite (proj2 (Z.ltb_lt _ _) Hlt) in Hin.
  rewrite !andb_true_iff in Hin. destruct Hin as [[Ht Hr] Ha]. split_and!; [done..|].
  by destruct (allow_disruption _ _ _ _ _ _) as [[]|].
Qed.

(** A proposal of the second half of an evaluation. *)
Lemma act_on_target_ok record spec now t w w' :
  act_on_target record spec now t w = (w', Ok true) →
  ht_current t = btree_map_iter (ws_replicas spec) →
  let new := distribute_replicas (ht_current t) (ht_desired_total t) in
  let key := (ws_tenant_id spec, ws_workload_id spec) in
  (∃ r, client_write (w_sm w) (scale_command record spec new now) = (w_sm w', Ok r)) ∧
  within_deadband (ht_current_total t) (ht_desired_total t) = false ∧
  (ht_desired_total t < ht_current_total t →
    ap_stabilization_window_seconds (ht_policy t) ≤
      now - default now (ls_scale_down_since (w_local w) !! key) ∧
    consents (w_db w) spec new).
Proof.
  intros H Hcur. cbv zeta. unfold act_on_target in H.
  set (new := distribute_replicas (ht_current t) (ht_desired_total t)) in *.
  destruct (within_deadband _ _); [done|].
  destruct (Z.ltb_spec (ht_desired_total t) (ht_current_total t)) as [Hlt|Hge].
  - cbv [mbind ctrl_bind scale_down_entry] in H.
    destruct (Z.ltb_spec (now - default now (ls_scale_down_since (w_local w) !!
      (ws_tenant_id spec, ws_workload_id spec))) (ap_stabilization_window_seconds (ht_policy t)));
      [done|]. cbv [reads] in H.
    destruct (forallb _ _) eqn:Ef; cbn [negb] in H; [|done].
    rewrite Hcur in Ef. apply scale_down_allowed_consents in Ef.
    unfold propose_scale, write in H. cbn [w_sm set_scale_down fst] in H.
    destruct (client_write (w_sm w) _) as [sm [r|]] eqn:E; [|done]. injection H as <-. cbn.
    split; [by exists r|]. done.
  - cbv [mbind ctrl_bind set_scale_down] in H. unfold propose_scale, write in H. cbn [w_sm] in H.
    destruct (client_write (w_sm w) _) as [sm [r|]] eqn:E; [|done]. injection H as <-. cbn.
    split; [by exists r|]. split; [done|lia].
Qed.

(** C16. A proposal of the horizontal autoscaler keeps to the policy: it is a
    [ScaleWorkload] of a workload whose policy is enabled, over the same roles; the
    new replica counts add up to a total between the policy's bounds (and at least
    one) that differs from the current total by more than a tenth; each role gets its
    proportional share, rounded down or up, so that a role without replicas stays
    without; and a smaller total is proposed only when the reason to shrink has
    lasted for the stabilization window and the disruption guard consents to every
    reduction. *)
Theorem hpa_scales_within_policy record placements now w w' spec policy :
  hpa_evaluate_workload record placements now w = (w', Ok true) →
  decode (wsr_spec_bytes record) = Some spec → ws_autoscaling spec = Some policy →
  map_Forall (λ _ c, 0 ≤ c) (ws_replicas spec) → replicas_total (ws_replicas spec) < 2 ^ 32 →
  ap_max_replicas policy < 2 ^ 32 →
  let total := replicas_total (ws_replicas spec) in
  ∃ new r, client_write (w_sm w) (scale_command record spec new now) = (w_sm w', Ok r) ∧
    ap_enabled policy = true ∧ dom new = dom (ws_replicas spec) ∧
    Z.max 1 (ap_min_replicas policy) ≤ replicas_total new ≤ ap_max_replicas policy ∧
    total < 10 * Z.abs (replicas_total new - total) ∧
    (∀ role c, ws_replicas spec !! role = Some c → ∃ c', new !! role = Some c' ∧
      (c' = replicas_total new * c / total ∨
       (c' = replicas_total new * c / total + 1 ∧ 0 < replicas_total new * c mod total))) ∧
    (replicas_total new < total →
      ap_stabilization_window_seconds policy ≤ now - default now
        (ls_scale_down_since (w_local w) !! (ws_tenant_id spec, ws_workload_id spec)) ∧
      consents (w_db w) spec new).
Proof.
  intros H Hd Hp Hpos Htot Hmax total. unfold hpa_evaluate_workload in H. rewrite Hd in H.
  destruct (hpa_target spec placements _) as [t|] eqn:Et; [|done].
  apply hpa_target_spec in Et as (Hp' & He & Hcur & Hct & Hne & Hb).
  rewrite Hp in Hp'. injection Hp' as ->.
  assert (sum_u32 (ht_current t).*2 = total) as Esum.
  { rewrite Hcur. unfold total, replicas_total. rewrite <- (btree_map_iter_perm (ws_replicas spec)).
    apply sum_u32_exact; [|by rewrite btree_map_iter_perm]. rewrite btree_map_iter_perm.
    apply Forall_fmap, Forall_forall. intros [r c] Hin%elem_of_map_to_list. exact (Hpos r c Hin). }
  rewrite Esum in Hct. apply act_on_target_ok in H as ([r Hw] & Hdb & Hdown); [|done].
  assert (0 ≤ total).
  { apply zsum_nonneg, Forall_fmap, Forall_forall. intros [x c] Hin%elem_of_map_to_list.
    exact (Hpos x c Hin). }
  destruct (distribute_replicas_spec (ws_replicas spec) (ht_desired_total t) Hpos) as (H1 & H2 & H3);
    [unfold total in *; lia|lia|].
  rewrite <- Hcur in H1, H2, H3. rewrite Hct in Hdb, Hdown.
  exists (distribute_replicas (ht_current t) (ht_desired_total t)), r. rewrite H2.
  split_and!; [done..|lia|lia| |done|done].
  unfold within_deadband in Hdb. rewrite (proj2 (Z.eqb_neq total 0)) in Hdb by congruence.
  apply Z.leb_gt in Hdb. unfold DEADBAND_PERCENT in Hdb.
  destruct (Z.ltb_spec total (ht_desired_total t)); lia.
Qed.
End HpaProperties.

(** ** Witnesses *)
Import DemoInstances.
Import LeaderDemo.

(** The demo workload, with its two pods at three times their CPU target. *)
Definition hpa_policy : AutoscalingPolicy := {|
  ap_enabled := true; ap_min_replicas := 1; ap_max_replicas := 5;
  ap_target_cpu_millicores := 100; ap_target_memory_bytes := 0;
  ap_target_net_rx_bytes_per_sec := 0; ap_target_net_tx_bytes_per_sec := 0;
  ap_stabilization_window_seconds := 300; ap_rest := tt |}.
Definition hpa_spec : WorkloadSpec := {|
  ws_tenant_id := "acme"; ws_workload_id := "web"; ws_image := "web:1";
  ws_replicas := {["primary" := 2]}; ws_pod_spec := None; ws_autoscaling := Some hpa_policy;
  ws_vertical_autoscaling := None; ws_budgets := ∅; ws_placement := 0; ws_rest := tt |}.
Definition hpa_record : WorkloadSpecRecord := {|
  wsr_tenant_id := "acme"; wsr_workload_id := "web"; wsr_spec_bytes := encode_to_vec hpa_spec;
  wsr_last_applied_bytes := "" |}.
Definition demo_metrics (pod : string) (window : Z) : PodMetrics := {|
  pm_pod_id := pod; pm_cpu_millicores := 300; pm_memory_bytes := 0; pm_net_rx_bytes := 0;
  pm_net_tx_bytes := 0; pm_window_unix := window; pm_rest := tt |}.
Definition busy_metrics : MetricsStore :=
  foldl (λ s m, (report s (sm_db demo_sm) 200 m).1) MetricsStore_new
    (demo_metrics "web-primary-0" <$> [10; 20; 30]).
Definition busy_world : World := {|
  w_sm := demo_sm; w_events := demo_emitter;
  w_local := {| ls_metrics := busy_metrics; ls_scale_down_since := ∅; ls_shrink_since := ∅ |};
  w_warnings := [] |}.
Definition demo_placement_list : list Placement :=
  [demo_placement "web-primary-0" "n1" 0; demo_placement "web-primary-1" "n2" 1].

#[local] Instance demo_guard : DisruptionGuard := NoopDisruptionGuard.

Lemma hpa_scales_within_policy_witness :
  ∃ new r,
    client_write (w_sm busy_world) (scale_command hpa_record hpa_spec new 200) =
      (w_sm (hpa_evaluate_workload hpa_record demo_placement_list 200 busy_world).1, Ok r) ∧
    1 ≤ replicas_total new ≤ 5.
Proof.
  destruct (hpa_scales_within_policy hpa_record demo_placement_list 200 busy_world
    (hpa_evaluate_workload hpa_record demo_placement_list 200 busy_world).1 hpa_spec hpa_policy)
    as (new & r & Hw & _ & _ & Hb & _).
  - apply result_pair. vm_refl.
  - apply decode_encode.
  - reflexivity.
  - apply map_Forall_singleton. lia.
  - assert (replicas_total (ws_replicas hpa_spec) = 2) as -> by vm_refl. done.
  - done.
  - exists new, r. split; [exact Hw|]. exact Hb.
Defined.
