(* ===== verification/Vpa.v ===== *)
(** * Vpa: the vertical pod autoscaler

    Models [src/controllers/vpa_controller.rs]: the recommended footprint of a
    workload's pods, the checks on the way to a resize (stabilization window, tenant
    quota, disruption guard) and the resize, which replaces one pod. *)

From S2P Require Import Prelude.
From S2P Require Import Storage.
From S2P Require Import Core.
From S2P Require Import Records.
From S2P Require Import WireInstance.
From S2P Require Import Schema.
From S2P Require Import Expansion.
From S2P Require Import Watch.
From S2P Require Import Acl.
From S2P Require Import StateMachine.
From S2P Require Import Apply.
From S2P Require Import Invariant.
From S2P Require Import Demo.
From S2P Require Import Staging.
From S2P Require Import Frame.
From S2P Require Import Eviction.
From S2P Require Import Nodes.
From S2P Require Import Placements.
From S2P Require Import PodEvents.
From S2P Require Import Metrics.
From S2P Require Import Status.
From S2P Require Import Float64.
From S2P Require Import Scheduler.
From S2P Require Import Preemption.
From S2P Require Import Engine.
From S2P Require Import DummyIp.
From S2P Require Import Raft.
From S2P Require Import Controllers.
From S2P Require Import Reconcile.
From S2P Require Import Disruption.
From S2P Require Import Hpa.

Definition DEFAULT_DEADBAND_PERCENT : Z := 10.

Definition vpa_within_deadband (current recommended deadband_pct : Z) : bool :=
  if current =? 0 then false
  else
    let diff := if current <? recommended then recommended - current else current - recommended in
    diff * 100 <=? current * deadband_pct.

Definition MIB : Z := 1024 * 1024.

(** A footprint: whole vCPUs and megabytes. *)
Record Footprint : Type := { fp_vcpus : Z; fp_memory_mb : Z }.

Section VpaController.
Context `{R : Raft} `{G : !DisruptionGuard}.

(** The average over the pods of the averages over their windows. *)
Definition average_of (metric : PodMetrics → Z) (windows : list (list PodMetrics)) : Z :=
  sum_u64 ((λ ws, sum_u64 (metric <$> ws) / Z.of_nat (length ws)) <$> windows) /
  Z.of_nat (length windows).

(** The two dimensions. [clamp] panics where the bounds are in the wrong order, which
    admission rejects. *)
Definition recommended_vcpus (policy : VerticalAutoscalingPolicy) (avg_cpu_millicores : Z) : Z :=
  let recommended_millicores :=
    wrap_u64 (avg_cpu_millicores * 100) / vp_target_cpu_utilization_percent policy in
  let recommended := wrap_u32 (wrap_u64 (recommended_millicores + 999) / 1000) in
  clamp recommended (Z.max (vp_min_vcpus policy) 1) (Z.max (vp_max_vcpus policy) 1).

(** [((bytes + 1024 * 1024 - 1) / (1024 * 1024)) as u32]. *)
Definition to_mb (b : Z) : Z := wrap_u32 (wrap_u64 (b + MIB - 1) / MIB).

Definition recommended_memory_mb (policy : VerticalAutoscalingPolicy) (avg_memory_bytes : Z) : Z :=
  let recommended_bytes :=
    wrap_u64 (avg_memory_bytes * 100) / vp_target_memory_utilization_percent policy in
  clamp (to_mb recommended_bytes) (Z.max (to_mb (vp_min_memory_bytes policy)) 1)
    (Z.max (to_mb (vp_max_memory_bytes policy)) 1).

Definition deadband_of (policy : VerticalAutoscalingPolicy) : Z :=
  if vp_deadband_percent policy =? 0 then DEFAULT_DEADBAND_PERCENT else vp_deadband_percent policy.

(** A dimension keeps its value when it is inactive or within the deadband. *)
Definition resize_dimension (active : bool) (current recommended deadband : Z) : Z :=
  if active && negb (vpa_within_deadband current recommended deadband) then recommended else current.

(** The new footprint, and whether any dimension left the deadband. *)
Definition recommend (policy : VerticalAutoscalingPolicy) (current : Footprint)
    (windows : list (list PodMetrics)) (cpu_active mem_active : bool) : Footprint * bool :=
  let vcpus := recommended_vcpus policy (average_of pm_cpu_millicores windows) in
  let memory_mb := recommended_memory_mb policy (average_of pm_memory_bytes windows) in
  let deadband := deadband_of policy in
  ({| fp_vcpus := resize_dimension cpu_active (fp_vcpus current) vcpus deadband;
      fp_memory_mb := resize_dimension mem_active (fp_memory_mb current) memory_mb deadband |},
   (cpu_active && negb (vpa_within_deadband (fp_vcpus current) vcpus deadband)) ||
   (mem_active && negb (vpa_within_deadband (fp_memory_mb current) memory_mb deadband))).

Definition find_stale_pods (spec : WorkloadSpec) (placements : list Placement) (new : Footprint) :
    list Placement :=
  filter (λ p, pl_tenant_id p = ws_tenant_id spec ∧ pl_service p = ws_workload_id spec ∧
    (cpu_millicores (pl_resources p) ≠ fp_vcpus new * 1000 ∨
     memory_bytes (pl_resources p) ≠ fp_memory_mb new * 1024 * 1024)) placements.

Definition check_guard_for_pod (db : Db) (spec : WorkloadSpec) (pod : Placement) : bool :=
  tenant_id_valid (ws_tenant_id spec) && workload_role_valid (pl_role pod) &&
  isSome (ok (allow_disruption db (ws_tenant_id spec) (ws_workload_id spec) (pl_role pod) 1
    VerticalResize)).

(** [u64] arithmetic of the quota check wraps. *)
Definition grow_total (current old_per_pod new_per_pod replicas : Z) : Z :=
  wrap_u64 (wrap_u64 (current - wrap_u64 (old_per_pod * replicas)) + wrap_u64 (new_per_pod * replicas)).

Definition quota_exceeded (spec : WorkloadSpec) (what : string) (total max : Z) : string :=
  "tenant '" +:+ ws_tenant_id spec +:+ "' " +:+ what +:+ " quota exceeded: " +:+ pretty total +:+
  " > " +:+ pretty max.

Definition check_quota_for_grow (db : Db) (spec : WorkloadSpec) (new : Footprint) :
    result ControllerError () :=
  quota ← map_err CtrlStorage (get_tenant_quota db (ws_tenant_id spec));
  match quota with
  | None => Ok ()
  | Some quota =>
      '(current_cpu, current_memory, _) ← map_err CtrlStorage (compute_tenant_usage db (ws_tenant_id spec));
      let replicas := total_replicas spec in
      let resources := ps ← ws_pod_spec spec; ps_resources ps in
      let new_total_cpu := grow_total current_cpu
        (default 0 ((λ r, rr_vcpus r * 1000) <$> resources)) (fp_vcpus new * 1000) replicas in
      let new_total_memory := grow_total current_memory
        (default 0 ((λ r, rr_memory_mb r * 1024 * 1024) <$> resources))
        (fp_memory_mb new * 1024 * 1024) replicas in
      if tq_max_cpu_millicores quota <? new_total_cpu
      then Err (CtrlRaft (quota_exceeded spec "CPU" new_total_cpu (tq_max_cpu_millicores quota)))
      else if tq_max_memory_bytes quota <? new_total_memory
      then Err (CtrlRaft (quota_exceeded spec "memory" new_total_memory (tq_max_memory_bytes quota)))
      else Ok ()
  end.

Definition resize_event (event_type message : string) (pod : Placement) : PodEvent := {|
  ev_pod_id := pl_pod_id pod; ev_node_id := spiffe_to_string (pl_node_id pod);
  ev_event_type := event_type; ev_reason := "VerticalResize"; ev_message := message;
  ev_timestamp_unix := 0; ev_count := 1 |}.

Definition remove_stale_pod (now : Z) (pod : Placement) : ctrl () :=
  propose (RecordOrdinalAssignment (freed_assignment pod));;
  propose (RemovePlacement (pl_pod_id pod));;
  emit_event now (resize_event "Resized" "" pod).

(** [new_spec]: the footprint replaced where the spec has one. *)
Definition with_footprint (spec : WorkloadSpec) (new : Footprint) : WorkloadSpec :=
  let set_resources r :=
    {| rr_vcpus := fp_vcpus new; rr_memory_mb := fp_memory_mb new; rr_rest := rr_rest r |} in
  let set_pod_spec ps :=
    {| ps_tenant_id := ps_tenant_id ps; ps_workload_id := ps_workload_id ps; ps_role := ps_role ps;
       ps_image := ps_image ps; ps_ordinal := ps_ordinal ps; ps_pod_id := ps_pod_id ps;
       ps_resources := set_resources <$> ps_resources ps; ps_tolerations := ps_tolerations ps;
       ps_priority := ps_priority ps; ps_runtime := ps_runtime ps; ps_env := ps_env ps;
       ps_labels := ps_labels ps;
       ps_init_containers := ps_init_containers ps; ps_rest := ps_rest ps |} in
  {| ws_tenant_id := ws_tenant_id spec; ws_workload_id := ws_workload_id spec;
     ws_image := ws_image spec; ws_replicas := ws_replicas spec;
     ws_pod_spec := set_pod_spec <$> ws_pod_spec spec; ws_autoscaling := ws_autoscaling spec;
     ws_vertical_autoscaling := ws_vertical_autoscaling spec; ws_budgets := ws_budgets spec;
     ws_placement := ws_placement spec; ws_rest := ws_rest spec |}.

Definition vpa_audit (tenant workload : string) (now : Z) : AuditContext := {|
  ac_request_id := ""; ac_actor := "system:vpa-controller"; ac_target := pair_key tenant workload;
  ac_timestamp_unix := wrap_u64 now |}.
Definition resize_command (record : WorkloadSpecRecord) (spec : WorkloadSpec) (new : Footprint)
    (now : Z) : AuditedCommand := {|
  cmd := ResizeWorkload {|
    wsr_tenant_id := wsr_tenant_id record; wsr_workload_id := wsr_workload_id record;
    wsr_spec_bytes := encode_to_vec (with_footprint spec new); wsr_last_applied_bytes := "" |};
  audit := Some (vpa_audit (wsr_tenant_id record) (wsr_workload_id record) now) |}.

Definition mode_str (mode : Z) : string :=
  if mode =? 0 then "OFF" else if mode =? 1 then "RECREATE" else "OFF".

Definition recommendation (spec : WorkloadSpec) (policy : VerticalAutoscalingPolicy)
    (current new : Footprint) (now : Z) : VpaRecommendationRecord := {|
  vr_tenant_id := ws_tenant_id spec; vr_workload_id := ws_workload_id spec;
  vr_recommended_vcpus := fp_vcpus new; vr_recommended_memory_mb := fp_memory_mb new;
  vr_current_vcpus := fp_vcpus current; vr_current_memory_mb := fp_memory_mb current;
  vr_computed_at_unix := now; vr_mode := mode_str (vp_mode policy) |}.

(** Replicating the recommendation when it changed; whether it did. *)
Definition store_recommendation (spec : WorkloadSpec) (policy : VerticalAutoscalingPolicy)
    (current new : Footprint) (now : Z) : ctrl bool :=
  existing ← reads (λ db, map_err CtrlStorage
    (get_vpa_recommendation db (ws_tenant_id spec) (ws_workload_id spec)));
  let rec_changed :=
    match existing with
    | Some e => negb (vr_recommended_vcpus e =? fp_vcpus new) ||
                negb (vr_recommended_memory_mb e =? fp_memory_mb new)
    | None => true
    end in
  if rec_changed then
    write {| cmd := UpsertVpaRecommendation (recommendation spec policy current new now);
             audit := Some (vpa_audit (ws_tenant_id spec) (ws_workload_id spec) now) |};;
    mret true
  else mret false.

(** Access to the markers of sustained shrink pressure. *)
Definition set_shrink (f : gmap (string * string) Z → gmap (string * string) Z) : ctrl () := λ w,
  ({| w_sm := w_sm w; w_events := w_events w;
      w_local := {| ls_metrics := ls_metrics (w_local w);
                    ls_scale_down_since := ls_scale_down_since (w_local w);
                    ls_shrink_since := f (ls_shrink_since (w_local w)) |};
      w_warnings := w_warnings w |}, Ok ()).
Definition shrink_entry (key : string * string) (now : Z) : ctrl Z := λ w,
  let since := default now (ls_shrink_since (w_local w) !! key) in
  ((set_shrink (λ m, <[key := since]> m) w).1, Ok since).

(** Replacing the first stale pod, after the window. *)
Definition replace_first (record : WorkloadSpecRecord) (spec : WorkloadSpec)
    (placements : list Placement) (current new : Footprint) (now : Z) : ctrl bool :=
  quota ← reads (λ db, Ok (
    if (fp_vcpus current <? fp_vcpus new) || (fp_memory_mb current <? fp_memory_mb new)
    then isSome (ok (check_quota_for_grow db spec new)) else true));
  if negb quota then mret false
  else
    match find_stale_pods spec placements new with
    | [] => mret false
    | first_pod :: _ =>
        allowed ← reads (λ db, Ok (check_guard_for_pod db spec first_pod));
        if negb allowed then mret false
        else
          emit_event now (resize_event "Resizing"
            ("vcpus " +:+ pretty (fp_vcpus current) +:+ "→" +:+ pretty (fp_vcpus new) +:+ ", memory " +:+
             pretty (fp_memory_mb current) +:+ "→" +:+ pretty (fp_memory_mb new) +:+ " MB") first_pod);;
          write (resize_command record spec new now);;
          remove_stale_pod now first_pod;;
          mret true
    end.

(** The part of an evaluation in RECREATE mode. *)
Definition recreate (record : WorkloadSpecRecord) (spec : WorkloadSpec)
    (policy : VerticalAutoscalingPolicy) (placements : list Placement) (current new : Footprint)
    (now : Z) : ctrl bool :=
  let key := (ws_tenant_id spec, ws_workload_id spec) in
  if (fp_vcpus new <? fp_vcpus current) || (fp_memory_mb new <? fp_memory_mb current) then
    since ← shrink_entry key now;
    if now - since <? vp_stabilization_window_seconds policy then mret false
    else replace_first record spec placements current new now
  else
    set_shrink (delete key);;
    replace_first record spec placements current new now.

Definition evaluate_with_dimensions (record : WorkloadSpecRecord) (spec : WorkloadSpec)
    (policy : VerticalAutoscalingPolicy) (placements : list Placement) (now : Z)
    (cpu_active mem_active : bool) : ctrl bool := λ w,
  let windows := qualifying (ls_metrics (w_local w)) (pods_of spec placements) in
  if negb cpu_active && negb mem_active then (w, Ok false)
  else
    match (ps ← ws_pod_spec spec; ps_resources ps), windows with
    | None, _ | _, [] => (w, Ok false)
    | Some r, _ =>
        let current := {| fp_vcpus := rr_vcpus r; fp_memory_mb := rr_memory_mb r |} in
        let '(new, any_change) := recommend policy current windows cpu_active mem_active in
        if negb any_change then
          (set_shrink (delete (ws_tenant_id spec, ws_workload_id spec));; mret false) w
        else
          (rec_changed ← store_recommendation spec policy current new now;
           if vp_mode policy =? 0 then mret rec_changed
           else recreate record spec policy placements current new now) w
    end.

Definition vpa_evaluate_workload (record : WorkloadSpecRecord) (placements : list Placement)
    (now : Z) : ctrl bool :=
  match decode (wsr_spec_bytes record) : option WorkloadSpec with
  | None => warn (UndecodableSpec (wsr_workload_id record));; mret false
  | Some spec =>
      match ws_vertical_autoscaling spec with
      | None => mret false
      | Some policy =>
          let cpu_active := 0 <? vp_target_cpu_utilization_percent policy in
          let mem_active := 0 <? vp_target_memory_utilization_percent policy in
          let hpa_cpu := match ws_autoscaling spec with
            | Some hpa => ap_enabled hpa && (0 <? ap_target_cpu_millicores hpa) | None => false end in
          let hpa_mem := match ws_autoscaling spec with
            | Some hpa => ap_enabled hpa && (0 <? ap_target_memory_bytes hpa) | None => false end in
          if negb (vp_enabled policy) then mret false
          else if negb cpu_active && negb mem_active then mret false
          else if cpu_active && hpa_cpu then
            evaluate_with_dimensions record spec policy placements now false mem_active
          else if mem_active && hpa_mem then
            evaluate_with_dimensions record spec policy placements now cpu_active false
          else evaluate_with_dimensions record spec policy placements now cpu_active mem_active
      end
  end.

Definition vpa_evaluate_at (now : Z) : ctrl () :=
  workloads ← reads (λ db, map_err CtrlStorage (list_workloads db));
  placements ← reads (λ db, map_err CtrlStorage (list_placements db));
  for_each (λ record, logged (vpa_evaluate_workload record placements now)) workloads.

(** The body of the VPA loop ([main.rs]). *)
Definition vpa_tick (now : Z) : ctrl () := logged (vpa_evaluate_at now).
End VpaController.

(** ** Properties *)
Lemma clamp_bounds x lo hi : lo ≤ hi → lo ≤ clamp x lo hi ≤ hi.
Proof. unfold clamp. intros. repeat case_match; lia. Qed.

(** A dimension that changes leaves the deadband, for a value within its bounds. *)
Lemma resize_dimension_spec active current x lo hi deadband :
  1 ≤ lo ≤ hi → 0 ≤ current → 0 ≤ deadband →
  let new := resize_dimension active current (clamp x lo hi) deadband in
  (new = current ∧ active && negb (vpa_within_deadband current (clamp x lo hi) deadband) = false) ∨
  (active = true ∧ lo ≤ new ≤ hi ∧ new ≠ current ∧ current * deadband < 100 * Z.abs (new - current)).
Proof.
  intros Hlo Hc Hd. cbv zeta. unfold resize_dimension. pose proof (clamp_bounds x lo hi).
  destruct active; cbn [andb]; [|by left].
  destruct (vpa_within_deadband _ _ _) eqn:E; cbn [negb]; [by left|right].
  unfold vpa_within_deadband in E. destruct (Z.eqb_spec current 0); [split_and!; try done; lia|].
  apply Z.leb_gt in E. destruct (Z.ltb_spec current (clamp x lo hi)); split_and!; try done; nia.
Qed.

Section VpaProperties.
Context `{R : Raft} `{G : !DisruptionGuard} `{!FjallSpec F} `{!RaftSpec R} `{!CoreSpec C}.

(** The slot of the pod the autoscaler removes keeps its record, and nobody is in it. *)
Lemma remove_stale_pod_vacates now p w w' :
  remove_stale_pod now p w = (w', Ok ()) →
  (∀ pod q, placement_of (contents (w_db w)) pod = Some q →
    occupies (pl_tenant_id p) (pl_service p) (pl_role p) (pl_ordinal p) q = true → pod = pl_pod_id p) →
  slot_vacant (pl_tenant_id p) (pl_service p) (pl_role p) (pl_ordinal p) (contents (w_db w')).
Proof.
  intros H Hsole. unfold remove_stale_pod in H. cbv [mbind ctrl_bind] in H.
  destruct (propose (RecordOrdinalAssignment _) w) as [w1 [[]|]] eqn:E1; [|done].
  destruct (propose (RemovePlacement _) w1) as [w2 [[]|]] eqn:E2; [|done].
  injection H as <-. unfold w_db in *. cbn [w_sm].
  apply propose_ok in E1 as (_ & e1 & r1 & Hp1 & He1).
  apply propose_ok in E2 as (_ & e2 & r2 & Hp2 & He2).
  destruct (apply_entry_command _ _ _ _ _ Hp1 He1) as (b1 & ck1 & Hb1 & Hl1).
  destruct (apply_entry_command _ _ _ _ _ Hp2 He2) as (b2 & ck2 & Hb2 & Hl2).
  cbn [cmd system apply_command] in Hb1, Hb2.
  unfold apply_record_ordinal_assignment in Hb1. unfold apply_remove_placement in Hb2. ok_inv.
  split.
  - rewrite Hl2, apply_batch_lookup by done. cbn [last_write batch_remove].
    rewrite Hl1, apply_batch_lookup by done. cbn.
    eexists. repeat case_decide; naive_solver.
  - intros pod q. unfold placement_of. rewrite Hl2, apply_batch_lookup by done. cbn.
    repeat case_decide; try done. rewrite Hl1, apply_batch_lookup by done. cbn.
    repeat case_decide; try done. intros Hq.
    destruct (occupies _ _ _ _ q) eqn:Ho; [|done]. specialize (Hsole pod q Hq Ho). naive_solver.
Qed.

Lemma write_frame c w w' k :
  write c w = (w', Ok ()) → ks_placements ∉ cmd_keyspaces (cmd c) →
  placement_of (contents (w_db w')) k = placement_of (contents (w_db w)) k.
Proof.
  unfold write. destruct (client_write (w_sm w) c) as [sm [r|m]] eqn:E; [|done].
  intros [= <-] Hks. apply client_write_ok in E as (e & Hp & He). unfold placement_of, w_db. cbn.
  rewrite (apply_entry_frame (w_sm w) e sm r ks_placements k); [done..| |done].
  unfold entry_keyspaces. by rewrite Hp.
Qed.

Lemma store_recommendation_ok spec policy current new now w w' b :
  store_recommendation spec policy current new now w = (w', Ok b) →
  w_local w' = w_local w ∧
  ∀ k, placement_of (contents (w_db w')) k = placement_of (contents (w_db w)) k.
Proof.
  unfold store_recommendation. cbv [mbind ctrl_bind reads].
  destruct (map_err _ _) as [o|]; [|done].
  destruct (match o with Some _ => _ | None => _ end); [|by intros [= <- _]].
  destruct (write _ w) as [w1 [[]|]] eqn:E; [|done]. intros [= <- _]. split.
  - unfold write in E. destruct (client_write _ _) as [? []]; by simplify_eq.
  - intros k. apply (write_frame _ _ _ _ E). cbn. set_solver.
Qed.

(** What holds of a resize that was carried out: [w1] is the state it is proposed in. *)
Definition resized (record : WorkloadSpecRecord) (spec : WorkloadSpec) (placements : list Placement)
    (current new : Footprint) (now : Z) (w1 w' : World) : Prop :=
  ∃ pod rest w2, find_stale_pods spec placements new = pod :: rest ∧
    check_guard_for_pod (w_db w1) spec pod = true ∧
    ((fp_vcpus current < fp_vcpus new ∨ fp_memory_mb current < fp_memory_mb new) →
      check_quota_for_grow (w_db w1) spec new = Ok ()) ∧
    write (resize_command record spec new now) w1 = (w2, Ok ()) ∧
    remove_stale_pod now pod w2 = (w', Ok ()).

Lemma replace_first_ok record spec placements current new now w w' :
  replace_first record spec placements current new now w = (w', Ok true) →
  ∃ w1, w_sm w1 = w_sm w ∧ resized record spec placements current new now w1 w'.
Proof.
  unfold replace_first. cbv [mbind ctrl_bind reads]. intros H.
  set (quota := if (_ || _ : bool) then isSome _ else true) in H.
  destruct quota eqn:Eq; subst quota; cbn [negb] in H; [|done].
  destruct (find_stale_pods _ _ _) as [|pod rest] eqn:Ep; [done|].
  destruct (check_guard_for_pod _ _ _) eqn:Eg; cbn [negb] in H; [|done].
  destruct (emit_event _ _ w) as [w1 [[]|]] eqn:Ee; [|done].
  destruct (write _ w1) as [w2 [[]|]] eqn:Ew; [|done].
  destruct (remove_stale_pod _ _ w2) as [w3 [[]|]] eqn:Er; [|done]. injection H as <-.
  assert (w_sm w1 = w_sm w) as Esm by (unfold emit_event in Ee; by injection Ee as <-).
  exists w1. split; [done|]. exists pod, rest, w2. unfold w_db in *. rewrite Esm. split_and!; try done.
  intros Hgrow. rewrite (proj2 (orb_true_iff _ _)) in Eq by (rewrite !Z.ltb_lt; done).
  destruct (check_quota_for_grow _ _ _) as [[]|]; done.
Qed.

(** The sustained reason to shrink, or none needed. *)
Lemma recreate_ok record spec policy placements current new now w w' :
  recreate record spec policy placements current new now w = (w', Ok true) →
  ((fp_vcpus new < fp_vcpus current ∨ fp_memory_mb new < fp_memory_mb current) →
    vp_stabilization_window_seconds policy ≤
      now - default now (ls_shrink_since (w_local w) !! (ws_tenant_id spec, ws_workload_id spec))) ∧
  ∃ w1, w_sm w1 = w_sm w ∧ resized record spec placements current new now w1 w'.
Proof.
  unfold recreate. cbv [mbind ctrl_bind shrink_entry].
  destruct (_ || _) eqn:Es.
  - destruct (Z.ltb_spec (now - default now (ls_shrink_since (w_local w) !!
      (ws_tenant_id spec, ws_workload_id spec))) (vp_stabilization_window_seconds policy)) as [?|Hwin]; [done|].
    intros H%replace_first_ok. split; [done|exact H].
  - intros H%replace_first_ok. split; [|exact H].
    apply orb_false_iff in Es as [?%Z.ltb_ge ?%Z.ltb_ge]. lia.
Qed.

Lemma evaluate_with_dimensions_ok record spec policy placements now cpu mem w w' r :
  evaluate_with_dimensions record spec policy placements now cpu mem w = (w', Ok true) →
  (ps ← ws_pod_spec spec; ps_resources ps) = Some r → vp_mode policy ≠ 0 →
  let current := {| fp_vcpus := rr_vcpus r; fp_memory_mb := rr_memory_mb r |} in
  ∃ windows w1, windows = qualifying (ls_metrics (w_local w)) (pods_of spec placements) ∧
    (recommend policy current windows cpu mem).2 = true ∧
    let new := (recommend policy current windows cpu mem).1 in
    ((fp_vcpus new < fp_vcpus current ∨ fp_memory_mb new < fp_memory_mb current) →
      vp_stabilization_window_seconds policy ≤
        now - default now (ls_shrink_since (w_local w) !! (ws_tenant_id spec, ws_workload_id spec))) ∧
    (∀ k, placement_of (contents (w_db w1)) k = placement_of (contents (w_db w)) k) ∧
    resized record spec placements current new now w1 w'.
Proof.
  intros H Hr Hmode. cbv zeta. unfold evaluate_with_dimensions in H. rewrite Hr in H.
  destruct (negb cpu && negb mem); [done|].
  destruct (qualifying _ _) as [|ws l] eqn:Ew; [done|]. cbv zeta in H.
  set (current := {| fp_vcpus := rr_vcpus r; fp_memory_mb := rr_memory_mb r |}) in *.
  destruct (recommend policy current (ws :: l) cpu mem) as [new any] eqn:Erec.
  destruct any; cbn [negb] in H; [|done]. cbv [mbind ctrl_bind] in H.
  destruct (store_recommendation _ _ _ _ _ w) as [w0 [b|]] eqn:Es; [|done].
  apply store_recommendation_ok in Es as [Hloc Hpl].
  rewrite (proj2 (Z.eqb_neq _ _) Hmode) in H. apply recreate_ok in H as (Hsh & w1 & Hsm & Hres).
  exists (ws :: l), w1. rewrite Erec. cbn [fst snd]. rewrite Hloc in Hsh.
  split_and!; try done. intros k. unfold w_db in *. by rewrite Hsm.
Qed.

(** The dimensions an evaluation acts on. *)
Definition hpa_on_cpu (spec : WorkloadSpec) : bool :=
  match ws_autoscaling spec with
  | Some hpa => ap_enabled hpa && (0 <? ap_target_cpu_millicores hpa)
  | None => false
  end.

Lemma vpa_dimensions record placements now w w' spec policy :
  vpa_evaluate_workload record placements now w = (w', Ok true) →
  decode (wsr_spec_bytes record) = Some spec → ws_vertical_autoscaling spec = Some policy →
  vp_enabled policy = true ∧ ∃ cpu mem,
    evaluate_with_dimensions record spec policy placements now cpu mem w = (w', Ok true) ∧
    (cpu = true → 0 < vp_target_cpu_utilization_percent policy ∧ hpa_on_cpu spec = false) ∧
    (mem = true → 0 < vp_target_memory_utilization_percent policy).
Proof.
  intros H Hd Hp. unfold vpa_evaluate_workload in H. rewrite Hd, Hp in H. fold (hpa_on_cpu spec) in H.
  cbv zeta in H. destruct (vp_enabled policy); cbn [negb] in H; [|done]. split; [done|].
  destruct (Z.ltb_spec 0 (vp_target_cpu_utilization_percent policy)) as [Hc|];
    destruct (Z.ltb_spec 0 (vp_target_memory_utilization_percent policy)) as [Hm|];
    cbn [negb andb] in H; try done;
    destruct (hpa_on_cpu spec); try (destruct (match ws_autoscaling spec with Some _ => _ | None => _ end));
    eexists _, _; (split; [exact H|done]).
Qed.

Lemma to_mb_mono a b :
  0 ≤ a ≤ b → b ≤ 2 ^ 51 → to_mb a ≤ to_mb b.
Proof.
  intros Ha Hb. unfold to_mb, MIB.
  rewrite !wrap_u64_small by (unfold is_u64; lia).
  pose proof (Z.div_le_mono (a + 1024 * 1024 - 1) (b + 1024 * 1024 - 1) (1024 * 1024)).
  assert ((b + 1024 * 1024 - 1) / (1024 * 1024) < 2 ^ 32) by (apply Z.div_lt_upper_bound; lia).
  pose proof (Z.div_pos (a + 1024 * 1024 - 1) (1024 * 1024)).
  rewrite !wrap_u32_small by (unfold is_u32; lia). lia.
Qed.

(** A dimension of the recommendation moves within its bounds, out of the deadband. *)
Lemma recommend_spec policy current windows cpu mem :
  0 ≤ fp_vcpus current → 0 ≤ fp_memory_mb current → 0 ≤ vp_deadband_percent policy →
  vp_min_vcpus policy ≤ vp_max_vcpus policy →
  0 ≤ vp_min_memory_bytes policy ≤ vp_max_memory_bytes policy →
  vp_max_memory_bytes policy ≤ 2 ^ 51 →
  let new := (recommend policy current windows cpu mem).1 in
  let moved old new := old * deadband_of policy < 100 * Z.abs (new - old) in
  (fp_vcpus new ≠ fp_vcpus current → cpu = true ∧
    Z.max (vp_min_vcpus policy) 1 ≤ fp_vcpus new ≤ Z.max (vp_max_vcpus policy) 1 ∧
    moved (fp_vcpus current) (fp_vcpus new)) ∧
  (fp_memory_mb new ≠ fp_memory_mb current → mem = true ∧
    Z.max (to_mb (vp_min_memory_bytes policy)) 1 ≤ fp_memory_mb new ≤
      Z.max (to_mb (vp_max_memory_bytes policy)) 1 ∧
    moved (fp_memory_mb current) (fp_memory_mb new)) ∧
  ((recommend policy current windows cpu mem).2 = true → new ≠ current).
Proof.
  intros Hv Hm Hdb Hcpu Hmem Hmax. cbv zeta. cbn [recommend fst snd fp_vcpus fp_memory_mb].
  assert (0 ≤ deadband_of policy) as Hdb'.
  { unfold deadband_of, DEFAULT_DEADBAND_PERCENT. case_match; lia. }
  pose proof (to_mb_mono _ _ Hmem Hmax).
  pose proof (resize_dimension_spec cpu (fp_vcpus current) (wrap_u32 (wrap_u64
    (wrap_u64 (average_of pm_cpu_millicores windows * 100) / vp_target_cpu_utilization_percent policy
      + 999) / 1000)) (Z.max (vp_min_vcpus policy) 1) (Z.max (vp_max_vcpus policy) 1)
    (deadband_of policy) ltac:(lia) Hv Hdb') as Hc.
  pose proof (resize_dimension_spec mem (fp_memory_mb current) (to_mb
    (wrap_u64 (average_of pm_memory_bytes windows * 100) / vp_target_memory_utilization_percent policy))
    (Z.max (to_mb (vp_min_memory_bytes policy)) 1) (Z.max (to_mb (vp_max_memory_bytes policy)) 1)
    (deadband_of policy) ltac:(lia) Hm Hdb') as Hmm.
  fold (recommended_vcpus policy (average_of pm_cpu_millicores windows)) in Hc.
  fold (recommended_memory_mb policy (average_of pm_memory_bytes windows)) in Hmm.
  cbv zeta in Hc, Hmm. split_and!; [tauto..|].
  intros [Ha|Ha]%orb_true_iff Heq; apply (f_equal fp_vcpus) in Heq as Heq1;
    apply (f_equal fp_memory_mb) in Heq as Heq2; cbn in Heq1, Heq2.
  - destruct Hc as [[_ Hc]|(_ & _ & Hc & _)]; congruence.
  - destruct Hmm as [[_ Hc']|(_ & _ & Hc' & _)]; congruence.
Qed.

End VpaProperties.

(** ** Witnesses *)
Import DemoInstances.
Import LeaderDemo.

(** The demo workload at one vCPU a pod, its busy pods sized to run at a tenth of
    theirs. *)
Definition vpa_policy (mem_target : Z) : VerticalAutoscalingPolicy := {|
  vp_enabled := true; vp_mode := 1; vp_target_cpu_utilization_percent := 10;
  vp_target_memory_utilization_percent := mem_target; vp_min_vcpus := 1; vp_max_vcpus := 4;
  vp_min_memory_bytes := 64 * MIB; vp_max_memory_bytes := 128 * MIB; vp_deadband_percent := 0;
  vp_stabilization_window_seconds := 0; vp_rest := tt |}.
Definition vpa_resources : ResourceRequirements :=
  {| rr_vcpus := 1; rr_memory_mb := 32; rr_rest := tt |}.
Definition vpa_spec (mem_target : Z) (hpa : option AutoscalingPolicy) : WorkloadSpec := {|
  ws_tenant_id := "acme"; ws_workload_id := "web"; ws_image := "web:1";
  ws_replicas := {["primary" := 2]};
  ws_pod_spec := Some {|
    ps_tenant_id := ""; ps_workload_id := ""; ps_role := ""; ps_image := ""; ps_ordinal := None;
    ps_pod_id := None; ps_resources := Some vpa_resources; ps_tolerations := []; ps_priority := 0;
    ps_runtime := ""; ps_env := []; ps_labels := []; ps_init_containers := []; ps_rest := tt |};
  ws_autoscaling := hpa; ws_vertical_autoscaling := Some (vpa_policy mem_target);
  ws_budgets := ∅; ws_placement := 0; ws_rest := tt |}.
Definition vpa_record (mem_target : Z) (hpa : option AutoscalingPolicy) : WorkloadSpecRecord := {|
  wsr_tenant_id := "acme"; wsr_workload_id := "web";
  wsr_spec_bytes := encode_to_vec (vpa_spec mem_target hpa); wsr_last_applied_bytes := "" |}.

#[local] Existing Instance demo_guard.


(** With the horizontal autoscaler active on both metrics, the runtime check drops the
    CPU and returns before it looks at the memory: the memory is resized. *)
Lemma vpa_resizes_hpa_memory :
  let hpa := {| ap_enabled := true; ap_min_replicas := 1; ap_max_replicas := 5;
    ap_target_cpu_millicores := 100; ap_target_memory_bytes := 1;
    ap_target_net_rx_bytes_per_sec := 0; ap_target_net_tx_bytes_per_sec := 0;
    ap_stabilization_window_seconds := 300; ap_rest := tt |} in
  ok (vpa_evaluate_workload (vpa_record 50 (Some hpa)) demo_placement_list 200 busy_world).2 = Some true.
Proof. cbv zeta. vm_refl. Qed.
