(* ===== verification/Delegation.v ===== *)
(** * Delegation: delegated signing keys

    Models [src/delegation/]: the ids of delegations ([id.rs]), the records and their
    times ([mod.rs]) and the revocation store ([revocation.rs]). *)

From Stdlib Require Import Ascii.
From stdpp Require Import pretty.
From S2P Require Import Prelude.
From S2P Require Import Storage.
From S2P Require Import Core.
From S2P Require Import Records.
From S2P Require Import Schema.
From S2P Require Import StateMachine.

(** ** Reading decimal numbers

    [str::parse::<u32>] and [str::parse::<i64>]: an optional sign ([-] for a signed
    type only), at least one digit, nothing else, and a value of the type. *)
Definition digit (c : ascii) : option Z :=
  let n := Z.of_nat (nat_of_ascii c) in
  if (48 <=? n) && (n <=? 57) then Some (n - 48) else None.

Fixpoint digits_from (acc : Z) (s : string) : option Z :=
  match s with
  | "" => Some acc
  | String c s => d ← digit c; digits_from (acc * 10 + d) s
  end.
Definition parse_digits (s : string) : option Z :=
  match s with "" => None | _ => digits_from 0 s end.

Definition parse_u32 (s : string) : option Z :=
  n ← match s with
      | String c rest => if decide (c = "+"%char) then parse_digits rest else parse_digits s
      | "" => None
      end;
  if n <? 2 ^ 32 then Some n else None.
Definition parse_i64 (s : string) : option Z :=
  n ← match s with
      | String c rest =>
          if decide (c = "+"%char) then parse_digits rest
          else if decide (c = "-"%char) then Z.opp <$> parse_digits rest
          else parse_digits s
      | "" => None
      end;
  if (- 2 ^ 63 <=? n) && (n <? 2 ^ 63) then Some n else None.

(** [s.split(c)]: the parts between the separators, one more than there are. *)
Fixpoint split (sep : ascii) (s : string) : list string :=
  match s with
  | "" => [""]
  | String c s =>
      match split sep s with
      | part :: parts => if decide (c = sep) then "" :: part :: parts else String c part :: parts
      | [] => [String c ""]
      end
  end.

(** ** The ids *)
Inductive DelegationError : Type :=
| IdComputation (message : string)
| DelegationNotFound (delegation_id : string)
| DelegationStorage
| DelegationSerialization.

Definition ordinal_str (target_ordinal : option Z) : string :=
  match target_ordinal with Some o => pretty o | None => "none" end.

Definition compute_delegation_id (node_id target_svid_id : string) (target_ordinal : option Z)
    (issued_at : Z) : result DelegationError string :=
  Ok (node_id +:+ "|" +:+ target_svid_id +:+ "|" +:+ ordinal_str target_ordinal +:+ "|" +:+
      pretty issued_at).

Definition parse_delegation_id (delegation_id : string) :
    result DelegationError (string * string * option Z * Z) :=
  match split "|"%char delegation_id with
  | [node_id; target_svid_id; ordinal; issued_at] =>
      target_ordinal ← (if decide (ordinal = "none") then Ok None
        else ok_or (IdComputation ("invalid ordinal in delegation ID: " +:+ ordinal))
               (Some <$> parse_u32 ordinal));
      issued_at ← ok_or (IdComputation ("invalid timestamp in delegation ID: " +:+ issued_at))
        (parse_i64 issued_at);
      Ok (node_id, target_svid_id, target_ordinal, issued_at)
  | parts => Err (IdComputation
      ("invalid delegation ID format: expected 4 pipe-separated parts, got " +:+
       pretty (Z.of_nat (length parts))))
  end.

(** ** Records *)
Section Delegations.
Context `{F : Fjall} `{C : Core} `{W : !Wire C}.

Definition is_expired (r : DelegationRecord) (now : Z) : bool := dr_expires_at r <=? now.
Definition should_refresh (r : DelegationRecord) (now : Z) : bool := dr_refresh_at r <=? now.
Definition time_until_expiry (r : DelegationRecord) (now : Z) : Z := Z.max (dr_expires_at r - now) 0.

(** ** The revocation store

    It writes to the two keyspaces directly; a write is a batch of one operation. An
    error leaves the writes before it in place. *)
Definition store_write (db : Db) (op : batch_op) : Db * result DelegationError () :=
  match commit db [op] with Ok db => (db, Ok ()) | Err _ => (db, Err DelegationStorage) end.

Definition record_active (db : Db) (record : DelegationRecord) : Db * result DelegationError () :=
  let key := composite_delegation_key (dr_node_id record) (dr_delegation_id record) in
  match to_allocvec record with
  | Some serialized => store_write db (BInsert ks_active_delegations key serialized)
  | None => (db, Err DelegationSerialization)
  end.

(** The record of an active delegation, as [revoke] reads it. *)
Definition read_active (db : Db) (key : bytes) (delegation_id : string) :
    result DelegationError DelegationRecord :=
  record_bytes ← map_err (λ _, DelegationStorage) (get db ks_active_delegations key);
  record_bytes ← ok_or (DelegationNotFound delegation_id) record_bytes;
  ok_or DelegationSerialization (from_bytes record_bytes).

Definition revoke_delegation (db : Db) (node_id : SpiffeId) (delegation_id : string) :
    Db * result DelegationError () :=
  let key := composite_delegation_key node_id delegation_id in
  match read_active db key delegation_id with
  | Err e => (db, Err e)
  | Ok record =>
      match store_write db (BRemove ks_active_delegations key) with
      | (db, Err e) => (db, Err e)
      | (db, Ok _) =>
          match to_allocvec record with
          | Some serialized => store_write db (BInsert ks_revoked_delegations key serialized)
          | None => (db, Err DelegationSerialization)
          end
      end
  end.

(** The delegation ids under the node's prefix. Keys are written from strings, so that
    [from_utf8_lossy] changes nothing. *)
Definition delegation_ids (db : Db) (node_id : SpiffeId) : result DelegationError (list string) :=
  foldM (λ acc guard,
    '(key, _) ← map_err (λ _, DelegationStorage) guard;
    Ok (match node_prefix_len key with
        | Some prefix_len =>
            if prefix_len <? Z.of_nat (String.length key)
            then acc ++ [(split_string (Z.to_nat prefix_len) key).2] else acc
        | None => acc
        end)) (prefix db ks_active_delegations (node_delegation_prefix node_id)) [].

Fixpoint revoke_each (db : Db) (node_id : SpiffeId) (ids revoked_ids : list string) :
    Db * result DelegationError (list string) :=
  match ids with
  | [] => (db, Ok revoked_ids)
  | id :: ids =>
      match revoke_delegation db node_id id with
      | (db, Err e) => (db, Err e)
      | (db, Ok _) => revoke_each db node_id ids (revoked_ids ++ [id])
      end
  end.
Definition revoke_all_for_node (db : Db) (node_id : SpiffeId) :
    Db * result DelegationError (list string) :=
  match delegation_ids db node_id with
  | Err e => (db, Err e)
  | Ok ids => revoke_each db node_id ids []
  end.

(** The scan of the revoked keyspace, with the test of its two callers. *)
Definition scan_revoked {A} (db : Db) (f : DelegationRecord → option A) :
    result DelegationError (list A) :=
  foldM (λ acc guard,
    '(_, value) ← map_err (λ _, DelegationStorage) guard;
    Ok (match from_bytes value with
        | Some record => match f record with Some a => acc ++ [a] | None => acc end
        | None => acc
        end)) (prefix db ks_revoked_delegations "") [].

Definition get_revoked_set (db : Db) (now : Z) : result DelegationError (list string) :=
  scan_revoked db (λ record,
    if now <? dr_expires_at record then Some (dr_delegation_id record) else None).

Fixpoint remove_each (db : Db) (keys : list bytes) : Db * result DelegationError () :=
  match keys with
  | [] => (db, Ok ())
  | key :: keys =>
      match store_write db (BRemove ks_revoked_delegations key) with
      | (db, Err e) => (db, Err e)
      | (db, Ok _) => remove_each db keys
      end
  end.
Definition cleanup_expired_revocations (db : Db) (now : Z) : Db * result DelegationError Z :=
  match scan_revoked db (λ record,
    if dr_expires_at record <=? now
    then Some (composite_delegation_key (dr_node_id record) (dr_delegation_id record)) else None) with
  | Err e => (db, Err e)
  | Ok keys =>
      match remove_each db keys with
      | (db, Err e) => (db, Err e)
      | (db, Ok _) => (db, Ok (Z.of_nat (length keys)))
      end
  end.

(** A revocation that returns moves the record from the one keyspace to the other. *)
Lemma revoke_delegation_ok `{!FjallSpec F} db node_id id db' :
  revoke_delegation db node_id id = (db', Ok ()) →
  ∃ v (record : DelegationRecord) v',
    contents db !! (ks_active_delegations, composite_delegation_key node_id id) = Some v ∧
    from_bytes v = Some record ∧ to_allocvec record = Some v' ∧
    contents db' = apply_batch (contents db)
      [BRemove ks_active_delegations (composite_delegation_key node_id id);
       BInsert ks_revoked_delegations (composite_delegation_key node_id id) v'].
Proof.
  unfold revoke_delegation, store_write. intros H.
  destruct (read_active _ _ _) as [record|] eqn:Er; [|done].
  unfold read_active in Er. apply bind_ok in Er as (o & Ho & Er). apply map_err_ok, get_spec in Ho.
  apply bind_ok in Er as (v & Hv & Er). apply ok_or_ok in Hv, Er.
  destruct (commit db _) as [db1|] eqn:E1; [|done].
  destruct (to_allocvec record) as [v'|] eqn:Es; [|done].
  destruct (commit db1 _) as [db2|] eqn:E2; [|done]. injection H as <-.
  exists v, record, v'. split_and!; [congruence|done..|].
  by rewrite (commit_spec _ _ _ E2), (commit_spec _ _ _ E1).
Qed.

(** The two steps are two writes: a failure of the second leaves a delegation that is
    neither active nor revoked. *)
Lemma revoke_delegation_torn `{!FjallSpec F} db node_id id db' :
  revoke_delegation db node_id id = (db', Err DelegationStorage) → db' ≠ db →
  contents db' = apply_batch (contents db)
    [BRemove ks_active_delegations (composite_delegation_key node_id id)].
Proof.
  unfold revoke_delegation, store_write. intros H Hne.
  destruct (read_active _ _ _) as [record|]; [|naive_solver].
  destruct (commit db _) as [db1|] eqn:E1; [|naive_solver].
  destruct (to_allocvec record) as [v'|] eqn:Es; [|done].
  destruct (commit db1 _) as [db2|] eqn:E2; [done|]. injection H as <-.
  apply (commit_spec _ _ _ E1).
Qed.
End Delegations.

(** ** Printing and reading back *)
Lemma split_no_char sep a : no_char sep a = true → split sep a = [a].
Proof.
  induction a as [|c a IH]; [done|]. cbn [no_char split].
  intros [Hc%negb_true_iff%bool_decide_eq_false Ha]%andb_true_iff.
  rewrite (IH Ha). by case_decide.
Qed.

Lemma split_cons_sep sep s : split sep (String sep s) = "" :: split sep s.
Proof.
  cbn. destruct (split sep s) as [|p ps] eqn:E; [|by rewrite decide_True].
  destruct s as [|c s]; cbn in E; [done|]. repeat case_match; done.
Qed.

Lemma split_app sep a s : no_char sep a = true → split sep (a +:+ String sep s) = a :: split sep s.
Proof.
  induction a as [|c a IH]; [by intros _; apply split_cons_sep|].
  change (String c a +:+ String sep s) with (String c (a +:+ String sep s)). cbn [no_char].
  intros [Hc%negb_true_iff%bool_decide_eq_false Ha]%andb_true_iff.
  cbn [split]. rewrite (IH Ha). by rewrite decide_False.
Qed.

Lemma digit_pretty x : (x < 10)%N → digit (pretty_N_char x) = Some (Z.of_N x).
Proof.
  intros Hx. assert (x ∈ [0; 1; 2; 3; 4; 5; 6; 7; 8; 9]%N) as Hin.
  { rewrite !elem_of_cons. lia. }
  repeat (apply elem_of_cons in Hin as [->|Hin]; [done|]). by apply not_elem_of_nil in Hin.
Qed.

Lemma digits_from_pretty x s : digits_from 0 (pretty_N_go x s) = digits_from (Z.of_N x) s.
Proof.
  revert s. induction (N.lt_wf_0 x) as [x _ IH]. intros s.
  destruct (decide (0 < x)%N) as [Hx|Hx].
  - rewrite pretty_N_go_step, IH by (try apply N.div_lt; done). cbn [digits_from].
    rewrite digit_pretty by (apply N.mod_lt; done). cbn [mbind option_bind].
    f_equal. rewrite (N.div_mod x 10) at 3 by done. lia.
  - by replace x with 0%N by lia.
Qed.

(** What a positive number prints as starts with a digit. *)
Lemma pretty_pos_first (p : positive) : ∃ x s, (x < 10)%N ∧ pretty p = String (pretty_N_char x) s.
Proof.
  change (pretty p) with (pretty_N_go (N.pos p) "").
  assert (∀ y s, (0 < y)%N → ∃ x s', (x < 10)%N ∧ pretty_N_go y s = String (pretty_N_char x) s') as H;
    [|by apply H].
  intros y. induction (N.lt_wf_0 y) as [y _ IH]. intros s Hy. rewrite pretty_N_go_step by done.
  destruct (decide (0 < y / 10)%N) as [Hd|Hd].
  - apply IH; [by apply N.div_lt|done].
  - rewrite (proj1 (N.le_0_r _) (proj1 (N.nlt_ge _ _) Hd)), pretty_N_go_0.
    exists (y mod 10)%N, s. split; [by apply N.mod_lt|done].
Qed.

Lemma parse_digits_pretty (p : positive) : parse_digits (pretty p) = Some (Z.pos p).
Proof.
  destruct (pretty_pos_first p) as (x & s & _ & E). unfold parse_digits. rewrite E, <- E.
  change (pretty p) with (pretty_N_go (N.pos p) ""). by rewrite digits_from_pretty.
Qed.

(** A digit is not a sign. *)
Lemma digit_no_sign x : pretty_N_char x ≠ "+"%char ∧ pretty_N_char x ≠ "-"%char.
Proof. unfold pretty_N_char. split; by repeat case_match. Qed.

Lemma parse_i64_pretty (z : Z) : - 2 ^ 63 ≤ z < 2 ^ 63 → parse_i64 (pretty z) = Some z.
Proof.
  intros Hz. unfold parse_i64. destruct z as [|p|p].
  - done.
  - change (pretty (Z.pos p)) with (pretty p).
    destruct (pretty_pos_first p) as (x & s & Hx & E). destruct (digit_no_sign x).
    rewrite E, !decide_False, <- E, parse_digits_pretty by done. cbn [mbind option_bind].
    by rewrite (proj2 (Z.leb_le _ _)), (proj2 (Z.ltb_lt _ _)) by lia.
  - change (pretty (Z.neg p)) with (String "-"%char (pretty p)). cbv beta iota.
    destruct (decide _) as [|_]; [done|]. destruct (decide _) as [_|]; [|done].
    rewrite parse_digits_pretty. cbn [fmap option_fmap option_map mbind option_bind].
    by rewrite (proj2 (Z.leb_le _ _)), (proj2 (Z.ltb_lt _ _)) by lia.
Qed.

Lemma parse_u32_pretty (z : Z) : 0 ≤ z < 2 ^ 32 → parse_u32 (pretty z) = Some z.
Proof.
  intros Hz. unfold parse_u32. destruct z as [|p|p]; [done| |lia].
  change (pretty (Z.pos p)) with (pretty p).
  destruct (pretty_pos_first p) as (x & s & Hx & E). destruct (digit_no_sign x).
  rewrite E, decide_False, <- E, parse_digits_pretty by done.
  cbn [mbind option_bind]. by rewrite (proj2 (Z.ltb_lt _ _)) by lia.
Qed.

Lemma pretty_not_none (z : Z) : pretty z ≠ "none".
Proof.
  destruct z as [|p|p]; [done| |done]. change (pretty (Z.pos p)) with (pretty p).
  destruct (pretty_pos_first p) as (x & s & _ & ->). unfold pretty_N_char. by repeat case_match.
Qed.

Lemma ordinal_str_no_char o : no_char "|"%char (ordinal_str o) = true.
Proof. destruct o as [o|]; [|done]. apply pretty_Z_no_char. set_solver. Qed.

(** The id of a delegation determines it: what [compute_delegation_id] formats,
    [parse_delegation_id] reads back, node, target, ordinal (none, or any [u32]) and
    time of issue, provided the two identities contain no [|]. *)
Theorem delegation_id_roundtrip node target ordinal issued_at :
  no_char "|"%char node = true → no_char "|"%char target = true →
  (∀ o, ordinal = Some o → is_u32 o) → - 2 ^ 63 ≤ issued_at < 2 ^ 63 →
  (compute_delegation_id node target ordinal issued_at ≫= parse_delegation_id) =
    Ok (node, target, ordinal, issued_at).
Proof.
  intros Hn Ht Ho Hi. cbn [mbind result_bind compute_delegation_id].
  unfold parse_delegation_id.
  assert (∀ s, "|" +:+ s = String "|"%char s) as Hbar by done. rewrite !Hbar.
  rewrite !split_app by (try apply ordinal_str_no_char; done).
  rewrite split_no_char by (apply pretty_Z_no_char; set_solver).
  rewrite parse_i64_pretty by done. destruct ordinal as [o|]; cbn [ordinal_str]; [|by case_decide].
  rewrite decide_False by apply pretty_not_none. by rewrite parse_u32_pretty by (by apply Ho).
Qed.

Lemma delegation_id_roundtrip_witness :
  (compute_delegation_id "spiffe://fleet/ns/system/node/a" "spiffe://fleet/ns/acme/sa/db" (Some 7) 1700000000
     ≫= parse_delegation_id) =
    Ok ("spiffe://fleet/ns/system/node/a", "spiffe://fleet/ns/acme/sa/db", Some 7, 1700000000).
Proof.
  apply delegation_id_roundtrip; [done|done| |lia]. intros o [= <-]. unfold is_u32. lia.
Defined.
