(* ===== verification/Secrets.v ===== *)
(** * Secrets: envelope encryption and the secret store

    Models [src/secrets/crypto.rs] and [src/secrets/mod.rs]. The cipher
    (ChaCha20-Poly1305, a third-party crate) is the class [Aead]; random bytes are
    arguments. A secret is written by the state machine ([StoreSecret]) and read by
    [fetch_secret], which checks the ACL before it decrypts. *)

From S2P Require Import Prelude.
From S2P Require Import Storage.
From S2P Require Import Core.
From S2P Require Import Records.
From S2P Require Import WireInstance.
From S2P Require Import Schema.
From S2P Require Import Expansion.
From S2P Require Import Watch.
From S2P Require Import Acl.
From S2P Require Import StateMachine.
From S2P Require Import Apply.
From S2P Require Import Invariant.
From S2P Require Import Demo.
From S2P Require Import Replication.
From S2P Require Import Staging.
From S2P Require Import Frame.

Definition DEK_LENGTH : Z := 32.
Definition MASTER_KEY_LENGTH : Z := 32.
Definition NONCE_LENGTH : Z := 12.

(** [ChaCha20Poly1305]: [encrypt] and [decrypt] with a key and a nonce. *)
Class Aead : Type := {
  cipher_encrypt : bytes → bytes → bytes → option bytes;
  cipher_decrypt : bytes → bytes → bytes → option bytes;
  cipher_decrypt_encrypt key nonce m c :
    cipher_encrypt key nonce m = Some c → cipher_decrypt key nonce c = Some m
}.

Inductive SecretError : Type :=
| SecretAccessDenied (secret_key spiffe_id : string)
| SecretNotFound (secret_key : string)
| InvalidDekLength (n : Z)
| InvalidMasterKeyLength (n : Z)
| InvalidNonceLength (n : Z)
| Encryption
| Decryption
| SecretIo
| SecretStorage
| SecretSerialization.

Record WrappedDek : Type := { wd_nonce : bytes; wd_ciphertext : bytes }.
Record EnvelopeSecret : Type := {
  es_wrapped_dek : WrappedDek; es_nonce : bytes; es_ciphertext : bytes }.

(** [Dek::from_bytes]; a generated DEK is 32 random bytes. *)
Definition Dek_from_bytes (b : bytes) : result SecretError bytes :=
  if negb (blen b =? DEK_LENGTH) then Err (InvalidDekLength (blen b)) else Ok b.

(** The trait [MasterKeyProvider]: [wrap_dek] with the nonce it draws. *)
Class MasterKeyProvider : Type := {
  wrap_dek : bytes → bytes → result SecretError WrappedDek;
  unwrap_dek : WrappedDek → result SecretError bytes
}.
(** What the store relies on. *)
Class MasterKeyLaws (K : MasterKeyProvider) : Prop :=
  unwrap_wrap dek nonce w : blen dek = DEK_LENGTH → blen nonce = NONCE_LENGTH →
    wrap_dek dek nonce = Ok w → unwrap_dek w = Ok dek.

(** [FileMasterKey::load] on the bytes of the file. *)
Definition FileMasterKey_load (file : option bytes) : result SecretError bytes :=
  file ← ok_or SecretIo file;
  if negb (blen file =? MASTER_KEY_LENGTH) then Err (InvalidMasterKeyLength (blen file)) else Ok file.

Definition FileMasterKey `{A : Aead} (raw_key : bytes) : MasterKeyProvider := {|
  wrap_dek dek nonce :=
    ciphertext ← ok_or Encryption (cipher_encrypt raw_key nonce dek);
    Ok {| wd_nonce := nonce; wd_ciphertext := ciphertext |};
  unwrap_dek wrapped :=
    if negb (blen (wd_nonce wrapped) =? NONCE_LENGTH)
    then Err (InvalidNonceLength (blen (wd_nonce wrapped)))
    else
      plaintext ← ok_or Decryption (cipher_decrypt raw_key (wd_nonce wrapped) (wd_ciphertext wrapped));
      Dek_from_bytes plaintext
|}.

Section Envelope.
Context `{A : Aead} `{K : MasterKeyProvider}.

(** The random bytes are the DEK, the nonce of the value and the nonce of the wrap. *)
Definition encrypt_at_rest (dek nonce wrap_nonce : bytes) (plaintext : bytes) :
    result SecretError EnvelopeSecret :=
  ciphertext ← ok_or Encryption (cipher_encrypt dek nonce plaintext);
  wrapped_dek ← wrap_dek dek wrap_nonce;
  Ok {| es_wrapped_dek := wrapped_dek; es_nonce := nonce; es_ciphertext := ciphertext |}.

Definition decrypt_at_rest (envelope : EnvelopeSecret) : result SecretError bytes :=
  dek ← unwrap_dek (es_wrapped_dek envelope);
  if negb (blen (es_nonce envelope) =? NONCE_LENGTH)
  then Err (InvalidNonceLength (blen (es_nonce envelope)))
  else ok_or Decryption (cipher_decrypt dek (es_nonce envelope) (es_ciphertext envelope)).
End Envelope.

(** ** The store *)
Section Store.
Context `{F : Fjall} `{C : Core} `{W : !Wire C} `{A : Aead} `{K : MasterKeyProvider}.
Context `{P : !Postcard EnvelopeSecret}.

Definition load_acl (db : Db) (key : string) : result SecretError SecretAcl :=
  r ← map_err (λ _, SecretStorage) (get db ks_secrets ("acl:" +:+ key));
  match r with Some b => ok_or SecretSerialization (from_bytes b) | None => Ok SecretAcl_new end.

Definition load_envelope (db : Db) (key : string) : result SecretError (option EnvelopeSecret) :=
  r ← map_err (λ _, SecretStorage) (get db ks_secrets ("secret:" +:+ key));
  match r with
  | Some b => envelope ← ok_or SecretSerialization (from_bytes b); Ok (Some envelope)
  | None => Ok None
  end.

Definition secret_error (e : AclError) : SecretError :=
  match e with AccessDenied key id => SecretAccessDenied key id end.

Definition fetch_secret (db : Db) (key : string) (requesting : SpiffeId) : result SecretError bytes :=
  acl ← load_acl db key;
  map_err secret_error (authorize acl key requesting);;
  envelope ← load_envelope db key;
  envelope ← ok_or (SecretNotFound key) envelope;
  decrypt_at_rest envelope.

Definition prepare_secret (dek nonce wrap_nonce : bytes) (key : string) (plaintext : bytes)
    (authorized : list SpiffeId) : result SecretError (bytes * bytes) :=
  envelope ← encrypt_at_rest dek nonce wrap_nonce plaintext;
  envelope_bytes ← ok_or SecretSerialization (to_allocvec envelope);
  let acl := foldl (λ acl id, grant acl key id) SecretAcl_new authorized in
  acl_bytes ← ok_or SecretSerialization (to_allocvec acl);
  Ok (envelope_bytes, acl_bytes).
End Store.

(** ** Envelope encryption gives the value back *)
#[export] Instance FileMasterKey_laws `{A : Aead} raw_key : MasterKeyLaws (FileMasterKey raw_key).
Proof.
  intros dek nonce w Hd Hn H. cbn in *. ok_inv. cbn.
  rewrite Hn. cbn. erewrite cipher_decrypt_encrypt by done. cbn.
  unfold Dek_from_bytes. by rewrite Hd.
Qed.

Section EnvelopeFacts.
Context `{A : Aead} `{K : MasterKeyProvider} `{!MasterKeyLaws K}.

Lemma decrypt_encrypt_at_rest dek nonce wrap_nonce m envelope :
  blen dek = DEK_LENGTH → blen nonce = NONCE_LENGTH → blen wrap_nonce = NONCE_LENGTH →
  encrypt_at_rest dek nonce wrap_nonce m = Ok envelope → decrypt_at_rest envelope = Ok m.
Proof.
  unfold encrypt_at_rest, decrypt_at_rest. intros Hd Hn Hw H. ok_inv. cbn.
  erewrite unwrap_wrap by done. cbn. rewrite Hn. cbn.
  by erewrite cipher_decrypt_encrypt.
Qed.
End EnvelopeFacts.

(** ** Who may read a secret *)
Section Readers.
Context `{C : Core}.

Definition readers_step (key : string) (R : gset string) (e : Entry) : gset string :=
  match payload e with
  | Normal a =>
      match cmd a with
      | GrantSecretAccess _ k id =>
          if decide (k = key)
          then match spiffe_parse id with Some s => {[spiffe_to_string s]} ∪ R | None => R end
          else R
      | RevokeSecretAccess _ k id =>
          if decide (k = key)
          then match spiffe_parse id with Some s => R ∖ {[spiffe_to_string s]} | None => R end
          else R
      | _ => R
      end
  | _ => R
  end.

(** The entry does not replace the secret: it neither stores it again nor applies a
    manifest. *)
Definition keeps_secret (key : string) (e : Entry) : bool :=
  match payload e with
  | Normal a =>
      match cmd a with
      | StoreSecret record _ => negb (bool_decide (sec_key record = key))
      | ApplyManifests _ => false
      | _ => true
      end
  | _ => true
  end.

Lemma authorized_fold ids acl key i :
  authorized (foldl (λ acl id, grant acl key id) acl ids) key i ↔
  i ∈ spiffe_to_string <$> ids ∨ authorized acl key i.
Proof.
  revert acl. induction ids as [|id ids IH]; intros acl; cbn; [set_solver|].
  rewrite IH, authorized_grant. set_solver.
Qed.
End Readers.

Section SecretFacts.
Context `{F : Fjall} `{C : Core} `{W : !Wire C} `{!FjallSpec F}.

(** The stored envelope of the secret is [eb] and its ACL authorizes exactly [R]. *)
Definition secret_state (st : store) (key : string) (eb : bytes) (R : gset string) : Prop :=
  st !! (ks_secrets, secret_key key) = Some eb ∧
  ∃ ab acl, st !! (ks_secrets, acl_key key) = Some ab ∧ from_bytes ab = Some acl ∧
    ∀ i, authorized acl key i ↔ i ∈ R.

Lemma acl_key_inj k1 k2 : acl_key k1 = acl_key k2 → k1 = k2.
Proof. unfold acl_key. by intros H%(inj _). Qed.
Lemma secret_key_inj k1 k2 : secret_key k1 = secret_key k2 → k1 = k2.
Proof. unfold secret_key. by intros H%(inj _). Qed.

(** A write of another secret, or of the ACL of another secret. *)
Lemma secret_state_acl st key eb R k ab acl R' :
  secret_state st key eb R → from_bytes ab = Some acl →
  (k = key → ∀ i, authorized acl key i ↔ i ∈ R') → (k ≠ key → R' = R) →
  secret_state (apply_batch st (batch_insert ks_secrets (acl_key k) ab [])) key eb R'.
Proof.
  intros [He (ab0 & acl0 & Ha & Ed & HR)] Hab Hk Hn. split.
  - rewrite apply_batch_lookup. cbn. rewrite decide_False; [done|]. done.
  - destruct (decide (k = key)) as [->|Hne].
    + exists ab, acl. rewrite apply_batch_lookup. cbn. rewrite decide_True by done. eauto.
    + exists ab0, acl0. rewrite apply_batch_lookup. cbn. rewrite decide_False.
      * rewrite Hn by done. eauto.
      * intros H%(f_equal snd)%acl_key_inj. done.
Qed.

Lemma read_acl_authorized db key eb R k acl :
  secret_state (contents db) key eb R → read_acl db k = Ok acl →
  k = key → ∀ i, authorized acl key i ↔ i ∈ R.
Proof.
  intros [_ (ab & acl0 & Ha & Ed & HR)] H ->. unfold read_acl in H.
  apply bind_ok in H as (x & Hx%read_get_ok & H). subst x.
  rewrite Ha in H. apply de_ok in H. rewrite Ed in H.
  by injection H as <-.
Qed.

Lemma grant_secret_readers db key eb R k id b ck :
  secret_state (contents db) key eb R → apply_grant_secret_access db k id [] = Ok (b, ck) →
  secret_state (apply_batch (contents db) b) key eb
    (if decide (k = key)
     then match spiffe_parse id with Some s => {[spiffe_to_string s]} ∪ R | None => R end else R).
Proof.
  intros Hst H. unfold apply_grant_secret_access, parse_spiffe in H.
  apply bind_ok in H as (acl & Hacl & H). ok_inv. ser_inv.
  eapply secret_state_acl; [done|done| |].
  - intros -> i. rewrite decide_True, authorized_grant by done.
    rewrite (read_acl_authorized _ _ _ _ _ _ Hst Hacl eq_refl).
    match goal with E : spiffe_parse _ = _ |- _ => rewrite E end. set_solver.
  - intros Hne. by rewrite decide_False.
Qed.

Lemma revoke_secret_readers db key eb R k id b ck :
  secret_state (contents db) key eb R → apply_revoke_secret_access db k id [] = Ok (b, ck) →
  secret_state (apply_batch (contents db) b) key eb
    (if decide (k = key)
     then match spiffe_parse id with Some s => R ∖ {[spiffe_to_string s]} | None => R end else R).
Proof.
  intros Hst H. unfold apply_revoke_secret_access, parse_spiffe in H.
  apply bind_ok in H as (acl & Hacl & H). ok_inv. ser_inv.
  eapply secret_state_acl; [done|done| |].
  - intros -> i. rewrite decide_True, authorized_revoke by done.
    rewrite (read_acl_authorized _ _ _ _ _ _ Hst Hacl eq_refl).
    match goal with E : spiffe_parse _ = _ |- _ => rewrite E end. set_solver.
  - intros Hne. by rewrite decide_False.
Qed.

Lemma store_other_secret db key eb R record target b ck :
  secret_state (contents db) key eb R → negb (bool_decide (sec_key record = key)) = true →
  apply_store_secret record target [] = Ok (b, ck) →
  secret_state (apply_batch (contents db) b) key eb R.
Proof.
  intros Hst Hne%negb_true_iff%bool_decide_eq_false H. unfold apply_store_secret in H. ok_inv.
  unfold secret_state, batch_insert. rewrite !apply_batch_lookup.
  rewrite !last_write_snoc. cbn [op_key op_value].
  repeat (rewrite decide_False by (intros H%(f_equal snd); first
    [by apply acl_key_inj in H|by apply secret_key_inj in H|done])). done.
Qed.

Lemma readers_step_frame key R e : ks_secrets ∉ entry_keyspaces e → readers_step key R e = R.
Proof.
  unfold entry_keyspaces, readers_step. destruct (payload e) as [|a|m]; try done.
  destruct (cmd a); cbn; try done; set_solver.
Qed.

(** What one applied entry does to a secret it does not replace. *)
Lemma apply_entry_secret sm e sm' r key eb R :
  secret_state (contents (sm_db sm)) key eb R → keeps_secret key e = true →
  apply_entry sm e = (sm', Ok r) →
  secret_state (contents (sm_db sm')) key eb (readers_step key R e).
Proof.
  intros Hst Hk H.
  destruct (decide (ks_secrets ∈ entry_keyspaces e)) as [Hks|Hks].
  - unfold entry_keyspaces in Hks. unfold keeps_secret, readers_step in *.
    destruct (payload e) as [|a|m] eqn:Hp; [set_solver| |set_solver].
    destruct (apply_entry_command _ _ _ _ _ Hp H) as (b & ck & Hb & Hl).
    assert (∀ R', secret_state (apply_batch (contents (sm_db sm)) b) key eb R' →
      secret_state (contents (sm_db sm')) key eb R') as Hmove.
    { intros R'. unfold secret_state. by rewrite !Hl. }
    apply Hmove. clear Hl Hmove H.
    destruct (cmd a) as [] eqn:Hc; try (exfalso; clear -Hks; set_solver);
      cbn [apply_command] in Hb; try done.
    + by eapply store_other_secret.
    + by eapply grant_secret_readers.
    + by eapply revoke_secret_readers.
  - replace (readers_step key R e) with R; [|symmetry; by apply readers_step_frame].
    unfold secret_state. by rewrite !(apply_entry_frame _ _ _ _ ks_secrets _ eq_refl Hks H).
Qed.
End SecretFacts.

Section SecretAccess.
Context `{F : Fjall} `{C : Core} `{W : !Wire C} `{!FjallSpec F} `{!FjallReliable F}.
Context `{A : Aead} `{K : MasterKeyProvider} `{!MasterKeyLaws K}.
Context `{P : !Postcard EnvelopeSecret}.

Lemma apply_secret sm es sm' rs key eb R :
  secret_state (contents (sm_db sm)) key eb R → Forall (λ e, keeps_secret key e = true) es →
  apply sm es = (sm', Ok rs) →
  secret_state (contents (sm_db sm')) key eb (foldl (readers_step key) R es).
Proof.
  intros Hst Hall. revert sm rs R Hst. induction Hall as [|e es He Hall IH]; intros sm rs R Hst H.
  - cbn in H. by simplify_eq.
  - apply apply_cons_ok in H as (sm1 & r & rs' & H1 & H2 & ->). cbn.
    eapply IH; [|done]. by eapply apply_entry_secret.
Qed.

Lemma store_secret_state sm e a record target sm' r acl :
  payload e = Normal a → cmd a = StoreSecret record target → apply_entry sm e = (sm', Ok r) →
  from_bytes (sec_acl_bytes record) = Some acl →
  (∀ R : gset string, (∀ i, authorized acl (sec_key record) i ↔ i ∈ R) →
    secret_state (contents (sm_db sm')) (sec_key record) (sec_envelope_bytes record) R).
Proof.
  intros Hp Hc H Hacl R HR.
  destruct (apply_entry_command _ _ _ _ _ Hp H) as (b & ck & Hb & Hl).
  rewrite Hc in Hb. cbn [apply_command] in Hb. unfold apply_store_secret in Hb. ok_inv.
  unfold secret_state. rewrite !Hl by done.
  unfold batch_insert. rewrite !apply_batch_lookup, !last_write_snoc. cbn [op_key op_value].
  rewrite decide_False by (by intros ?%(f_equal snd)). rewrite !decide_True by done.
  split; [done|]. by exists (sec_acl_bytes record), acl.
Qed.

Lemma fetch_secret_state db key eb R envelope m req :
  secret_state (contents db) key eb R → from_bytes eb = Some envelope →
  decrypt_at_rest envelope = Ok m →
  fetch_secret db key req =
    if decide (spiffe_to_string req ∈ R) then Ok m
    else Err (SecretAccessDenied key (spiffe_to_string req)).
Proof.
  intros [He (ab & acl & Ha & Ed & HR)] Heb Hm.
  unfold fetch_secret, load_acl, load_envelope.
  rewrite !get_eq. unfold acl_key, secret_key in *. rewrite Ha, He. cbn. rewrite Ed. cbn.
  unfold authorize.
  pose proof (is_authorized_spec acl key req) as Hreq. rewrite HR in Hreq.
  case_decide as Hd.
  - rewrite (proj2 Hreq) by done. cbn. rewrite Heb. done.
  - destruct (is_authorized acl key req); [naive_solver|done].
Qed.

(** C26. Reading a secret gives exactly what was stored, to exactly who may read it.
    After a secret prepared by the leader is stored, and after any further log that
    does not replace it, [fetch_secret] returns the plaintext when the requester was
    authorized at the store or granted since, and not revoked afterwards; every other
    requester gets [AccessDenied]. *)
Theorem secret_access_exact dek nonce wrap_nonce m ids record target sm e a sm0 r es sm' rs req :
  blen dek = DEK_LENGTH → blen nonce = NONCE_LENGTH → blen wrap_nonce = NONCE_LENGTH →
  prepare_secret dek nonce wrap_nonce (sec_key record) m ids =
    Ok (sec_envelope_bytes record, sec_acl_bytes record) →
  payload e = Normal a → cmd a = StoreSecret record target → apply_entry sm e = (sm0, Ok r) →
  Forall (λ e, keeps_secret (sec_key record) e = true) es → apply sm0 es = (sm', Ok rs) →
  fetch_secret (sm_db sm') (sec_key record) req =
    if decide (spiffe_to_string req ∈
      foldl (readers_step (sec_key record)) (list_to_set (spiffe_to_string <$> ids)) es)
    then Ok m
    else Err (SecretAccessDenied (sec_key record) (spiffe_to_string req)).
Proof.
  intros Hd Hn Hw Hprep Hp Hc H0 Hall H. unfold prepare_secret in Hprep. ok_inv.
  eapply fetch_secret_state.
  - eapply apply_secret; [|done|done]. eapply store_secret_state; [done..| |].
    + by apply from_to_allocvec.
    + intros i. rewrite authorized_fold, elem_of_list_to_set. unfold authorized.
      split; [|by left]. intros [Hi|(set & Hi & _)]; [done|]. cbn in Hi. by rewrite lookup_empty in Hi.
  - by apply from_to_allocvec.
  - eapply (decrypt_encrypt_at_rest dek nonce wrap_nonce); eassumption.
Qed.
End SecretAccess.

(** ** Witnesses *)
Import DemoInstances.

(** A stand-in for the cipher: the plaintext behind its key and nonce, which
    decryption checks. *)
#[local] Instance demo_aead : Aead.
Proof.
  refine {|
    cipher_encrypt key nonce m := Some (codec_put (A := string * (string * string)) (key, (nonce, m)));
    cipher_decrypt key nonce c :=
      match codec_get (A := string * (string * string)) c with
      | Some ((k, (n, m)), _) => if decide (k = key ∧ n = nonce) then Some m else None
      | None => None
      end |}.
  intros key nonce m c H. apply (inj Some) in H as <-.
  pose proof (codec_get_put (A := string * (string * string)) (key, (nonce, m)) "") as E. rewrite string_app_nil_r in E.
  rewrite E. by rewrite decide_True.
Defined.
#[local] Instance codec_EnvelopeSecret : Codec EnvelopeSecret :=
  codec_iso (λ r : EnvelopeSecret,
      ((wd_nonce (es_wrapped_dek r), wd_ciphertext (es_wrapped_dek r)), (es_nonce r, es_ciphertext r)))
    (λ '((x1, x2), (x3, x4)), Build_EnvelopeSecret (Build_WrappedDek x1 x2) x3 x4)
    ltac:(by intros [[]]).
#[local] Instance demo_envelope : Postcard EnvelopeSecret := postcard_of _.
#[local] Instance demo_master_key : MasterKeyProvider :=
  FileMasterKey "0123456789abcdef0123456789abcdef".

Definition demo_dek : bytes := "fedcba9876543210fedcba9876543210".
Definition demo_readers : list (SpiffeId (Core := demo_core)) := ["a"; "b"].
Definition demo_secret : bytes * bytes :=
  match prepare_secret demo_dek "nonce-000001" "nonce-000002" "db-pass" "hunter2" demo_readers with
  | Ok p => p
  | Err _ => ("", "")
  end.
Definition demo_secret_record : SecretRecord := {|
  sec_key := "db-pass"; sec_envelope_bytes := demo_secret.1; sec_acl_bytes := demo_secret.2;
  sec_last_applied_bytes := "" |}.
Definition store_entry : Entry := demo_entry 7 (StoreSecret demo_secret_record "spiffe://a").
(** Grant [c], revoke [a]. *)
Definition access_entries : list Entry := [
  demo_entry 8 (GrantSecretAccess "acme" "db-pass" "spiffe://c");
  demo_entry 9 (RevokeSecretAccess "acme" "db-pass" "spiffe://a")].
Definition secret_sm : FjallStateMachine :=
  (apply (apply_entry demo_sm store_entry).1 access_entries).1.

Lemma secret_access_exact_witness :
  fetch_secret (sm_db secret_sm) "db-pass" "c" = Ok "hunter2" ∧
  fetch_secret (sm_db secret_sm) "db-pass" "a" = Err (SecretAccessDenied "db-pass" "spiffe://a").
Proof.
  assert (∀ req : SpiffeId (Core := demo_core),
    fetch_secret (sm_db secret_sm) "db-pass" req =
    if decide (spiffe_to_string req ∈ foldl (readers_step "db-pass")
      (list_to_set (spiffe_to_string <$> demo_readers)) access_entries)
    then Ok "hunter2" else Err (SecretAccessDenied "db-pass" (spiffe_to_string req))) as E.
  { intros req. apply (secret_access_exact (C := demo_core) demo_dek "nonce-000001" "nonce-000002"
      "hunter2" demo_readers demo_secret_record "spiffe://a" demo_sm store_entry
      (system (StoreSecret demo_secret_record "spiffe://a"))
      (apply_entry demo_sm store_entry).1 {| version := 7 |} access_entries secret_sm
      [{| version := 8 |}; {| version := 9 |}] req).
    1-4: vm_refl.
    1-2: reflexivity.
    - apply result_pair. vm_refl.
    - repeat constructor.
    - unfold secret_sm. apply result_pair. vm_refl. }
  split; rewrite E; vm_refl.
Defined.
