(* ===== verification/Merge.v ===== *)
(** * Merge: the three-way merge of declarative manifests

    Models [src/apply/merge.rs]. Every mergeable field follows one rule, on its live
    value, the value last applied and the value the manifest wants: a live value that
    differs from both is a conflict; otherwise the wanted value is written when it
    differs. [merge_fields] is that rule over the fields of one resource, in the
    order the code visits them; each [merge_*] function lists its fields. *)

From S2P Require Import Prelude.
From S2P Require Import Storage.
From S2P Require Import Core.
From S2P Require Import Records.
From S2P Require Import WireInstance.
From S2P Require Import Demo.

(** [FieldConflict]. *)
Record FieldConflict : Type := {
  fc_field_path : string;
  fc_live_value : string;
  fc_manifest_value : string;
  fc_last_applied_value : string
}.

Definition conflict (path live manifest last : string) : FieldConflict := {|
  fc_field_path := path; fc_live_value := live; fc_manifest_value := manifest;
  fc_last_applied_value := last |}.

Inductive MergeOutcome : Type :=
| Updated (b : bytes)
| Unchanged
| Conflicted (conflicts : list FieldConflict).

(** ** One resource: the live value under merge, the conflicts, whether it changed *)
Record Merging (A : Type) : Type := {
  mg_live : A;
  mg_conflicts : list FieldConflict;
  mg_changed : bool
}.
Arguments mg_live {A}. Arguments mg_conflicts {A}. Arguments mg_changed {A}.
Arguments Build_Merging {A}.

(** A mergeable field: how it is read and written, the last applied value, the value
    the manifest specifies, if it does, and the conflict reported for a live value. *)
Record Field (A : Type) : Type := {
  f_type : Type;
  f_eq_dec : EqDecision f_type;
  f_get : A → f_type;
  f_set : f_type → A → A;
  f_last : f_type;
  f_manifest : option f_type;
  f_report : f_type → FieldConflict
}.
Arguments f_get {A}. Arguments f_set {A}. Arguments f_last {A}. Arguments f_manifest {A}.
Arguments f_report {A}. Arguments f_type {A}. Arguments f_eq_dec {A}. Arguments Build_Field {A}.
#[export] Existing Instance f_eq_dec.

Definition merge_field {A} (st : Merging A) (f : Field A) : Merging A :=
  match f_manifest f with
  | Some wanted =>
      let live := f_get f (mg_live st) in
      if decide (live ≠ f_last f ∧ live ≠ wanted) then
        {| mg_live := mg_live st; mg_conflicts := mg_conflicts st ++ [f_report f live];
           mg_changed := mg_changed st |}
      else if decide (live ≠ wanted) then
        {| mg_live := f_set f wanted (mg_live st); mg_conflicts := mg_conflicts st;
           mg_changed := true |}
      else st
  | None => st
  end.

Definition merge_fields {A} (fields : list (Field A)) (live : A) : Merging A :=
  foldl merge_field {| mg_live := live; mg_conflicts := []; mg_changed := false |} fields.

Definition outcome {A} (encode : A → bytes) (st : Merging A) : MergeOutcome :=
  match mg_conflicts st with
  | [] => if mg_changed st then Updated (encode (mg_live st)) else Unchanged
  | c => Conflicted c
  end.

(** ** The manifests *)
Section Merge.
Context `{C : Core} `{W : !Wire C}.

Record ManifestPodSpec : Type := {
  mps_resources : option ResourceRequirements;
  mps_env : PodEnv;
  mps_labels : PodLabels
}.
Definition ManifestPodSpec_default : ManifestPodSpec :=
  {| mps_resources := None; mps_env := env_default; mps_labels := labels_default |}.

Record ManifestWorkloadSpec : Type := {
  mws_image : option string;
  mws_replicas : gmap string Z;
  mws_pod_spec : option ManifestPodSpec;
  mws_placement : option Z;
  mws_autoscaling : option AutoscalingPolicy
}.
Definition ManifestWorkloadSpec_default : ManifestWorkloadSpec := {|
  mws_image := None; mws_replicas := ∅; mws_pod_spec := None; mws_placement := None;
  mws_autoscaling := None |}.

Record ManifestSagRuleSpec : Type := {
  msr_from : option ServiceRef;
  msr_to : option ServiceRef;
  msr_action : option Z
}.
Record ManifestSecretSpec : Type := {
  mse_value : option bytes;
  mse_authorized_spiffe_ids : list string
}.
Record ManifestNodePoolSpec : Type := {
  mnp_desired_count : option Z;
  mnp_vcpus : option Z;
  mnp_memory_mb : option Z;
  mnp_disk_gb : option Z;
  mnp_region_hint : option string
}.

(** [format!("{:?}", _)] of the types the conflicts print; [ManifestWorkloadSpec] is
    a protobuf message. *)
Class MergeFormat : Type := {
  debug_replicas : gmap string Z → string;
  debug_resources : option ResourceRequirements → string;
  debug_env : PodEnv → string;
  debug_labels : PodLabels → string;
  debug_autoscaling : option AutoscalingPolicy → string;
  debug_service : ServiceRef → string;
  debug_service_option : option ServiceRef → string;
  manifest_workload :: Prost ManifestWorkloadSpec
}.
Context `{M : MergeFormat}.

(** ** Workloads

    [live_pod] is the pod template the code takes out of the live spec; it is put
    back when the manifest has one. *)
Definition set_ws (f : WorkloadSpec → WorkloadSpec) (p : WorkloadSpec * PodSpec) :
    WorkloadSpec * PodSpec := (f p.1, p.2).
Definition set_ps (f : PodSpec → PodSpec) (p : WorkloadSpec * PodSpec) :
    WorkloadSpec * PodSpec := (p.1, f p.2).

Definition set_ws_image (v : string) (w : WorkloadSpec) : WorkloadSpec := {|
  ws_tenant_id := ws_tenant_id w; ws_workload_id := ws_workload_id w; ws_image := v;
  ws_replicas := ws_replicas w; ws_pod_spec := ws_pod_spec w; ws_autoscaling := ws_autoscaling w;
  ws_vertical_autoscaling := ws_vertical_autoscaling w; ws_budgets := ws_budgets w;
  ws_placement := ws_placement w; ws_rest := ws_rest w |}.
Definition set_ws_replicas (v : gmap string Z) (w : WorkloadSpec) : WorkloadSpec := {|
  ws_tenant_id := ws_tenant_id w; ws_workload_id := ws_workload_id w; ws_image := ws_image w;
  ws_replicas := v; ws_pod_spec := ws_pod_spec w; ws_autoscaling := ws_autoscaling w;
  ws_vertical_autoscaling := ws_vertical_autoscaling w; ws_budgets := ws_budgets w;
  ws_placement := ws_placement w; ws_rest := ws_rest w |}.
Definition set_ws_pod_spec (v : option PodSpec) (w : WorkloadSpec) : WorkloadSpec := {|
  ws_tenant_id := ws_tenant_id w; ws_workload_id := ws_workload_id w; ws_image := ws_image w;
  ws_replicas := ws_replicas w; ws_pod_spec := v; ws_autoscaling := ws_autoscaling w;
  ws_vertical_autoscaling := ws_vertical_autoscaling w; ws_budgets := ws_budgets w;
  ws_placement := ws_placement w; ws_rest := ws_rest w |}.
Definition set_ws_placement (v : Z) (w : WorkloadSpec) : WorkloadSpec := {|
  ws_tenant_id := ws_tenant_id w; ws_workload_id := ws_workload_id w; ws_image := ws_image w;
  ws_replicas := ws_replicas w; ws_pod_spec := ws_pod_spec w; ws_autoscaling := ws_autoscaling w;
  ws_vertical_autoscaling := ws_vertical_autoscaling w; ws_budgets := ws_budgets w;
  ws_placement := v; ws_rest := ws_rest w |}.
Definition set_ws_autoscaling (v : option AutoscalingPolicy) (w : WorkloadSpec) : WorkloadSpec := {|
  ws_tenant_id := ws_tenant_id w; ws_workload_id := ws_workload_id w; ws_image := ws_image w;
  ws_replicas := ws_replicas w; ws_pod_spec := ws_pod_spec w; ws_autoscaling := v;
  ws_vertical_autoscaling := ws_vertical_autoscaling w; ws_budgets := ws_budgets w;
  ws_placement := ws_placement w; ws_rest := ws_rest w |}.
Definition set_ps_template (r : option ResourceRequirements) (e : PodEnv) (l : PodLabels)
    (p : PodSpec) : PodSpec := {|
  ps_tenant_id := ps_tenant_id p; ps_workload_id := ps_workload_id p; ps_role := ps_role p;
  ps_image := ps_image p; ps_ordinal := ps_ordinal p; ps_pod_id := ps_pod_id p;
  ps_resources := r; ps_tolerations := ps_tolerations p; ps_priority := ps_priority p;
  ps_runtime := ps_runtime p; ps_env := e; ps_labels := l;
  ps_init_containers := ps_init_containers p; ps_rest := ps_rest p |}.

Definition pod_fields (manifest_pod last_pod : ManifestPodSpec) : list (Field (WorkloadSpec * PodSpec)) := [
  {| f_get p := ps_resources p.2;
     f_set v := set_ps (λ p, set_ps_template v (ps_env p) (ps_labels p) p);
     f_last := mps_resources last_pod;
     f_manifest := Some <$> mps_resources manifest_pod;
     f_report live := conflict "pod_spec.resources" (debug_resources live)
       (debug_resources (mps_resources manifest_pod)) (debug_resources (mps_resources last_pod)) |};
  {| f_get p := ps_env p.2;
     f_set v := set_ps (λ p, set_ps_template (ps_resources p) v (ps_labels p) p);
     f_last := mps_env last_pod;
     f_manifest := if env_is_empty (mps_env manifest_pod) then None else Some (mps_env manifest_pod);
     f_report live := conflict "pod_spec.env" (debug_env live)
       (debug_env (mps_env manifest_pod)) (debug_env (mps_env last_pod)) |};
  {| f_get p := ps_labels p.2;
     f_set v := set_ps (λ p, set_ps_template (ps_resources p) (ps_env p) v p);
     f_last := mps_labels last_pod;
     f_manifest := if labels_is_empty (mps_labels manifest_pod) then None
       else Some (mps_labels manifest_pod);
     f_report live := conflict "pod_spec.labels" (debug_labels live)
       (debug_labels (mps_labels manifest_pod)) (debug_labels (mps_labels last_pod)) |}].

Definition workload_fields (manifest last : ManifestWorkloadSpec) : list (Field (WorkloadSpec * PodSpec)) :=
  [{| f_get p := ws_image p.1;
      f_set v := set_ws (set_ws_image v);
      f_last := default "" (mws_image last);
      f_manifest := mws_image manifest;
      f_report live := conflict "image" live (default "" (mws_image manifest))
        (default "" (mws_image last)) |};
   {| f_get p := ws_replicas p.1;
      f_set v := set_ws (set_ws_replicas v);
      f_last := mws_replicas last;
      f_manifest := if decide (mws_replicas manifest = ∅) then None else Some (mws_replicas manifest);
      f_report live := conflict "replicas" (debug_replicas live)
        (debug_replicas (mws_replicas manifest)) (debug_replicas (mws_replicas last)) |}] ++
  match mws_pod_spec manifest with
  | Some manifest_pod => pod_fields manifest_pod (default ManifestPodSpec_default (mws_pod_spec last))
  | None => []
  end ++
  [{| f_get p := ws_placement p.1;
      f_set v := set_ws (set_ws_placement v);
      f_last := default 0 (mws_placement last);
      f_manifest := mws_placement manifest;
      f_report live := conflict "placement" (pretty live) (pretty (default 0 (mws_placement manifest)))
        (pretty (default 0 (mws_placement last))) |};
   {| f_get p := ws_autoscaling p.1;
      f_set v := set_ws (set_ws_autoscaling v);
      f_last := mws_autoscaling last;
      f_manifest := Some <$> mws_autoscaling manifest;
      f_report live := conflict "autoscaling" (debug_autoscaling live)
        (debug_autoscaling (mws_autoscaling manifest)) (debug_autoscaling (mws_autoscaling last)) |}].

(** [live.pod_spec = Some(live_pod)], where the manifest has a pod template. *)
Definition put_pod (manifest : ManifestWorkloadSpec) (p : WorkloadSpec * PodSpec) : WorkloadSpec :=
  match mws_pod_spec manifest with Some _ => set_ws_pod_spec (Some p.2) p.1 | None => p.1 end.

Definition decode_live (live_bytes : bytes) : WorkloadSpec :=
  if decide (live_bytes = "") then WorkloadSpec_default else default WorkloadSpec_default (decode live_bytes).
Definition decode_last (last_applied_bytes : bytes) : ManifestWorkloadSpec :=
  if decide (last_applied_bytes = "") then ManifestWorkloadSpec_default
  else default ManifestWorkloadSpec_default (decode last_applied_bytes).
Definition with_pod (live : WorkloadSpec) : WorkloadSpec * PodSpec :=
  (live, default PodSpec_default (ws_pod_spec live)).

Definition merge_workload (manifest : ManifestWorkloadSpec) (live_bytes last_applied_bytes : bytes) :
    MergeOutcome :=
  outcome (λ p, encode_to_vec (put_pod manifest p))
    (merge_fields (workload_fields manifest (decode_last last_applied_bytes))
      (with_pod (decode_live live_bytes))).

Definition merge_tenant (live_bytes last_applied_bytes : bytes) : MergeOutcome := Unchanged.

(** ** SAG rules *)
Definition sag_rule_fields (manifest : ManifestSagRuleSpec) (last : SagRule) : list (Field SagRule) := [
  {| f_get := sag_from;
     f_set v r := {| sag_from := v; sag_to := sag_to r; sag_action := sag_action r; sag_rest := sag_rest r |};
     f_last := sag_from last;
     f_manifest := Some <$> msr_from manifest;
     f_report live := conflict "from" (debug_service_option live)
       (default "" (debug_service <$> msr_from manifest)) (debug_service_option (sag_from last)) |};
  {| f_get := sag_to;
     f_set v r := {| sag_from := sag_from r; sag_to := v; sag_action := sag_action r; sag_rest := sag_rest r |};
     f_last := sag_to last;
     f_manifest := Some <$> msr_to manifest;
     f_report live := conflict "to" (debug_service_option live)
       (default "" (debug_service <$> msr_to manifest)) (debug_service_option (sag_to last)) |};
  {| f_get := sag_action;
     f_set v r := {| sag_from := sag_from r; sag_to := sag_to r; sag_action := v; sag_rest := sag_rest r |};
     f_last := sag_action last;
     f_manifest := msr_action manifest;
     f_report live := conflict "action" (pretty live) (pretty (default 0 (msr_action manifest)))
       (pretty (sag_action last)) |}].

Definition decode_sag_rule (b : bytes) : SagRule :=
  if decide (b = "") then SagRule_default else default SagRule_default (decode b).

Definition merge_sag_rule (manifest : ManifestSagRuleSpec) (live_bytes last_applied_bytes : bytes) :
    MergeOutcome :=
  outcome encode_to_vec
    (merge_fields (sag_rule_fields manifest (decode_sag_rule last_applied_bytes))
      (decode_sag_rule live_bytes)).

Definition merge_secret (manifest : ManifestSecretSpec) (live_bytes last_applied_bytes : bytes) :
    MergeOutcome :=
  if isSome (mse_value manifest) || negb (bool_decide (mse_authorized_spiffe_ids manifest = []))
  then Updated live_bytes else Unchanged.

(** ** Node pools *)
Definition set_pool (count vcpus memory_mb disk_gb : Z) (region : string) (r : NodePoolRecord) :
    NodePoolRecord := {|
  np_pool_id := np_pool_id r; np_node_kind := np_node_kind r; np_desired_count := count;
  np_vcpus := vcpus; np_memory_mb := memory_mb; np_disk_gb := disk_gb; np_region_hint := region;
  np_last_applied_bytes := np_last_applied_bytes r |}.

Definition node_pool_fields (manifest : ManifestNodePoolSpec) (last : NodePoolRecord) :
    list (Field NodePoolRecord) :=
  let number path get set wanted := {|
    f_get := get; f_set := set; f_last := get last : Z; f_manifest := wanted;
    f_report live := conflict path (pretty live) (pretty (default 0 wanted)) (pretty (get last)) |} in
  [number "desired_count" np_desired_count
     (λ v r, set_pool v (np_vcpus r) (np_memory_mb r) (np_disk_gb r) (np_region_hint r) r)
     (mnp_desired_count manifest);
   number "vcpus" np_vcpus
     (λ v r, set_pool (np_desired_count r) v (np_memory_mb r) (np_disk_gb r) (np_region_hint r) r)
     (mnp_vcpus manifest);
   number "memory_mb" np_memory_mb
     (λ v r, set_pool (np_desired_count r) (np_vcpus r) v (np_disk_gb r) (np_region_hint r) r)
     (mnp_memory_mb manifest);
   number "disk_gb" np_disk_gb
     (λ v r, set_pool (np_desired_count r) (np_vcpus r) (np_memory_mb r) v (np_region_hint r) r)
     (mnp_disk_gb manifest);
   {| f_get := np_region_hint;
      f_set v r := set_pool (np_desired_count r) (np_vcpus r) (np_memory_mb r) (np_disk_gb r) v r;
      f_last := np_region_hint last;
      f_manifest := mnp_region_hint manifest;
      f_report live := conflict "region_hint" live (default "" (mnp_region_hint manifest))
        (np_region_hint last) |}].

Definition NodePoolRecord_empty : NodePoolRecord := {|
  np_pool_id := ""; np_node_kind := Agent; np_desired_count := 0; np_vcpus := 0; np_memory_mb := 0;
  np_disk_gb := 0; np_region_hint := ""; np_last_applied_bytes := "" |}.

Definition merge_node_pool (manifest : ManifestNodePoolSpec) (live_bytes last_applied_bytes : bytes) :
    MergeOutcome :=
  if decide (live_bytes = "") then Unchanged
  else
    let live := default NodePoolRecord_empty (from_bytes live_bytes) in
    let last := if decide (last_applied_bytes = "") then live
      else default live (from_bytes last_applied_bytes) in
    outcome (λ r, default "" (to_allocvec r)) (merge_fields (node_pool_fields manifest last) live).
End Merge.

(** ** The three-way merge, field by field *)
Section MergeSpec.
Context {A : Type}.
Implicit Types (f g : Field A) (l : list (Field A)) (a : A).

(** Live differs from what was last applied and from what is wanted. *)
Definition diverged f a : bool :=
  match f_manifest f with
  | Some w => bool_decide (f_get f a ≠ f_last f) && bool_decide (f_get f a ≠ w)
  | None => false
  end.
Definition satisfies f a : bool :=
  match f_manifest f with Some w => bool_decide (f_get f a = w) | None => true end.
(** The live value with every specified field as the manifest wants it. *)
Definition overlay l a : A :=
  foldl (λ a f, match f_manifest f with Some w => f_set f w a | None => a end) a l.
Definition conflicts l a : list FieldConflict :=
  (λ f, f_report f (f_get f a)) <$> filter (λ f, diverged f a = true) l.

(** Fields are independent parts of the value. *)
Definition disjoint_fields f g : Prop := ∀ v a, f_get f (f_set g v a) = f_get f a.
Definition field_ok f : Prop :=
  (∀ v a, f_get f (f_set f v a) = v) ∧ (∀ a, f_set f (f_get f a) a = a).
Fixpoint fields_ok l : Prop :=
  match l with
  | [] => True
  | f :: l => field_ok f ∧ Forall (λ g, disjoint_fields f g ∧ disjoint_fields g f) l ∧ fields_ok l
  end.

Lemma merge_field_spec st f :
  field_ok f →
  merge_field st f =
  if diverged f (mg_live st) then
    {| mg_live := mg_live st;
       mg_conflicts := mg_conflicts st ++ [f_report f (f_get f (mg_live st))];
       mg_changed := mg_changed st |}
  else
    {| mg_live := overlay [f] (mg_live st); mg_conflicts := mg_conflicts st;
       mg_changed := mg_changed st || negb (satisfies f (mg_live st)) |}.
Proof.
  intros [_ Hset]. unfold merge_field, diverged, satisfies. cbn [overlay foldl].
  destruct st as [live cs ch], (f_manifest f) as [w|]; cbn; [|by rewrite orb_false_r].
  destruct (decide (f_get f live = w)) as [<-|Hw].
  - rewrite decide_False by naive_solver. rewrite decide_False by naive_solver.
    rewrite (bool_decide_eq_false_2 (f_get f live ≠ f_get f live)) by naive_solver.
    rewrite andb_false_r, bool_decide_eq_true_2, Hset, orb_false_r by done. done.
  - rewrite (bool_decide_eq_true_2 (_ ≠ w)), andb_true_r by done.
    rewrite (bool_decide_eq_false_2 (f_get f live = w)) by done. cbn. rewrite orb_true_r.
    destruct (decide (f_get f live = f_last f)) as [Hl|Hl].
    + rewrite decide_False, bool_decide_eq_false_2, decide_True by naive_solver. done.
    + rewrite decide_True, bool_decide_eq_true_2 by naive_solver. done.
Qed.

Lemma diverged_ext f a b : f_get f a = f_get f b → diverged f a = diverged f b.
Proof. unfold diverged. by intros ->. Qed.
Lemma satisfies_ext f a b : f_get f a = f_get f b → satisfies f a = satisfies f b.
Proof. unfold satisfies. by intros ->. Qed.

Lemma overlay_other g l a : Forall (λ f, disjoint_fields g f) l → f_get g (overlay l a) = f_get g a.
Proof.
  intros H. revert a. induction H as [|f l Hf _ IH]; intros a; [done|]. cbn.
  unfold overlay in IH. rewrite IH. by destruct (f_manifest f).
Qed.

Lemma merge_fields_from l st a :
  fields_ok l → Forall (λ f, f_get f (mg_live st) = f_get f a) l →
  mg_conflicts (foldl merge_field st l) = mg_conflicts st ++ conflicts l a ∧
  (conflicts l a = [] →
    mg_live (foldl merge_field st l) = overlay l (mg_live st) ∧
    mg_changed (foldl merge_field st l) =
      mg_changed st || negb (forallb (λ f, satisfies f a) l)).
Proof.
  revert st. induction l as [|f l IH]; intros st Hok Hget; cbn [foldl].
  - cbn. rewrite app_nil_r, orb_false_r. done.
  - destruct Hok as (Hf & Hdis & Hok). apply Forall_cons in Hget as [Hfa Hget].
    rewrite merge_field_spec by done. unfold conflicts. rewrite filter_cons.
    rewrite (diverged_ext _ _ _ Hfa). cbn [forallb]. rewrite (satisfies_ext _ _ _ Hfa), Hfa.
    destruct (diverged f a) eqn:Hd.
    + rewrite decide_True by done.
      match goal with |- context [foldl merge_field ?st' l] => destruct (IH st' Hok Hget) as [Hc _] end.
      rewrite Hc. cbn. split; [by rewrite <- app_assoc|done].
    + rewrite decide_False by done.
      match goal with |- context [foldl merge_field ?st' l] =>
        destruct (IH st' Hok) as [Hc Hl] end.
      { cbn. rewrite Forall_forall in Hget, Hdis |- *. intros g Hg. rewrite <- (Hget g Hg).
        destruct (f_manifest f); [|done]. apply (Hdis g Hg). }
      rewrite Hc. split; [done|]. intros Hno. destruct (Hl Hno) as [-> ->]. cbn.
      by rewrite negb_andb, orb_assoc.
Qed.

(** The whole rule: the conflicts are the diverged fields, in order; without any, the
    result is the overlay, reported as changed unless every field was satisfied. *)
Lemma outcome_merge_fields (encode : A → bytes) l a :
  fields_ok l →
  outcome encode (merge_fields l a) =
  match conflicts l a with
  | [] => if forallb (λ f, satisfies f a) l then Unchanged else Updated (encode (overlay l a))
  | c => Conflicted c
  end.
Proof.
  intros Hok. unfold outcome, merge_fields.
  destruct (merge_fields_from l {| mg_live := a; mg_conflicts := []; mg_changed := false |} a Hok)
    as [-> Hl]; [by apply Forall_true|]. cbn [mg_conflicts mg_live mg_changed app] in *.
  destruct (conflicts l a); [|done]. destruct Hl as [-> ->]; [done|]. cbn.
  by destruct (forallb _ l).
Qed.

Lemma overlay_satisfies l a : fields_ok l → Forall (λ f, satisfies f (overlay l a) = true) l.
Proof.
  revert a. induction l as [|f l IH]; intros a Hok; [done|]. destruct Hok as (Hf & Hdis & Hok).
  constructor; [|by apply (IH (overlay [f] a))].
  unfold satisfies. destruct (f_manifest f) as [w|] eqn:Ew; [|done]. apply bool_decide_eq_true.
  cbn. rewrite Ew. change (f_get f (overlay l (f_set f w a)) = w).
  rewrite overlay_other; [apply Hf|]. eapply Forall_impl; [done|]. by intros g [].
Qed.

Lemma satisfied_overlay l a :
  fields_ok l → Forall (λ f, satisfies f a = true) l → overlay l a = a.
Proof.
  induction l as [|f l IH]; [done|]. intros (Hf & _ & Hok) [Hs Hl]%Forall_cons. cbn.
  unfold satisfies in Hs. destruct (f_manifest f) as [w|]; [|by apply IH].
  apply bool_decide_eq_true in Hs as <-. rewrite (proj2 Hf). by apply IH.
Qed.

(** What a merge wrote needs no second merge, whatever is recorded as last applied. *)
Lemma satisfied_unchanged (encode : A → bytes) l a :
  fields_ok l → Forall (λ f, satisfies f a = true) l →
  outcome encode (merge_fields l a) = Unchanged.
Proof.
  intros Hok Hall. rewrite outcome_merge_fields by done.
  assert (conflicts l a = []) as ->.
  { unfold conflicts. assert (filter (λ f, diverged f a = true) l = []) as ->; [|done].
    clear Hok. induction Hall as [|f l Hf _ IH]; [done|]. rewrite filter_cons, IH, decide_False; [done|].
    unfold satisfies, diverged in *. destruct (f_manifest f) as [w|]; [|done].
    apply bool_decide_eq_true in Hf. rewrite (bool_decide_eq_false_2 (_ ≠ w)) by naive_solver.
    by rewrite andb_false_r. }
  assert (forallb (λ f, satisfies f a) l = true) as ->; [|done].
  clear Hok. induction Hall as [|f l Hf _ IH]; [done|]. cbn. by rewrite Hf.
Qed.
End MergeSpec.

(** ** Workload manifests *)
Section MergeWorkload.
Context `{C : Core} `{W : !Wire C} `{M : !MergeFormat}.

Lemma workload_fields_ok manifest last : fields_ok (workload_fields manifest last).
Proof.
  unfold workload_fields. destruct (mws_pod_spec manifest) as [mp|]; cbn;
    repeat match goal with
    | |- _ ∧ _ => split
    | |- Forall _ _ => constructor
    | |- field_ok _ => split
    | |- _ => first [done|by intros [[] []]|by intros ? [[] []]]
    end.
Qed.

(** What the manifest asks for, written out: a field it leaves out keeps its live
    value, and so does everything that is not mergeable. *)
Definition wanted_replicas (manifest : ManifestWorkloadSpec) : option (gmap string Z) :=
  if decide (mws_replicas manifest = ∅) then None else Some (mws_replicas manifest).
Definition wanted_env (mp : ManifestPodSpec) : option PodEnv :=
  if env_is_empty (mps_env mp) then None else Some (mps_env mp).
Definition wanted_labels (mp : ManifestPodSpec) : option PodLabels :=
  if labels_is_empty (mps_labels mp) then None else Some (mps_labels mp).

Definition merged_pod (manifest : ManifestWorkloadSpec) (p : PodSpec) : PodSpec :=
  match mws_pod_spec manifest with
  | Some mp =>
      set_ps_template (default (ps_resources p) (Some <$> mps_resources mp))
        (default (ps_env p) (wanted_env mp)) (default (ps_labels p) (wanted_labels mp)) p
  | None => p
  end.
Definition merged (manifest : ManifestWorkloadSpec) (w : WorkloadSpec) : WorkloadSpec := {|
  ws_tenant_id := ws_tenant_id w; ws_workload_id := ws_workload_id w;
  ws_image := default (ws_image w) (mws_image manifest);
  ws_replicas := default (ws_replicas w) (wanted_replicas manifest);
  ws_pod_spec :=
    match mws_pod_spec manifest with
    | Some _ => Some (merged_pod manifest (default PodSpec_default (ws_pod_spec w)))
    | None => ws_pod_spec w
    end;
  ws_autoscaling := default (ws_autoscaling w) (Some <$> mws_autoscaling manifest);
  ws_vertical_autoscaling := ws_vertical_autoscaling w; ws_budgets := ws_budgets w;
  ws_placement := default (ws_placement w) (mws_placement manifest); ws_rest := ws_rest w |}.

(** The paths on which the live value differs from the last applied and from the
    wanted one. *)
Definition split_brain {V} `{!EqDecision V} (path : string) (live last : V) (wanted : option V) :
    list string :=
  match wanted with
  | Some w => if decide (live = last ∨ live = w) then [] else [path]
  | None => []
  end.
Definition conflict_paths (manifest : ManifestWorkloadSpec) (live : WorkloadSpec)
    (last : ManifestWorkloadSpec) : list string :=
  split_brain "image" (ws_image live) (default "" (mws_image last)) (mws_image manifest) ++
  split_brain "replicas" (ws_replicas live) (mws_replicas last) (wanted_replicas manifest) ++
  match mws_pod_spec manifest with
  | Some mp =>
      let p := default PodSpec_default (ws_pod_spec live) in
      let lp := default ManifestPodSpec_default (mws_pod_spec last) in
      split_brain "pod_spec.resources" (ps_resources p) (mps_resources lp) (Some <$> mps_resources mp) ++
      split_brain "pod_spec.env" (ps_env p) (mps_env lp) (wanted_env mp) ++
      split_brain "pod_spec.labels" (ps_labels p) (mps_labels lp) (wanted_labels mp)
  | None => []
  end ++
  split_brain "placement" (ws_placement live) (default 0 (mws_placement last)) (mws_placement manifest) ++
  split_brain "autoscaling" (ws_autoscaling live) (mws_autoscaling last)
    (Some <$> mws_autoscaling manifest).

Lemma conflicts_cons {A} (f : Field A) l a :
  fc_field_path <$> conflicts (f :: l) a =
  split_brain (fc_field_path (f_report f (f_get f a))) (f_get f a) (f_last f) (f_manifest f) ++
  (fc_field_path <$> conflicts l a).
Proof.
  unfold conflicts. rewrite filter_cons. unfold split_brain.
  destruct (decide (diverged f a = true)) as [H|H]; unfold diverged in H;
    destruct (f_manifest f) as [w|]; try done.
  - apply andb_true_iff in H as [H1%bool_decide_eq_true H2%bool_decide_eq_true].
    rewrite decide_False by naive_solver. done.
  - rewrite andb_true_iff, !bool_decide_eq_true in H.
    destruct (decide (f_get f a = f_last f)); [by rewrite decide_True by auto|].
    destruct (decide (f_get f a = w)); [by rewrite decide_True by auto|]. naive_solver.
Qed.

Lemma workload_conflict_paths manifest live last :
  fc_field_path <$> conflicts (workload_fields manifest last) (with_pod live) =
  conflict_paths manifest live last.
Proof.
  unfold workload_fields, conflict_paths, pod_fields.
  destruct (mws_pod_spec manifest) as [mp|]; cbn [app];
    rewrite !conflicts_cons; unfold conflicts; cbn -[split_brain app];
    by rewrite ?app_nil_r, <- ?app_assoc.
Qed.

Lemma workload_overlay manifest live last :
  put_pod manifest (overlay (workload_fields manifest last) (with_pod live)) = merged manifest live ∧
  (overlay (workload_fields manifest last) (with_pod live)).2 =
    merged_pod manifest (default PodSpec_default (ws_pod_spec live)).
Proof.
  unfold put_pod, merged, merged_pod, workload_fields, pod_fields, with_pod, overlay,
    wanted_replicas, wanted_env, wanted_labels.
  destruct live, (mws_pod_spec manifest) as [mp|], (mws_image manifest), (mws_placement manifest),
    (mws_autoscaling manifest), (decide (mws_replicas manifest = ∅)); cbn; try done;
    destruct (mps_resources mp), (env_is_empty (mps_env mp)), (labels_is_empty (mps_labels mp));
    split; try done; by destruct (default PodSpec_default _).
Qed.

(** A second merge of what a merge wrote. *)
Lemma merge_workload_again manifest live ab :
  encode_to_vec (merged manifest live) ≠ "" →
  merge_workload manifest (encode_to_vec (merged manifest live)) ab = Unchanged.
Proof.
  intros Hne. unfold merge_workload, decode_live. rewrite decide_False, decode_encode by done.
  cbn [default]. apply satisfied_unchanged; [apply workload_fields_ok|].
  pose proof (overlay_satisfies (workload_fields manifest (decode_last ab)) (with_pod live)
    (workload_fields_ok _ _)) as Hs.
  destruct (workload_overlay manifest live (decode_last ab)) as [Hput Hpod].
  rewrite <- Hput. revert Hs Hpod. generalize (overlay (workload_fields manifest (decode_last ab)) (with_pod live)).
  intros [w p] Hs Hpod. unfold put_pod, with_pod, workload_fields in *. cbn [fst snd] in *.
  destruct (mws_pod_spec manifest); repeat (apply Forall_cons in Hs as [? Hs]);
    repeat constructor; done.
Qed.

End MergeWorkload.
