(* ===== verification/NameConstraints.v ===== *)
(** * NameConstraints: the hand-written X.509 extension

    Models [src/ca/name_constraints.rs], which writes the DER of a NameConstraints
    extension byte by byte, and reads it back with a DER reader. *)

From Stdlib Require Import Ascii.
From S2P Require Import Prelude.

(** [vec![tag]], [push(content.len() as u8)], [extend_from_slice(content)]. *)
Definition tlv (tag : Z) (content : bytes) : bytes :=
  String (byte_of_Z tag) (String (byte_of_Z (blen content)) content).

(** rcgen's [CustomExtension]. *)
Record CustomExtension : Type := {
  ext_oid : list Z;
  ext_content : bytes;
  ext_critical : bool
}.

Definition permitted_uri (trust_domain : string) : string := "spiffe://" +:+ trust_domain +:+ "/".

Definition build_uri_name_constraints (trust_domain : string) : CustomExtension :=
  let general_name := tlv 0x86 (permitted_uri trust_domain) in
  let general_subtree := tlv 0x30 general_name in
  let general_subtrees := tlv 0x30 general_subtree in
  let permitted := tlv 0xA0 general_subtrees in
  let name_constraints := tlv 0x30 permitted in
  {| ext_oid := [2; 5; 29; 30]; ext_content := name_constraints; ext_critical := true |}.

(** ** Reading DER (X.690): a tag, a definite length in its shortest form, the contents *)
Definition der_length (s : bytes) : option (Z * bytes) :=
  match s with
  | String l rest =>
      if Z_of_byte l <? 128 then Some (Z_of_byte l, rest)
      else
        '(digits, rest) ← get_slice (Z_of_byte l - 128) rest;
        if (128 <=? from_be_bytes digits) &&
           (256 ^ (blen digits - 1) <=? from_be_bytes digits)
        then Some (from_be_bytes digits, rest) else None
  | "" => None
  end.

Definition der_read (s : bytes) : option (Z * bytes * bytes) :=
  match s with
  | String tag rest =>
      '(n, rest) ← der_length rest;
      '(content, rest) ← get_slice n rest;
      Some (Z_of_byte tag, content, rest)
  | "" => None
  end.

(** One element with the tag and nothing after it. *)
Definition der_only (tag : Z) (s : bytes) : option bytes :=
  '(t, content, rest) ← der_read s;
  if (t =? tag) && bool_decide (rest = "") then Some content else None.

(** The [uniformResourceIdentifier] of the one permitted subtree, under the two ways
    to tag [permittedSubtrees]. RFC 5280 tags it implicitly: [[0]] takes the place of
    the tag of the SEQUENCE OF, so its contents are the subtrees. Under explicit
    tagging its contents are the SEQUENCE OF, tag and all. *)
Definition read_permitted_implicit (s : bytes) : option bytes :=
  name_constraints ← der_only 0x30 s; permitted ← der_only 0xA0 name_constraints;
  subtree ← der_only 0x30 permitted; der_only 0x86 subtree.
Definition read_permitted_explicit (s : bytes) : option bytes :=
  name_constraints ← der_only 0x30 s; permitted ← der_only 0xA0 name_constraints;
  subtrees ← der_only 0x30 permitted; subtree ← der_only 0x30 subtrees; der_only 0x86 subtree.

Lemma der_only_tlv tag tag' content :
  0 ≤ tag < 256 → blen content < 128 →
  der_only tag' (tlv tag content) = if tag =? tag' then Some content else None.
Proof.
  intros Ht Hl.
  assert (∀ z, 0 ≤ z < 256 → Z_of_byte (byte_of_Z z) = z) as Hb
    by (intros z Hz; by rewrite Z_of_byte_of_Z, Z.mod_small).
  assert (0 ≤ blen content) by (unfold blen; lia).
  unfold der_only, tlv, der_read, der_length. rewrite !Hb by lia.
  rewrite (proj2 (Z.ltb_lt _ _)) by lia. cbn.
  pose proof (get_slice_app content "") as E. rewrite string_app_nil_r in E.
  fold (blen content) in E. rewrite E. cbn. by rewrite andb_true_r.
Qed.

Lemma blen_tlv tag content : blen (tlv tag content) = blen content + 2.
Proof. unfold blen, tlv. cbn [String.length]. lia. Qed.

Lemma blen_permitted_uri td : blen (permitted_uri td) = blen td + 10.
Proof. unfold blen, permitted_uri. rewrite !string_length_app. cbn [String.length]. lia. Qed.

(** For a trust domain of at most 109 bytes the extension is well-formed DER that
    names exactly the trust domain, but with [permittedSubtrees] tagged explicitly: a
    reader of the implicit tagging of RFC 5280 rejects it. *)
Theorem name_constraints_explicit trust_domain :
  blen trust_domain ≤ 109 →
  let ext := build_uri_name_constraints trust_domain in
  ext_oid ext = [2; 5; 29; 30] ∧ ext_critical ext = true ∧
  read_permitted_explicit (ext_content ext) = Some (permitted_uri trust_domain) ∧
  read_permitted_implicit (ext_content ext) = None.
Proof.
  intros Hl. cbn [build_uri_name_constraints ext_oid ext_critical ext_content].
  split_and!; [done..| |]; unfold read_permitted_explicit, read_permitted_implicit;
    repeat (rewrite der_only_tlv by (rewrite ?blen_tlv, ?blen_permitted_uri; lia);
      cbn [Z.eqb Pos.eqb mbind option_bind]); done.
Qed.

(** At 110 bytes the outer length no longer fits the one byte written for it. *)
Lemma name_constraints_long :
  let td := String.concat "" (replicate 110 "a") in
  blen td = 110 ∧ der_only 0x30 (ext_content (build_uri_name_constraints td)) = None.
Proof. split; vm_compute; reflexivity. Qed.

(** ** Witnesses *)
Lemma name_constraints_explicit_witness :
  read_permitted_explicit (ext_content (build_uri_name_constraints "fleet.internal")) =
    Some "spiffe://fleet.internal/" ∧
  read_permitted_implicit (ext_content (build_uri_name_constraints "fleet.internal")) = None.
Proof.
  destruct (name_constraints_explicit "fleet.internal") as (_ & _ & H1 & H2); [vm_compute; discriminate|].
  split; [exact H1|exact H2].
Defined.
