(* ===== verification/Ca.v ===== *)
(** * Ca: certificates, trust bundles and delegated keys

    Models [src/ca/rcgen_impl.rs], [src/ca/trust_bundle.rs], [src/ca/mod.rs],
    [src/ca/key_issuance.rs] and [src/ca/renewal.rs]. The X.509 crate [rcgen] and the
    SVID helpers of [fleetos-core] are the class [Rcgen]; generated key pairs are
    arguments, [None] where generation fails. *)

From S2P Require Import Prelude.
From S2P Require Import Storage.
From S2P Require Import Core.
From S2P Require Import Records.
From S2P Require Import WireInstance.
From S2P Require Import Demo.
From S2P Require Import StateMachine.
From S2P Require Import Delegation.
From S2P Require Import Secrets.
From S2P Require Import NameConstraints.

(** ** Time: an [OffsetDateTime] is its nanoseconds since the epoch *)
Definition NANOS : Z := 1000000000.
Definition unix_timestamp (t : Z) : Z := t / NANOS.
Definition plus_seconds (t secs : Z) : Z := t + as_i64 secs * NANOS.

(** ** Certificate parameters *)
Inductive SanType : Type := SanUri (uri : string) | SanDnsName (dns : string) | SanOther (b : bytes).
Inductive IsCa : Type := NoCa | CaUnconstrained | CaConstrained (path_len : Z).
Inductive KeyUsagePurpose : Set := DigitalSignature | KeyCertSign | CrlSign | OtherUsage (bit : Z).
Inductive ExtendedKeyUsagePurpose : Type := ClientAuth | ServerAuth | OtherPurpose (oid : list Z).

Record CertificateParams : Type := {
  cp_subject_alt_names : list SanType;
  cp_common_name : string;
  cp_organization_name : option string;
  cp_is_ca : IsCa;
  cp_key_usages : list KeyUsagePurpose;
  cp_extended_key_usages : list ExtendedKeyUsagePurpose;
  cp_not_before : Z;
  cp_not_after : Z;
  cp_custom_extensions : list CustomExtension
}.

Class Rcgen `{C : Core} : Type := {
  KeyPair : Type;
  key_public : KeyPair → bytes;
  key_serialize_der : KeyPair → bytes;
  key_serialize_pem : KeyPair → string;
  key_from_pem : string → option KeyPair;
  (** [Issuer::from_ca_cert_der] and [signed_by]; [self_signed]; [pem] of a DER *)
  issuer_from_ca_cert_der : bytes → bool;
  signed_by : CertificateParams → bytes → bytes → KeyPair → option bytes;
  self_signed : CertificateParams → KeyPair → option bytes;
  cert_pem : bytes → string;
  (** [serialize_request], and [CertificateSigningRequestParams::from_der] *)
  serialize_request : CertificateParams → KeyPair → option bytes;
  csr_pem : bytes → option string;
  csr_from_der : bytes → option (CertificateParams * bytes);
  (** what a certificate says, and whose key it certifies *)
  certificate_of : bytes → option (CertificateParams * bytes);
  uri_valid : string → bool;
  ia5_valid : string → bool;
  (** [fleetos_core::spiffe] *)
  role_extension : string → CustomExtension;
  ordinal_extension : Z → CustomExtension;
  degraded_extension : bool → CustomExtension;
  extract_ordinal : bytes → option Z;
  core_validate_svid : bytes → string → list bytes → bool;
  (** [OffsetDateTime::from_unix_timestamp] *)
  from_unix_timestamp : Z → option Z
}.

(** Documented behaviour: a certificate says what it was signed with, a key pair is
    read back from its PEM, a request without custom extensions is read back, and a
    timestamp is read back to the second. *)
Class RcgenSpec `{C : Core} (G : Rcgen) : Prop := {
  certificate_of_signed p k ic ik der :
    signed_by p k ic ik = Some der → certificate_of der = Some (p, k);
  key_from_pem_serialize k : key_from_pem (key_serialize_pem k) = Some k;
  csr_from_der_serialize p k der :
    cp_custom_extensions p = [] → serialize_request p k = Some der →
    csr_from_der der = Some (p, key_public k);
  from_unix_timestamp_spec s t : from_unix_timestamp s = Some t → t = s * NANOS
}.

(** ** Errors *)
Inductive CaError : Type :=
| CaRcgen
| CaKeyGeneration
| CaSigning
| CaValidation
| CaTrustBundle
| CaPlacementVerification (node_id target_svid_id : string) (target_ordinal : Z)
| CaStorage
| CaSerialization.

Inductive SvidKind : Set := SvidControl | SvidNode | SvidWorkload | SvidAdmin.
#[export] Instance SvidKind_eq_dec : EqDecision SvidKind.
Proof. solve_decision. Defined.

Record SvidParams : Type := {
  sp_spiffe_id : string;
  sp_kind : SvidKind;
  sp_role : option string;
  sp_ordinal : option Z;
  sp_degraded : bool;
  sp_ttl_secs : Z
}.

Section Rcgen.
Context `{C : Core} `{G : !Rcgen}.

(** ** [rcgen_impl.rs] *)
Record CsrBundle : Type := {
  csr_bundle_pem : string;
  csr_bundle_der : bytes;
  csr_private_key : bytes;
  csr_key_pair : KeyPair
}.

(** The DNS name a control SVID also carries. *)
Definition control_dns_name (params : SvidParams) : list SanType :=
  if bool_decide (sp_kind params = SvidControl) then
    match spiffe_parse (sp_spiffe_id params) with
    | Some spiffe =>
        if ia5_valid (spiffe_trust_domain spiffe) then [SanDnsName (spiffe_trust_domain spiffe)] else []
    | None => []
    end
  else [].

(** The parameters of a CSR; its validity is rcgen's default. *)
Definition leaf_params (params : SvidParams) (not_before not_after : Z)
    (extensions : list CustomExtension) : result CaError CertificateParams :=
  if negb (uri_valid (sp_spiffe_id params)) then Err CaValidation
  else Ok {|
    cp_subject_alt_names := SanUri (sp_spiffe_id params) :: control_dns_name params;
    cp_common_name := sp_spiffe_id params;
    cp_organization_name := None;
    cp_is_ca := NoCa;
    cp_key_usages := [DigitalSignature];
    cp_extended_key_usages := [ClientAuth; ServerAuth];
    cp_not_before := not_before;
    cp_not_after := not_after;
    cp_custom_extensions := extensions |}.

Definition build_csr (params : SvidParams) (default_not_before default_not_after : Z)
    (key_pair : option KeyPair) : result CaError CsrBundle :=
  key_pair ← ok_or CaKeyGeneration key_pair;
  cert_params ← leaf_params params default_not_before default_not_after [];
  csr ← ok_or CaRcgen (serialize_request cert_params key_pair);
  pem ← ok_or CaRcgen (csr_pem csr);
  Ok {| csr_bundle_pem := pem; csr_bundle_der := csr;
        csr_private_key := key_serialize_der key_pair; csr_key_pair := key_pair |}.

Record SignedSvid : Type := {
  ss_cert_pem : string;
  ss_cert_der : bytes;
  ss_private_key_der : bytes;
  ss_not_before : Z;
  ss_not_after : Z
}.

Definition sign_svid (params : SvidParams) (ca_key_pair : KeyPair) (ca_cert_der : bytes)
    (now : Z) (leaf_key_pair : option KeyPair) : result CaError SignedSvid :=
  let not_after := plus_seconds now (sp_ttl_secs params) in
  let extensions :=
    match sp_role params with Some role => [role_extension role] | None => [] end ++
    match sp_ordinal params with Some ordinal => [ordinal_extension ordinal] | None => [] end ++
    [degraded_extension (sp_degraded params)] in
  leaf ← leaf_params params now not_after extensions;
  leaf_key_pair ← ok_or CaKeyGeneration leaf_key_pair;
  if negb (issuer_from_ca_cert_der ca_cert_der) then Err CaSigning
  else
    cert ← ok_or CaRcgen (signed_by leaf (key_public leaf_key_pair) ca_cert_der ca_key_pair);
    Ok {| ss_cert_pem := cert_pem cert; ss_cert_der := cert;
          ss_private_key_der := key_serialize_der leaf_key_pair;
          ss_not_before := now; ss_not_after := not_after |}.

Definition generate_root_ca (trust_domain : string) (now : Z) (key_pair : option KeyPair) :
    result CaError (KeyPair * CertificateParams) :=
  key_pair ← ok_or CaKeyGeneration key_pair;
  Ok (key_pair, {|
    cp_subject_alt_names := [];
    cp_common_name := "FleetOS Root CA (" +:+ trust_domain +:+ ")";
    cp_organization_name := Some "FleetOS";
    cp_is_ca := CaUnconstrained;
    cp_key_usages := [KeyCertSign; CrlSign];
    cp_extended_key_usages := [];
    cp_not_before := now;
    cp_not_after := plus_seconds now (365 * 10 * 86400);
    cp_custom_extensions := [] |}).

(** The first URI SAN that starts with [spiffe://]. *)
Fixpoint first_spiffe_uri (sans : list SanType) : option string :=
  match sans with
  | SanUri uri :: sans => if starts_with "spiffe://" uri then Some uri else first_spiffe_uri sans
  | _ :: sans => first_spiffe_uri sans
  | [] => None
  end.

Definition extract_spiffe_id_from_csr (csr_der : bytes) : result CaError string :=
  '(params, _) ← ok_or CaSigning (csr_from_der csr_der);
  ok_or CaValidation (first_spiffe_uri (cp_subject_alt_names params)).

(** The certificate is the request with a validity window and the degraded marker. *)
Definition final_params (params : CertificateParams) (now ttl_secs : Z) : CertificateParams := {|
  cp_subject_alt_names := cp_subject_alt_names params;
  cp_common_name := cp_common_name params;
  cp_organization_name := cp_organization_name params;
  cp_is_ca := cp_is_ca params;
  cp_key_usages := cp_key_usages params;
  cp_extended_key_usages := cp_extended_key_usages params;
  cp_not_before := now;
  cp_not_after := plus_seconds now ttl_secs;
  cp_custom_extensions := cp_custom_extensions params ++ [degraded_extension false] |}.

Definition sign_csr (csr_der : bytes) (ca_key_pair : KeyPair) (ca_cert_der : bytes)
    (now ttl_secs : Z) : result CaError bytes :=
  '(params, public_key) ← ok_or CaSigning (csr_from_der csr_der);
  if negb (issuer_from_ca_cert_der ca_cert_der) then Err CaSigning
  else ok_or CaRcgen (signed_by (final_params params now ttl_secs) public_key ca_cert_der ca_key_pair).

(** ** [trust_bundle.rs] *)
Record PreviousRoot : Type := {
  pr_key : KeyPair;
  pr_cert_der : bytes;
  pr_cert_pem : string;
  pr_superseded_at : Z
}.
Record TrustBundle : Type := {
  tb_trust_domain : string;
  tb_current_key : KeyPair;
  tb_current_cert_der : bytes;
  tb_current_cert_pem : string;
  tb_previous : option PreviousRoot
}.

Definition generate_root (trust_domain : string) (now : Z) (key_pair : option KeyPair) :
    result CaError TrustBundle :=
  '(key_pair, params) ← generate_root_ca trust_domain now key_pair;
  cert ← ok_or CaRcgen (self_signed params key_pair);
  Ok {| tb_trust_domain := trust_domain; tb_current_key := key_pair;
        tb_current_cert_der := cert; tb_current_cert_pem := cert_pem cert; tb_previous := None |}.

Definition rotate (b : TrustBundle) (now : Z) (new_key : option KeyPair) : result CaError TrustBundle :=
  '(new_key, params) ← generate_root_ca (tb_trust_domain b) now new_key;
  cert ← ok_or CaRcgen (self_signed params new_key);
  Ok {| tb_trust_domain := tb_trust_domain b; tb_current_key := new_key;
        tb_current_cert_der := cert; tb_current_cert_pem := cert_pem cert;
        tb_previous := Some {|
          pr_key := tb_current_key b; pr_cert_der := tb_current_cert_der b;
          pr_cert_pem := tb_current_cert_pem b; pr_superseded_at := now |} |}.

Definition newline : string := String (Ascii.ascii_of_nat 10) "".
Definition trust_bundle_pem (b : TrustBundle) : string :=
  tb_current_cert_pem b +:+
  match tb_previous b with Some p => newline +:+ pr_cert_pem p | None => "" end.

(** The roots a certificate may chain to. *)
Definition roots (b : TrustBundle) : list bytes :=
  tb_current_cert_der b :: match tb_previous b with Some p => [pr_cert_der p] | None => [] end.

Definition validate_svid (b : TrustBundle) (cert_der : bytes) : result CaError bool :=
  Ok (core_validate_svid cert_der (tb_trust_domain b) (roots b)).

Record PreviousRootRecord : Type := {
  prr_key_pem : string;
  prr_cert_der : bytes;
  prr_cert_pem : string;
  prr_superseded_at_unix : Z
}.
Record TrustBundleRecord : Type := {
  tbr_trust_domain : string;
  tbr_current_key_pem : string;
  tbr_current_cert_der : bytes;
  tbr_current_cert_pem : string;
  tbr_previous : option PreviousRootRecord
}.

Definition to_record (b : TrustBundle) : TrustBundleRecord := {|
  tbr_trust_domain := tb_trust_domain b;
  tbr_current_key_pem := key_serialize_pem (tb_current_key b);
  tbr_current_cert_der := tb_current_cert_der b;
  tbr_current_cert_pem := tb_current_cert_pem b;
  tbr_previous :=
    (λ p, {| prr_key_pem := key_serialize_pem (pr_key p); prr_cert_der := pr_cert_der p;
             prr_cert_pem := pr_cert_pem p;
             prr_superseded_at_unix := unix_timestamp (pr_superseded_at p) |}) <$> tb_previous b |}.

Definition from_record (record : TrustBundleRecord) : result CaError TrustBundle :=
  current_key ← ok_or CaRcgen (key_from_pem (tbr_current_key_pem record));
  previous ←
    match tbr_previous record with
    | Some p =>
        key ← ok_or CaRcgen (key_from_pem (prr_key_pem p));
        superseded_at ← ok_or CaTrustBundle (from_unix_timestamp (prr_superseded_at_unix p));
        Ok (Some {| pr_key := key; pr_cert_der := prr_cert_der p; pr_cert_pem := prr_cert_pem p;
                    pr_superseded_at := superseded_at |})
    | None => Ok None
    end;
  Ok {| tb_trust_domain := tbr_trust_domain record; tb_current_key := current_key;
        tb_current_cert_der := tbr_current_cert_der record;
        tb_current_cert_pem := tbr_current_cert_pem record; tb_previous := previous |}.
End Rcgen.

(** ** [mod.rs]: the two roots, encrypted at rest *)
Section CaService.
Context `{F : Fjall} `{C : Core} `{G : !Rcgen}.
Context `{A : Aead} `{K : MasterKeyProvider}.
Context `{PE : !Postcard EnvelopeSecret} `{PT : !Postcard TrustBundleRecord}.

(** What [encrypt_at_rest] draws: a DEK and two nonces. *)
Record Entropy : Type := { en_dek : bytes; en_nonce : bytes; en_wrap_nonce : bytes }.

Record CaService : Type := { ca_data_control : TrustBundle; ca_admin : TrustBundle }.

Definition bundle_key (trust_domain : string) : string := "bundle:" +:+ trust_domain.

Definition persist_bundle (db : Db) (en : Entropy) (bundle : TrustBundle) : result CaError Db :=
  serialized ← ok_or CaSerialization (to_allocvec (to_record bundle));
  envelope ← map_err (λ _, CaTrustBundle)
    (encrypt_at_rest (en_dek en) (en_nonce en) (en_wrap_nonce en) serialized);
  envelope_bytes ← ok_or CaSerialization (to_allocvec envelope);
  map_err (λ _, CaStorage)
    (commit db [BInsert ks_trust_bundles (bundle_key (tb_trust_domain bundle)) envelope_bytes]).

Definition load_bundle (db : Db) (trust_domain : string) : result CaError TrustBundle :=
  r ← map_err (λ _, CaStorage) (get db ks_trust_bundles (bundle_key trust_domain));
  envelope_bytes ← ok_or CaTrustBundle r;
  envelope ← ok_or CaSerialization (from_bytes envelope_bytes);
  decrypted ← map_err (λ _, CaTrustBundle) (decrypt_at_rest (envelope : EnvelopeSecret));
  record ← ok_or CaSerialization (from_bytes decrypted);
  from_record record.

(** The random choices of a start: a key pair and an encryption per root. *)
Record CaEntropy : Type := {
  ce_dc_key : option KeyPair;
  ce_admin_key : option KeyPair;
  ce_dc_seal : Entropy;
  ce_admin_seal : Entropy
}.

Definition bootstrap (db : Db) (dc_domain admin_domain : string) (now : Z) (ce : CaEntropy) :
    result CaError (CaService * Db) :=
  data_control ← generate_root dc_domain now (ce_dc_key ce);
  admin ← generate_root admin_domain now (ce_admin_key ce);
  db ← persist_bundle db (ce_dc_seal ce) data_control;
  db ← persist_bundle db (ce_admin_seal ce) admin;
  Ok ({| ca_data_control := data_control; ca_admin := admin |}, db).

Definition load (db : Db) (dc_domain admin_domain : string) : result CaError (CaService * Db) :=
  data_control ← load_bundle db dc_domain;
  admin ← load_bundle db admin_domain;
  Ok ({| ca_data_control := data_control; ca_admin := admin |}, db).

Definition init (db : Db) (dc_domain admin_domain : string) (now : Z) (ce : CaEntropy) :
    result CaError (CaService * Db) :=
  r ← map_err (λ _, CaStorage) (get db ks_trust_bundles (bundle_key dc_domain));
  if isSome r then load db dc_domain admin_domain else bootstrap db dc_domain admin_domain now ce.
End CaService.

(** ** [renewal.rs]: the certificates the listeners present *)
Section Renewal.
Context `{C : Core} `{G : !Rcgen}.

(** The key a [DynamicCertResolver] serves: a certificate and its private key. *)
Record Resolvers : Type := {
  rs_dc : option (bytes * bytes);
  rs_raft : option (bytes * bytes);
  rs_admin : option (bytes * bytes)
}.
Record ControlSvidRenewer : Type := {
  csr_node_name : string;
  csr_dc_trust_domain : string;
  csr_admin_trust_domain : string;
  csr_node_ttl_secs : Z;
  csr_admin_ttl_secs : Z
}.

Definition control_spiffe (trust_domain node_name : string) : string :=
  "spiffe://" +:+ trust_domain +:+ "/ns/system/control/" +:+ node_name.
Definition control_params (trust_domain node_name : string) (ttl_secs : Z) : SvidParams := {|
  sp_spiffe_id := control_spiffe trust_domain node_name; sp_kind := SvidControl; sp_role := None;
  sp_ordinal := None; sp_degraded := false; sp_ttl_secs := ttl_secs |}.

(** [certified_key_from_der] of the TLS layer may refuse a key. The admin resolver is
    updated where the node has an admin CA and an admin listener. *)
Definition renew_all (r : ControlSvidRenewer) (certified : bytes → bytes → bool)
    (dc_bundle : TrustBundle) (admin : option TrustBundle) (has_admin_resolver : bool)
    (now : Z) (dc_key admin_key : option KeyPair) (rs : Resolvers) :
    Resolvers * result CaError () :=
  let sign trust_domain ttl (bundle : TrustBundle) key :=
    svid ← sign_svid (control_params trust_domain (csr_node_name r) ttl)
      (tb_current_key bundle) (tb_current_cert_der bundle) now key;
    if certified (ss_cert_der svid) (ss_private_key_der svid)
    then Ok (ss_cert_der svid, ss_private_key_der svid) else Err CaSigning in
  match sign (csr_dc_trust_domain r) (csr_node_ttl_secs r) dc_bundle dc_key with
  | Err e => (rs, Err e)
  | Ok dc =>
      let rs := {| rs_dc := Some dc; rs_raft := Some dc; rs_admin := rs_admin rs |} in
      match admin, has_admin_resolver with
      | Some admin_bundle, true =>
          match sign (csr_admin_trust_domain r) (csr_admin_ttl_secs r) admin_bundle admin_key with
          | Err e => (rs, Err e)
          | Ok key => ({| rs_dc := rs_dc rs; rs_raft := rs_raft rs; rs_admin := Some key |}, Ok ())
          end
      | _, _ => (rs, Ok ())
      end
  end.
End Renewal.

(** ** [key_issuance.rs] *)
Section KeyIssuance.
Context `{F : Fjall} `{C : Core} `{W : !Wire C} `{G : !Rcgen}.

Record DelegationRequest : Type := {
  drq_node_id : SpiffeId;
  drq_target_svid_id : SpiffeId;
  drq_target_ordinal : option Z;
  drq_ttl_secs : Z
}.
Record DelegatedKeyBundle : Type := { dkb_key_bytes : bytes; dkb_delegation_id : string }.
Record VerifiedPlacement : Type := { vp_role : option string }.

(** The placement hosts the target on the node, and on the ordinal when there is one. *)
Definition hosts (node_id target_svid_id : SpiffeId) (target_ordinal : option Z) (p : Placement) : bool :=
  bool_decide (pl_node_id p = node_id) &&
  match target_ordinal with Some ordinal => pl_ordinal p =? ordinal | None => true end &&
  bool_decide (spiffe_new (spiffe_trust_domain target_svid_id) (pl_tenant_id p) IdKind.Sa
    (pl_service p) = target_svid_id).

(** The scan, with the error of a guard that does not open. *)
Fixpoint find_placement (node_id target_svid_id : SpiffeId) (target_ordinal : option Z)
    (guards : list (result IoError (bytes * bytes))) : result CaError VerifiedPlacement :=
  match guards with
  | [] => Err (CaPlacementVerification (spiffe_to_string node_id) (spiffe_to_string target_svid_id)
      (default 0 target_ordinal))
  | Err _ :: _ => Err CaStorage
  | Ok (_, value) :: guards =>
      match from_bytes value with
      | Some placement =>
          if hosts node_id target_svid_id target_ordinal placement
          then Ok {| vp_role := if decide (pl_role placement = "") then None
                                else Some (pl_role placement) |}
          else find_placement node_id target_svid_id target_ordinal guards
      | None => find_placement node_id target_svid_id target_ordinal guards
      end
  end.

Definition verify_placement (db : Db) (node_id target_svid_id : SpiffeId)
    (target_ordinal : option Z) : result CaError VerifiedPlacement :=
  find_placement node_id target_svid_id target_ordinal (prefix db ks_placements "").

(** The shadow struct that is serialized. *)
Record DelegatedSigningKey : Type := {
  dsk_node_id : string;
  dsk_target_svid_id : string;
  dsk_target_ordinal : option Z;
  dsk_issued_at_unix : Z;
  dsk_expires_at_unix : Z;
  dsk_signing_key : bytes;
  dsk_intermediate_cert_der : bytes;
  dsk_target_role : option string
}.
Context `{PK : !Postcard DelegatedSigningKey}.

Definition intermediate_params (request : DelegationRequest) (now : Z) : CertificateParams := {|
  cp_subject_alt_names := [];
  cp_common_name := "FleetOS Delegated CA (" +:+ spiffe_to_string (drq_node_id request) +:+ ")";
  cp_organization_name := Some "FleetOS";
  cp_is_ca := CaConstrained 0;
  cp_key_usages := [KeyCertSign; CrlSign];
  cp_extended_key_usages := [];
  cp_not_before := now;
  cp_not_after := plus_seconds now (drq_ttl_secs request);
  cp_custom_extensions :=
    [build_uri_name_constraints (spiffe_trust_domain (drq_node_id request))] |}.

Definition issue_delegated_key (db : Db) (request : DelegationRequest) (bundle : TrustBundle)
    (now : Z) (key_pair : option KeyPair) : result CaError DelegatedKeyBundle :=
  verified ← verify_placement db (drq_node_id request) (drq_target_svid_id request)
    (drq_target_ordinal request);
  delegation_id ← map_err (λ _, CaValidation)
    (compute_delegation_id (spiffe_to_string (drq_node_id request))
      (spiffe_to_string (drq_target_svid_id request)) (drq_target_ordinal request)
      (unix_timestamp now));
  key_pair ← ok_or CaKeyGeneration key_pair;
  if negb (issuer_from_ca_cert_der (tb_current_cert_der bundle)) then Err CaSigning
  else
    intermediate_cert ← ok_or CaRcgen (signed_by (intermediate_params request now)
      (key_public key_pair) (tb_current_cert_der bundle) (tb_current_key bundle));
    target_role ←
      match vp_role verified with
      | Some r => if workload_role_valid r then Ok (Some r) else Err CaValidation
      | None => Ok None
      end;
    key_bytes ← ok_or CaSerialization (to_allocvec {|
      dsk_node_id := spiffe_to_string (drq_node_id request);
      dsk_target_svid_id := spiffe_to_string (drq_target_svid_id request);
      dsk_target_ordinal := drq_target_ordinal request;
      dsk_issued_at_unix := wrap_u64 (unix_timestamp now);
      dsk_expires_at_unix := wrap_u64 (unix_timestamp (plus_seconds now (drq_ttl_secs request)));
      dsk_signing_key := key_serialize_der key_pair;
      dsk_intermediate_cert_der := intermediate_cert;
      dsk_target_role := target_role |});
    Ok {| dkb_key_bytes := key_bytes; dkb_delegation_id := delegation_id |}.
End KeyIssuance.

(** ** The roots survive a restart *)
Section Restart.
Context `{F : Fjall} `{C : Core} `{G : !Rcgen} `{!FjallSpec F} `{!FjallReliable F} `{!RcgenSpec G}.
Context `{A : Aead} `{K : MasterKeyProvider} `{!MasterKeyLaws K}.
Context `{PE : !Postcard EnvelopeSecret} `{PT : !Postcard TrustBundleRecord}.

Definition entropy_ok (en : Entropy) : Prop :=
  blen (en_dek en) = DEK_LENGTH ∧ blen (en_nonce en) = NONCE_LENGTH ∧
  blen (en_wrap_nonce en) = NONCE_LENGTH.

(** What is kept of a bundle: the time of the rotation to the second. *)
Definition at_rest (b : TrustBundle) : TrustBundle := {|
  tb_trust_domain := tb_trust_domain b; tb_current_key := tb_current_key b;
  tb_current_cert_der := tb_current_cert_der b; tb_current_cert_pem := tb_current_cert_pem b;
  tb_previous := (λ p, {|
    pr_key := pr_key p; pr_cert_der := pr_cert_der p; pr_cert_pem := pr_cert_pem p;
    pr_superseded_at := pr_superseded_at p / NANOS * NANOS |}) <$> tb_previous b |}.

Definition timestamps_ok (b : TrustBundle) : Prop :=
  ∀ p, tb_previous b = Some p → is_Some (from_unix_timestamp (unix_timestamp (pr_superseded_at p))).

Lemma from_to_record b : timestamps_ok b → from_record (to_record b) = Ok (at_rest b).
Proof.
  intros Ht. unfold from_record, to_record, at_rest, timestamps_ok in *. destruct b as [td k d pem prev]. cbn in *.
  rewrite key_from_pem_serialize. cbn. destruct prev as [p|]; cbn; [|done].
  rewrite key_from_pem_serialize. cbn. destruct (Ht p eq_refl) as [t Et]. rewrite Et. cbn.
  by rewrite (from_unix_timestamp_spec _ _ Et).
Qed.

Lemma persist_bundle_lookup db en b db' :
  persist_bundle db en b = Ok db' →
  ∃ v, contents db' = <[(ks_trust_bundles, bundle_key (tb_trust_domain b)) := v]> (contents db) ∧
    (entropy_ok en → ∃ e s, from_bytes v = Some e ∧ decrypt_at_rest e = Ok s ∧
      from_bytes s = Some (to_record b)).
Proof.
  unfold persist_bundle. intros H.
  apply bind_ok in H as (s & Hs & H). apply bind_ok in H as (e & He & H).
  apply bind_ok in H as (v & Hv & H). unfold map_err, ok_or in *.
  destruct (to_allocvec (to_record b)) as [s'|] eqn:Es; [|done]. injection Hs as ->.
  destruct (encrypt_at_rest _ _ _ _) as [e'|] eqn:Ee; [|done]. injection He as ->.
  destruct (to_allocvec e) as [v'|] eqn:Ev; [|done]. injection Hv as ->.
  destruct (commit _ _) as [db1|] eqn:Ec; [|done]. injection H as ->.
  exists v. split; [by rewrite (commit_spec _ _ _ Ec)|]. intros (H1 & H2 & H3). exists e, s.
  split; [by apply from_to_allocvec|]. split; [|by apply from_to_allocvec].
  eapply (decrypt_encrypt_at_rest (en_dek en) (en_nonce en) (en_wrap_nonce en)); eassumption.
Qed.

Lemma load_bundle_lookup db td v e s b :
  contents db !! (ks_trust_bundles, bundle_key td) = Some v →
  from_bytes v = Some e → decrypt_at_rest e = Ok s → from_bytes s = Some (to_record b) →
  timestamps_ok b → load_bundle db td = Ok (at_rest b).
Proof.
  intros Hv He Hs Hr Ht. unfold load_bundle.
  rewrite get_eq, Hv. cbn. rewrite He. cbn. rewrite Hs. cbn. rewrite Hr. cbn.
  by apply from_to_record.
Qed.

Lemma generate_root_ok td now k b :
  generate_root td now k = Ok b → tb_trust_domain b = td ∧ tb_previous b = None.
Proof. unfold generate_root, generate_root_ca. intros H. ok_inv. by cbn in *; ok_inv. Qed.

Lemma at_rest_fresh b : tb_previous b = None → at_rest b = b.
Proof. destruct b. cbn. by intros ->. Qed.

(** The two roots are in their cells after [bootstrap], and loading from any database
    with the same cells gives them back. *)
Lemma bootstrap_reloads db dc admin now ce ca db' :
  dc ≠ admin → entropy_ok (ce_dc_seal ce) → entropy_ok (ce_admin_seal ce) →
  bootstrap db dc admin now ce = Ok (ca, db') →
  isSome (contents db' !! (ks_trust_bundles, bundle_key dc)) = true ∧
  ∀ db2, (∀ k, contents db2 !! (ks_trust_bundles, k) = contents db' !! (ks_trust_bundles, k)) →
    load db2 dc admin = Ok (ca, db2).
Proof.
  intros Hne Hs1 Hs2 H. unfold bootstrap in H.
  apply bind_ok in H as (b1 & Hb1 & H). apply bind_ok in H as (b2 & Hb2 & H).
  apply bind_ok in H as (db1 & Hp1 & H). apply bind_ok in H as (db2 & Hp2 & H).
  injection H as <- <-.
  destruct (generate_root_ok _ _ _ _ Hb1) as [Ht1 Hprev1], (generate_root_ok _ _ _ _ Hb2) as [Ht2 Hprev2].
  destruct (persist_bundle_lookup _ _ _ _ Hp1) as (v1 & Hc1 & Hd1).
  destruct (persist_bundle_lookup _ _ _ _ Hp2) as (v2 & Hc2 & Hd2). rewrite Ht1 in Hc1. rewrite Ht2 in Hc2.
  assert (contents db2 !! (ks_trust_bundles, bundle_key dc) = Some v1) as Hl1.
  { rewrite Hc2, lookup_insert_ne, Hc1, lookup_insert_eq; [done|].
    intros E%(f_equal snd). cbn in E. unfold bundle_key in E. apply (inj _) in E. done. }
  assert (contents db2 !! (ks_trust_bundles, bundle_key admin) = Some v2) as Hl2.
  { rewrite Hc2. apply lookup_insert_eq. }
  destruct (Hd1 Hs1) as (e1 & s1 & He1 & Hx1 & Hr1), (Hd2 Hs2) as (e2 & s2 & He2 & Hx2 & Hr2).
  split; [by rewrite Hl1|]. intros db3 Hsame. unfold load.
  rewrite <- Hsame in Hl1, Hl2.
  rewrite (load_bundle_lookup _ _ _ _ _ b1 Hl1 He1 Hx1 Hr1) by (intros p; by rewrite Hprev1). cbn.
  rewrite (load_bundle_lookup _ _ _ _ _ b2 Hl2 He2 Hx2 Hr2) by (intros p; by rewrite Hprev2). cbn.
  by rewrite !at_rest_fresh.
Qed.

(** [CaService::init] on a node that bootstrapped gives the same roots, whatever it draws. *)
Lemma init_reloads db dc admin now ce ca db' now' ce' :
  dc ≠ admin → entropy_ok (ce_dc_seal ce) → entropy_ok (ce_admin_seal ce) →
  bootstrap db dc admin now ce = Ok (ca, db') →
  init db' dc admin now' ce' = Ok (ca, db').
Proof.
  intros Hne Hs1 Hs2 H. destruct (bootstrap_reloads _ _ _ _ _ _ _ Hne Hs1 Hs2 H) as [Hl Hload].
  unfold init. rewrite get_eq. cbn. rewrite Hl. by apply Hload.
Qed.
End Restart.

(** ** Witnesses *)
Import DemoInstances.
#[export] Existing Instance demo_aead.
#[export] Existing Instance demo_master_key.
#[export] Existing Instance demo_envelope.

(** A certificate library that writes down what it is given. *)
#[local] Instance codec_SanType : Codec SanType :=
  codec_iso (λ s, match s with SanUri u => (0, u) | SanDnsName u => (1, u) | SanOther u => (2, u) end)
    (λ '(n, u), match n with 0 => SanUri u | 1 => SanDnsName u | _ => SanOther u end)
    ltac:(by intros []).
#[local] Instance codec_IsCa : Codec IsCa :=
  codec_iso (λ s, match s with NoCa => (0, 0) | CaUnconstrained => (1, 0) | CaConstrained n => (2, n) end)
    (λ '(k, n), match k with 0 => NoCa | 1 => CaUnconstrained | _ => CaConstrained n end)
    ltac:(by intros []).
#[local] Instance codec_KeyUsagePurpose : Codec KeyUsagePurpose :=
  codec_iso (λ s, match s with DigitalSignature => (0, 0) | KeyCertSign => (1, 0) | CrlSign => (2, 0)
      | OtherUsage n => (3, n) end)
    (λ '(k, n), match k with 0 => DigitalSignature | 1 => KeyCertSign | 2 => CrlSign
      | _ => OtherUsage n end) ltac:(by intros []).
#[local] Instance codec_ExtendedKeyUsagePurpose : Codec ExtendedKeyUsagePurpose :=
  codec_iso (λ s, match s with ClientAuth => (0, []) | ServerAuth => (1, []) | OtherPurpose o => (2, o) end)
    (λ '(k, o), match k with 0 => ClientAuth | 1 => ServerAuth | _ => OtherPurpose o end)
    ltac:(by intros []).
#[local] Instance codec_CustomExtension : Codec CustomExtension :=
  codec_iso (λ r : CustomExtension, (ext_oid r, (ext_content r, ext_critical r)))
    (λ '(x1, (x2, x3)), Build_CustomExtension x1 x2 x3) ltac:(by intros []).
#[local] Instance codec_CertificateParams : Codec CertificateParams :=
  codec_iso (λ r : CertificateParams, (cp_subject_alt_names r, (cp_common_name r,
      (cp_organization_name r, (cp_is_ca r, (cp_key_usages r, (cp_extended_key_usages r,
      (cp_not_before r, (cp_not_after r, cp_custom_extensions r)))))))))
    (λ '(x1, (x2, (x3, (x4, (x5, (x6, (x7, (x8, x9)))))))),
      Build_CertificateParams x1 x2 x3 x4 x5 x6 x7 x8 x9) ltac:(by intros []).

Definition demo_cert (p : CertificateParams) (k : bytes) : bytes := codec_put (p, k).
Definition demo_cert_of (b : bytes) : option (CertificateParams * bytes) := fst <$> codec_get b.
Lemma demo_cert_of_cert p k : demo_cert_of (demo_cert p k) = Some (p, k).
Proof.
  unfold demo_cert_of, demo_cert. pose proof (codec_get_put (p, k) "") as E.
  rewrite string_app_nil_r in E. by rewrite E.
Qed.

#[local] Instance demo_rcgen : Rcgen := {|
  KeyPair := string;
  key_public k := "pub " +:+ k;
  key_serialize_der k := k;
  key_serialize_pem k := k;
  key_from_pem k := Some k;
  issuer_from_ca_cert_der _ := true;
  signed_by p k _ _ := Some (demo_cert p k);
  self_signed p k := Some (demo_cert p k);
  cert_pem c := c;
  serialize_request p k := Some (demo_cert p ("pub " +:+ k));
  csr_pem c := Some c;
  csr_from_der := demo_cert_of;
  certificate_of := demo_cert_of;
  uri_valid _ := true;
  ia5_valid _ := true;
  role_extension r := {| ext_oid := [1]; ext_content := r; ext_critical := false |};
  ordinal_extension o := {| ext_oid := [2]; ext_content := pretty o; ext_critical := false |};
  degraded_extension b := {| ext_oid := [3]; ext_content := if b : bool then "1" else "0"; ext_critical := false |};
  extract_ordinal _ := None;
  core_validate_svid _ _ _ := true;
  from_unix_timestamp s := Some (s * NANOS)
|}.

Lemma demo_rcgen_spec : RcgenSpec demo_rcgen.
Proof.
  split; cbn.
  - intros p k ic ik der H. apply (inj Some) in H as <-. apply demo_cert_of_cert.
  - done.
  - intros p k der _ H. apply (inj Some) in H as <-. apply demo_cert_of_cert.
  - by intros s t [= <-].
Qed.
#[local] Existing Instance demo_rcgen_spec.

#[local] Instance codec_PreviousRootRecord : Codec PreviousRootRecord :=
  codec_iso (λ r : PreviousRootRecord, (prr_key_pem r, (prr_cert_der r, (prr_cert_pem r,
      prr_superseded_at_unix r))))
    (λ '(x1, (x2, (x3, x4))), Build_PreviousRootRecord x1 x2 x3 x4) ltac:(by intros []).
#[local] Instance codec_TrustBundleRecord : Codec TrustBundleRecord :=
  codec_iso (λ r : TrustBundleRecord, (tbr_trust_domain r, (tbr_current_key_pem r,
      (tbr_current_cert_der r, (tbr_current_cert_pem r, tbr_previous r)))))
    (λ '(x1, (x2, (x3, (x4, x5)))), Build_TrustBundleRecord x1 x2 x3 x4 x5) ltac:(by intros []).
#[local] Instance demo_bundle_codec : Postcard TrustBundleRecord := postcard_of _.
#[local] Instance codec_DelegatedSigningKey : Codec DelegatedSigningKey :=
  codec_iso (λ r : DelegatedSigningKey, (dsk_node_id r, (dsk_target_svid_id r, (dsk_target_ordinal r,
      (dsk_issued_at_unix r, (dsk_expires_at_unix r, (dsk_signing_key r,
      (dsk_intermediate_cert_der r, dsk_target_role r))))))))
    (λ '(x1, (x2, (x3, (x4, (x5, (x6, (x7, x8))))))),
      Build_DelegatedSigningKey x1 x2 x3 x4 x5 x6 x7 x8) ltac:(by intros []).
#[local] Instance demo_delegated_codec : Postcard DelegatedSigningKey := postcard_of _.

Definition demo_seal : Entropy :=
  {| en_dek := demo_dek; en_nonce := "nonce-000001"; en_wrap_nonce := "nonce-000002" |}.
Definition demo_ca_entropy (dc admin : KeyPair) : CaEntropy := {|
  ce_dc_key := Some dc; ce_admin_key := Some admin; ce_dc_seal := demo_seal; ce_admin_seal := demo_seal |}.
