(* ===== verification/Issuance.v ===== *)
(** * Issuance: the gRPC services that issue certificates and delegated keys

    Models [src/ca/grpc_service.rs] ([CaServiceImpl]) and
    [src/watch/delegation_service.rs] ([DelegationServiceImpl]). *)

From S2P Require Import Prelude.
From S2P Require Import Storage.
From S2P Require Import Core.
From S2P Require Import Records.
From S2P Require Import WireInstance.
From S2P Require Import Schema.
From S2P Require Import StateMachine.
From S2P Require Import Apply.
From S2P Require Import Raft.
From S2P Require Import Rpc.
From S2P Require Import Invariant.
From S2P Require Import Demo.
From S2P Require Import Staging.
From S2P Require Import Frame.
From S2P Require Import Eviction.
From S2P Require Import Float64.
From S2P Require Import Delegation.
From S2P Require Import Secrets.
From S2P Require Import NameConstraints.
From S2P Require Import Ca.

(** [ca::SvidGrantRecord]. *)
Record SvidGrantRecord : Type := {
  sg_spiffe_id : string;
  sg_node_kind : Z;
  sg_granted_at : Z;
  sg_expires_at : Z;
  sg_agent_x25519_pubkey : bytes
}.

Record SvidResponse : Type := {
  svr_cert_chain_der : bytes;
  svr_keypair_der : bytes;
  svr_version : Z
}.
(** The [TrustBundle] message. *)
Record TrustBundleResponse : Type := { tbm_trust_domain : string; tbm_roots_der : list bytes }.

(** ** [CaServiceImpl] *)
Section CaServiceImpl.
Context `{F : Fjall} `{C : Core} `{W : !Wire C} `{R : !Raft} `{G : !Rcgen}.
Context `{PG : !Postcard SvidGrantRecord}.
(** [MetadataValue::try_from] *)
Variable ascii_value : string → bool.

Definition authorize_authenticated (csr_spiffe_id : string) (caller_id : SpiffeId)
    (csr_ordinal : option Z) : rpc VerifiedPlacement :=
  if decide (spiffe_to_string caller_id = csr_spiffe_id) then mret {| vp_role := None |}
  else if decide (spiffe_kind caller_id = IdKind.Node) then
    target ← lift_option InvalidArgument (spiffe_parse csr_spiffe_id);
    view_or PermissionDenied (λ db, verify_placement db caller_id target csr_ordinal)
  else fail PermissionDenied.

(** [now] in seconds. *)
Definition authorize_via_grant (csr_spiffe_id : string) (now : Z) : rpc bytes :=
  r ← view_or Internal (λ db, get db ks_svid_grants csr_spiffe_id);
  grant_bytes ← lift_option PermissionDenied r;
  local_write (BRemove ks_svid_grants csr_spiffe_id) ≫= λ _,
  grant ← lift_option Internal (from_bytes grant_bytes);
  ensure (negb (sg_expires_at grant <? now)) PermissionDenied ≫= λ _,
  mret (sg_agent_x25519_pubkey grant).

Definition authorize_issuance (csr_spiffe_id : string) (caller : option SpiffeId)
    (csr_ordinal : option Z) (now : Z) : rpc (option bytes) :=
  match caller with
  | Some caller_id =>
      authorize_authenticated csr_spiffe_id caller_id csr_ordinal ≫= λ _, mret None
  | None => pubkey ← authorize_via_grant csr_spiffe_id now; mret (Some pubkey)
  end.

(** The version and key of the current SVID record. *)
Definition current_svid (spiffe_id : string) : rpc (Z * bytes) :=
  r ← view_or Internal (λ db, get db ks_svids spiffe_id);
  match r with
  | Some b =>
      record ← lift_option Internal (from_bytes b);
      mret (svr_svid_version record, svr_agent_x25519_pubkey record)
  | None => mret (0, "")
  end.

(** [now] is the clock in nanoseconds; [csr_der] the message. *)
Definition submit_csr (bundle : TrustBundle) (svid_ttl_secs now : Z) (request : Request bytes) :
    rpc SvidResponse :=
  let csr_der := rq_message request in
  ensure (negb (bool_decide (csr_der = ""))) InvalidArgument ≫= λ _,
  spiffe_id ← lift InvalidArgument (extract_spiffe_id_from_csr csr_der);
  grant_pubkey ← authorize_issuance spiffe_id (caller request) (extract_ordinal csr_der)
    (unix_timestamp now);
  current ← current_svid spiffe_id;
  let new_version := wrap_u64 (current.1 + 1) in
  proposes_or_redirects ascii_value (system (UpsertSvidVersion {|
    svr_spiffe_id := spiffe_id; svr_svid_version := new_version;
    svr_issued_at_unix := unix_timestamp now;
    svr_agent_x25519_pubkey := default current.2 grant_pubkey |})) ≫= λ _,
  cert_der ← lift Internal (sign_csr csr_der (tb_current_key bundle) (tb_current_cert_der bundle)
    now svid_ttl_secs);
  mret {| svr_cert_chain_der := cert_der; svr_keypair_der := ""; svr_version := new_version |}.

Definition get_trust_bundle (bundle : TrustBundle) (request : Request ()) : rpc TrustBundleResponse :=
  mret {| tbm_trust_domain := tb_trust_domain bundle; tbm_roots_der := roots bundle |}.
End CaServiceImpl.

(** ** [DelegationServiceImpl] *)
Record DelegatedKeyRequest : Type := {
  dk_node_svid : string;
  dk_target_spiffe_id : string;
  dk_target_ordinal : option Z;
  dk_requested_ttl_secs : Z
}.
Record DelegatedKeyResponse : Type := {
  dkr_delegation_id : bytes;
  dkr_key_material : bytes;
  dkr_expires_at_unix : Z
}.

(** 0 or more than the maximum is the maximum. *)
Definition cap_ttl (requested max_ttl : Z) : Z :=
  if (requested =? 0) || (max_ttl <? requested) then max_ttl else requested.

(** What a service draws for a request: the clock (in nanoseconds), a key pair, and a
    request id. *)
Record IssueEnv `{C : Core} `{G : !Rcgen} : Type := {
  ie_now : Z;
  ie_key : option KeyPair;
  ie_request_id : string
}.

Section DelegationServiceImpl.
Context `{F : Fjall} `{C : Core} `{W : !Wire C} `{R : !Raft} `{G : !Rcgen}.
Context `{PK : !Postcard DelegatedSigningKey}.
Variable ascii_value : string → bool.

Record DelegationConfig : Type := {
  dc_ca : option TrustBundle;
  dc_delegated_key_ttl_secs : Z;
  dc_svid_refresh_fraction : f64
}.

(** The record proposed for an issued key. *)
Definition delegation_record (delegation_id : string) (node target : SpiffeId)
    (ordinal : option Z) (ttl issued_at : Z) (fraction : f64) : DelegationRecord := {|
  dr_delegation_id := delegation_id; dr_node_id := node; dr_target_svid_id := target;
  dr_target_ordinal := ordinal; dr_issued_at := issued_at; dr_expires_at := issued_at + as_i64 ttl;
  dr_refresh_at := issued_at + f64_to_i64 (f64_mul (f64_of_Z ttl) fraction) |}.

(** Placement failures are the caller's, the others the server's. *)
Definition issue_code (e : CaError) : Code :=
  match e with CaPlacementVerification _ _ _ => PermissionDenied | _ => Internal end.

Definition request_delegated_key (cfg : DelegationConfig) (env : IssueEnv)
    (request : Request DelegatedKeyRequest) : rpc DelegatedKeyResponse :=
  caller ← lift_option Unauthenticated (caller request);
  let req := rq_message request in
  ensure (bool_decide (spiffe_kind caller = IdKind.Node)) PermissionDenied ≫= λ _,
  node_svid ← lift_option InvalidArgument (spiffe_parse (dk_node_svid req));
  ensure (bool_decide (caller = node_svid)) PermissionDenied ≫= λ _,
  ca_bundle ← lift_option Unavailable (dc_ca cfg);
  target_svid ← lift_option InvalidArgument (spiffe_parse (dk_target_spiffe_id req));
  let ttl := cap_ttl (dk_requested_ttl_secs req) (dc_delegated_key_ttl_secs cfg) in
  bundle ← view (λ db, map_err (λ e, status (issue_code e))
    (issue_delegated_key db {| drq_node_id := caller; drq_target_svid_id := target_svid;
       drq_target_ordinal := dk_target_ordinal req; drq_ttl_secs := ttl |}
       ca_bundle (ie_now env) (ie_key env)));
  let issued_at := unix_timestamp (ie_now env) in
  proposes_or_redirects ascii_value {|
    cmd := IssueDelegation (delegation_record (dkb_delegation_id bundle) caller target_svid
      (dk_target_ordinal req) ttl issued_at (dc_svid_refresh_fraction cfg));
    audit := Some {|
      ac_request_id := ie_request_id env; ac_actor := spiffe_to_string caller;
      ac_target := spiffe_to_string target_svid; ac_timestamp_unix := wrap_u64 issued_at |} |} ≫= λ _,
  mret {| dkr_delegation_id := dkb_delegation_id bundle; dkr_key_material := dkb_key_bytes bundle;
          dkr_expires_at_unix := wrap_u64 (issued_at + as_i64 ttl) |}.
End DelegationServiceImpl.

(** ** What the placement check establishes *)
Section Placement.
Context `{F : Fjall} `{C : Core} `{W : !Wire C} `{!FjallSpec F}.

Lemma find_placement_ok node target ordinal guards v :
  find_placement node target ordinal guards = Ok v →
  ∃ k b p, Ok (k, b) ∈ guards ∧ from_bytes b = Some p ∧ hosts node target ordinal p = true ∧
    vp_role v = (if decide (pl_role p = "") then None else Some (pl_role p)).
Proof.
  induction guards as [|[[k b]|e] guards IH]; [done| |done]. cbn.
  destruct (from_bytes b) as [p|] eqn:Hb.
  - destruct (hosts node target ordinal p) eqn:Hh.
    + intros [= <-]. exists k, b, p. split_and!; try done. left.
    + intros (k' & b' & p' & Hin & ?)%IH. exists k', b', p'. split; [by right|done].
  - intros (k' & b' & p' & Hin & ?)%IH. exists k', b', p'. split; [by right|done].
Qed.

Lemma verify_placement_ok db node target ordinal v :
  verify_placement db node target ordinal = Ok v →
  ∃ p, p ∈ stored_placements (contents db) ∧ hosts node target ordinal p = true ∧
    vp_role v = (if decide (pl_role p = "") then None else Some (pl_role p)).
Proof.
  intros (k & b & p & Hin & Hb & Hh & Hr)%find_placement_ok. exists p. split_and!; try done.
  apply elem_of_stored_placements. exists k, b. split; [|done]. by apply prefix_sound in Hin as [? _].
Qed.

(** A node without placements is refused, and nothing else of the scan fails. *)
Lemma verify_placement_none `{!FjallReliable F} db node target ordinal :
  (∀ p, p ∈ stored_placements (contents db) → pl_node_id p ≠ node) →
  verify_placement db node target ordinal =
    Err (CaPlacementVerification (spiffe_to_string node) (spiffe_to_string target) (default 0 ordinal)).
Proof.
  intros Hno. unfold verify_placement. rewrite prefix_eq.
  assert (∀ k b p, (k, b) ∈ scan (contents db) ks_placements "" → from_bytes b = Some p →
    pl_node_id p ≠ node) as H.
  { intros k b p [Hk _]%elem_of_scan Hb. apply Hno, elem_of_stored_placements. eauto. }
  revert H. generalize (scan (contents db) ks_placements ""). intros l H.
  induction l as [|[k b] l IH]; [done|]. cbn.
  assert (∀ k b p, (k, b) ∈ l → from_bytes b = Some p → pl_node_id p ≠ node) as H'.
  { intros k' b' p' Hin. apply H with k'. by right. }
  destruct (from_bytes b) as [p|] eqn:Hb; [|by apply IH].
  unfold hosts at 1. rewrite bool_decide_eq_false_2; [by apply IH|]. apply (H k b p); [left|done].
Qed.
End Placement.

(** ** Certificates *)
Section SubmitCsr.
Context `{F : Fjall} `{C : Core} `{W : !Wire C} `{R : !Raft} `{G : !Rcgen}.
Context `{PG : !Postcard SvidGrantRecord}.
Context `{!FjallSpec F} `{!RaftSpec R} `{!RcgenSpec G}.
Variable ascii_value : string → bool.

(** Who may have a certificate for the identity [id]: the identity itself; a node, for
    a workload placed on it; nobody known, with an unexpired attestation grant. *)
Definition issuance_allowed (st : store) (who : option SpiffeId) (id : string)
    (ordinal : option Z) (now : Z) : Prop :=
  match who with
  | Some c =>
      spiffe_to_string c = id ∨
      spiffe_kind c = IdKind.Node ∧ ∃ target p, spiffe_parse id = Some target ∧
        p ∈ stored_placements st ∧ hosts c target ordinal p = true
  | None => ∃ v g, st !! (ks_svid_grants, id) = Some v ∧ from_bytes v = Some g ∧
      now ≤ sg_expires_at g
  end.

(** The key recorded for an identity. *)
Definition svid_of (st : store) (id : string) : option SvidRecord :=
  st !! (ks_svids, id) ≫= from_bytes.

Lemma proposes_or_redirects_ok c sm sm' u :
  proposes_or_redirects ascii_value c sm = (sm', Ok u) →
  ∃ e r, payload e = Normal c ∧ apply_entry sm e = (sm', Ok r).
Proof.
  unfold proposes_or_redirects. destruct (client_write sm c) as [sm1 [r|e]] eqn:E.
  - intros [= <- <-]. destruct (client_write_ok _ _ _ _ E) as (e & He & Ha). eauto.
  - destruct e as [l|m]; [|done]. unfold redirects. intros H.
    apply rpc_bind_ok in H as (sm2 & a & _ & H). apply rpc_bind_ok in H as (sm3 & a2 & _ & H).
    by apply rpc_bind_ok in H as (sm4 & a3 & _ & H).
Qed.

(** The local step of the authorization: only a consumed grant changes the state. *)
Lemma authorize_issuance_ok id who ordinal now sm sm' pk :
  authorize_issuance id who ordinal now sm = (sm', Ok pk) →
  issuance_allowed (contents (sm_db sm)) who id ordinal now ∧
  (who = None → contents (sm_db sm') = delete (ks_svid_grants, id) (contents (sm_db sm))) ∧
  (is_Some who → sm' = sm ∧ pk = None).
Proof.
  unfold authorize_issuance. destruct who as [c|]; intros H.
  - apply rpc_bind_ok in H as (sm1 & v & Ha & [= <- <-]). unfold authorize_authenticated in Ha.
    destruct (decide (spiffe_to_string c = id)) as [Hid|Hid].
    { injection Ha as <- <-. split_and!; [by left|done|done]. }
    destruct (decide (spiffe_kind c = IdKind.Node)) as [Hk|Hk]; [|done].
    apply rpc_bind_ok in Ha as (sm2 & target & [-> Ht]%lift_option_ok & [-> Hv]%view_or_ok).
    apply verify_placement_ok in Hv as (p & Hp & Hh & _).
    split_and!; [right; split; [done|]; eauto|done|done].
  - apply rpc_bind_ok in H as (sm1 & pk' & Ha & [= <- <-]). unfold authorize_via_grant in Ha.
    apply rpc_bind_ok in Ha as (sm2 & r & [-> Hg%get_spec]%view_or_ok & Ha).
    apply rpc_bind_ok in Ha as (sm2 & b & [-> ->]%lift_option_ok & Ha).
    apply rpc_bind_ok in Ha as (sm2 & [] & Hw%local_write_ok & Ha).
    apply rpc_bind_ok in Ha as (sm3 & g & [-> Hd]%lift_option_ok & Ha).
    apply rpc_bind_ok in Ha as (sm3 & u & [-> He]%ensure_ok & [= <- <-]).
    split_and!; [|done|by intros []]. exists b, g. split_and!; [done|done|].
    apply negb_true_iff, Z.ltb_ge in He. lia.
Qed.
Lemma current_svid_ok id sm sm' c :
  current_svid id sm = (sm', Ok c) →
  sm' = sm ∧ c.1 = default 0 (svr_svid_version <$> svid_of (contents (sm_db sm)) id).
Proof.
  unfold current_svid. intros H. apply rpc_bind_ok in H as (sm1 & r & [-> Hg%get_spec]%view_or_ok & H).
  unfold svid_of. rewrite <- Hg. destruct r as [b|]; cbn in *.
  - apply rpc_bind_ok in H as (sm2 & rec & [-> Hd]%lift_option_ok & [= <- <-]). by rewrite Hd.
  - by injection H as <- <-.
Qed.

Lemma upsert_svid_lookup sm e rec sm' r :
  payload e = Normal (system (UpsertSvidVersion rec)) → apply_entry sm e = (sm', Ok r) →
  svid_of (contents (sm_db sm')) (svr_spiffe_id rec) = Some rec ∧
  (∀ ks k, bookkeeping ks = false → ks ≠ ks_svids →
    contents (sm_db sm') !! (ks, k) = contents (sm_db sm) !! (ks, k)).
Proof.
  intros Hp H. split.
  - destruct (apply_entry_command _ _ _ _ _ Hp H) as (b & ck & Hb & Hl).
    cbn [cmd system apply_command] in Hb. unfold apply_upsert_svid_version in Hb. ok_inv. ser_inv.
    unfold svid_of. rewrite Hl, apply_batch_lookup by done. cbn. by rewrite decide_True.
  - intros ks k Hbk Hne. eapply apply_entry_frame; [done| |done].
    unfold entry_keyspaces. rewrite Hp. set_solver.
Qed.

(** A certificate signed for a request has its names and its key. *)
Lemma signed_csr_params csr key ca now ttl id cert :
  extract_spiffe_id_from_csr csr = Ok id → sign_csr csr key ca now ttl = Ok cert →
  ∃ params pubkey, csr_from_der csr = Some (params, pubkey) ∧
    first_spiffe_uri (cp_subject_alt_names params) = Some id ∧
    certificate_of cert = Some (final_params params now ttl, pubkey).
Proof.
  unfold extract_spiffe_id_from_csr, sign_csr. intros Hid Hs.
  destruct (csr_from_der csr) as [[params pubkey]|]; [|done]. cbn in Hid, Hs.
  destruct (first_spiffe_uri _) as [id'|] eqn:Hf; [|done]. injection Hid as ->.
  destruct (negb _); [done|]. unfold ok_or in Hs. destruct (signed_by _ _ _ _) as [c|] eqn:Hsig; [|done].
  injection Hs as ->. exists params, pubkey. split_and!; [done..|]. by eapply certificate_of_signed.
Qed.

End SubmitCsr.

(** ** Delegated keys *)
Section DelegatedKeys.
Context `{F : Fjall} `{C : Core} `{W : !Wire C} `{R : !Raft} `{G : !Rcgen}.
Context `{PK : !Postcard DelegatedSigningKey}.
Context `{!FjallSpec F} `{!RaftSpec R} `{!RcgenSpec G}.
Variable ascii_value : string → bool.

Lemma issue_delegated_key_ok db req bundle now key dkb :
  issue_delegated_key db req bundle now key = Ok dkb →
  ∃ p dsk, p ∈ stored_placements (contents db) ∧
    hosts (drq_node_id req) (drq_target_svid_id req) (drq_target_ordinal req) p = true ∧
    from_bytes (dkb_key_bytes dkb) = Some dsk ∧
    dsk_node_id dsk = spiffe_to_string (drq_node_id req) ∧
    dsk_target_svid_id dsk = spiffe_to_string (drq_target_svid_id req) ∧
    dsk_expires_at_unix dsk = wrap_u64 (unix_timestamp (plus_seconds now (drq_ttl_secs req))) ∧
    fst <$> certificate_of (dsk_intermediate_cert_der dsk) = Some (intermediate_params req now).
Proof.
  unfold issue_delegated_key. intros H.
  apply bind_ok in H as (v & (p & Hp & Hh & _)%verify_placement_ok & H).
  apply bind_ok in H as (id & _ & H). apply bind_ok in H as (k & _ & H).
  destruct (negb _); [done|]. apply bind_ok in H as (cert & Hc & H).
  apply bind_ok in H as (role & _ & H). apply bind_ok in H as (kb & Hkb & [= <-]).
  unfold ok_or in *. destruct (signed_by _ _ _ _) as [c|] eqn:Hs; [|done]. injection Hc as ->.
  destruct (to_allocvec _) as [b|] eqn:Hb; [|done]. injection Hkb as ->.
  apply from_to_allocvec in Hb. eexists p, _. split_and!; [done|done|exact Hb|done|done|done|].
  cbn. by rewrite (certificate_of_signed _ _ _ _ _ Hs).
Qed.


Lemma evicted_no_placements `{!CoreSpec C} sm e a n x sm' r id :
  store_wf (contents (sm_db sm)) → payload e = Normal a → cmd a = EvictNode n x →
  apply_entry sm e = (sm', Ok r) → spiffe_parse n = Some id →
  ∀ p, p ∈ stored_placements (contents (sm_db sm')) → pl_node_id p ≠ id.
Proof.
  intros Hwf Hp Hc H Hid p (k & v & Hv & Hd)%elem_of_stored_placements Hn.
  destruct (evict_entry_placements _ _ _ _ _ _ _ Hwf Hp Hc H) as (id' & Hid' & Hpl).
  rewrite Hid in Hid'. injection Hid' as <-. rewrite Hpl in Hv.
  destruct (contents (sm_db sm) !! (ks_placements, k)) as [v0|] eqn:E; cbn in Hv; [|done].
  destruct (from_bytes v0) as [p0|] eqn:E0.
  - destruct (decide (pl_node_id p0 = id)); [done|]. injection Hv as ->. congruence.
  - injection Hv as ->. congruence.
Qed.

(** A node with no placement gets no key, and the refusal leaves no trace. *)
Lemma unplaced_node_refused `{!FjallReliable F} cfg env request id sm :
  caller request = Some id →
  (∀ p, p ∈ stored_placements (contents (sm_db sm)) → pl_node_id p ≠ id) →
  ∃ err, request_delegated_key ascii_value cfg env request sm = (sm, Err err).
Proof.
  intros Hc Hno. unfold request_delegated_key. rewrite Hc.
  erewrite rpc_bind_step by done.
  destruct (bool_decide (spiffe_kind id = IdKind.Node)); [|by eexists].
  erewrite rpc_bind_step by done.
  destruct (spiffe_parse (dk_node_svid (rq_message request))) as [n|]; [|by eexists].
  erewrite rpc_bind_step by done.
  destruct (bool_decide (id = n)); [|by eexists]. erewrite rpc_bind_step by done.
  destruct (dc_ca cfg) as [ca|]; [|by eexists]. erewrite rpc_bind_step by done.
  destruct (spiffe_parse (dk_target_spiffe_id (rq_message request))) as [t|]; [|by eexists].
  erewrite rpc_bind_step by done. eexists. apply rpc_bind_err. unfold view.
  unfold issue_delegated_key. cbn [drq_node_id drq_target_svid_id drq_target_ordinal].
  rewrite verify_placement_none by done. done.
Qed.

(** C25. Eviction takes effect at once: from the state an applied [EvictNode] leaves,
    no request of the evicted node for a delegated key succeeds, and a refused
    request changes nothing. *)
Theorem evicted_node_gets_no_key `{!CoreSpec C} `{!FjallReliable F} sm e a n x sm' r id cfg env request :
  store_wf (contents (sm_db sm)) → payload e = Normal a → cmd a = EvictNode n x →
  apply_entry sm e = (sm', Ok r) → spiffe_parse n = Some id → caller request = Some id →
  ∃ err, request_delegated_key ascii_value cfg env request sm' = (sm', Err err).
Proof.
  intros Hwf Hp Hc H Hid Hcaller. apply (unplaced_node_refused _ _ _ id); [done|].
  by eapply evicted_no_placements.
Qed.
End DelegatedKeys.

(** ** Witnesses *)
Import DemoInstances.
#[local] Existing Instance demo_rcgen.
#[local] Existing Instance demo_rcgen_spec.
#[local] Existing Instance demo_delegated_codec.
#[local] Instance demo_local_raft : Raft := local_raft.
#[local] Instance demo_local_raft_spec : RaftSpec demo_local_raft := local_raft_spec.
#[local] Instance codec_SvidGrantRecord : Codec SvidGrantRecord :=
  codec_iso (λ r : SvidGrantRecord, (sg_spiffe_id r, (sg_node_kind r, (sg_granted_at r,
      (sg_expires_at r, sg_agent_x25519_pubkey r)))))
    (λ '(x1, (x2, (x3, (x4, x5)))), Build_SvidGrantRecord x1 x2 x3 x4 x5) ltac:(by intros []).
#[local] Instance demo_grant_codec : Postcard SvidGrantRecord := postcard_of _.

Definition demo_bundle : TrustBundle := {|
  tb_trust_domain := "dc"; tb_current_key := "root"; tb_current_cert_der := "root-cert";
  tb_current_cert_pem := "root-cert"; tb_previous := None |}.

(** A request whose SANs are the given URIs. *)
Definition demo_csr (uris : list string) : bytes := demo_cert {|
  cp_subject_alt_names := SanUri <$> uris; cp_common_name := ""; cp_organization_name := None;
  cp_is_ca := NoCa; cp_key_usages := [DigitalSignature]; cp_extended_key_usages := [ClientAuth];
  cp_not_before := 0; cp_not_after := 0; cp_custom_extensions := [] |} "agent key".

Definition demo_peer (id : option string) {T} (m : T) : Request T :=
  {| rq_peer := Some {| ci_spiffe_id := id |}; rq_message := m |}.

#[local] Abbreviation renewal :=
  (submit_csr (λ _, true) demo_bundle 3600 (5 * NANOS) (demo_peer (Some "n1") (demo_csr ["spiffe://n1"])) demo_sm).

Definition succeeds {A} (p : FjallStateMachine * result Status A) : bool :=
  match p.2 with Ok _ => true | Err _ => false end.
Lemma succeeds_ok {A} (p : FjallStateMachine * result Status A) :
  succeeds p = true → ∃ sm a, p = (sm, Ok a).
Proof. destruct p as [sm [a|e]]; [|done]. by exists sm, a. Qed.


(** A certificate carries every name of its request, and only the first is checked:
    the node [n1] gets a certificate that also names [n2]. *)
Lemma submit_csr_signs_unchecked_names :
  (λ r, cp_subject_alt_names <$> (fst <$> certificate_of (svr_cert_chain_der r))) <$>
    ok (submit_csr (λ _, true) demo_bundle 3600 0
      (demo_peer (Some "n1") (demo_csr ["spiffe://n1"; "spiffe://n2"])) demo_sm).2 =
  Some (Some [SanUri "spiffe://n1"; SanUri "spiffe://n2"]).
Proof. vm_refl. Qed.

Definition demo_dk_config : DelegationConfig := {|
  dc_ca := Some demo_bundle; dc_delegated_key_ttl_secs := 14400;
  dc_svid_refresh_fraction := f64_dyadic 3 (-2) |}.
Definition demo_issue_env : IssueEnv :=
  {| ie_now := 7 * NANOS; ie_key := Some "delegated"; ie_request_id := "r1" |}.
Definition demo_target : string := spiffe_to_string (spiffe_new "dc" "acme" IdKind.Sa "web").
Definition demo_dk_request : Request DelegatedKeyRequest := demo_peer (Some "n1") {|
  dk_node_svid := "spiffe://n1"; dk_target_spiffe_id := demo_target;
  dk_target_ordinal := Some 0; dk_requested_ttl_secs := 0 |}.
#[local] Abbreviation delegated :=
  (request_delegated_key (λ _, true) demo_dk_config demo_issue_env demo_dk_request demo_sm).


Lemma evicted_node_gets_no_key_witness :
  ∃ err, request_delegated_key (λ _, true) demo_dk_config demo_issue_env demo_dk_request
    (apply_entry demo_sm (demo_entry 7 (EvictNode "spiffe://n1" 9))).1 =
  ((apply_entry demo_sm (demo_entry 7 (EvictNode "spiffe://n1" 9))).1, Err err).
Proof.
  apply (evicted_node_gets_no_key (λ _, true) demo_sm (demo_entry 7 (EvictNode "spiffe://n1" 9))
    (system (EvictNode "spiffe://n1" 9)) "spiffe://n1" 9 _ {| version := 7 |} "n1").
  - apply demo_wf.
  - reflexivity.
  - reflexivity.
  - apply result_pair. vm_refl.
  - vm_refl.
  - reflexivity.
Defined.
