(* ===== verification/Chains.v ===== *)
(** * Chains: certificate chains of attested hardware

    Models [src/attestation/ek_cert.rs] (TPM endorsement keys) and
    [src/attestation/apple_se.rs] (Apple Secure Enclave). Parsing a certificate and
    checking one signature are the class [X509], the crate [x509-parser]. *)

From Stdlib Require Import Ascii.
From S2P Require Import Prelude.
From S2P Require Import Storage.
From S2P Require Import Core.
From S2P Require Import Records.
From S2P Require Import WireInstance.

Class X509 : Type := {
  Name : Type;
  Name_eq_dec :: EqDecision Name;
  X509Certificate : Type;
  (** what is left after the certificate, and the certificate *)
  parse_x509_certificate : bytes → option (bytes * X509Certificate);
  subject : X509Certificate → Name;
  issuer : X509Certificate → Name;
  not_before : X509Certificate → Z;
  not_after : X509Certificate → Z;
  (** the OID as a dotted string, and the value *)
  extensions : X509Certificate → list (string * bytes);
  (** [cert.verify_signature(Some(&issuer.subject_pki))] *)
  verify_signature : X509Certificate → X509Certificate → bool;
  (** SHA-256 of [ring] *)
  sha256 : bytes → bytes
}.

(** The errors of [AttestationError] these functions return. *)
Inductive ChainError : Set :=
| ChainNonce | NoRoots | EmptyInput | ParseFailed | OutsideValidity | IssuerUnknown
| SignatureMismatch | DepthExceeded | ChainTooLong | IssuerMismatch | NotAnchored
| KeyNotInLeaf | NotOctetString | NonceBindingMismatch | ExtensionMissing | ChainPanic.

Definition MAX_CHAIN_DEPTH : nat := 8.

Section Chains.
Context `{X : X509}.

Definition parse_cert (der : bytes) : result ChainError (bytes * X509Certificate) :=
  ok_or ParseFailed (parse_x509_certificate der).

Definition check_validity_period (now : Z) (cert : X509Certificate) : result ChainError () :=
  if (now <? not_before cert) || (not_after cert <? now) then Err OutsideValidity else Ok ().

(** ** Endorsement keys *)
Record TrustedRoot : Type := { root_label : string; root_der : bytes }.

Definition contains_der (store : list TrustedRoot) (der : bytes) : bool :=
  existsb (λ r, bool_decide (root_der r = der)) store.

Fixpoint find_by_subject (store : list TrustedRoot) (issuer_name : Name) : option TrustedRoot :=
  match store with
  | [] => None
  | root :: store =>
      match parse_x509_certificate (root_der root) with
      | Some (_, cert) =>
          if decide (subject cert = issuer_name) then Some root else find_by_subject store issuer_name
      | None => find_by_subject store issuer_name
      end
  end.

(** The body of the walk: [None] at an anchor, the next certificate otherwise. *)
Definition chain_step (now : Z) (store : list TrustedRoot) (current_der : bytes) :
    result ChainError (option bytes) :=
  current ← parse_cert current_der;
  if contains_der store current_der then Ok None
  else
    issuer_root ← ok_or IssuerUnknown (find_by_subject store (issuer current.2));
    issuer_cert ← parse_cert (root_der issuer_root);
    if negb (verify_signature current.2 issuer_cert.2) then Err SignatureMismatch
    else
      check_validity_period now issuer_cert.2;;
      Ok (Some (root_der issuer_root)).

Fixpoint walk (depth : nat) (now : Z) (store : list TrustedRoot) (current_der : bytes) :
    result ChainError () :=
  match depth with
  | O => Err DepthExceeded
  | S depth =>
      next ← chain_step now store current_der;
      match next with
      | None => Ok ()
      | Some der => walk depth now store der
      end
  end.

Definition validate_ek_cert_chain_with (now : Z) (ek_cert_der : bytes) (store : list TrustedRoot) :
    result ChainError () :=
  if decide (store = []) then Err NoRoots
  else if decide (ek_cert_der = "") then Err EmptyInput
  else
    leaf ← parse_cert ek_cert_der;
    check_validity_period now leaf.2;;
    walk MAX_CHAIN_DEPTH now store ek_cert_der.

(** ** Apple Secure Enclave *)
Record AppleSeAttestation : Type := {
  se_attestation_data : bytes;
  se_nonce : bytes;
  se_device_public_key : bytes;
  se_dcos_token : option bytes
}.
Record ChainEntry : Type := { ce_der : bytes; ce_cert : X509Certificate }.

Definition APPLE_ATTESTATION_EXT_OID : string := "1.2.840.113635.100.8.2".

(** [room] is what is left of [MAX_CHAIN_DEPTH]. *)
Fixpoint parse_chain_loop (room : nat) (data : bytes) : result ChainError (list ChainEntry) :=
  if decide (data = "") then Ok []
  else
    match room with
    | O => Err ChainTooLong
    | S room =>
        '(remaining, cert) ← parse_cert data;
        let cert_len := blen data - blen remaining in
        let der := (split_string (Z.to_nat cert_len) data).1 in
        entries ← parse_chain_loop room remaining;
        Ok ({| ce_der := der; ce_cert := cert |} :: entries)
    end.

Definition parse_chain (data : bytes) : result ChainError (list ChainEntry) :=
  entries ← parse_chain_loop MAX_CHAIN_DEPTH data;
  match entries with [] => Err EmptyInput | _ => Ok entries end.

Fixpoint verify_chain (now : Z) (root_der : bytes) (root_cert : X509Certificate)
    (entries : list ChainEntry) : result ChainError () :=
  match entries with
  | [] => Err ChainPanic
  | entry :: rest =>
      check_validity_period now (ce_cert entry);;
      if decide (ce_der entry = root_der) then Ok ()
      else
        match rest with
        | [] =>
            if decide (issuer (ce_cert entry) = subject root_cert) then
              if verify_signature (ce_cert entry) root_cert then Ok () else Err SignatureMismatch
            else Err NotAnchored
        | next :: _ =>
            if decide (issuer (ce_cert entry) = subject (ce_cert next)) then
              if verify_signature (ce_cert entry) (ce_cert next)
              then verify_chain now root_der root_cert rest
              else Err SignatureMismatch
            else Err IssuerMismatch
        end
  end.

(** [leaf_der.windows(key.len()).any(|w| w == key)]. *)
Fixpoint contains_window (key s : bytes) : bool :=
  starts_with key s || match s with "" => false | String _ s => contains_window key s end.

(** [usize] of big-endian bytes. *)
Definition octet_length (bytes : bytes) : Z := from_be_bytes bytes.

(** The outer [None] is the panic of an index out of range. *)
Definition parse_octet_string (b : bytes) : option (option bytes) :=
  match b with
  | "" => Some None
  | String tag rest =>
      if negb (Z_of_byte tag =? 0x04) then Some None
      else
        match rest with
        | "" => None
        | String l rest =>
            if Z_of_byte l <? 0x80 then Some (fst <$> get_slice (Z_of_byte l) rest)
            else
              let n := Z.land (Z_of_byte l) 0x7f in
              if (n =? 0) || (4 <? n) then Some None
              else
                match get_slice n rest with
                | None => Some None
                | Some (digits, rest) => Some (fst <$> get_slice (octet_length digits) rest)
                end
        end
  end.

Fixpoint find_extension (oid : string) (exts : list (string * bytes)) : option bytes :=
  match exts with
  | [] => None
  | (o, v) :: exts => if decide (o = oid) then Some v else find_extension oid exts
  end.

Definition verify_nonce_binding (leaf : X509Certificate) (expected_nonce : bytes) :
    result ChainError () :=
  match find_extension APPLE_ATTESTATION_EXT_OID (extensions leaf) with
  | None => Err ExtensionMissing
  | Some value =>
      content ← ok_or ChainPanic (parse_octet_string value);
      content ← ok_or NotOctetString content;
      if decide (content = sha256 expected_nonce) then Ok () else Err NonceBindingMismatch
  end.

Definition verify_apple_se_attestation_with_root (now : Z) (a : AppleSeAttestation)
    (expected_nonce root_der : bytes) : result ChainError () :=
  if decide (se_nonce a = expected_nonce) then
    if decide (se_attestation_data a = "") then Err EmptyInput
    else if decide (se_device_public_key a = "") then Err EmptyInput
    else
      root_cert ← parse_cert root_der;
      entries ← parse_chain (se_attestation_data a);
      verify_chain now root_der root_cert.2 entries;;
      match entries with
      | [] => Err ChainPanic
      | leaf :: _ =>
          if negb (contains_window (se_device_public_key a) (ce_der leaf)) then Err KeyNotInLeaf
          else verify_nonce_binding (ce_cert leaf) expected_nonce
      end
  else Err ChainNonce.
End Chains.

(** ** What an accepted chain proves *)
Section ChainFacts.
Context `{X : X509}.

Definition valid_at (now : Z) (cert : X509Certificate) : Prop :=
  not_before cert ≤ now ≤ not_after cert.

Lemma check_validity_ok now cert u : check_validity_period now cert = Ok u ↔ valid_at now cert.
Proof.
  unfold check_validity_period, valid_at. destruct u.
  destruct (Z.ltb_spec now (not_before cert)), (Z.ltb_spec (not_after cert) now); cbn;
    (split; [intros H'; try done; lia|intros; try done; lia]).
Qed.

Lemma find_by_subject_ok store name r :
  find_by_subject store name = Some r →
  r ∈ store ∧ ∃ rem cert, parse_x509_certificate (root_der r) = Some (rem, cert) ∧ subject cert = name.
Proof.
  induction store as [|r' store IH]; [done|]. cbn.
  destruct (parse_x509_certificate (root_der r')) as [[rem cert]|] eqn:E.
  - case_decide as Hs.
    + intros [= <-]. split; [left|]. eauto.
    + intros [Hin H]%IH. split; [by right|done].
  - intros [Hin H]%IH. split; [by right|done].
Qed.

Lemma contains_der_true store der :
  contains_der store der = true ↔ ∃ r, r ∈ store ∧ root_der r = der.
Proof.
  unfold contains_der. rewrite existsb_exists. setoid_rewrite bool_decide_eq_true.
  by setoid_rewrite list_elem_of_In.
Qed.

(** The endorsement key is trusted: its certificate is valid now and is an anchor, or
    the first anchor named as its issuer signed it and is valid now. *)
Definition ek_trusted (now : Z) (store : list TrustedRoot) (der : bytes) : Prop :=
  ∃ rem leaf, parse_x509_certificate der = Some (rem, leaf) ∧ valid_at now leaf ∧
    ((∃ r, r ∈ store ∧ root_der r = der) ∨
     ∃ r rem' rc, find_by_subject store (issuer leaf) = Some r ∧ r ∈ store ∧
       parse_x509_certificate (root_der r) = Some (rem', rc) ∧ subject rc = issuer leaf ∧
       verify_signature leaf rc = true ∧ valid_at now rc).

(** The second certificate of a walk is an anchor. *)
Lemma walk_root now store r rem cert depth :
  r ∈ store → parse_x509_certificate (root_der r) = Some (rem, cert) →
  walk (S depth) now store (root_der r) = Ok ().
Proof.
  intros Hin Hp. cbn. unfold chain_step, parse_cert. rewrite Hp. cbn.
  rewrite (proj2 (contains_der_true _ _)) by eauto. done.
Qed.


(** A chain that ends at the root: every certificate is valid now and signed by the
    next one, up to the root itself or to a last one the root signed. *)
Inductive anchored (now : Z) (root : bytes) (root_cert : X509Certificate) : list ChainEntry → Prop :=
| anchored_root e l :
    valid_at now (ce_cert e) → ce_der e = root → anchored now root root_cert (e :: l)
| anchored_last e :
    valid_at now (ce_cert e) → issuer (ce_cert e) = subject root_cert →
    verify_signature (ce_cert e) root_cert = true → anchored now root root_cert [e]
| anchored_link e e' l :
    valid_at now (ce_cert e) → issuer (ce_cert e) = subject (ce_cert e') →
    verify_signature (ce_cert e) (ce_cert e') = true →
    anchored now root root_cert (e' :: l) → anchored now root root_cert (e :: e' :: l).

Lemma verify_chain_sound now root root_cert entries :
  verify_chain now root root_cert entries = Ok () → anchored now root root_cert entries.
Proof.
  induction entries as [|e l IH]; [done|]. cbn.
  destruct (check_validity_period now (ce_cert e)) as [[]|] eqn:Hv; [|done]. cbn.
  apply check_validity_ok in Hv. case_decide as Hroot; [by constructor|].
  destruct l as [|e' l]; case_decide as Hi; try done; destruct (verify_signature _ _) eqn:Hs; try done.
  - by constructor.
  - intros H%IH. by constructor.
Qed.

Lemma verify_chain_complete now root root_cert entries :
  anchored now root root_cert entries → verify_chain now root root_cert entries = Ok ().
Proof.
  induction 1 as [e l Hv Hr|e Hv Hi Hs|e e' l Hv Hi Hs Ha IH];
    apply (check_validity_ok _ _ ()) in Hv.
  - cbn. rewrite Hv. cbn. by rewrite decide_True.
  - cbn. rewrite Hv. cbn. case_decide; [done|]. by rewrite decide_True, Hs.
  - remember (e' :: l) as l'. cbn. rewrite Hv. cbn. case_decide; [done|]. subst l'.
    by rewrite decide_True, Hs.
Qed.

(** An Apple attestation is accepted precisely when its nonce is the expected one,
    its chain ends at the given root with every certificate valid now and signed by
    the next, the leaf's bytes contain the claimed device key, and the leaf's
    attestation extension is the hash of the nonce. *)
Theorem apple_se_exact now a nonce root :
  verify_apple_se_attestation_with_root now a nonce root = Ok () ↔
  se_nonce a = nonce ∧ se_attestation_data a ≠ "" ∧ se_device_public_key a ≠ "" ∧
  ∃ rem root_cert leaf rest value, parse_x509_certificate root = Some (rem, root_cert) ∧
    parse_chain (se_attestation_data a) = Ok (leaf :: rest) ∧
    anchored now root root_cert (leaf :: rest) ∧
    contains_window (se_device_public_key a) (ce_der leaf) = true ∧
    find_extension APPLE_ATTESTATION_EXT_OID (extensions (ce_cert leaf)) = Some value ∧
    parse_octet_string value = Some (Some (sha256 nonce)).
Proof.
  unfold verify_apple_se_attestation_with_root, verify_nonce_binding, parse_cert. split.
  - intros H. case_decide as Hn; [|done]. case_decide; [done|]. case_decide; [done|].
    split_and!; [done..|].
    destruct (parse_x509_certificate root) as [[rem rc]|]; [|done].
    cbn [ok_or mbind result_bind] in H.
    destruct (parse_chain _) as [[|leaf rest]|] eqn:Hc; cbn [mbind result_bind] in H; [done| |done].
    destruct (verify_chain _ _ _ _) as [[]|] eqn:Hv; [|done]. cbn [mbind result_bind] in H.
    destruct (contains_window _ _) eqn:Hw; [|done]. cbn in H.
    destruct (find_extension _ _) as [value|] eqn:He; [|done].
    destruct (parse_octet_string value) as [[c|]|] eqn:Ho; [|done|done]. cbn in H. case_decide as Hsh; [|done].
    subst c. exists rem, rc, leaf, rest, value. split_and!; try done. by apply verify_chain_sound.
  - intros (Hn & Hd & Hk & rem & rc & leaf & rest & value & Hp & Hc & Ha & Hw & He & Ho).
    rewrite decide_True by done. rewrite !decide_False by done. rewrite Hp. cbn [ok_or mbind result_bind]. rewrite Hc. cbn [mbind result_bind].
    cbn [snd]. rewrite verify_chain_complete by done. cbn [mbind result_bind]. rewrite Hw. cbn. rewrite He, Ho. cbn.
    by rewrite decide_True.
Qed.

(** An OCTET STRING cut off after its tag is read out of range. *)
Lemma parse_octet_string_panics : parse_octet_string (String (byte_of_Z 0x04) "") = None.
Proof. done. Qed.

(** Any one byte of the leaf passes for the device key. *)
Lemma any_byte_is_device_key (c : ascii) (s t : bytes) : contains_window (String c "") (s +:+ String c t) = true.
Proof.
  induction s as [|x s IH].
  - change ("" +:+ String c t) with (String c "" +:+ t). pose proof (starts_with_app (String c "") t) as E.
    change (String c "" +:+ t) with (String c t) in *. cbn [contains_window]. by rewrite E.
  - change (String x s +:+ String c t) with (String x (s +:+ String c t)).
    cbn [contains_window]. by rewrite IH, orb_true_r.
Qed.
End ChainFacts.

(** ** Witnesses: certificates that write down who signed them *)
Record DemoCert : Type := {
  dcert_subject : string; dcert_issuer : string; dcert_signer : string; dcert_until : Z }.
#[local] Instance codec_DemoCert : Codec DemoCert :=
  codec_iso (λ c : DemoCert, (dcert_subject c, (dcert_issuer c, (dcert_signer c, dcert_until c))))
    (λ '(x1, (x2, (x3, x4))), Build_DemoCert x1 x2 x3 x4) ltac:(by intros []).
#[local] Instance demo_x509 : X509 := {|
  Name := string;
  X509Certificate := DemoCert;
  parse_x509_certificate b := '(c, rest) ← codec_get b; Some (rest, c);
  subject := dcert_subject;
  issuer := dcert_issuer;
  not_before _ := 0;
  not_after := dcert_until;
  extensions _ := [];
  verify_signature c ic := bool_decide (dcert_signer c = dcert_subject ic);
  sha256 b := b
|}.

Definition demo_roots : list TrustedRoot := [{|
  root_label := "root"; root_der := codec_put (Build_DemoCert "root" "root" "root" 100) |}].
Definition demo_ek (signer : string) : bytes := codec_put (Build_DemoCert "ek" "root" signer 50).

