(* ===== verification/Attestation.v ===== *)
(** * Attestation: joining the cluster

    Models [src/attestation/join_token.rs], [nonce.rs], [pcr_policy.rs] and the
    service of [grpc_service.rs]: the join-token path ([RequestNonce],
    [SubmitQuote]) and the credential-activation path ([RequestActivation],
    [SubmitActivationProof]). Quote and PCR verification and the EK fingerprints are
    [fleetos-core]'s, the class [Attest]. *)

From Stdlib Require Import Ascii.
From S2P Require Import Prelude.
From S2P Require Import Storage.
From S2P Require Import Core.
From S2P Require Import Records.
From S2P Require Import WireInstance.
From S2P Require Import Watch.
From S2P Require Import StateMachine.
From S2P Require Import Apply.
From S2P Require Import Raft.
From S2P Require Import Rpc.
From S2P Require Import Invariant.
From S2P Require Import Demo.
From S2P Require Import Staging.
From S2P Require Import Frame.
From S2P Require Import Secrets.
From S2P Require Import Ca.
From S2P Require Import Issuance.
From S2P Require Import Chains.

Inductive AttestationError : Type :=
| NonceError
| QuoteVerification
| JoinTokenError
| JoinTokenAlreadyUsed
| JoinTokenNotFound
| RateLimited
| AttStorage
| AttSerialization.

(** ** [String::from_utf8]: RFC 3629, without overlong forms and surrogates *)
Definition between (lo hi : Z) (c : ascii) : bool := (lo <=? Z_of_byte c) && (Z_of_byte c <=? hi).
Definition tail_byte : ascii → bool := between 0x80 0xBF.
Fixpoint utf8_valid (s : bytes) : bool :=
  match s with
  | "" => true
  | String a s1 =>
      if between 0x00 0x7F a then utf8_valid s1
      else match s1 with
      | "" => false
      | String b s2 =>
          if between 0xC2 0xDF a then tail_byte b && utf8_valid s2
          else match s2 with
          | "" => false
          | String c s3 =>
              if between 0xE0 0xE0 a then between 0xA0 0xBF b && tail_byte c && utf8_valid s3
              else if between 0xE1 0xEC a || between 0xEE 0xEF a
              then tail_byte b && tail_byte c && utf8_valid s3
              else if between 0xED 0xED a then between 0x80 0x9F b && tail_byte c && utf8_valid s3
              else match s3 with
              | "" => false
              | String d s4 =>
                  (if between 0xF0 0xF0 a then between 0x90 0xBF b
                   else if between 0xF1 0xF3 a then tail_byte b
                   else between 0xF4 0xF4 a && between 0x80 0x8F b) &&
                  tail_byte c && tail_byte d && utf8_valid s4
              end
          end
      end
  end.

Section Stores.
Context `{F : Fjall} `{C : Core} `{W : !Wire C}.

(** A direct write; an error leaves the database as it was. *)
Definition att_write (e : AttestationError) (op : batch_op) (db : Db) :
    Db * result AttestationError () :=
  match commit db [op] with Ok db => (db, Ok ()) | Err _ => (db, Err e) end.

(** [for key in keys { ks.remove(key)?; }]. *)
Fixpoint remove_keys (e : AttestationError) (ks : Keyspace) (keys : list bytes) (db : Db) :
    Db * result AttestationError () :=
  match keys with
  | [] => (db, Ok ())
  | key :: keys =>
      match att_write e (BRemove ks key) db with
      | (db, Ok _) => remove_keys e ks keys db
      | (db, Err err) => (db, Err err)
      end
  end.
(** [for key in keys { let _ = ks.remove(key); }]. *)
Fixpoint try_remove_keys (ks : Keyspace) (keys : list bytes) (db : Db) : Db :=
  match keys with
  | [] => db
  | key :: keys => try_remove_keys ks keys (att_write AttStorage (BRemove ks key) db).1
  end.

(** ** [join_token.rs] *)
Definition TOKEN_LENGTH : Z := 32.
Definition DEFAULT_JOIN_TOKEN_TTL_SECS : Z := 3600.

(** [token] is what the random generator fills in. *)
Definition compute_token_record (ttl_secs now : Z) (token : bytes) (node_kind : NodeKind) :
    result AttestationError JoinTokenRecord :=
  Ok {| jt_token := token; jt_node_kind := node_kind; jt_created_at := now;
        jt_expires_at := Some (now + ttl_secs); jt_consumed := false |}.

Definition validate_only (db : Db) (now : Z) (token : bytes) : result AttestationError JoinTokenRecord :=
  r ← map_err (λ _, AttStorage) (get db ks_join_tokens token);
  b ← ok_or JoinTokenNotFound r;
  record ← ok_or AttSerialization (from_bytes b);
  if jt_consumed record then Err JoinTokenAlreadyUsed
  else
    match jt_expires_at record with
    | Some expires_at => if expires_at <? now then Err JoinTokenError else Ok record
    | None => Ok record
    end.

Definition list_active (db : Db) : result AttestationError (list JoinTokenRecord) :=
  foldM (λ tokens guard,
    value ← map_err (λ _, JoinTokenError) (snd <$> (guard : result IoError (bytes * bytes)));
    Ok match from_bytes value with
       | Some record => if jt_consumed record then tokens else tokens ++ [record]
       | None => tokens
       end) (prefix db ks_join_tokens "") [].

Definition token_expired (now : Z) (record : JoinTokenRecord) : bool :=
  negb (jt_consumed record) &&
  match jt_expires_at record with Some exp => exp <? now | None => false end.

Definition sweep_expired_tokens (now : Z) (db : Db) : Db * result AttestationError Z :=
  let expired := omap (λ value,
    record ← from_bytes value; if token_expired now record then Some (jt_token record) else None)
    (Watch.values db ks_join_tokens "") in
  let '(db, r) := remove_keys AttStorage ks_join_tokens expired db in
  (db, (λ _, Z.of_nat (length expired)) <$> r).

(** ** [nonce.rs] *)
Definition DEFAULT_MAX_PENDING_NONCES : Z := 1000.
Definition NONCE_TTL_SECS : Z := 300.

(** [i64::from_be_bytes] of a value of eight bytes. *)
Definition nonce_expiry (value : bytes) : option Z :=
  if blen value =? 8 then Some (as_i64 (from_be_bytes value)) else None.

Definition sweep_expired_nonces (now : Z) (db : Db) : Db * result AttestationError () :=
  let expired := omap (λ guard : result IoError (bytes * bytes),
    '(key, value) ← ok guard; expires_at ← nonce_expiry value;
    if expires_at <? now then Some key else None) (prefix db ks_nonces "") in
  remove_keys NonceError ks_nonces expired db.

Definition count_pending (db : Db) : Z :=
  Z.of_nat (length (omap ok (prefix db ks_nonces ""))).

(** [nonce] is what the random generator fills in. *)
Definition generate_nonce (max_pending now : Z) (nonce : bytes) (db : Db) :
    Db * result AttestationError bytes :=
  let db := (sweep_expired_nonces now db).1 in
  if max_pending <=? count_pending db then (db, Err RateLimited)
  else
    match att_write NonceError
      (BInsert ks_nonces nonce (to_be_bytes 8 (wrap_u64 (now + NONCE_TTL_SECS)))) db with
    | (db, Ok _) => (db, Ok nonce)
    | (db, Err e) => (db, Err e)
    end.

Definition is_nonce_pending (db : Db) (nonce : bytes) : bool :=
  match get db ks_nonces nonce with Ok (Some _) => true | _ => false end.

Definition validate_and_consume (now : Z) (nonce : bytes) (db : Db) :
    Db * result AttestationError bool :=
  match get db ks_nonces nonce with
  | Err _ => (db, Err NonceError)
  | Ok None => (db, Ok false)
  | Ok (Some value) =>
      match att_write NonceError (BRemove ks_nonces nonce) db with
      | (db, Err e) => (db, Err e)
      | (db, Ok _) =>
          (db, match nonce_expiry value with
               | Some expires_at => Ok (now <=? expires_at)
               | None => Err NonceError
               end)
      end
  end.

(** ** [pcr_policy.rs] *)
Definition set_policy (policy : PcrPolicy) (db : Db) : Db * result AttestationError () :=
  match to_allocvec policy with
  | Some serialized => att_write AttStorage (BInsert ks_pcr_policies (pp_node_id policy) serialized) db
  | None => (db, Err AttSerialization)
  end.
Definition get_policy (db : Db) (node_id : string) : result AttestationError (option PcrPolicy) :=
  r ← map_err (λ _, AttStorage) (get db ks_pcr_policies node_id);
  match r with
  | Some b => policy ← ok_or AttSerialization (from_bytes b); Ok (Some policy)
  | None => Ok None
  end.
Definition get_expected_pcrs (db : Db) (node_id : string) :
    result AttestationError (option (list PcrValue)) :=
  policy ← get_policy db node_id;
  Ok match policy with
     | Some policy => if pp_active policy then Some (pp_expected_pcrs policy) else None
     | None => None
     end.
Definition delete_policy (node_id : string) (db : Db) : Db * result AttestationError () :=
  att_write AttStorage (BRemove ks_pcr_policies node_id) db.
End Stores.

(** ** The service *)
Inductive AttestationMode : Set := Insecure | Secure.
#[export] Instance AttestationMode_eq_dec : EqDecision AttestationMode.
Proof. solve_decision. Defined.

Record PendingActivationRecord : Type := {
  pa_ek_fingerprint : string;
  pa_ak_pub : bytes;
  pa_server_nonce : bytes;
  pa_secret : bytes;
  pa_created_at : Z;
  pa_expires_at : Z
}.

(** [fleetos_core::attestation::quote::TpmQuote]. *)
Record TpmQuote : Type := {
  tq_quote_bytes : bytes;
  tq_signature : bytes;
  tq_nonce : bytes;
  tq_pcr_selection : list PcrValue;
  tq_attestation_key_pub : bytes
}.

(** The checks of [fleetos_core::attestation] (they succeed or not), the keyed hash of
    [blake3], the TPM, and the certificate reader of [x509-cert]. *)
Class Attest : Type := {
  verify_quote_structure : TpmQuote → bytes → bool;
  verify_quote_signature : TpmQuote → bool;
  verify_pcr_policy : list PcrValue → list PcrValue → bool;
  verify_pcr_binding : bytes → list PcrValue → bool;
  (** [EkFingerprint::of_ek_cert] and [of_ek_pub], in hexadecimal *)
  fingerprint_of_ek_cert : bytes → option string;
  fingerprint_of_ek_pub : bytes → string;
  keyed_hash : bytes → bytes → bytes;
  (** [TPM2_MakeCredential], when the crate is built with it *)
  make_credential : option (bytes → bytes → bytes → option (bytes * bytes));
  Certificate : Type;
  certificate_from_der : bytes → option Certificate;
  spki_to_der : Certificate → option bytes;
  tpm_quote_codec :: Postcard TpmQuote;
  se_codec :: Postcard AppleSeAttestation;
  pending_codec :: Postcard PendingActivationRecord;
  pcrs_codec :: Postcard (list PcrValue)
}.

(** The messages. *)
Record AttestationQuote : Type := {
  aq_join_token : string;
  aq_quote_type : Z;
  aq_raw_quote : bytes;
  aq_agent_x25519_pubkey : bytes
}.
Record AttestedIdentity : Type := {
  ai_claimed_spiffe_id : string;
  ai_quote_type : Z;
  ai_pcr_digest : bytes;
  ai_verified_at_unix : Z
}.
Record ActivationRequest : Type := {
  ar_ek_cert_der : bytes;
  ar_ek_pub : bytes;
  ar_ak_pub : bytes
}.
Record ActivationChallenge : Type := {
  ach_credential_blob : bytes;
  ach_secret : bytes;
  ach_server_nonce : bytes
}.
Record ActivationProof : Type := {
  ap_hmac : bytes;
  ap_csr_der : bytes;
  ap_quote : bytes;
  ap_quote_signature : bytes;
  ap_pcr_selection : bytes;
  ap_agent_x25519_pubkey : bytes
}.

Section AttestationServiceImpl.
Context `{F : Fjall} `{C : Core} `{W : !Wire C} `{R : !Raft} `{G : !Rcgen} `{X : X509} `{A : Attest}.
Context `{PG : !Postcard SvidGrantRecord}.
Variable ascii_value : string → bool.
(** The configuration, and what is compiled in: the CA of the Data/Control domain when
    it is known, and the trust anchors. *)
Record AttestationEnv : Type := {
  ae_mode : AttestationMode;
  ae_max_pending : Z;
  ae_data_control : option TrustBundle;
  ae_svid_ttl_secs : Z;
  ae_manufacturer_roots : list TrustedRoot;
  ae_apple_root : bytes
}.
Variable env : AttestationEnv.

(** A store operation inside a handler. *)
Definition on_db {T} (code : AttestationError → Code)
    (f : Db → Db * result AttestationError T) : rpc T := λ sm,
  let '(db, r) := f (sm_db sm) in
  ({| sm_db := db; sm_version := sm_version sm; sm_data_trust_domain := sm_data_trust_domain sm;
      sm_published := sm_published sm; sm_notified := sm_notified sm |},
   map_err (λ e, status (code e)) r).
Definition cleans (f : Db → Db) : rpc () :=
  on_db (λ _, Internal) (λ db, (f db, Ok ())).

Definition lookup_nonce_claim (nonce : bytes) : rpc string :=
  r ← view_or Internal (λ db, get db ks_nonce_claims nonce);
  claimed ← lift_option PermissionDenied r;
  ensure (utf8_valid claimed) Internal ≫= λ _, mret claimed.

Definition stale_claims (db : Db) : list bytes :=
  omap (λ guard : result IoError (bytes * bytes), '(key, _) ← ok guard;
    if is_nonce_pending db key then None else Some key) (prefix db ks_nonce_claims "").

(** [now] in seconds, [fresh] the nonce drawn. *)
Definition request_nonce (now : Z) (fresh : bytes) (claimed_spiffe_id : string) : rpc bytes :=
  ensure (bool_decide (ae_mode env ≠ Secure)) PermissionDenied ≫= λ _,
  ensure (negb (bool_decide (claimed_spiffe_id = ""))) InvalidArgument ≫= λ _,
  cleans (λ db, try_remove_keys ks_nonce_claims (stale_claims db) db) ≫= λ _,
  nonce ← on_db (λ e, match e with RateLimited => ResourceExhausted | _ => Internal end)
    (generate_nonce (ae_max_pending env) now fresh);
  local_write (BInsert ks_nonce_claims nonce claimed_spiffe_id) ≫= λ _,
  mret nonce.

(** The two legs consume the nonce, find who claimed it, and check the quote. *)
Definition consumed_claim (now : Z) (nonce : bytes) : rpc string :=
  nonce_valid ← on_db (λ _, Internal) (validate_and_consume now nonce);
  ensure nonce_valid PermissionDenied ≫= λ _,
  lookup_nonce_claim nonce.

Definition verify_tpm_leg (now : Z) (raw_quote : bytes) : rpc (bytes * string) :=
  tpm_quote ← lift_option InvalidArgument (from_bytes raw_quote);
  claimed ← consumed_claim now (tq_nonce tpm_quote);
  ensure (verify_quote_structure tpm_quote (tq_nonce tpm_quote)) PermissionDenied ≫= λ _,
  expected_pcrs ← view_or Internal (λ db, get_expected_pcrs db claimed);
  ensure (match expected_pcrs with
          | Some expected_pcrs => verify_pcr_policy (tq_pcr_selection tpm_quote) expected_pcrs
          | None => true
          end) PermissionDenied ≫= λ _,
  mret (tq_nonce tpm_quote, claimed).

(** A panic in the Apple check ends the request as well. *)
Definition verify_apple_leg (now : Z) (raw_quote : bytes) : rpc (bytes * string) :=
  se_attestation ← lift_option InvalidArgument (from_bytes raw_quote);
  claimed ← consumed_claim now (se_nonce se_attestation);
  lift PermissionDenied (verify_apple_se_attestation_with_root now se_attestation
    (se_nonce se_attestation) (ae_apple_root env)) ≫= λ _,
  mret (se_nonce se_attestation, claimed).

Definition verify_leg (now : Z) (quote : AttestationQuote) : rpc (bytes * string) :=
  if decide (aq_quote_type quote = 0) then verify_tpm_leg now (aq_raw_quote quote)
  else if decide (aq_quote_type quote = 1) then verify_apple_leg now (aq_raw_quote quote)
  else fail InvalidArgument.

Definition expected_kind (node_kind : NodeKind) : IdKind.t :=
  match node_kind with
  | Agent => IdKind.Node
  | Router => IdKind.Router
  | Gateway => IdKind.Gateway
  | Control => IdKind.Control
  | FleetctlProxy => IdKind.Ctrl
  end.
(** [node_kind as u8]. *)
Definition node_kind_as_u8 (node_kind : NodeKind) : Z :=
  match node_kind with Agent => 0 | Router => 1 | Gateway => 2 | Control => 3 | FleetctlProxy => 4 end.

Definition SVID_GRANT_TTL_SECS : Z := 300.

Definition submit_quote (now : Z) (quote : AttestationQuote) : rpc AttestedIdentity :=
  ensure (bool_decide (ae_mode env ≠ Secure)) PermissionDenied ≫= λ _,
  ensure (negb (bool_decide (aq_join_token quote = ""))) InvalidArgument ≫= λ _,
  token_record ← view_or PermissionDenied (λ db, validate_only db now (aq_join_token quote));
  leg ← verify_leg now quote;
  claimed_spiffe ← lift_option InvalidArgument (spiffe_parse leg.2);
  ensure (bool_decide (spiffe_kind claimed_spiffe = expected_kind (jt_node_kind token_record)))
    PermissionDenied ≫= λ _,
  proposes_or_redirects ascii_value (system (ConsumeJoinToken (aq_join_token quote))) ≫= λ _,
  local_write (BRemove ks_nonce_claims leg.1) ≫= λ _,
  grant_bytes ← lift_option Internal (to_allocvec {|
    sg_spiffe_id := leg.2; sg_node_kind := node_kind_as_u8 (jt_node_kind token_record);
    sg_granted_at := now; sg_expires_at := now + SVID_GRANT_TTL_SECS;
    sg_agent_x25519_pubkey := aq_agent_x25519_pubkey quote |});
  local_write (BInsert ks_svid_grants leg.2 grant_bytes) ≫= λ _,
  mret {| ai_claimed_spiffe_id := leg.2; ai_quote_type := aq_quote_type quote;
          ai_pcr_digest := ""; ai_verified_at_unix := now |}.

(** ** Credential activation *)
Definition extract_spki_from_cert (cert_der : bytes) : option bytes :=
  cert ← certificate_from_der cert_der; spki_to_der cert.

(** The registration of an endorsement key, revoked or expired ones refused. *)
Definition usable_ek (now : Z) (fingerprint : string) : rpc NodeEkRecord :=
  r ← view_or Internal (λ db, get db ks_node_eks fingerprint);
  ek_bytes ← lift_option PermissionDenied r;
  ek_record ← lift_option Internal (from_bytes ek_bytes);
  ensure (negb (bool_decide (ek_state ek_record = Revoked))) PermissionDenied ≫= λ _,
  ensure (match ek_expires_at ek_record with
          | Some expires_at => negb (expires_at <? now)
          | None => true
          end) PermissionDenied ≫= λ _,
  mret ek_record.

Definition ACTIVATION_TTL_SECS : Z := 300.

(** [now] in seconds; [fresh] and [secret] are the nonce and the secret drawn. *)
Definition request_activation (now : Z) (fresh secret : bytes) (req : ActivationRequest) :
    rpc ActivationChallenge :=
  ensure (bool_decide (ae_mode env ≠ Insecure)) PermissionDenied ≫= λ _,
  ensure (isSome (ae_data_control env)) Unavailable ≫= λ _,
  ensure (negb (bool_decide (ar_ak_pub req = ""))) InvalidArgument ≫= λ _,
  ensure (negb (bool_decide (ar_ek_cert_der req = "") && bool_decide (ar_ek_pub req = "")))
    InvalidArgument ≫= λ _,
  (if decide (ar_ek_cert_der req = "") then mret ()
   else lift InvalidArgument
     (validate_ek_cert_chain_with now (ar_ek_cert_der req) (ae_manufacturer_roots env))) ≫= λ _,
  fp_hex ← lift_option InvalidArgument
    (if decide (ar_ek_cert_der req = "") then Some (fingerprint_of_ek_pub (ar_ek_pub req))
     else fingerprint_of_ek_cert (ar_ek_cert_der req));
  usable_ek now fp_hex ≫= λ _,
  server_nonce ← on_db (λ _, Internal) (generate_nonce (ae_max_pending env) now fresh);
  record_bytes ← lift_option Internal (to_allocvec {|
    pa_ek_fingerprint := fp_hex; pa_ak_pub := ar_ak_pub req; pa_server_nonce := server_nonce;
    pa_secret := secret; pa_created_at := now; pa_expires_at := now + ACTIVATION_TTL_SECS |});
  local_write (BInsert ks_pending_activations server_nonce record_bytes) ≫= λ _,
  ek_spki_der ← lift_option Internal
    (if decide (ar_ek_pub req = "") then extract_spki_from_cert (ar_ek_cert_der req)
     else Some (ar_ek_pub req));
  tpm ← lift_option Unimplemented make_credential;
  credential ← lift_option Internal (tpm ek_spki_der (ar_ak_pub req) secret);
  mret {| ach_credential_blob := credential.1; ach_secret := credential.2;
          ach_server_nonce := server_nonce |}.

(** The scan for the activation a proof answers: the first match, and the expired
    keys. A record whose secret is not 32 bytes long ends it, until a match. *)
Fixpoint scan_pending (now : Z) (hmac : bytes) (guards : list (result IoError (bytes * bytes)))
    (matched : option (bytes * PendingActivationRecord)) (expired : list bytes) :
    result Status (option (bytes * PendingActivationRecord) * list bytes) :=
  match guards with
  | [] => Ok (matched, expired)
  | Err _ :: guards => scan_pending now hmac guards matched expired
  | Ok (key, value) :: guards =>
      match (from_bytes value : option PendingActivationRecord) with
      | None => scan_pending now hmac guards matched expired
      | Some record =>
          if pa_expires_at record <? now then scan_pending now hmac guards matched (expired ++ [key])
          else if isSome matched then scan_pending now hmac guards matched expired
          else if negb (blen (pa_secret record) =? 32) then Err (status Internal)
          else if decide (keyed_hash (pa_secret record) (pa_server_nonce record) = hmac)
          then scan_pending now hmac guards (Some (key, record)) expired
          else scan_pending now hmac guards matched expired
      end
  end.

(** The quote a proof carries, over the nonce and the attestation key on record. *)
Definition core_quote (req : ActivationProof) (record : PendingActivationRecord)
    (submitted_pcrs : list PcrValue) : TpmQuote := {|
  tq_quote_bytes := ap_quote req; tq_signature := ap_quote_signature req;
  tq_nonce := pa_server_nonce record; tq_pcr_selection := submitted_pcrs;
  tq_attestation_key_pub := pa_ak_pub record |}.

(** The checks of the quote and the PCRs that a proof must pass for [spiffe_id]. *)
Definition verify_proof (req : ActivationProof) (record : PendingActivationRecord)
    (spiffe_id : string) : rpc () :=
  submitted_pcrs ← lift_option InvalidArgument
    (if decide (ap_pcr_selection req = "") then Some []
     else (from_bytes (ap_pcr_selection req) : option (list PcrValue)));
  let core_quote := core_quote req record submitted_pcrs in
  ensure (verify_quote_structure core_quote (pa_server_nonce record)) PermissionDenied ≫= λ _,
  ensure (verify_quote_signature core_quote) PermissionDenied ≫= λ _,
  expected_pcrs ← view_or Internal (λ db, get_expected_pcrs db spiffe_id);
  expected_pcrs ← lift_option PermissionDenied expected_pcrs;
  ensure (verify_pcr_policy submitted_pcrs expected_pcrs) PermissionDenied ≫= λ _,
  ensure (verify_pcr_binding (ap_quote req) submitted_pcrs) PermissionDenied.

(** [now] is the clock in nanoseconds. *)
Definition submit_activation_proof (now : Z) (req : ActivationProof) : rpc SvidResponse :=
  let secs := unix_timestamp now in
  ensure (bool_decide (ae_mode env ≠ Insecure)) PermissionDenied ≫= λ _,
  bundle ← lift_option Unavailable (ae_data_control env);
  ensure (negb (bool_decide (ap_hmac req = ""))) InvalidArgument ≫= λ _,
  ensure (negb (bool_decide (ap_csr_der req = ""))) InvalidArgument ≫= λ _,
  scanned ← view (λ db, scan_pending secs (ap_hmac req) (prefix db ks_pending_activations "") None []);
  cleans (try_remove_keys ks_pending_activations scanned.2) ≫= λ _,
  matched ← lift_option PermissionDenied scanned.1;
  usable_ek secs (pa_ek_fingerprint matched.2) ≫= λ _,
  cleans (try_remove_keys ks_pending_activations [matched.1]) ≫= λ _,
  spiffe_id ← lift InvalidArgument (extract_spiffe_id_from_csr (ap_csr_der req));
  verify_proof req matched.2 spiffe_id ≫= λ _,
  cert_der ← lift Internal (sign_csr (ap_csr_der req) (tb_current_key bundle)
    (tb_current_cert_der bundle) now (ae_svid_ttl_secs env));
  proposes_or_redirects ascii_value
    (system (ActivateNodeEk (pa_ek_fingerprint matched.2) spiffe_id)) ≫= λ _,
  current ← current_svid spiffe_id;
  let new_version := wrap_u64 (current.1 + 1) in
  proposes_or_redirects ascii_value (system (UpsertSvidVersion {|
    svr_spiffe_id := spiffe_id; svr_svid_version := new_version; svr_issued_at_unix := secs;
    svr_agent_x25519_pubkey := ap_agent_x25519_pubkey req |})) ≫= λ _,
  mret {| svr_cert_chain_der := cert_der; svr_keypair_der := ""; svr_version := new_version |}.
End AttestationServiceImpl.

(** ** What an accepted quote establishes *)
Section QuoteFacts.
Context `{F : Fjall} `{C : Core} `{W : !Wire C} `{R : !Raft} `{G : !Rcgen} `{X : X509} `{A : Attest}.
Context `{PG : !Postcard SvidGrantRecord}.
Context `{!FjallSpec F} `{!RaftSpec R}.
Variable ascii_value : string → bool.
Variable env : AttestationEnv.

(** The nonce a quote carries. *)
Definition quote_nonce (quote : AttestationQuote) : option bytes :=
  if decide (aq_quote_type quote = 0) then tq_nonce <$> from_bytes (aq_raw_quote quote)
  else se_nonce <$> (from_bytes (aq_raw_quote quote) : option AppleSeAttestation).

Definition token_of (st : store) (token : bytes) : option JoinTokenRecord :=
  st !! (ks_join_tokens, token) ≫= from_bytes.
Definition policy_of (st : store) (id : string) : option PcrPolicy :=
  st !! (ks_pcr_policies, id) ≫= from_bytes.
Definition ek_of (st : store) (fingerprint : string) : option NodeEkRecord :=
  st !! (ks_node_eks, fingerprint) ≫= from_bytes.

(** Unexpired at [now]. *)
Definition unexpired (now : Z) (expires : option Z) : Prop := ∀ t, expires = Some t → now ≤ t.

Lemma att_write_contents e op db db' u :
  att_write e op db = (db', Ok u) → contents db' = apply_op (contents db) op.
Proof.
  unfold att_write. destruct (commit db [op]) as [db1|] eqn:E; [|done]. intros [= <- <-].
  by rewrite (commit_spec _ _ _ E).
Qed.

Lemma on_db_ok {T} code (f : Db → Db * result AttestationError T) sm sm' a :
  on_db code f sm = (sm', Ok a) → f (sm_db sm) = (sm_db sm', Ok a).
Proof.
  unfold on_db. destruct (f (sm_db sm)) as [db [b|e]]; [|done]. by intros [= <- <-].
Qed.

Lemma validate_only_ok db now token rec :
  validate_only db now token = Ok rec →
  token_of (contents db) token = Some rec ∧ jt_consumed rec = false ∧ unexpired now (jt_expires_at rec).
Proof.
  unfold validate_only, token_of. intros H. apply bind_ok in H as (r & Hr & H).
  destruct (get db ks_join_tokens token) as [r'|] eqn:Hg; [|done]. injection Hr as ->.
  apply get_spec in Hg as <-. destruct r as [b|]; [|done]. cbn in *.
  destruct (from_bytes b) as [rec'|]; [|done]. cbn in H.
  destruct (jt_consumed rec') eqn:Hc; [done|].
  destruct (jt_expires_at rec') as [t|] eqn:He.
  - destruct (t <? now) eqn:Ht; [done|]. injection H as <-. apply Z.ltb_ge in Ht.
    split_and!; [done..|]. intros t' E. rewrite He in E. by injection E as <-.
  - injection H as <-. split_and!; [done..|]. intros t' E. by rewrite He in E.
Qed.

Lemma validate_and_consume_ok now nonce db db' :
  validate_and_consume now nonce db = (db', Ok true) →
  contents db' = delete (ks_nonces, nonce) (contents db) ∧
  ∃ expires, contents db !! (ks_nonces, nonce) ≫= nonce_expiry = Some expires ∧ now ≤ expires.
Proof.
  unfold validate_and_consume. destruct (get db ks_nonces nonce) as [[v|]|] eqn:Hg; [|done|done].
  apply get_spec in Hg as <-. destruct (att_write _ _ _) as [db1 [u|e]] eqn:Hw; [|done].
  intros [= <- H]. split; [by rewrite (att_write_contents _ _ _ _ _ Hw)|].
  cbn. destruct (nonce_expiry v) as [t|]; [|done]. injection H as Ht%Z.leb_le. eauto.
Qed.

Lemma get_expected_pcrs_ok db id r :
  get_expected_pcrs db id = Ok r →
  r = (policy ← policy_of (contents db) id;
       if pp_active policy then Some (pp_expected_pcrs policy) else None).
Proof.
  unfold get_expected_pcrs, get_policy, policy_of. intros H. apply bind_ok in H as (p & Hp & [= <-]).
  apply bind_ok in Hp as (v & Hv & Hp). destruct (get db ks_pcr_policies id) as [v'|] eqn:Hg; [|done].
  injection Hv as ->. apply get_spec in Hg as <-. destruct v as [b|]; [|by injection Hp as <-]. cbn in *.
  destruct (from_bytes b); [|done]. by injection Hp as <-.
Qed.

Lemma consumed_claim_ok now nonce sm sm' claimed :
  consumed_claim now nonce sm = (sm', Ok claimed) →
  contents (sm_db sm') = delete (ks_nonces, nonce) (contents (sm_db sm)) ∧
  (∃ expires, contents (sm_db sm) !! (ks_nonces, nonce) ≫= nonce_expiry = Some expires ∧ now ≤ expires) ∧
  contents (sm_db sm) !! (ks_nonce_claims, nonce) = Some claimed.
Proof.
  unfold consumed_claim, lookup_nonce_claim. intros H.
  apply rpc_bind_ok in H as (sm1 & b & Hv%on_db_ok & H).
  apply rpc_bind_ok in H as (sm2 & u & [-> ->]%ensure_ok & H).
  apply rpc_bind_ok in H as (sm2 & r & [-> Hg%get_spec]%view_or_ok & H).
  apply rpc_bind_ok in H as (sm2 & c & [-> ->]%lift_option_ok & H).
  apply rpc_bind_ok in H as (sm2 & u2 & [-> _]%ensure_ok & [= <- <-]).
  destruct (validate_and_consume_ok _ _ _ _ Hv) as [Hdel Hexp]. split_and!; [done|done|].
  by rewrite Hdel, lookup_delete_ne in Hg.
Qed.

(** A verified leg has used up the nonce of the quote and checked the PCR policy. *)
Lemma verify_leg_ok now quote sm sm' nonce claimed :
  verify_leg env now quote sm = (sm', Ok (nonce, claimed)) →
  quote_nonce quote = Some nonce ∧
  contents (sm_db sm') = delete (ks_nonces, nonce) (contents (sm_db sm)) ∧
  (∃ expires, contents (sm_db sm) !! (ks_nonces, nonce) ≫= nonce_expiry = Some expires ∧ now ≤ expires) ∧
  contents (sm_db sm) !! (ks_nonce_claims, nonce) = Some claimed ∧
  (aq_quote_type quote = 0 → ∀ q policy, from_bytes (aq_raw_quote quote) = Some q →
    policy_of (contents (sm_db sm)) claimed = Some policy → pp_active policy = true →
    verify_pcr_policy (tq_pcr_selection q) (pp_expected_pcrs policy) = true).
Proof.
  unfold verify_leg, quote_nonce. destruct (decide (aq_quote_type quote = 0)) as [H0|H0].
  - unfold verify_tpm_leg. intros H.
    apply rpc_bind_ok in H as (sm1 & q & [-> Hq]%lift_option_ok & H).
    apply rpc_bind_ok in H as (sm1 & c & (Hdel & Hexp & Hc)%consumed_claim_ok & H).
    apply rpc_bind_ok in H as (sm2 & u & [-> _]%ensure_ok & H).
    apply rpc_bind_ok in H as (sm2 & r & [-> Hr%get_expected_pcrs_ok]%view_or_ok & H).
    apply rpc_bind_ok in H as (sm2 & u2 & [-> Hpcr]%ensure_ok & [= <- <- <-]).
    split_and!; [by rewrite Hq|done|done|done|].
    intros _ q' policy Hq' Hp Ha. rewrite Hq in Hq'. injection Hq' as <-.
    unfold policy_of in *. rewrite Hdel, lookup_delete_ne in Hr by done. rewrite Hp in Hr. cbn in Hr.
    by rewrite Ha in Hr; subst r.
  - destruct (decide (aq_quote_type quote = 1)); [|done]. unfold verify_apple_leg. intros H.
    apply rpc_bind_ok in H as (sm1 & q & [-> Hq]%lift_option_ok & H).
    apply rpc_bind_ok in H as (sm1 & c & (Hdel & Hexp & Hc)%consumed_claim_ok & H).
    apply rpc_bind_ok in H as (sm2 & u & [-> _]%lift_ok & [= <- <- <-]).
    split_and!; [by rewrite Hq|done|done|done|done].
Qed.

Lemma consume_token_lookup sm e token sm' r :
  payload e = Normal (system (ConsumeJoinToken token)) → apply_entry sm e = (sm', Ok r) →
  contents (sm_db sm') !! (ks_join_tokens, token) = None ∧
  (∀ ks k, bookkeeping ks = false → ks ≠ ks_join_tokens →
    contents (sm_db sm') !! (ks, k) = contents (sm_db sm) !! (ks, k)).
Proof.
  intros Hp H. split.
  - destruct (apply_entry_command _ _ _ _ _ Hp H) as (b & ck & Hb & Hl).
    cbn [cmd system apply_command] in Hb. unfold apply_consume_join_token in Hb. ok_inv.
    rewrite Hl by done. apply lookup_delete_eq.
  - intros ks k Hbk Hne. eapply apply_entry_frame; [done| |done].
    unfold entry_keyspaces. rewrite Hp. set_solver.
Qed.

(** A token that is not stored is refused, whatever else the quote says. *)
Lemma missing_token_refused now quote sm :
  ae_mode env = Insecure → aq_join_token quote ≠ "" →
  contents (sm_db sm) !! (ks_join_tokens, aq_join_token quote) = None →
  submit_quote ascii_value env now quote sm = (sm, Err (status PermissionDenied)).
Proof.
  intros Hm Ht Hno. unfold submit_quote.
  rewrite Hm, (bool_decide_eq_false_2 _ Ht), bool_decide_eq_true_2 by done.
  unfold mbind, rpc_bind, ensure, mret, rpc_ret, view_or, view. cbn [negb].
  unfold validate_only. destruct (get _ ks_join_tokens _) as [r|] eqn:Hg; [|done].
  apply get_spec in Hg as ->. by rewrite Hno.
Qed.

End QuoteFacts.

(** ** What an accepted proof of activation establishes *)
Section ActivationFacts.
Context `{F : Fjall} `{C : Core} `{W : !Wire C} `{R : !Raft} `{G : !Rcgen} `{X : X509} `{A : Attest}.
Context `{!FjallSpec F} `{!RaftSpec R} `{!RcgenSpec G}.
Variable ascii_value : string → bool.
Variable env : AttestationEnv.

Lemma att_write_frame e ks k db ks' k' :
  ks' ≠ ks → contents (att_write e (BRemove ks k) db).1 !! (ks', k') = contents db !! (ks', k').
Proof.
  intros Hne. unfold att_write. destruct (commit db _) as [db1|] eqn:E; [|done]. cbn.
  rewrite (commit_spec _ _ _ E). cbn. rewrite lookup_delete_ne; [done|]. congruence.
Qed.
Lemma try_remove_keys_frame ks keys db ks' k' :
  ks' ≠ ks → contents (try_remove_keys ks keys db) !! (ks', k') = contents db !! (ks', k').
Proof.
  intros Hne. revert db. induction keys as [|k keys IH]; intros db; [done|]. cbn.
  by rewrite IH, att_write_frame.
Qed.
Lemma cleans_frame ks keys sm sm' u :
  cleans (try_remove_keys ks keys) sm = (sm', Ok u) →
  ∀ ks' k', ks' ≠ ks → contents (sm_db sm') !! (ks', k') = contents (sm_db sm) !! (ks', k').
Proof.
  unfold cleans. intros H%on_db_ok ks' k' Hne. injection H as <- <-. by apply try_remove_keys_frame.
Qed.

(** The scan returns a stored, unexpired record whose secret keys the proof. *)
Definition answers (now : Z) (hmac : bytes) (rec : PendingActivationRecord) : Prop :=
  now ≤ pa_expires_at rec ∧ blen (pa_secret rec) = 32 ∧
  keyed_hash (pa_secret rec) (pa_server_nonce rec) = hmac.
Lemma scan_pending_ok now hmac guards m expired key rec expired' :
  scan_pending now hmac guards m expired = Ok (Some (key, rec), expired') →
  m = Some (key, rec) ∨
  ∃ v, Ok (key, v) ∈ guards ∧ from_bytes v = Some rec ∧ answers now hmac rec.
Proof.
  revert m expired. induction guards as [|[[k v]|e] guards IH]; intros m expired H.
  { injection H as -> _. by left. }
  2:{ apply IH in H as [H|(v' & ? & ?)]; [by left|]. right. exists v'. split; [by right|done]. }
  cbn [scan_pending] in H. destruct (from_bytes v) as [r|] eqn:Hv.
  2:{ apply IH in H as [H|(v' & ? & ?)]; [by left|]. right. exists v'. split; [by right|done]. }
  destruct (pa_expires_at r <? now) eqn:He;
    [|destruct (isSome m) eqn:Hm; [|destruct (negb _) eqn:Hl; [done|]; destruct (decide _) as [Hh|]]];
    apply IH in H as [H|(v' & ? & ?)]; try (by left); try (right; exists v'; split; [by right|done]).
  injection H as -> ->. right. exists v. split_and!; [left|done|]. apply Z.ltb_ge in He.
  apply negb_false_iff, Z.eqb_eq in Hl. done.
Qed.

Lemma usable_ek_ok now fp sm sm' ek :
  usable_ek now fp sm = (sm', Ok ek) →
  sm' = sm ∧ ek_of (contents (sm_db sm)) fp = Some ek ∧ ek_state ek ≠ Revoked ∧
  unexpired now (ek_expires_at ek).
Proof.
  unfold usable_ek, ek_of. intros H.
  apply rpc_bind_ok in H as (sm1 & r & [-> Hg%get_spec]%view_or_ok & H).
  apply rpc_bind_ok in H as (sm1 & b & [-> ->]%lift_option_ok & H).
  apply rpc_bind_ok in H as (sm1 & ek' & [-> Hb]%lift_option_ok & H).
  apply rpc_bind_ok in H as (sm1 & u & [-> Hs%negb_true_iff%bool_decide_eq_false]%ensure_ok & H).
  apply rpc_bind_ok in H as (sm1 & u' & [-> He]%ensure_ok & [= <- <-]).
  rewrite <- Hg. cbn. split_and!; [done|done|done|]. intros t Ht. rewrite Ht in He.
  apply negb_true_iff, Z.ltb_ge in He. lia.
Qed.

(** The software state of a proof: a signed quote over the nonce of the activation, and
    PCRs bound to it that match the active policy of the identity. *)
Definition measured (st : store) (req : ActivationProof) (rec : PendingActivationRecord)
    (id : string) : Prop :=
  ∃ pcrs policy,
    verify_quote_structure (core_quote req rec pcrs) (pa_server_nonce rec) = true ∧
    verify_quote_signature (core_quote req rec pcrs) = true ∧
    policy_of st id = Some policy ∧ pp_active policy = true ∧
    verify_pcr_policy pcrs (pp_expected_pcrs policy) = true ∧
    verify_pcr_binding (ap_quote req) pcrs = true.
Lemma verify_proof_ok req rec id sm sm' u :
  verify_proof req rec id sm = (sm', Ok u) → sm' = sm ∧ measured (contents (sm_db sm)) req rec id.
Proof.
  unfold verify_proof. intros H.
  apply rpc_bind_ok in H as (sm1 & pcrs & [-> _]%lift_option_ok & H).
  apply rpc_bind_ok in H as (sm1 & u1 & [-> Hq]%ensure_ok & H).
  apply rpc_bind_ok in H as (sm1 & u2 & [-> Hs]%ensure_ok & H).
  apply rpc_bind_ok in H as (sm1 & r & [-> Hr%get_expected_pcrs_ok]%view_or_ok & H).
  apply rpc_bind_ok in H as (sm1 & expected & [-> ->]%lift_option_ok & H).
  apply rpc_bind_ok in H as (sm1 & u3 & [-> Hp]%ensure_ok & [-> Hb]%ensure_ok).
  destruct (policy_of _ id) as [policy|] eqn:Hpol; [|done]. cbn in Hr.
  destruct (pp_active policy) eqn:Ha; [|done]. injection Hr as ->.
  split; [done|]. exists pcrs, policy. by split_and!.
Qed.

Lemma activate_ek_lookup sm e fp id ek sm' r :
  payload e = Normal (system (ActivateNodeEk fp id)) → apply_entry sm e = (sm', Ok r) →
  ek_of (contents (sm_db sm)) fp = Some ek →
  ek_of (contents (sm_db sm')) fp = Some (set_ek_node_id (set_ek_state ek Joined) id) ∧
  (∀ ks k, bookkeeping ks = false → ks ≠ ks_node_eks →
    contents (sm_db sm') !! (ks, k) = contents (sm_db sm) !! (ks, k)).
Proof.
  intros Hp H Hek. split.
  - destruct (apply_entry_command _ _ _ _ _ Hp H) as (b & ck & Hb & Hl).
    cbn [cmd system apply_command] in Hb. unfold apply_activate_node_ek in Hb.
    apply bind_ok in Hb as (v & Hv & Hb). unfold read in Hv.
    destruct (get _ ks_node_eks fp) as [v'|] eqn:Hg; [|done]. apply get_spec in Hg.
    injection Hv as ->. unfold ek_of in Hek. rewrite <- Hg in Hek. destruct v as [b0|]; [|done].
    cbn in Hek. apply bind_ok in Hb as (b1 & Hb1 & [= <- <-]).
    apply bind_ok in Hb1 as (ek' & Hd & Hb1). unfold de in Hd. rewrite Hek in Hd. injection Hd as <-.
    apply bind_ok in Hb1 as (v & Hs & [= <-]). ser_inv.
    unfold ek_of. rewrite Hl by done. cbn. by rewrite lookup_insert_eq.
  - intros ks k Hbk Hne. eapply apply_entry_frame; [done| |done].
    unfold entry_keyspaces. rewrite Hp. set_solver.
Qed.

(** C20. A node is activated in secure mode only with proof of its keys and its software:
    the answer to a pending, unexpired challenge; an endorsement key that is
    registered, not revoked and not expired at that moment; a quote signed over the
    nonce of the challenge; and PCRs bound to the quote that match the active policy
    of the identity. The key is then on record as joined under that identity, the
    version of the identity goes up by one and the certificate carries the key of the
    request. *)
Theorem activation_is_proved now req sm sm' resp :
  submit_activation_proof ascii_value env now req sm = (sm', Ok resp) →
  let st := contents (sm_db sm) in
  let st' := contents (sm_db sm') in
  ∃ key v rec ek params pubkey id,
    (ae_mode env = Secure ∧ st !! (ks_pending_activations, key) = Some v ∧
      from_bytes v = Some rec ∧ answers (unix_timestamp now) (ap_hmac req) rec) ∧
    (ek_of st (pa_ek_fingerprint rec) = Some ek ∧ ek_state ek ≠ Revoked ∧
      unexpired (unix_timestamp now) (ek_expires_at ek)) ∧
    (csr_from_der (ap_csr_der req) = Some (params, pubkey) ∧
      first_spiffe_uri (cp_subject_alt_names params) = Some id ∧ measured st req rec id) ∧
    ek_of st' (pa_ek_fingerprint rec) = Some (set_ek_node_id (set_ek_state ek Joined) id) ∧
    svr_version resp = wrap_u64 (default 0 (svr_svid_version <$> svid_of st id) + 1) ∧
    svr_svid_version <$> svid_of st' id = Some (svr_version resp) ∧
    certificate_of (svr_cert_chain_der resp) =
      Some (final_params params now (ae_svid_ttl_secs env), pubkey).
Proof.
  intros H st st'. unfold submit_activation_proof in H.
  apply rpc_bind_ok in H as (sm1 & u & [-> Hm%bool_decide_eq_true]%ensure_ok & H).
  apply rpc_bind_ok in H as (sm1 & bundle & [-> _]%lift_option_ok & H).
  apply rpc_bind_ok in H as (sm1 & u1 & [-> _]%ensure_ok & H).
  apply rpc_bind_ok in H as (sm1 & u2 & [-> _]%ensure_ok & H).
  apply rpc_bind_ok in H as (sm1 & [m expired] & [-> Hscan]%view_ok & H).
  apply rpc_bind_ok in H as (sm1 & u3 & Hf1 & H). pose proof (cleans_frame _ _ _ _ _ Hf1) as Hc1.
  apply rpc_bind_ok in H as (sm2 & [key rec] & [-> Hm']%lift_option_ok & H). cbn [fst snd] in *. subst m.
  apply rpc_bind_ok in H as (sm2 & ek & (-> & Hek & Hnr & Hex)%usable_ek_ok & H).
  apply rpc_bind_ok in H as (sm2 & u4 & Hf2 & H). pose proof (cleans_frame _ _ _ _ _ Hf2) as Hc2.
  apply rpc_bind_ok in H as (sm3 & id & [-> Hid]%lift_ok & H).
  apply rpc_bind_ok in H as (sm3 & u5 & [-> Hmeas]%verify_proof_ok & H).
  apply rpc_bind_ok in H as (sm3 & cert & [-> Hs]%lift_ok & H).
  apply rpc_bind_ok in H as (sm3 & u6 & (e & r & Hp & Ha)%proposes_or_redirects_ok & H).
  apply rpc_bind_ok in H as (sm4 & cur & [-> Hcur]%current_svid_ok & H).
  apply rpc_bind_ok in H as (sm4 & u7 & (e2 & r2 & Hp2 & Ha2)%proposes_or_redirects_ok & [= <- <-]).
  assert (∀ ks k, ks ≠ ks_pending_activations →
    contents (sm_db sm2) !! (ks, k) = st !! (ks, k)) as Hsame by (intros; by rewrite Hc2, Hc1).
  assert (ek_of (contents (sm_db sm2)) (pa_ek_fingerprint rec) = Some ek) as Hek2.
  { unfold ek_of in *. by rewrite Hc2. }
  destruct (activate_ek_lookup _ _ _ _ _ _ _ Hp Ha Hek2) as [Hj Hframe].
  destruct (upsert_svid_lookup ascii_value _ _ _ _ _ Hp2 Ha2) as [Hsv Hframe2].
  apply scan_pending_ok in Hscan as [|(v & Hin%prefix_sound & Hv & Hans)]; [done|].
  destruct (signed_csr_params _ _ _ _ _ _ _ Hid Hs) as (params & pubkey & Hcsr & Hfirst & Hcert).
  exists key, v, rec, ek, params, pubkey, id. cbn [svr_version svr_spiffe_id svr_cert_chain_der] in *.
  split_and!; try done.
  - by destruct (ae_mode env).
  - apply Hin.
  - unfold ek_of in *. by rewrite <- (Hc1 ks_node_eks).
  - unfold measured, policy_of in *. by rewrite <- (Hsame ks_pcr_policies).
  - unfold ek_of in *. unfold st'. by rewrite Hframe2.
  - rewrite Hcur. unfold svid_of. by rewrite Hframe, Hsame.
  - unfold st'. by rewrite Hsv.
Qed.
End ActivationFacts.

(** ** Witnesses: a quote is signed with its attestation key *)
Import DemoInstances.
#[local] Existing Instances demo_rcgen demo_rcgen_spec demo_local_raft demo_local_raft_spec
  demo_grant_codec demo_x509.
#[local] Instance codec_PcrValue : Codec PcrValue :=
  codec_iso (λ r : PcrValue, (pcr_index r, (pcr_hash_algorithm r, pcr_digest r)))
    (λ '(x1, (x2, x3)), Build_PcrValue x1 x2 x3) ltac:(by intros []).
#[local] Instance codec_TpmQuote : Codec TpmQuote :=
  codec_iso (λ r : TpmQuote, (tq_quote_bytes r, (tq_signature r, (tq_nonce r, (tq_pcr_selection r,
      tq_attestation_key_pub r)))))
    (λ '(x1, (x2, (x3, (x4, x5)))), Build_TpmQuote x1 x2 x3 x4 x5) ltac:(by intros []).
#[local] Instance codec_AppleSeAttestation : Codec AppleSeAttestation :=
  codec_iso (λ r : AppleSeAttestation, (se_attestation_data r, (se_nonce r, (se_device_public_key r,
      se_dcos_token r))))
    (λ '(x1, (x2, (x3, x4))), Build_AppleSeAttestation x1 x2 x3 x4) ltac:(by intros []).
#[local] Instance codec_PendingActivationRecord : Codec PendingActivationRecord :=
  codec_iso (λ r : PendingActivationRecord, (pa_ek_fingerprint r, (pa_ak_pub r, (pa_server_nonce r,
      (pa_secret r, (pa_created_at r, pa_expires_at r))))))
    (λ '(x1, (x2, (x3, (x4, (x5, x6))))), Build_PendingActivationRecord x1 x2 x3 x4 x5 x6)
    ltac:(by intros []).
#[local] Instance demo_attest : Attest := {|
  verify_quote_structure q n := bool_decide (tq_nonce q = n);
  verify_quote_signature q := bool_decide (tq_signature q = tq_attestation_key_pub q);
  verify_pcr_policy pcrs expected := bool_decide (pcrs = expected);
  verify_pcr_binding _ _ := true;
  fingerprint_of_ek_cert cert := Some cert;
  fingerprint_of_ek_pub pub := pub;
  keyed_hash secret nonce := secret +:+ nonce;
  make_credential := Some (λ ek ak secret, Some (ek +:+ ak, secret));
  Certificate := bytes;
  certificate_from_der := Some;
  spki_to_der := Some;
  tpm_quote_codec := postcard_of _;
  se_codec := postcard_of _;
  pending_codec := postcard_of _;
  pcrs_codec := postcard_of _
|}.

Definition demo_att_env (mode : AttestationMode) : AttestationEnv := {|
  ae_mode := mode; ae_max_pending := 10; ae_data_control := Some demo_bundle;
  ae_svid_ttl_secs := 3600; ae_manufacturer_roots := demo_roots; ae_apple_root := "" |}.

(** A token for an agent has been made, and a nonce handed out to [n7]. *)
Definition demo_token : JoinTokenRecord := {|
  jt_token := "token"; jt_node_kind := Agent; jt_created_at := 0; jt_expires_at := Some 3600;
  jt_consumed := false |}.
Definition demo_joining : FjallStateMachine :=
  (request_nonce (demo_att_env Insecure) 10 "nonce" "spiffe://n7"
    (apply_entry demo_sm (demo_entry 7 (MintJoinToken demo_token))).1).1.
Definition demo_quote : AttestationQuote := {|
  aq_join_token := "token"; aq_quote_type := 0;
  aq_raw_quote := codec_put {| tq_quote_bytes := "quote"; tq_signature := "ak"; tq_nonce := "nonce";
    tq_pcr_selection := []; tq_attestation_key_pub := "ak" |};
  aq_agent_x25519_pubkey := "x25519" |}.
#[local] Abbreviation joined := (submit_quote (λ _, true) (demo_att_env Insecure) 20 demo_quote demo_joining).


(** The key [ek] is registered for [n7], a policy is set for [n7] and [n8], and a
    challenge is out. *)
Definition demo_ek_record : NodeEkRecord := {|
  ek_fingerprint := "ek"; ek_pub := "ek"; ek_cert_der := ""; ek_node_id := "spiffe://n7";
  ek_registered_at := 0; ek_expires_at := None; ek_state := Pending |}.
Definition demo_policy (id : string) : PcrPolicy := {|
  pp_node_id := id; pp_expected_pcrs := [Build_PcrValue 0 11 "boot"]; pp_updated_at := 0;
  pp_active := true |}.
Definition demo_secret : bytes := "0123456789abcdef0123456789abcdef".
Definition demo_registered : FjallStateMachine :=
  (apply demo_sm [demo_entry 7 (RegisterNodeEk demo_ek_record);
     demo_entry 8 (SetPcrPolicy (demo_policy "spiffe://n7"));
     demo_entry 9 (SetPcrPolicy (demo_policy "spiffe://n8"))]).1.
Definition demo_challenged : FjallStateMachine :=
  (request_activation (demo_att_env Secure) 10 "nonce" demo_secret
    {| ar_ek_cert_der := ""; ar_ek_pub := "ek"; ar_ak_pub := "ak" |} demo_registered).1.
Definition demo_proof (id : string) : ActivationProof := {|
  ap_hmac := demo_secret +:+ "nonce"; ap_csr_der := demo_csr [id]; ap_quote := "quote";
  ap_quote_signature := "ak"; ap_pcr_selection := codec_put [Build_PcrValue 0 11 "boot"];
  ap_agent_x25519_pubkey := "x25519" |}.
#[local] Abbreviation activated id :=
  (submit_activation_proof (λ _, true) (demo_att_env Secure) (20 * NANOS) (demo_proof id) demo_challenged).

Lemma activation_is_proved_witness :
  ∃ sm resp, activated "spiffe://n7" = (sm, Ok resp) ∧ ∃ fp ek,
    ek_of (contents (sm_db sm)) fp = Some ek ∧ ek_state ek = Joined.
Proof.
  assert (succeeds (activated "spiffe://n7") = true) as Hok by vm_refl.
  destruct (succeeds_ok (activated "spiffe://n7") Hok) as (sm & resp & E). clear Hok.
  exists sm, resp. split; [exact E|].
  destruct (activation_is_proved (λ _, true) (demo_att_env Secure) (20 * NANOS)
    (demo_proof "spiffe://n7") demo_challenged sm resp E)
    as (key & v & rec & ek & params & pk & id & _ & _ & _ & Hj & _).
  eexists _, _. split; [exact Hj|reflexivity].
Defined.

(** The identity the endorsement key was registered for plays no part: the key of [n7]
    joins as [n8], and the registration then says [n8]. *)
Lemma activation_ignores_registered_node :
  ek_node_id <$> ek_of (contents (sm_db demo_challenged)) "ek" = Some "spiffe://n7" ∧
  succeeds (activated "spiffe://n8") = true ∧
  ek_node_id <$> ek_of (contents (sm_db (activated "spiffe://n8").1)) "ek" = Some "spiffe://n8".
Proof. repeat split; vm_refl. Qed.

(** The nonce of a challenge is counted against the limit until it expires, although
    the proof has used it. *)
Lemma activation_nonce_left :
  is_nonce_pending (sm_db (activated "spiffe://n7").1) "nonce" = true.
Proof. vm_refl. Qed.

(** A token is 32 arbitrary bytes, and a quote carries its token as text: a token that
    is not valid UTF-8 cannot be presented. *)
Lemma token_not_text :
  ∃ token, blen token = TOKEN_LENGTH ∧ utf8_valid token = false ∧
    (∀ quote, utf8_valid (aq_join_token quote) = true → aq_join_token quote ≠ token).
Proof.
  exists (to_be_bytes 32 (255 * 256 ^ 31)). split_and!; [vm_refl|vm_refl|].
  intros quote Hu E. rewrite E in Hu. revert Hu. vm_compute. done.
Qed.
