(* ===== verification/AdminAuth.v ===== *)
(** * AdminAuth: admission checks and authorization of the admin API

    Models the first part of [src/admin/service.rs] (validation of identifiers, init
    containers and taint effects; who the caller is and what its grants allow; the
    tenant quota), [src/admin/authz.rs], and the node kinds of
    [src/provisioning/mod.rs]. *)

From Stdlib Require Import Ascii.
From S2P Require Import Prelude.
From S2P Require Import Storage.
From S2P Require Import Core.
From S2P Require Import Records.
From S2P Require Import StateMachine.
From S2P Require Import Apply.
From S2P Require Import Raft.
From S2P Require Import Rpc.
From S2P Require Import Engine.
From S2P Require Import Ca.

(** ** Admission *)
Definition lower_or_digit (c : ascii) : bool :=
  ((97 <=? Z_of_byte c) && (Z_of_byte c <=? 122)) || ((48 <=? Z_of_byte c) && (Z_of_byte c <=? 57)).
Definition is_dash (c : ascii) : bool := Z_of_byte c =? 45.
Fixpoint all_chars (p : ascii → bool) (s : string) : bool :=
  match s with "" => true | String c s => p c && all_chars p s end.
Fixpoint ends_with_dash (s : string) : bool :=
  match s with
  | "" => false
  | String c "" => is_dash c
  | String _ s => ends_with_dash s
  end.
(** The bytes of a character outside ASCII are not among those accepted, so the check
    on characters is one on bytes. *)
Definition valid_identifier (value : string) : bool :=
  negb (bool_decide (value = "") || (63 <? blen value)) &&
  (all_chars (λ c, lower_or_digit c || is_dash c) value &&
   negb (match value with String c _ => is_dash c | "" => false end) && negb (ends_with_dash value)).

Definition MAX_REPLICAS_PER_ROLE : Z := 1024.
Definition MAX_ROLES_PER_WORKLOAD : Z := 16.
Definition MAX_SPEC_BYTES : Z := 1024 * 1024.
Definition MAX_TAINTS_PER_NODE : Z := 100.

Section Validation.
Context `{F : Fjall} `{C : Core}.

Definition validate_identifier (value : string) : rpc () := ensure (valid_identifier value) InvalidArgument.

(** [seen] are the names of the containers before. *)
Fixpoint valid_init_containers (seen : list string) (cs : list Container) : bool :=
  match cs with
  | [] => true
  | c :: cs =>
      negb (bool_decide (ct_name c = "")) && negb (bool_decide (ct_name c ∈ seen)) &&
      negb (bool_decide (ct_image c = "")) && valid_init_containers (ct_name c :: seen) cs
  end.
Definition validate_init_containers (pod_spec : PodSpec) : rpc () :=
  ensure (valid_init_containers [] (ps_init_containers pod_spec)) InvalidArgument.

Definition valid_taint_effect (effect : string) : bool :=
  bool_decide (effect = "NoSchedule") || bool_decide (effect = "PreferNoSchedule") ||
  bool_decide (effect = "NoExecute").
Definition validate_taint_effect (effect : string) : rpc () :=
  ensure (valid_taint_effect effect) InvalidArgument.
End Validation.

(** ** Node kinds on the wire *)
Definition node_kind_to_proto (kind : NodeKind) : Z :=
  match kind with Control => 0 | Agent => 1 | Router => 2 | Gateway => 3 | FleetctlProxy => 4 end.
Definition node_kind_from_proto (value : Z) : option NodeKind :=
  if decide (value = 0) then Some Control
  else if decide (value = 1) then Some Agent
  else if decide (value = 2) then Some Router
  else if decide (value = 3) then Some Gateway
  else if decide (value = 4) then Some FleetctlProxy
  else None.
Lemma node_kind_proto_exact value kind :
  node_kind_from_proto value = Some kind ↔ value = node_kind_to_proto kind.
Proof.
  split; [|intros ->; by destruct kind].
  unfold node_kind_from_proto. intros H. repeat case_decide; simplify_eq; done.
Qed.

(** ** Authorization *)
Record OperatorsConfig : Type := {
  oc_bootstrap_admins : list string;
  oc_allowed_operators : list string;
  oc_grant_ttl_secs : Z
}.

(** [admin::authz::verify_admin_caller]. *)
Definition verify_admin_caller `{C : Core} (caller_svid : SpiffeId) : bool :=
  bool_decide (spiffe_kind caller_svid = IdKind.Ctrl).

Section Authorization.
Context `{F : Fjall} `{C : Core} `{W : !Wire C}.
Variable operators_config : OperatorsConfig.
(** the clock, as [u64] seconds *)
Variable now : Z.
Context {T : Type}.

Definition caller_id (request : Request T) : rpc SpiffeId :=
  lift_option Unauthenticated (caller request).

Definition verify_caller (request : Request T) : rpc () :=
  spiffe_id ← caller_id request;
  ensure (bool_decide (spiffe_kind spiffe_id = IdKind.Ctrl) ||
          bool_decide (spiffe_kind spiffe_id = IdKind.Operator)) PermissionDenied.

Definition caller_spiffe_id (request : Request T) : rpc string :=
  spiffe_id ← caller_id request; mret (spiffe_to_string spiffe_id).

Definition caller_is_ctrl (request : Request T) : rpc bool :=
  spiffe_id ← caller_id request; mret (bool_decide (spiffe_kind spiffe_id = IdKind.Ctrl)).

(** [record.operator_id == operator_id && record.expires_at_unix > now]. *)
Definition grant_active (operator_id : string) (record : OperatorAccessGrantRecord) : bool :=
  bool_decide (oag_operator_id record = operator_id) && (now <? oag_expires_at_unix record).

Definition active_grants_for_operator (operator_id : string) (db : Db) :
    result IoError (list OperatorAccessGrantRecord) :=
  foldM (λ grants guard, '(_, value) ← (guard : result IoError (bytes * bytes));
    Ok match from_bytes value with
       | Some record => if grant_active operator_id record then grants ++ [record] else grants
       | None => grants
       end) (prefix db ks_operator_grants "") [].

(** The scan stops at the first match. *)
Fixpoint has_grant (operator_id : string) (pred : OperatorAccessGrantRecord → bool)
    (guards : list (result IoError (bytes * bytes))) : result IoError bool :=
  match guards with
  | [] => Ok false
  | Err e :: _ => Err e
  | Ok (_, value) :: guards =>
      match from_bytes value with
      | Some record =>
          if grant_active operator_id record && pred record then Ok true
          else has_grant operator_id pred guards
      | None => has_grant operator_id pred guards
      end
  end.
Definition has_active_grant (operator_id : string) (pred : OperatorAccessGrantRecord → bool)
    (db : Db) : result IoError bool :=
  has_grant operator_id pred (prefix db ks_operator_grants "").

Definition require_cluster_admin (request : Request T) : rpc () :=
  who ← caller_spiffe_id request;
  spiffe_id ← caller_id request;
  if decide (spiffe_kind spiffe_id = IdKind.Ctrl) then mret ()
  else if decide (spiffe_kind spiffe_id = IdKind.Operator) then
    if decide (who ∈ oc_bootstrap_admins operators_config) then mret ()
    else
      granted ← view_or Internal (has_active_grant who oag_cluster_admin);
      ensure granted PermissionDenied
  else fail PermissionDenied.

(** The other checks let a [ctrl] caller pass and look at the grants of the others. *)
Definition require_grants (request : Request T)
    (enough : list OperatorAccessGrantRecord → bool) : rpc () :=
  is_ctrl ← caller_is_ctrl request;
  if (is_ctrl : bool) then mret ()
  else
    who ← caller_spiffe_id request;
    grants ← view_or Internal (active_grants_for_operator who);
    ensure (enough grants) PermissionDenied.

Definition require_read_access (request : Request T) : rpc () :=
  require_grants request (λ grants, negb (bool_decide (grants = []))).

Definition tenant_write_grant (tenant_id : string) (g : OperatorAccessGrantRecord) : bool :=
  negb (oag_read_only g) && (oag_cluster_admin g || bool_decide (tenant_id ∈ oag_tenants g)).
Definition require_tenant_write (request : Request T) (tenant_id : string) : rpc () :=
  require_grants request (existsb (tenant_write_grant tenant_id)).

Definition admin_write_grant (g : OperatorAccessGrantRecord) : bool :=
  oag_cluster_admin g && negb (oag_read_only g).
Definition require_cluster_admin_write (request : Request T) : rpc () :=
  is_ctrl ← caller_is_ctrl request;
  if (is_ctrl : bool) then mret ()
  else
    who ← caller_spiffe_id request;
    if decide (who ∈ oc_bootstrap_admins operators_config) then mret ()
    else
      grants ← view_or Internal (active_grants_for_operator who);
      ensure (existsb admin_write_grant grants) PermissionDenied.

Definition build_audit_context (request_id : string) (request : Request T) (target : string) :
    AuditContext := {|
  ac_request_id := request_id;
  ac_actor := default "unknown" (spiffe_to_string <$> caller request);
  ac_target := target;
  ac_timestamp_unix := now |}.
End Authorization.

(** ** The tenant quota *)
Section Quota.
Context `{F : Fjall} `{C : Core} `{W : !Wire C}.

(** What a workload adds, computed in [u64]. *)
Definition check_tenant_quota (tenant_id : string) (spec : WorkloadSpec) : rpc () :=
  quota ← view_or Internal (λ db, get_tenant_quota db tenant_id);
  match quota with
  | None => mret ()
  | Some quota =>
      usage ← view_or Internal (λ db, compute_tenant_usage db tenant_id);
      let '(current_cpu, current_memory, current_workloads) := usage in
      let '(cpu, memory) := workload_usage spec in
      let new_cpu := wrap_u64 (current_cpu + cpu) in
      let new_memory := wrap_u64 (current_memory + memory) in
      let new_workloads := wrap_u32 (current_workloads + 1) in
      ensure (negb (tq_max_workloads quota <? new_workloads)) ResourceExhausted ≫= λ _,
      ensure (negb (tq_max_cpu_millicores quota <? new_cpu)) ResourceExhausted ≫= λ _,
      ensure (negb (tq_max_memory_bytes quota <? new_memory)) ResourceExhausted
  end.
End Quota.
