(* ===== verification/Admin.v ===== *)
(** * Admin: the admin API

    Models the handlers of [AdminServiceImpl] in [src/admin/service.rs], one definition
    per method, over the checks of [AdminAuth]. What a handler draws for a request (the
    clock, the request id, random bytes, a key pair) is in [AdminEnv]. *)

From S2P Require Import Prelude.
From S2P Require Import Storage.
From S2P Require Import Core.
From S2P Require Import Records.
From S2P Require Import WireInstance.
From S2P Require Import Schema.
From S2P Require Import StateMachine.
From S2P Require Import Apply.
From S2P Require Import Raft.
From S2P Require Import Rpc.
From S2P Require Import Invariant.
From S2P Require Import Demo.
From S2P Require Import LogStore.
From S2P Require Import Float64.
From S2P Require Import Engine.
From S2P Require Import Disruption.
From S2P Require Import DummyIp.
From S2P Require Import Controllers.
From S2P Require Import Secrets.
From S2P Require Import Merge.
From S2P Require Import Ca.
From S2P Require Import Issuance.
From S2P Require Import Chains.
From S2P Require Import Attestation.
From S2P Require Import AdminAuth.

(** ** Messages *)
Record SetQuotaRequest : Type := { sq_quota : option TenantQuotaRecord }.
Record SecretAclChange : Type := { sac_tenant_id : string; sac_key : string; sac_spiffe_id : string }.
Record StoreSecretRequest : Type := {
  ssr_tenant_id : string; ssr_key : string; ssr_value : bytes; ssr_authorized_spiffe_ids : list string }.
Record ScaleWorkloadRequest : Type := {
  swr_tenant_id : string; swr_workload_id : string; swr_replicas : gmap string Z }.
Record EvictNodeRequest : Type := { enr_node_svid : string; enr_force : bool }.
Record OperatorScope : Type := {
  os_cluster_admin : bool; os_tenants : list string; os_read_only : bool }.
Record GrantOperatorAccessRequest : Type := {
  gor_operator_id : string; gor_ttl_secs : Z; gor_scope : option OperatorScope }.
Record NodePoolCreateRequest : Type := {
  npc_pool_id : string; npc_node_kind : Z; npc_desired_count : Z; npc_vcpus : Z;
  npc_memory_mb : Z; npc_disk_gb : Z; npc_region_hint : string }.
Record NodePoolInfo : Type := {
  npi_pool_id : string; npi_node_kind : Z; npi_desired_count : Z; npi_vcpus : Z;
  npi_memory_mb : Z; npi_disk_gb : Z; npi_region_hint : string }.
Record RegisterNodeEkRequest : Type := {
  rer_ek_cert_der : bytes; rer_ek_pub : bytes; rer_node_id : string; rer_ttl_secs : Z }.
(** [PcrValueProto], with [u32] fields. *)
Record SetPcrPolicyRequest : Type := {
  spr_node_id : string; spr_expected_pcrs : list (Z * Z * bytes); spr_active : bool }.
Record RemoveNodeTaintRequest : Type := { rnt_node_id : string; rnt_key : string; rnt_effect : string }.

(** ** Manifests *)
Inductive ManifestSpec `{C : Core} : Type :=
| SpecWorkload (w : ManifestWorkloadSpec)
| SpecTenant
| SpecSagRule (s : ManifestSagRuleSpec)
| SpecSecret (s : ManifestSecretSpec)
| SpecNodePool (n : ManifestNodePoolSpec).
Record Manifest `{C : Core} : Type := {
  mf_api_version : string; mf_kind : string; mf_name : string; mf_tenant_id : string;
  mf_spec : option ManifestSpec }.
Inductive ApplyStatus : Set := Created | Applied | StatusUnchanged | Conflict | Invalid.
#[export] Instance ApplyStatus_eq_dec : EqDecision ApplyStatus.
Proof. solve_decision. Defined.
Record ApplyResult : Type := {
  ares_kind : string; ares_name : string; ares_tenant_id : string; ares_status : ApplyStatus;
  ares_conflicts : list FieldConflict }.
Record ApplyRequest `{C : Core} : Type := {
  areq_manifests : option (list Manifest); areq_dry_run : bool }.
Record ApplyResponse : Type := {
  arsp_applied : bool; arsp_version : Z; arsp_results : list ApplyResult }.

(** ** The service *)
Record AdminEnv `{C : Core} `{G : !Rcgen} : Type := {
  (** the clock, in nanoseconds *)
  ad_now : Z;
  ad_request_id : string;
  ad_token : bytes;
  ad_dek : bytes;
  ad_nonce : bytes;
  ad_wrap_nonce : bytes;
  ad_key : option KeyPair;
  (** the term of [raft.metrics()] *)
  ad_raft_term : Z
}.
Record AdminConfig `{C : Core} `{G : !Rcgen} : Type := {
  ac_operators : OperatorsConfig;
  ac_join_token_ttl_secs : Z;
  ac_node_ttl_secs : Z;
  ac_ca_data_control : option TrustBundle;
  ac_delegated_key_ttl_secs : Z;
  ac_svid_refresh_fraction : f64;
  ac_allocator : DummyIpAllocator;
  ac_manufacturer_roots : list TrustedRoot
}.

Section AdminServiceImpl.
Context `{F : Fjall} `{C : Core} `{W : !Wire C} `{R : !Raft} `{G : !Rcgen} `{X : X509} `{A : Attest}.
Context `{FL : !FjallLog F} `{K : !Cron} `{DG : !DisruptionGuard} `{M : !MergeFormat}.
Context `{AE : Aead} `{MK : MasterKeyProvider} `{PE : !Postcard EnvelopeSecret}.
Context `{PK : !Postcard DelegatedSigningKey}.
(** [SagRuleId::of_rule] and [OperatorGrantId::of_grant], in hexadecimal *)
Variable sag_rule_id : string → string → option string → option Z → string → option string →
  option Z → string → string.
Variable operator_grant_id : string → string → Z → Z → bool → bool → list string → string.
Variable cfg : AdminConfig.
Variable env : AdminEnv.

Definition now_i64 : Z := unix_timestamp (ad_now env).
Definition now_u64 : Z := wrap_u64 now_i64.
Definition nonempty (s : string) : rpc () := ensure (negb (bool_decide (s = ""))) InvalidArgument.

(** [self.raft.client_write(AuditedCommand { cmd, audit: Some(audit) })]. *)
Definition propose {T} (request : Request T) (target : string) (c : FleetosCommand) : rpc () :=
  proposes {| cmd := c; audit := Some (build_audit_context now_u64 (ad_request_id env) request target) |}.
(** The checks that open a handler. *)
Definition cluster_admin_write {T} (request : Request T) : rpc () :=
  verify_caller request ≫= λ _, require_cluster_admin_write (ac_operators cfg) now_u64 request.
Definition tenant_write {T} (request : Request T) (tenant_id : string) : rpc () :=
  verify_caller request ≫= λ _, require_tenant_write now_u64 request tenant_id.
Definition read_access {T} (request : Request T) : rpc () :=
  verify_caller request ≫= λ _, require_read_access now_u64 request.
Definition cluster_admin {T} (request : Request T) : rpc () :=
  verify_caller request ≫= λ _, require_cluster_admin (ac_operators cfg) now_u64 request.

Definition create_tenant (request : Request string) : rpc bool :=
  let tenant_id := rq_message request in
  cluster_admin_write request ≫= λ _,
  validate_identifier tenant_id ≫= λ _,
  existing ← view_or Internal (λ db, get_tenant db tenant_id);
  ensure (negb (isSome existing)) AlreadyExists ≫= λ _,
  block ← view_or Internal (λ db, compute_tenant_block_allocation (ac_allocator cfg) db tenant_id);
  propose request tenant_id (CreateTenant {|
    tr_tenant_id := tenant_id; tr_created_at := now_i64; tr_last_applied_bytes := "" |} block) ≫= λ _,
  mret true.

Fixpoint validate_replicas (replicas : list (string * Z)) : rpc () :=
  match replicas with
  | [] => mret ()
  | (role, count) :: replicas =>
      validate_identifier role ≫= λ _,
      ensure (negb ((count =? 0) || (MAX_REPLICAS_PER_ROLE <? count))) InvalidArgument ≫= λ _,
      validate_replicas replicas
  end.

(** The admission rules of a vertical autoscaling policy. *)
Definition validate_vpa (spec : WorkloadSpec) (vpa : VerticalAutoscalingPolicy) : bool :=
  if vp_enabled vpa then
    let cpu_active := 0 <? vp_target_cpu_utilization_percent vpa in
    let mem_active := 0 <? vp_target_memory_utilization_percent vpa in
    (cpu_active || mem_active) &&
    negb (vp_max_vcpus vpa <? vp_min_vcpus vpa) &&
    negb (vp_max_memory_bytes vpa <? vp_min_memory_bytes vpa) &&
    match ws_autoscaling spec with
    | Some hpa =>
        negb (ap_enabled hpa && ((cpu_active && (0 <? ap_target_cpu_millicores hpa)) ||
                                 (mem_active && (0 <? ap_target_memory_bytes hpa))))
    | None => true
    end
  else true.

Definition submit_workload_spec (request : Request WorkloadSpec) : rpc bool :=
  let spec := rq_message request in
  tenant_write request (ws_tenant_id spec) ≫= λ _,
  validate_identifier (ws_tenant_id spec) ≫= λ _,
  validate_identifier (ws_workload_id spec) ≫= λ _,
  nonempty (ws_image spec) ≫= λ _,
  ensure (negb (bool_decide (ws_replicas spec = ∅))) InvalidArgument ≫= λ _,
  ensure (negb (MAX_ROLES_PER_WORKLOAD <? Z.of_nat (size (ws_replicas spec)))) InvalidArgument ≫= λ _,
  validate_replicas (hash_iter (ws_replicas spec)) ≫= λ _,
  ensure (negb (MAX_SPEC_BYTES <? blen (encode_to_vec spec))) InvalidArgument ≫= λ _,
  match ws_pod_spec spec with Some pod_spec => validate_init_containers pod_spec | None => mret () end ≫= λ _,
  ensure (match ws_vertical_autoscaling spec with Some vpa => validate_vpa spec vpa | None => true end)
    InvalidArgument ≫= λ _,
  check_tenant_quota (ws_tenant_id spec) spec ≫= λ _,
  propose request (ws_workload_id spec) (SubmitWorkloadSpec {|
    wsr_tenant_id := ws_tenant_id spec; wsr_workload_id := ws_workload_id spec;
    wsr_spec_bytes := encode_to_vec spec; wsr_last_applied_bytes := "" |}) ≫= λ _,
  mret true.

Definition get_vpa_status (request : Request (string * string)) : rpc (option VpaRecommendationRecord) :=
  read_access request ≫= λ _,
  let '(tenant_id, workload_id) := rq_message request in
  validate_identifier tenant_id ≫= λ _,
  validate_identifier workload_id ≫= λ _,
  rec ← view_or Internal (λ db, get_vpa_recommendation db tenant_id workload_id);
  mret ((λ r, {|
    vr_tenant_id := vr_tenant_id r; vr_workload_id := vr_workload_id r;
    vr_recommended_vcpus := vr_recommended_vcpus r;
    vr_recommended_memory_mb := vr_recommended_memory_mb r;
    vr_current_vcpus := vr_current_vcpus r; vr_current_memory_mb := vr_current_memory_mb r;
    vr_computed_at_unix := wrap_u64 (vr_computed_at_unix r); vr_mode := vr_mode r |}) <$> rec).

Definition list_nodes (request : Request ()) : rpc (list string) :=
  read_access request ≫= λ _,
  records ← view_or Internal list_node_records;
  mret (nr_node_id <$> filter (λ r, nr_status r ≠ Evicted) records).

(** The term, and the number of healthy nodes. *)
Definition get_cluster_status (request : Request ()) : rpc (Z * Z) :=
  read_access request ≫= λ _,
  records ← view_or Internal list_node_records;
  mret (ad_raft_term env, wrap_u32 (Z.of_nat (length (filter (λ r, nr_status r = Active) records)))).

Definition parse_node_kind (s : string) : option NodeKind :=
  if decide (s = "agent") then Some Agent
  else if decide (s = "router") then Some Router
  else if decide (s = "gateway") then Some Gateway
  else if decide (s = "control") then Some Control
  else if decide (s = "fleetctl_proxy") then Some FleetctlProxy
  else None.

Definition generate_join_token (request : Request string) : rpc bytes :=
  cluster_admin_write request ≫= λ _,
  node_kind ← lift_option InvalidArgument (parse_node_kind (rq_message request));
  record ← lift Internal
    (compute_token_record (ac_join_token_ttl_secs cfg) now_i64 (ad_token env) node_kind);
  propose request (rq_message request) (MintJoinToken record) ≫= λ _,
  mret (jt_token record).

Definition submit_cron_workload (request : Request CronWorkload) : rpc bool :=
  let cron := rq_message request in
  tenant_write request (cw_tenant_id cron) ≫= λ _,
  validate_identifier (cw_tenant_id cron) ≫= λ _,
  validate_identifier (cw_cron_workload_id cron) ≫= λ _,
  schedule ← lift_option InvalidArgument (cw_schedule cron);
  lift InvalidArgument (validate_expression (cs_expression schedule)) ≫= λ _,
  propose request (cw_cron_workload_id cron) (SubmitCronWorkload
    {| cwr_tenant_id := cw_tenant_id cron; cwr_cron_workload_id := cw_cron_workload_id cron;
       cwr_schedule_expression := cs_expression schedule; cwr_spec_bytes := encode_to_vec cron |}
    {| ccr_tenant_id := cw_tenant_id cron; ccr_cron_workload_id := cw_cron_workload_id cron;
       ccr_last_triggered_at_unix := now_i64 |}) ≫= λ _,
  mret true.

(** An empty role is any role. *)
Definition optional_role (role : string) : rpc (option string) :=
  if decide (role = "") then mret None
  else ensure (workload_role_valid role) InvalidArgument ≫= λ _, mret (Some role).

Definition upsert_sag_rule (request : Request (option SagRule)) : rpc string :=
  cluster_admin_write request ≫= λ _,
  rule ← lift_option InvalidArgument (rq_message request);
  from ← lift_option InvalidArgument (sag_from rule);
  to ← lift_option InvalidArgument (sag_to rule);
  ensure (bool_decide (sref_tenant from = sref_tenant to)) InvalidArgument ≫= λ _,
  validate_identifier (sref_tenant from) ≫= λ _,
  validate_identifier (sref_service_name from) ≫= λ _,
  validate_identifier (sref_service_name to) ≫= λ _,
  from_port ← lift_option InvalidArgument (validate_optional_port (sref_port from));
  to_port ← lift_option InvalidArgument (validate_optional_port (sref_port to));
  from_role ← optional_role (sref_role from);
  to_role ← optional_role (sref_role to);
  action ← lift_option InvalidArgument
    (if decide (sag_action rule = 0) then Some "ALLOW"
     else if decide (sag_action rule = 1) then Some "DENY" else None);
  let rule_id := sag_rule_id (sref_tenant from) (sref_service_name from) from_role from_port
    (sref_service_name to) to_role to_port action in
  propose request rule_id (UpsertSagRule {|
    srr_rule_id := rule_id; srr_rule_bytes := encode_to_vec rule; srr_last_applied_bytes := "" |}) ≫= λ _,
  mret rule_id.

Definition delete_sag_rule (request : Request string) : rpc string :=
  let rule_id := rq_message request in
  cluster_admin_write request ≫= λ _,
  nonempty rule_id ≫= λ _,
  propose request rule_id (DeleteSagRule rule_id) ≫= λ _,
  mret rule_id.

Fixpoint parse_all (ids : list string) : rpc (list SpiffeId) :=
  match ids with
  | [] => mret []
  | s :: ids => id ← lift_option InvalidArgument (spiffe_parse s); rest ← parse_all ids; mret (id :: rest)
  end.

Definition store_secret (request : Request StoreSecretRequest) : rpc bool :=
  let req := rq_message request in
  tenant_write request (ssr_tenant_id req) ≫= λ _,
  validate_identifier (ssr_tenant_id req) ≫= λ _,
  nonempty (ssr_key req) ≫= λ _,
  nonempty (ssr_value req) ≫= λ _,
  ensure (negb (bool_decide (ssr_authorized_spiffe_ids req = []))) InvalidArgument ≫= λ _,
  authorized ← parse_all (ssr_authorized_spiffe_ids req);
  prepared ← lift Internal (prepare_secret (ad_dek env) (ad_nonce env) (ad_wrap_nonce env)
    (ssr_key req) (ssr_value req) authorized);
  (* [authorized[0]]: there is one *)
  target ← lift_option Internal (head authorized);
  propose request (ssr_key req) (StoreSecret {|
    sec_key := ssr_key req; sec_envelope_bytes := prepared.1; sec_acl_bytes := prepared.2;
    sec_last_applied_bytes := "" |} (spiffe_to_string target)) ≫= λ _,
  mret true.

(** The checks of the two changes of a secret's readers. *)
Definition acl_change (request : Request SecretAclChange) (c : FleetosCommand) : rpc bool :=
  let req := rq_message request in
  tenant_write request (sac_tenant_id req) ≫= λ _,
  validate_identifier (sac_tenant_id req) ≫= λ _,
  nonempty (sac_key req) ≫= λ _,
  lift_option InvalidArgument (spiffe_parse (sac_spiffe_id req)) ≫= λ _,
  secret ← view_or Internal (λ db, get db ks_secrets ("secret:" +:+ sac_key req));
  ensure (isSome secret) NotFound ≫= λ _,
  propose request (sac_key req) c ≫= λ _,
  mret true.
Definition grant_secret_access (request : Request SecretAclChange) : rpc bool :=
  let req := rq_message request in
  acl_change request (GrantSecretAccess (sac_tenant_id req) (sac_key req) (sac_spiffe_id req)).
Definition revoke_secret_access (request : Request SecretAclChange) : rpc bool :=
  let req := rq_message request in
  acl_change request (RevokeSecretAccess (sac_tenant_id req) (sac_key req) (sac_spiffe_id req)).

(** [request_delegated_key], the override for operators. *)
Definition admin_request_delegated_key (request : Request DelegatedKeyRequest) : rpc DelegatedKeyResponse :=
  let req := rq_message request in
  cluster_admin request ≫= λ _,
  node_spiffe ← lift_option InvalidArgument (spiffe_parse (dk_node_svid req));
  target_spiffe ← lift_option InvalidArgument (spiffe_parse (dk_target_spiffe_id req));
  let ttl := cap_ttl (dk_requested_ttl_secs req) (ac_delegated_key_ttl_secs cfg) in
  ca_bundle ← lift_option Unavailable (ac_ca_data_control cfg);
  bundle ← view_or Internal (λ db,
    issue_delegated_key db {| drq_node_id := node_spiffe; drq_target_svid_id := target_spiffe;
      drq_target_ordinal := dk_target_ordinal req; drq_ttl_secs := ttl |}
      ca_bundle (ad_now env) (ad_key env));
  propose request (dkb_delegation_id bundle) (IssueDelegation
    (delegation_record (dkb_delegation_id bundle) node_spiffe target_spiffe (dk_target_ordinal req)
      ttl now_i64 (ac_svid_refresh_fraction cfg))) ≫= λ _,
  mret {| dkr_delegation_id := dkb_delegation_id bundle; dkr_key_material := dkb_key_bytes bundle;
          dkr_expires_at_unix := wrap_u64 (now_i64 + as_i64 ttl) |}.

Definition delete_workload (request : Request (string * string)) : rpc bool :=
  let '(tenant_id, workload_id) := rq_message request in
  tenant_write request tenant_id ≫= λ _,
  propose request workload_id (DeleteWorkload tenant_id workload_id) ≫= λ _,
  mret true.

(** [spec.replicas = req.replicas] and [record.spec_bytes = ..]. *)
Definition set_replicas (spec : WorkloadSpec) (replicas : gmap string Z) : WorkloadSpec := {|
  ws_tenant_id := ws_tenant_id spec; ws_workload_id := ws_workload_id spec;
  ws_image := ws_image spec; ws_replicas := replicas; ws_pod_spec := ws_pod_spec spec;
  ws_autoscaling := ws_autoscaling spec; ws_vertical_autoscaling := ws_vertical_autoscaling spec;
  ws_budgets := ws_budgets spec; ws_placement := ws_placement spec; ws_rest := ws_rest spec |}.
Definition set_spec_bytes (record : WorkloadSpecRecord) (b : bytes) : WorkloadSpecRecord := {|
  wsr_tenant_id := wsr_tenant_id record; wsr_workload_id := wsr_workload_id record;
  wsr_spec_bytes := b; wsr_last_applied_bytes := wsr_last_applied_bytes record |}.

Definition scale_workload (request : Request ScaleWorkloadRequest) : rpc bool :=
  let req := rq_message request in
  tenant_write request (swr_tenant_id req) ≫= λ _,
  r ← view_or Internal (λ db, get_workload_spec db (swr_tenant_id req) (swr_workload_id req));
  record_bytes ← lift_option NotFound r;
  record ← lift_option Internal (from_bytes record_bytes);
  spec ← lift_option Internal (decode (wsr_spec_bytes record));
  let spec := set_replicas spec (swr_replicas req) in
  check_tenant_quota (swr_tenant_id req) spec ≫= λ _,
  propose request (swr_workload_id req) (ScaleWorkload (set_spec_bytes record (encode_to_vec spec))) ≫= λ _,
  mret true.

Definition cordon_node (request : Request string) : rpc bool :=
  let node_svid := rq_message request in
  cluster_admin_write request ≫= λ _,
  propose request node_svid (SetNodeSchedulable node_svid false) ≫= λ _,
  mret true.

(** The groups of a node's placements: a [BTreeMap] keyed by tenant, service and role. *)
Definition GroupKey : Type := string * string * string.
Definition group_key (p : Placement) : GroupKey := (pl_tenant_id p, pl_service p, pl_role p).
Definition group_le (a b : GroupKey * list Placement) : Prop :=
  let '(t, s, r) := a.1 in
  let '(t', s', r') := b.1 in
  Is_true (String.ltb t t' || (bool_decide (t = t') &&
    (String.ltb s s' || (bool_decide (s = s') && String.leb r r')))).
#[export] Instance group_le_dec : RelDecision group_le.
Proof. intros [[[t s] r] ps] [[[t' s'] r'] ps']. unfold group_le. cbn. apply _. Defined.
Definition group_placements (placements : list Placement) : gmap GroupKey (list Placement) :=
  foldl (λ groups p, partial_alter (λ ps, Some (default [] ps ++ [p])) (group_key p) groups) ∅ placements.
Definition groups_in_order (groups : gmap GroupKey (list Placement)) : list (GroupKey * list Placement) :=
  merge_sort group_le (map_to_list groups).

(** What the budget of a group allows: all of it, or some placements, or none. *)
Definition group_allowance (db : Db) (group : GroupKey * list Placement) : bool * list Placement :=
  let '((tenant, service, role), placements) := group in
  if tenant_id_valid tenant && workload_role_valid role then
    match allow_disruption db tenant service role (wrap_u32 (Z.of_nat (length placements))) Eviction with
    | Ok _ => (true, [])
    | Err denied =>
        let partial := saturating_sub (den_current_healthy denied) (den_min_available denied) in
        let evict_count := Z.min (wrap_u32 (Z.of_nat (length placements))) partial in
        (false, take (Z.to_nat evict_count) placements)
    end
  else (false, []).
Definition drain_plan (db : Db) (placements : list Placement) : bool * list Placement :=
  let allowances := group_allowance db <$> groups_in_order (group_placements placements) in
  (forallb fst allowances, concat (snd <$> allowances)).

Fixpoint drain (request : Request EvictNodeRequest) (partial_evictions : list Placement) : rpc () :=
  match partial_evictions with
  | [] => mret ()
  | p :: rest =>
      propose request (enr_node_svid (rq_message request)) (RemovePlacement (pl_pod_id p)) ≫= λ _,
      propose request (enr_node_svid (rq_message request))
        (RecordOrdinalAssignment (freed_assignment p)) ≫= λ _,
      drain request rest
  end.

Definition evict_node (request : Request EvictNodeRequest) : rpc bool :=
  let '{| enr_node_svid := node_svid; enr_force := force |} := rq_message request in
  cluster_admin_write request ≫= λ _,
  node_spiffe ← lift_option InvalidArgument (spiffe_parse node_svid);
  plan ← (if (force : bool) then mret (true, [])
          else placements ← view_or Internal (λ db, get_placements_for_node db node_spiffe);
               view (λ db, Ok (drain_plan db placements)));
  if (plan.1 : bool) then
    propose request node_svid
      (EvictNode node_svid (now_i64 + as_i64 (ac_node_ttl_secs cfg))) ≫= λ _,
    mret true
  else
    propose request node_svid (SetNodeSchedulable node_svid false) ≫= λ _,
    drain request plan.2 ≫= λ _,
    mret false.

Definition set_quota (request : Request SetQuotaRequest) : rpc bool :=
  cluster_admin_write request ≫= λ _,
  quota ← lift_option InvalidArgument (sq_quota (rq_message request));
  validate_identifier (tq_tenant_id quota) ≫= λ _,
  tenant ← view_or Internal (λ db, get_tenant db (tq_tenant_id quota));
  ensure (isSome tenant) NotFound ≫= λ _,
  propose request (tq_tenant_id quota) (SetTenantQuota quota) ≫= λ _,
  mret true.

Definition get_quota (request : Request SetQuotaRequest) : rpc TenantQuotaRecord :=
  read_access request ≫= λ _,
  quota ← lift_option InvalidArgument (sq_quota (rq_message request));
  validate_identifier (tq_tenant_id quota) ≫= λ _,
  record ← view_or Internal (λ db, get_tenant_quota db (tq_tenant_id quota));
  lift_option NotFound record.

Definition grant_operator_access (request : Request GrantOperatorAccessRequest) : rpc string :=
  let req := rq_message request in
  cluster_admin_write request ≫= λ _,
  granted_by ← caller_spiffe_id request;
  operator_spiffe ← lift_option InvalidArgument (spiffe_parse (gor_operator_id req));
  ensure (bool_decide (spiffe_kind operator_spiffe = IdKind.Operator)) InvalidArgument ≫= λ _,
  ensure (bool_decide (oc_allowed_operators (ac_operators cfg) = []) ||
          bool_decide (gor_operator_id req ∈ oc_allowed_operators (ac_operators cfg)))
    PermissionDenied ≫= λ _,
  let ttl := if decide (gor_ttl_secs req = 0) then oc_grant_ttl_secs (ac_operators cfg)
             else gor_ttl_secs req in
  let expires_at_unix := wrap_u64 (now_u64 + ttl) in
  let scope := default {| os_cluster_admin := false; os_tenants := []; os_read_only := false |}
    (gor_scope req) in
  let grant_id := operator_grant_id (gor_operator_id req) granted_by now_u64 expires_at_unix
    (os_cluster_admin scope) (os_read_only scope) (os_tenants scope) in
  propose request (gor_operator_id req) (GrantOperatorAccess {|
    oag_grant_id := grant_id; oag_operator_id := gor_operator_id req; oag_granted_by := granted_by;
    oag_granted_at_unix := now_u64; oag_expires_at_unix := expires_at_unix;
    oag_cluster_admin := os_cluster_admin scope; oag_read_only := os_read_only scope;
    oag_tenants := os_tenants scope |}) ≫= λ _,
  mret grant_id.

Definition revoke_operator_access (request : Request string) : rpc string :=
  let grant_id := rq_message request in
  cluster_admin_write request ≫= λ _,
  grant ← view_or Internal (λ db, get db ks_operator_grants grant_id);
  ensure (isSome grant) NotFound ≫= λ _,
  propose request grant_id (RevokeOperatorAccess grant_id) ≫= λ _,
  mret grant_id.

(** Every grant, expired ones included. *)
Definition list_operator_access (request : Request ()) : rpc (list OperatorAccessGrantRecord) :=
  cluster_admin request ≫= λ _,
  view_or Internal (λ db,
    foldM (λ grants guard, '(_, value) ← (guard : result IoError (bytes * bytes));
      Ok match from_bytes value with Some record => grants ++ [record] | None => grants end)
      (prefix db ks_operator_grants "") []).

(** At most [room] entries; an entry that does not decode ends the listing. *)
Fixpoint audit_entries (room : nat) (guards : list (result IoError (bytes * bytes))) :
    option (list AuditRecord) :=
  match room, guards with
  | O, _ | _, [] => Some []
  | S room, guard :: guards =>
      '(_, value) ← ok guard;
      record ← from_bytes value;
      rest ← audit_entries room guards;
      Some (record :: rest)
  end.
Definition list_audit_log (request : Request (Z * Z)) : rpc (list AuditRecord) :=
  cluster_admin request ≫= λ _,
  let '(from_version, max_entries) := rq_message request in
  let max_entries := if decide (max_entries = 0) then 1000 else max_entries in
  entries ← view (λ db, Ok (audit_entries (Z.to_nat max_entries)
    (range db ks_audit_log (Included (to_be_bytes 8 from_version)) Unbounded)));
  lift_option Internal entries.

Definition create_node_pool (request : Request NodePoolCreateRequest) : rpc bool :=
  let req := rq_message request in
  cluster_admin_write request ≫= λ _,
  nonempty (npc_pool_id req) ≫= λ _,
  validate_identifier (npc_pool_id req) ≫= λ _,
  node_kind ← lift_option InvalidArgument (node_kind_from_proto (npc_node_kind req));
  existing ← view_or Internal (λ db, get_node_pool db (npc_pool_id req));
  ensure (negb (isSome existing)) AlreadyExists ≫= λ _,
  propose request (npc_pool_id req) (StoreNodePool {|
    np_pool_id := npc_pool_id req; np_node_kind := node_kind;
    np_desired_count := npc_desired_count req; np_vcpus := npc_vcpus req;
    np_memory_mb := npc_memory_mb req; np_disk_gb := npc_disk_gb req;
    np_region_hint := npc_region_hint req; np_last_applied_bytes := "" |}) ≫= λ _,
  mret true.

Definition delete_node_pool (request : Request string) : rpc bool :=
  let pool_id := rq_message request in
  cluster_admin_write request ≫= λ _,
  nonempty pool_id ≫= λ _,
  existing ← view_or Internal (λ db, get_node_pool db pool_id);
  ensure (isSome existing) NotFound ≫= λ _,
  propose request pool_id (DeleteNodePool pool_id) ≫= λ _,
  mret true.

Definition pool_info (r : NodePoolRecord) : NodePoolInfo := {|
  npi_pool_id := np_pool_id r; npi_node_kind := node_kind_to_proto (np_node_kind r);
  npi_desired_count := np_desired_count r; npi_vcpus := np_vcpus r; npi_memory_mb := np_memory_mb r;
  npi_disk_gb := np_disk_gb r; npi_region_hint := np_region_hint r |}.
Definition admin_list_node_pools (request : Request ()) : rpc (list NodePoolInfo) :=
  read_access request ≫= λ _,
  records ← view_or Internal list_node_pools;
  mret (pool_info <$> records).

(** The fingerprint of an endorsement key, from its certificate when there is one; when
    there are both, they must be of the same key. *)
Definition ek_fingerprint_of (ek_cert_der ek_pub : bytes) : rpc string :=
  ensure (negb (bool_decide (ek_cert_der = "") && bool_decide (ek_pub = ""))) InvalidArgument ≫= λ _,
  (if decide (ek_cert_der = "") then mret ()
   else lift InvalidArgument
     (validate_ek_cert_chain_with now_i64 ek_cert_der (ac_manufacturer_roots cfg))) ≫= λ _,
  fingerprint ← lift_option InvalidArgument
    (if decide (ek_cert_der = "") then Some (fingerprint_of_ek_pub ek_pub)
     else fingerprint_of_ek_cert ek_cert_der);
  ensure (bool_decide (ek_cert_der = "") || bool_decide (ek_pub = "") ||
          bool_decide (fingerprint = fingerprint_of_ek_pub ek_pub)) InvalidArgument ≫= λ _,
  mret fingerprint.

Definition register_node_ek (request : Request RegisterNodeEkRequest) : rpc string :=
  let req := rq_message request in
  cluster_admin_write request ≫= λ _,
  fp_hex ← ek_fingerprint_of (rer_ek_cert_der req) (rer_ek_pub req);
  existing ← view_or Internal (λ db, get db ks_node_eks fp_hex);
  ensure (negb (isSome existing)) AlreadyExists ≫= λ _,
  let ttl := if decide (rer_ttl_secs req = 0) then 3600 else as_i64 (rer_ttl_secs req) in
  propose request fp_hex (RegisterNodeEk {|
    ek_fingerprint := fp_hex; ek_pub := rer_ek_pub req; ek_cert_der := rer_ek_cert_der req;
    ek_node_id := rer_node_id req; ek_registered_at := now_i64; ek_expires_at := Some (now_i64 + ttl);
    ek_state := Pending |}) ≫= λ _,
  mret fp_hex.

(** [p.index as u8] and [p.hash_algorithm as u16] keep the low bits. *)
Definition set_pcr_policy (request : Request SetPcrPolicyRequest) : rpc bool :=
  let req := rq_message request in
  cluster_admin_write request ≫= λ _,
  lift_option InvalidArgument (spiffe_parse (spr_node_id req)) ≫= λ _,
  propose request (spr_node_id req) (SetPcrPolicy {|
    pp_node_id := spr_node_id req;
    pp_expected_pcrs := (λ '(index, algorithm, digest), {|
      pcr_index := index mod 2 ^ 8; pcr_hash_algorithm := algorithm mod 2 ^ 16;
      pcr_digest := digest |}) <$> spr_expected_pcrs req;
    pp_updated_at := now_i64; pp_active := spr_active req |}) ≫= λ _,
  mret true.

Definition revoke_node_ek (request : Request string) : rpc bool :=
  let fingerprint := rq_message request in
  cluster_admin_write request ≫= λ _,
  nonempty fingerprint ≫= λ _,
  ek ← view_or Internal (λ db, get db ks_node_eks fingerprint);
  ensure (isSome ek) NotFound ≫= λ _,
  propose request fingerprint (RevokeNodeEk fingerprint) ≫= λ _,
  mret true.

(** The taints of a request, each (key, effect) once. *)
Fixpoint validate_taints (seen : list (string * string)) (taints : list NodeTaint) : rpc () :=
  match taints with
  | [] => mret ()
  | t :: taints =>
      nonempty (nt_key t) ≫= λ _,
      validate_taint_effect (nt_effect t) ≫= λ _,
      ensure (negb (bool_decide ((nt_key t, nt_effect t) ∈ seen))) InvalidArgument ≫= λ _,
      validate_taints ((nt_key t, nt_effect t) :: seen) taints
  end.
Definition stamp_taint (t : NodeTaint) : NodeTaint := {|
  nt_key := nt_key t; nt_value := nt_value t; nt_effect := nt_effect t;
  nt_time_added_unix := if decide (nt_time_added_unix t = 0) then now_i64 else nt_time_added_unix t |}.

Definition node_registered (node_id : string) : rpc () :=
  node ← view_or Internal (λ db, get db ks_nodes node_id);
  ensure (isSome node) NotFound.

Definition set_node_taints (request : Request (string * list NodeTaint)) : rpc bool :=
  let '(node_id, taints) := rq_message request in
  cluster_admin_write request ≫= λ _,
  nonempty node_id ≫= λ _,
  ensure (negb (MAX_TAINTS_PER_NODE <? Z.of_nat (length taints))) InvalidArgument ≫= λ _,
  validate_taints [] taints ≫= λ _,
  node_registered node_id ≫= λ _,
  propose request node_id (SetNodeTaints node_id (stamp_taint <$> taints)) ≫= λ _,
  mret true.

Definition remove_node_taint (request : Request RemoveNodeTaintRequest) : rpc bool :=
  let req := rq_message request in
  cluster_admin_write request ≫= λ _,
  nonempty (rnt_node_id req) ≫= λ _,
  nonempty (rnt_key req) ≫= λ _,
  validate_taint_effect (rnt_effect req) ≫= λ _,
  node_registered (rnt_node_id req) ≫= λ _,
  propose request (rnt_node_id req)
    (RemoveNodeTaint (rnt_node_id req) (rnt_key req) (rnt_effect req)) ≫= λ _,
  mret true.

(** ** Declarative apply *)
Definition manifest_target (manifest : Manifest) : option (string * bytes) :=
  let kind := mf_kind manifest in
  if decide (kind = "Workload") then
    Some ("workloads", mf_tenant_id manifest +:+ ":" +:+ mf_name manifest)
  else if decide (kind = "Tenant") then Some ("tenants", mf_name manifest)
  else if decide (kind = "SagRule") then Some ("sag_rules", mf_name manifest)
  else if decide (kind = "Secret") then Some ("secrets", "secret:" +:+ mf_name manifest)
  else if decide (kind = "NodePool") then Some ("node_pools", mf_name manifest)
  else None.

(** The merge of a manifest whose spec is of its kind; otherwise nothing changes. *)
Definition merge_manifest (manifest : Manifest) (live_bytes : bytes) : MergeOutcome :=
  let kind := mf_kind manifest in
  match mf_spec manifest with
  | Some (SpecWorkload w) => if decide (kind = "Workload") then merge_workload w live_bytes "" else Unchanged
  | Some SpecTenant => if decide (kind = "Tenant") then merge_tenant live_bytes "" else Unchanged
  | Some (SpecSagRule s) => if decide (kind = "SagRule") then merge_sag_rule s live_bytes "" else Unchanged
  | Some (SpecSecret s) => if decide (kind = "Secret") then merge_secret s live_bytes "" else Unchanged
  | Some (SpecNodePool n) => if decide (kind = "NodePool") then merge_node_pool n live_bytes "" else Unchanged
  | None => Unchanged
  end.

Definition apply_result (manifest : Manifest) (status : ApplyStatus) (conflicts : list FieldConflict) :
    ApplyResult := {|
  ares_kind := mf_kind manifest; ares_name := mf_name manifest; ares_tenant_id := mf_tenant_id manifest;
  ares_status := status; ares_conflicts := conflicts |}.

Definition process_manifest (manifest : Manifest) : rpc (ApplyResult * option ManifestUpdate) :=
  match manifest_target manifest with
  | None => mret (apply_result manifest Invalid [], None)
  | Some (target_keyspace, target_key) =>
      ks ← lift_option Internal (manifest_keyspace target_keyspace);
      live ← view_or Internal (λ db, get db ks target_key);
      mret match merge_manifest manifest (default "" live) with
           | Updated b =>
               (apply_result manifest
                  (if bool_decide (mf_tenant_id manifest = "") && bool_decide (mf_kind manifest = "Tenant")
                   then Created else Applied) [],
                Some {| mu_target_keyspace := target_keyspace; mu_target_key := target_key;
                        mu_new_record_bytes := b |})
           | Unchanged => (apply_result manifest StatusUnchanged [], None)
           | Conflicted c => (apply_result manifest Conflict c, None)
           end
  end.

(** [m.is_err()], negated. *)
Definition allowed (m : rpc ()) : rpc bool := λ sm,
  match m sm with (sm, Ok _) => (sm, Ok true) | (sm, Err _) => (sm, Ok false) end.

(** The results and the updates, and whether a manifest was invalid or in conflict. *)
Record ApplyPass : Type := {
  pass_results : list ApplyResult; pass_updates : list ManifestUpdate;
  pass_any_conflict : bool; pass_any_invalid : bool }.

Definition may_apply {T} (request : Request T) (manifest : Manifest) : rpc bool :=
  allowed (if decide (mf_tenant_id manifest = "")
           then require_cluster_admin_write (ac_operators cfg) now_u64 request
           else require_tenant_write now_u64 request (mf_tenant_id manifest)).

Fixpoint apply_manifests_loop {T} (request : Request T) (manifests : list Manifest) (pass : ApplyPass) :
    rpc ApplyPass :=
  match manifests with
  | [] => mret pass
  | manifest :: manifests =>
      if negb (bool_decide (mf_api_version manifest = "fleetos.dev/v1alpha1")) then
        apply_manifests_loop request manifests {|
          pass_results := pass_results pass ++ [apply_result manifest Invalid []];
          pass_updates := pass_updates pass; pass_any_conflict := pass_any_conflict pass;
          pass_any_invalid := true |}
      else
        authorised ← may_apply request manifest;
        if negb authorised then
          apply_manifests_loop request manifests {|
            pass_results := pass_results pass; pass_updates := pass_updates pass;
            pass_any_conflict := pass_any_conflict pass; pass_any_invalid := true |}
        else
          processed ← process_manifest manifest;
          apply_manifests_loop request manifests {|
            pass_results := pass_results pass ++ [processed.1];
            pass_updates := pass_updates pass ++ option_list processed.2;
            pass_any_conflict :=
              pass_any_conflict pass || bool_decide (ares_status processed.1 = Conflict);
            pass_any_invalid := pass_any_invalid pass |}
  end.

Definition admin_apply (request : Request ApplyRequest) : rpc ApplyResponse :=
  verify_caller request ≫= λ _,
  manifests ← lift_option InvalidArgument (areq_manifests (rq_message request));
  pass ← apply_manifests_loop request manifests {|
    pass_results := []; pass_updates := []; pass_any_conflict := false; pass_any_invalid := false |};
  if pass_any_invalid pass || pass_any_conflict pass || areq_dry_run (rq_message request) ||
     bool_decide (pass_updates pass = [])
  then mret {| arsp_applied := false; arsp_version := 0; arsp_results := pass_results pass |}
  else
    propose request "apply" (ApplyManifests (pass_updates pass)) ≫= λ _,
    mret {| arsp_applied := true; arsp_version := 0; arsp_results := pass_results pass |}.
End AdminServiceImpl.
