(* ===== verification/AdminSpec.v ===== *)
(** * AdminSpec: who may do what through the admin API

    The methods of [Admin] as one request type, the scope each needs, and what holds
    of all of them: a request without its scope changes nothing, and every change is a
    proposal that carries the caller's name. *)

From S2P Require Import Prelude.
From S2P Require Import Storage.
From S2P Require Import Core.
From S2P Require Import Records.
From S2P Require Import WireInstance.
From S2P Require Import Schema.
From S2P Require Import StateMachine.
From S2P Require Import Apply.
From S2P Require Import Raft.
From S2P Require Import Rpc.
From S2P Require Import Invariant.
From S2P Require Import Demo.
From S2P Require Import LogStore.
From S2P Require Import Engine.
From S2P Require Import Disruption.
From S2P Require Import DummyIp.
From S2P Require Import Controllers.
From S2P Require Import Reconcile.
From S2P Require Import Secrets.
From S2P Require Import Merge.
From S2P Require Import Ca.
From S2P Require Import Issuance.
From S2P Require Import Chains.
From S2P Require Import Attestation.
From S2P Require Import AdminAuth.
From S2P Require Import Admin.

(** ** Scopes *)
Inductive Scope : Type :=
| ReadAccess
| TenantWrite (tenant_id : string)
| ClusterAdmin
| ClusterAdminWrite.

Section Scopes.
Context `{F : Fjall} `{C : Core} `{W : !Wire C}.
Variable operators : OperatorsConfig.
Variable now : Z.

(** A grant on record for the operator, not expired. *)
Definition holds_grant (st : store) (who : SpiffeId) (g : OperatorAccessGrantRecord) : Prop :=
  (∃ k v, st !! (ks_operator_grants, k) = Some v ∧ from_bytes v = Some g) ∧
  oag_operator_id g = spiffe_to_string who ∧ now < oag_expires_at_unix g.

(** [fleetctl-proxy] holds every scope; an operator what its grants give, and a
    bootstrap admin the two scopes on the cluster. *)
Definition has_scope (st : store) (who : option SpiffeId) (s : Scope) : Prop :=
  ∃ c, who = Some c ∧
    (spiffe_kind c = IdKind.Ctrl ∨
     spiffe_kind c = IdKind.Operator ∧
     match s with
     | ReadAccess => ∃ g, holds_grant st c g
     | TenantWrite t => ∃ g, holds_grant st c g ∧ oag_read_only g = false ∧
         (oag_cluster_admin g = true ∨ t ∈ oag_tenants g)
     | ClusterAdmin => spiffe_to_string c ∈ oc_bootstrap_admins operators ∨
         ∃ g, holds_grant st c g ∧ oag_cluster_admin g = true
     | ClusterAdminWrite => spiffe_to_string c ∈ oc_bootstrap_admins operators ∨
         ∃ g, holds_grant st c g ∧ oag_cluster_admin g = true ∧ oag_read_only g = false
     end).

(** The check of a scope, as the handlers make it. *)
Definition check_scope {T} (s : Scope) (request : Request T) : rpc () :=
  match s with
  | ReadAccess => require_read_access now request
  | TenantWrite t => require_tenant_write now request t
  | ClusterAdmin => require_cluster_admin operators now request
  | ClusterAdminWrite => require_cluster_admin_write operators now request
  end.

Lemma pure_verify_caller {T} (request : Request T) : pure_rpc (verify_caller request).
Proof. unfold verify_caller, caller_id. eauto with rpc. Qed.
Lemma pure_require_grants {T} (request : Request T) enough :
  pure_rpc (require_grants now request enough).
Proof.
  unfold require_grants, caller_is_ctrl, caller_spiffe_id, caller_id, view_or.
  apply pure_bind; [eauto with rpc|]. intros [|]; eauto 6 with rpc.
Qed.
Lemma pure_check_scope {T} s (request : Request T) : pure_rpc (check_scope s request).
Proof.
  destruct s; cbn; try apply pure_require_grants.
  - unfold require_cluster_admin, caller_spiffe_id, caller_id, view_or.
    apply pure_bind; [eauto with rpc|]. intros who. apply pure_bind; [eauto with rpc|]. intros id.
    repeat case_decide; eauto with rpc.
  - unfold require_cluster_admin_write, caller_is_ctrl, caller_spiffe_id, caller_id, view_or.
    apply pure_bind; [eauto with rpc|]. intros [|]; [eauto with rpc|].
    apply pure_bind; [eauto with rpc|]. intros who. case_decide; eauto with rpc.
Qed.

(** ** The grants a scan returns are those on record *)
Lemma active_grants_sound `{!FjallSpec F} db who grants g :
  active_grants_for_operator now (spiffe_to_string who) db = Ok grants → g ∈ grants →
  holds_grant (contents db) who g.
Proof.
  intros H Hg. revert g Hg. revert H. unfold active_grants_for_operator.
  apply (foldM_invariant (λ grants, ∀ g, g ∈ grants → holds_grant (contents db) who g)); [|set_solver].
  intros acc guard acc' Hin Hacc H g Hg. apply bind_ok in H as ([k v] & -> & [= <-]).
  destruct (from_bytes v) as [rec|] eqn:Hv; [|by apply Hacc].
  destruct (grant_active now _ rec) eqn:Ha; [|by apply Hacc].
  apply elem_of_app in Hg as [Hg| ->%list_elem_of_singleton]; [by apply Hacc|].
  apply andb_true_iff in Ha as [Hop%bool_decide_eq_true Hnow%Z.ltb_lt].
  split_and!; [|done|done]. exists k, v. by apply prefix_sound in Hin as [? _].
Qed.

Lemma has_active_grant_sound `{!FjallSpec F} db who pred :
  has_active_grant now (spiffe_to_string who) pred db = Ok true →
  ∃ g, holds_grant (contents db) who g ∧ pred g = true.
Proof.
  unfold has_active_grant. intros H.
  assert (∃ k v g, Ok (k, v) ∈ prefix db ks_operator_grants "" ∧ from_bytes v = Some g ∧
    grant_active now (spiffe_to_string who) g && pred g = true) as (k & v & g & Hin & Hv & Hg).
  { revert H. induction (prefix db ks_operator_grants "") as [|[[k v]|e] guards IH]; [done| |done]. cbn.
    assert (has_grant now (spiffe_to_string who) pred guards = Ok true →
      ∃ k' v' g, Ok (k', v') ∈ (Ok (k, v) :: guards) ∧ from_bytes v' = Some g ∧
        grant_active now (spiffe_to_string who) g && pred g = true) as Hskip.
    { intros (k' & v' & g & Hin & ?)%IH. exists k', v', g. split; [by right|done]. }
    destruct (from_bytes v) as [rec|] eqn:Hv; [|done].
    destruct (grant_active _ _ rec && pred rec) eqn:Hm; [|done].
    intros _. exists k, v, rec. split_and!; [left|done|done]. }
  apply andb_true_iff in Hg as [[Hop%bool_decide_eq_true Hnow%Z.ltb_lt]%andb_true_iff Hp].
  exists g. split; [split_and!; [|done|done]|done]. exists k, v. by apply prefix_sound in Hin as [? _].
Qed.

(** ** A check that passes found the scope *)
Lemma caller_id_ok {T} (request : Request T) sm sm' c :
  caller_id request sm = (sm', Ok c) → sm' = sm ∧ caller request = Some c.
Proof. apply lift_option_ok. Qed.
Lemma verify_caller_ok {T} (request : Request T) sm sm' u :
  verify_caller request sm = (sm', Ok u) →
  ∃ c, caller request = Some c ∧ (spiffe_kind c = IdKind.Ctrl ∨ spiffe_kind c = IdKind.Operator).
Proof.
  unfold verify_caller. intros H.
  apply rpc_bind_ok in H as (sm1 & c & [-> Hc]%caller_id_ok & [-> Hk]%ensure_ok).
  exists c. split; [done|]. by apply orb_true_iff in Hk as [?%bool_decide_eq_true|?%bool_decide_eq_true]; auto.
Qed.
Lemma require_grants_ok `{!FjallSpec F} {T} (request : Request T) enough sm sm' u c :
  caller request = Some c → require_grants now request enough sm = (sm', Ok u) →
  spiffe_kind c = IdKind.Ctrl ∨
  ∃ grants, (∀ g, g ∈ grants → holds_grant (contents (sm_db sm)) c g) ∧ enough grants = true.
Proof.
  intros Hc H. unfold require_grants, caller_is_ctrl in H.
  apply rpc_bind_ok in H as (sm1 & b & Hb & H).
  apply rpc_bind_ok in Hb as (sm2 & c' & [-> Hc']%caller_id_ok & [= <- <-]).
  rewrite Hc in Hc'. injection Hc' as <-.
  destruct (bool_decide_reflect (spiffe_kind c = IdKind.Ctrl)) as [Hk|Hk]; [by left|right].
  apply rpc_bind_ok in H as (sm2 & who & Hw & H). unfold caller_spiffe_id in Hw.
  apply rpc_bind_ok in Hw as (sm3 & c' & [-> Hc']%caller_id_ok & [= <- <-]).
  rewrite Hc in Hc'. injection Hc' as <-.
  apply rpc_bind_ok in H as (sm3 & grants & [-> Hg]%view_or_ok & [-> He]%ensure_ok).
  exists grants. split; [|done]. intros g. by apply active_grants_sound.
Qed.

Lemma check_scope_sound `{!FjallSpec F} {T} s (request : Request T) sm sm' u c :
  caller request = Some c → (spiffe_kind c = IdKind.Ctrl ∨ spiffe_kind c = IdKind.Operator) →
  check_scope s request sm = (sm', Ok u) → has_scope (contents (sm_db sm)) (caller request) s.
Proof.
  intros Hc Hkind H. exists c. split; [done|]. destruct Hkind as [Hk|Hk]; [by left|right; split; [done|]].
  assert (spiffe_kind c ≠ IdKind.Ctrl) as Hn by congruence.
  destruct s as [|t| |]; cbn [check_scope] in H.
  - apply (require_grants_ok _ _ _ _ _ _ Hc) in H as [|(gs & Hgs & He)]; [done|].
    destruct gs as [|g gs]; [done|]. exists g. apply Hgs. left.
  - apply (require_grants_ok _ _ _ _ _ _ Hc) in H as [|(gs & Hgs & He)]; [done|].
    apply existsb_exists in He as (g & Hin%list_elem_of_In & Hg). exists g. split; [by apply Hgs|].
    apply andb_true_iff in Hg as [?%negb_true_iff Hg]. split; [done|].
    apply orb_true_iff in Hg as [?|?%bool_decide_eq_true]; auto.
  - unfold require_cluster_admin, caller_spiffe_id in H.
    apply rpc_bind_ok in H as (sm1 & who & Hw & H).
    apply rpc_bind_ok in Hw as (sm2 & c' & [-> Hc']%caller_id_ok & [= <- <-]).
    apply rpc_bind_ok in H as (sm2 & c'' & [-> Hc'']%caller_id_ok & H). simplify_eq.
    rewrite decide_False, decide_True in H by done. case_decide as Hb; [by left|right].
    apply rpc_bind_ok in H as (sm2 & b & [-> Hg]%view_or_ok & [-> ->]%ensure_ok).
    by apply has_active_grant_sound in Hg.
  - unfold require_cluster_admin_write, caller_is_ctrl, caller_spiffe_id in H.
    apply rpc_bind_ok in H as (sm1 & b & Hb & H).
    apply rpc_bind_ok in Hb as (sm2 & c' & [-> Hc']%caller_id_ok & [= <- <-]).
    rewrite Hc in Hc'. injection Hc' as <-. rewrite bool_decide_eq_false_2 in H by done.
    apply rpc_bind_ok in H as (sm1 & who & Hw & H).
    apply rpc_bind_ok in Hw as (sm2 & c' & [-> Hc']%caller_id_ok & [= <- <-]). simplify_eq.
    case_decide as Hb; [by left|right].
    apply rpc_bind_ok in H as (sm2 & gs & [-> Hg]%view_or_ok & [-> He]%ensure_ok).
    apply existsb_exists in He as (g & Hin%list_elem_of_In & Hadm). exists g.
    split; [by eapply active_grants_sound|]. by apply andb_true_iff in Hadm as [? ?%negb_true_iff].
Qed.

(** ** A scope on record passes its check, when the storage can be read *)
Lemma stored_grant_active who g :
  oag_operator_id g = spiffe_to_string who → now < oag_expires_at_unix g →
  grant_active now (spiffe_to_string who) g = true.
Proof. intros Ho Hn. apply andb_true_iff. split; [by apply bool_decide_eq_true|by apply Z.ltb_lt]. Qed.

Lemma active_grants_complete `{!FjallSpec F} `{!FjallReliable F} db who :
  ∃ grants, active_grants_for_operator now (spiffe_to_string who) db = Ok grants ∧
    ∀ g, holds_grant (contents db) who g → g ∈ grants.
Proof.
  unfold active_grants_for_operator. rewrite prefix_eq.
  assert (∀ l acc, ∃ grants, foldM (λ grants guard, '(_, value) ← (guard : result IoError (bytes * bytes));
      Ok match from_bytes value with
         | Some record => if grant_active now (spiffe_to_string who) record then grants ++ [record] else grants
         | None => grants
         end) (Ok <$> l) acc = Ok grants ∧ (∀ g, g ∈ acc → g ∈ grants) ∧
    ∀ k v g, (k, v) ∈ l → from_bytes v = Some g → grant_active now (spiffe_to_string who) g = true →
      g ∈ grants) as Hgen.
  { induction l as [|[k v] l IH]; intros acc; [exists acc; set_solver|]. cbn [fmap list_fmap foldM].
    cbn [mbind result_bind]. match goal with |- context [foldM _ _ ?a] => destruct (IH a) as (gs & E & Hacc & Hl) end.
    exists gs. split_and!; [exact E| |].
    - intros g Hg. apply Hacc. destruct (from_bytes v); [|done]. case_match; set_solver.
    - intros k' v' g [[= -> ->]|Hin]%elem_of_cons Hv Ha; [|by eapply Hl].
      apply Hacc. rewrite Hv, Ha. set_solver. }
  destruct (Hgen (scan (contents db) ks_operator_grants "") []) as (gs & E & _ & Hl). exists gs.
  split; [exact E|]. intros g ((k & v & Hk & Hv) & Ho & Hn). apply (Hl k v g); [|done|by apply stored_grant_active].
  apply elem_of_scan. split; [exact Hk|]. by destruct k.
Qed.

Lemma has_active_grant_complete `{!FjallSpec F} `{!FjallReliable F} db who pred g :
  holds_grant (contents db) who g → pred g = true →
  has_active_grant now (spiffe_to_string who) pred db = Ok true.
Proof.
  intros ((k & v & Hk & Hv) & Ho & Hn) Hp. unfold has_active_grant. rewrite prefix_eq.
  assert ((k, v) ∈ scan (contents db) ks_operator_grants "") as Hin.
  { apply elem_of_scan. split; [exact Hk|]. by destruct k. }
  induction (scan _ _ _) as [|[k' v'] l IH]; [by apply not_elem_of_nil in Hin|]. cbn.
  destruct (decide ((k, v) = (k', v'))) as [[= <- <-]|Hne].
  { by rewrite Hv, stored_grant_active, Hp by done. }
  apply elem_of_cons in Hin as [?|Hin]; [done|]. specialize (IH Hin).
  destruct (from_bytes v'); [|done]. by destruct (_ && _).
Qed.

Lemma require_grants_complete `{!FjallSpec F} `{!FjallReliable F} {T} (request : Request T) enough sm c :
  caller request = Some c →
  (spiffe_kind c = IdKind.Ctrl ∨
   ∀ grants, (∀ g, holds_grant (contents (sm_db sm)) c g → g ∈ grants) → enough grants = true) →
  require_grants now request enough sm = (sm, Ok ()).
Proof.
  intros Hc Hor. unfold require_grants, caller_is_ctrl, caller_spiffe_id, caller_id, mbind, rpc_bind.
  rewrite Hc. cbn [lift_option mret rpc_ret]. case_bool_decide as Hk; [done|].
  destruct Hor as [|He]; [done|]. unfold view_or, view.
  destruct (active_grants_complete (sm_db sm) c) as (gs & -> & Hgs). cbn. by rewrite He.
Qed.

Lemma check_scope_complete `{!FjallSpec F} `{!FjallReliable F} {T} s (request : Request T) sm :
  has_scope (contents (sm_db sm)) (caller request) s → check_scope s request sm = (sm, Ok ()).
Proof.
  intros (c & Hc & Hk). destruct s as [|t| |]; cbn [check_scope].
  - apply (require_grants_complete _ _ _ c Hc). destruct Hk as [?|(_ & g & Hg)]; [by left|right].
    intros gs Hgs. apply negb_true_iff, bool_decide_eq_false. intros ->.
    apply Hgs in Hg. by apply not_elem_of_nil in Hg.
  - apply (require_grants_complete _ _ _ c Hc). destruct Hk as [?|(_ & g & Hg & Hr & Ht)]; [by left|right].
    intros gs Hgs. apply existsb_exists. exists g. split; [by apply list_elem_of_In, Hgs|].
    unfold tenant_write_grant. rewrite Hr. cbn. apply orb_true_iff. rewrite bool_decide_eq_true. tauto.
  - unfold require_cluster_admin, caller_spiffe_id, caller_id, mbind, rpc_bind. rewrite Hc.
    cbn [lift_option mret rpc_ret]. destruct Hk as [Hk|[Hk Hor]]; [by rewrite decide_True|].
    rewrite decide_False, decide_True by congruence. case_decide as Hb; [done|].
    destruct Hor as [|(g & Hg & Ha)]; [done|]. unfold view_or, view.
    by rewrite (has_active_grant_complete (sm_db sm) c oag_cluster_admin g Hg Ha).
  - unfold require_cluster_admin_write, caller_is_ctrl, caller_spiffe_id, caller_id, mbind, rpc_bind.
    rewrite Hc. cbn [lift_option mret rpc_ret]. case_bool_decide as Hc'; [done|].
    destruct Hk as [|[_ Hor]]; [done|]. case_decide as Hb; [done|].
    destruct Hor as [|(g & Hg & Ha & Hr)]; [done|]. unfold view_or, view.
    destruct (active_grants_complete (sm_db sm) c) as (gs & -> & Hgs). cbn.
    rewrite (proj2 (existsb_exists _ _)); [done|]. exists g. split; [by apply list_elem_of_In, Hgs|].
    unfold admin_write_grant. by rewrite Ha, Hr.
Qed.

(** The two checks that open a handler pass exactly for those who have the scope. *)
Lemma scope_check_exact `{!FjallSpec F} `{!FjallReliable F} {T} s (request : Request T) sm :
  (verify_caller request ≫= λ _, check_scope s request) sm = (sm, Ok ()) ↔
  has_scope (contents (sm_db sm)) (caller request) s.
Proof.
  split.
  - intros H. apply rpc_bind_ok in H as (sm1 & u & Hv & H).
    pose proof (pure_verify_caller request sm) as Hp. rewrite Hv in Hp. cbn in Hp. subst sm1.
    destruct (verify_caller_ok _ _ _ _ Hv) as (c & Hc & Hk). by eapply check_scope_sound.
  - intros Hs. assert (verify_caller request sm = (sm, Ok ())) as Hv.
    { destruct Hs as (c & Hc & Hk). unfold verify_caller, caller_id, mbind, rpc_bind. rewrite Hc.
      cbn [lift_option mret rpc_ret]. unfold ensure. rewrite (proj2 (orb_true_iff _ _)); [done|].
      rewrite !bool_decide_eq_true. tauto. }
    rewrite (rpc_bind_step _ _ _ _ _ Hv). by apply check_scope_complete.
Qed.

(** A computation that needs a scope of [who] refuses without it. *)
Definition scoped {A} (who : option SpiffeId) (s : Scope) (m : rpc A) : Prop :=
  ∀ sm, ¬ has_scope (contents (sm_db sm)) who s → ∃ e, m sm = (sm, Err e).
Lemma scoped_bind {A B} who s (m : rpc A) (k : A → rpc B) : scoped who s m → scoped who s (m ≫= k).
Proof.
  intros Hm sm Hno. destruct (Hm sm Hno) as [e He]. exists e. unfold mbind, rpc_bind. by rewrite He.
Qed.
Lemma scoped_check `{!FjallSpec F} {T} s (request : Request T) :
  scoped (caller request) s (verify_caller request ≫= λ _, check_scope s request).
Proof.
  intros sm Hno. pose proof (pure_verify_caller request sm) as Hv. unfold mbind, rpc_bind.
  destruct (verify_caller request sm) as [sm1 [u|e]] eqn:E; cbn in Hv; subst sm1; [|by exists e].
  destruct (verify_caller_ok _ _ _ _ E) as (c & Hc & Hk).
  pose proof (pure_check_scope s request sm) as Hs.
  destruct (check_scope s request sm) as [sm1 [u'|e]] eqn:E2; cbn in Hs; subst sm1; [|by exists e].
  exfalso. apply Hno. by eapply check_scope_sound.
Qed.
End Scopes.

(** ** The API as one handler *)
Inductive AdminRequest `{C : Core} : Type :=
| RCreateTenant (tenant_id : string)
| RSubmitWorkloadSpec (spec : WorkloadSpec)
| RGetVpaStatus (tenant_id workload_id : string)
| RListNodes
| RGetClusterStatus
| RGenerateJoinToken (node_kind : string)
| RSubmitCronWorkload (cron : CronWorkload)
| RUpsertSagRule (rule : option SagRule)
| RDeleteSagRule (rule_id : string)
| RStoreSecret (m : StoreSecretRequest)
| RGrantSecretAccess (m : SecretAclChange)
| RRevokeSecretAccess (m : SecretAclChange)
| RRequestDelegatedKey (m : DelegatedKeyRequest)
| RDeleteWorkload (tenant_id workload_id : string)
| RScaleWorkload (m : ScaleWorkloadRequest)
| RCordonNode (node_svid : string)
| REvictNode (m : EvictNodeRequest)
| RSetQuota (m : SetQuotaRequest)
| RGetQuota (m : SetQuotaRequest)
| RGrantOperatorAccess (m : GrantOperatorAccessRequest)
| RRevokeOperatorAccess (grant_id : string)
| RListOperatorAccess
| RListAuditLog (from_version max_entries : Z)
| RCreateNodePool (m : NodePoolCreateRequest)
| RDeleteNodePool (pool_id : string)
| RListNodePools
| RRegisterNodeEk (m : RegisterNodeEkRequest)
| RSetPcrPolicy (m : SetPcrPolicyRequest)
| RRevokeNodeEk (ek_fingerprint : string)
| RSetNodeTaints (node_id : string) (taints : list NodeTaint)
| RRemoveNodeTaint (m : RemoveNodeTaintRequest)
| RApply (m : ApplyRequest).

(** What a manifest of the right version needs. *)
Definition manifest_scope `{C : Core} (manifest : Manifest) : Scope :=
  if decide (mf_tenant_id manifest = "") then ClusterAdminWrite else TenantWrite (mf_tenant_id manifest).
Definition current_version `{C : Core} (manifest : Manifest) : bool :=
  bool_decide (mf_api_version manifest = "fleetos.dev/v1alpha1").

(** The scopes a request needs, all of them. *)
Definition needs `{C : Core} (r : AdminRequest) : list Scope :=
  match r with
  | RSubmitWorkloadSpec spec => [TenantWrite (ws_tenant_id spec)]
  | RSubmitCronWorkload cron => [TenantWrite (cw_tenant_id cron)]
  | RStoreSecret m => [TenantWrite (ssr_tenant_id m)]
  | RGrantSecretAccess m | RRevokeSecretAccess m => [TenantWrite (sac_tenant_id m)]
  | RDeleteWorkload tenant_id _ => [TenantWrite tenant_id]
  | RScaleWorkload m => [TenantWrite (swr_tenant_id m)]
  | RGetVpaStatus _ _ | RListNodes | RGetClusterStatus | RGetQuota _ | RListNodePools => [ReadAccess]
  | RRequestDelegatedKey _ | RListOperatorAccess | RListAuditLog _ _ => [ClusterAdmin]
  | RApply m => manifest_scope <$> filter current_version (default [] (areq_manifests m))
  | _ => [ClusterAdminWrite]
  end.
Definition is_apply `{C : Core} (r : AdminRequest) : bool :=
  match r with RApply _ => true | _ => false end.

(** ** Checks change nothing *)
Section AdminPure.
Context `{F : Fjall} `{C : Core} `{W : !Wire C} `{R : !Raft} `{G : !Rcgen} `{X : X509} `{A : Attest}.
Context `{FL : !FjallLog F} `{K : !Cron} `{DG : !DisruptionGuard} `{M : !MergeFormat}.
Variable cfg : AdminConfig.
Variable env : AdminEnv.

Lemma pure_cluster_admin_write {T} (request : Request T) : pure_rpc (cluster_admin_write cfg env request).
Proof. apply pure_bind; [apply pure_verify_caller|]. intros _. apply (pure_check_scope _ _ ClusterAdminWrite). Qed.
Lemma pure_cluster_admin {T} (request : Request T) : pure_rpc (cluster_admin cfg env request).
Proof. apply pure_bind; [apply pure_verify_caller|]. intros _. apply (pure_check_scope _ _ ClusterAdmin). Qed.
Lemma pure_tenant_write {T} (request : Request T) t : pure_rpc (tenant_write env request t).
Proof. apply pure_bind; [apply pure_verify_caller|]. intros _. apply (pure_require_grants _ request). Qed.
Lemma pure_read_access {T} (request : Request T) : pure_rpc (read_access env request).
Proof. apply pure_bind; [apply pure_verify_caller|]. intros _. apply (pure_require_grants _ request). Qed.
Lemma pure_view_or {E T} c (f : Db → result E T) : pure_rpc (view_or c f).
Proof. apply pure_view. Qed.
Lemma pure_validate_replicas l : pure_rpc (validate_replicas l).
Proof.
  induction l as [|[role count] l IH]; [apply pure_mret|]. cbn [validate_replicas].
  unfold validate_identifier. eauto with rpc.
Qed.
Lemma pure_check_tenant_quota t spec : pure_rpc (check_tenant_quota t spec).
Proof.
  unfold check_tenant_quota, view_or. apply pure_bind; [apply pure_view|]. intros [q|]; [|apply pure_mret].
  apply pure_bind; [apply pure_view|]. intros [[cpu mem] n]. destruct (workload_usage spec). eauto with rpc.
Qed.
Lemma pure_parse_all ids : pure_rpc (parse_all ids).
Proof. induction ids as [|s ids IH]; [apply pure_mret|]. cbn [parse_all]. eauto with rpc. Qed.
Lemma pure_validate_taints seen ts : pure_rpc (validate_taints seen ts).
Proof.
  revert seen. induction ts as [|t ts IH]; intros seen; [apply pure_mret|]. cbn [validate_taints].
  unfold nonempty, validate_taint_effect. eauto with rpc.
Qed.
Lemma pure_ek_fingerprint_of cert pub : pure_rpc (ek_fingerprint_of cfg env cert pub).
Proof.
  unfold ek_fingerprint_of. apply pure_bind; [apply pure_ensure|]. intros _.
  apply pure_bind; [case_decide; eauto with rpc|]. eauto with rpc.
Qed.
Lemma pure_allowed (m : rpc ()) : pure_rpc m → pure_rpc (allowed m).
Proof. intros Hm sm. unfold allowed. specialize (Hm sm). by destruct (m sm) as [sm1 [|]]. Qed.
Lemma may_apply_check {T} (request : Request T) manifest :
  may_apply cfg env request manifest =
  allowed (check_scope (ac_operators cfg) (now_u64 env) (manifest_scope manifest) request).
Proof. unfold may_apply, manifest_scope. by case_decide. Qed.
Lemma pure_process_manifest manifest : pure_rpc (process_manifest manifest).
Proof.
  unfold process_manifest. destruct (manifest_target manifest) as [[ks k]|]; [|apply pure_mret].
  unfold view_or. eauto with rpc.
Qed.
Lemma pure_loop {T} (request : Request T) manifests pass :
  pure_rpc (apply_manifests_loop cfg env request manifests pass).
Proof.
  revert pass. induction manifests as [|m manifests IH]; intros pass; [apply pure_mret|].
  cbn [apply_manifests_loop]. destruct (negb _); [apply IH|].
  apply pure_bind; [rewrite may_apply_check; apply pure_allowed, pure_check_scope|].
  intros [|]; [|apply IH]. apply pure_bind; [apply pure_process_manifest|]. intros p. apply IH.
Qed.
End AdminPure.
Ltac solve_pure :=
  first
  [ apply pure_mret | apply pure_ensure | apply pure_lift_option | apply pure_lift | apply pure_view_or
  | apply pure_view | apply pure_fail | apply pure_cluster_admin_write | apply pure_tenant_write
  | apply pure_cluster_admin | apply pure_read_access | apply pure_validate_replicas
  | apply pure_check_tenant_quota | apply pure_parse_all | apply pure_validate_taints
  | apply pure_ek_fingerprint_of | apply pure_verify_caller | apply pure_loop ].

Section AdminFacts.
Context `{F : Fjall} `{C : Core} `{W : !Wire C} `{R : !Raft} `{G : !Rcgen} `{X : X509} `{A : Attest}.
Context `{FL : !FjallLog F} `{K : !Cron} `{DG : !DisruptionGuard} `{M : !MergeFormat}.
Context `{AE : Aead} `{MK : MasterKeyProvider} `{PE : !Postcard EnvelopeSecret}.
Context `{PK : !Postcard DelegatedSigningKey}.
Variable sag_rule_id : string → string → option string → option Z → string → option string →
  option Z → string → string.
Variable operator_grant_id : string → string → Z → Z → bool → bool → list string → string.
Variable cfg : AdminConfig.
Variable env : AdminEnv.

(** The outcome, without the contents of the response. *)
Definition run {T} (m : rpc T) : rpc () := m ≫= λ _, mret ().
Definition handle (peer : option PeerConnectInfo) (r : AdminRequest) : rpc () :=
  let req {T} (m : T) : Request T := {| rq_peer := peer; rq_message := m |} in
  match r with
  | RCreateTenant t => run (create_tenant cfg env (req t))
  | RSubmitWorkloadSpec spec => run (submit_workload_spec env (req spec))
  | RGetVpaStatus t w => run (get_vpa_status env (req (t, w)))
  | RListNodes => run (list_nodes env (req ()))
  | RGetClusterStatus => run (get_cluster_status env (req ()))
  | RGenerateJoinToken kind => run (generate_join_token cfg env (req kind))
  | RSubmitCronWorkload cron => run (submit_cron_workload env (req cron))
  | RUpsertSagRule rule => run (upsert_sag_rule sag_rule_id cfg env (req rule))
  | RDeleteSagRule rule_id => run (delete_sag_rule cfg env (req rule_id))
  | RStoreSecret m => run (store_secret env (req m))
  | RGrantSecretAccess m => run (grant_secret_access env (req m))
  | RRevokeSecretAccess m => run (revoke_secret_access env (req m))
  | RRequestDelegatedKey m => run (admin_request_delegated_key cfg env (req m))
  | RDeleteWorkload t w => run (delete_workload env (req (t, w)))
  | RScaleWorkload m => run (scale_workload env (req m))
  | RCordonNode n => run (cordon_node cfg env (req n))
  | REvictNode m => run (evict_node cfg env (req m))
  | RSetQuota m => run (set_quota cfg env (req m))
  | RGetQuota m => run (get_quota env (req m))
  | RGrantOperatorAccess m => run (grant_operator_access operator_grant_id cfg env (req m))
  | RRevokeOperatorAccess g => run (revoke_operator_access cfg env (req g))
  | RListOperatorAccess => run (list_operator_access cfg env (req ()))
  | RListAuditLog v n => run (list_audit_log cfg env (req (v, n)))
  | RCreateNodePool m => run (create_node_pool cfg env (req m))
  | RDeleteNodePool p => run (delete_node_pool cfg env (req p))
  | RListNodePools => run (admin_list_node_pools env (req ()))
  | RRegisterNodeEk m => run (register_node_ek cfg env (req m))
  | RSetPcrPolicy m => run (set_pcr_policy cfg env (req m))
  | RRevokeNodeEk f => run (revoke_node_ek cfg env (req f))
  | RSetNodeTaints n ts => run (set_node_taints cfg env (req (n, ts)))
  | RRemoveNodeTaint m => run (remove_node_taint cfg env (req m))
  | RApply m => run (admin_apply cfg env (req m))
  end.

(** *** Without its scope a request is refused *)
Context `{!FjallSpec F}.
#[local] Abbreviation who peer := (peer ≫= ci_spiffe_id).
#[local] Abbreviation scoped := (scoped (ac_operators cfg) (now_u64 env)).

Lemma scoped_cluster_admin_write {T} peer (m : T) :
  scoped (who peer) ClusterAdminWrite (cluster_admin_write cfg env (Build_Request peer m)).
Proof. apply (scoped_check _ _ ClusterAdminWrite (Build_Request peer m)). Qed.
Lemma scoped_cluster_admin {T} peer (m : T) :
  scoped (who peer) ClusterAdmin (cluster_admin cfg env (Build_Request peer m)).
Proof. apply (scoped_check _ _ ClusterAdmin (Build_Request peer m)). Qed.
Lemma scoped_tenant_write {T} peer (m : T) t :
  scoped (who peer) (TenantWrite t) (tenant_write env (Build_Request peer m) t).
Proof. apply (scoped_check _ _ (TenantWrite t) (Build_Request peer m)). Qed.
Lemma scoped_read_access {T} peer (m : T) :
  scoped (who peer) ReadAccess (read_access env (Build_Request peer m)).
Proof. apply (scoped_check _ _ ReadAccess (Build_Request peer m)). Qed.

Ltac solve_scoped :=
  unfold run, create_tenant, submit_workload_spec, get_vpa_status, list_nodes, get_cluster_status,
    generate_join_token, submit_cron_workload, upsert_sag_rule, delete_sag_rule, store_secret,
    grant_secret_access, revoke_secret_access, acl_change, admin_request_delegated_key,
    delete_workload, scale_workload, cordon_node, evict_node, set_quota, get_quota,
    grant_operator_access, revoke_operator_access, list_operator_access, list_audit_log,
    create_node_pool, delete_node_pool, admin_list_node_pools, register_node_ek, set_pcr_policy,
    revoke_node_ek, set_node_taints, remove_node_taint;
  cbn [rq_message]; do 2 apply scoped_bind;
  first [apply scoped_cluster_admin_write | apply scoped_cluster_admin | apply scoped_tenant_write
        | apply scoped_read_access].

Lemma handle_scoped peer r s :
  is_apply r = false → needs r = [s] →
  scoped (who peer) s (handle peer r).
Proof.
  destruct r; intros Ha Hs; try done; injection Hs as <-; cbn [handle];
    try (destruct m as [m1 m2]); solve_scoped.
Qed.

(** *** Manifests: one that is not allowed stops them all *)
Lemma loop_invalid {T} (request : Request T) c manifests pass pass' sm sm' :
  caller request = Some c → (spiffe_kind c = IdKind.Ctrl ∨ spiffe_kind c = IdKind.Operator) →
  apply_manifests_loop cfg env request manifests pass sm = (sm', Ok pass') →
  (pass_any_invalid pass = true ∨ ∃ m, m ∈ manifests ∧ current_version m = true ∧
    ¬ has_scope (ac_operators cfg) (now_u64 env) (contents (sm_db sm)) (caller request)
      (manifest_scope m)) →
  pass_any_invalid pass' = true.
Proof.
  intros Hc Hk. revert pass. induction manifests as [|m manifests IH]; intros pass H Hor.
  { apply mret_ok in H as [_ <-]. destruct Hor as [?|(m & Hm & _)]; [done|]. by apply not_elem_of_nil in Hm. }
  cbn [apply_manifests_loop] in H. change (bool_decide (mf_api_version m = _)) with (current_version m) in H.
  destruct (current_version m) eqn:Hv; cbn [negb] in H.
  2:{ eapply IH; [done|]. by left. }
  apply rpc_bind_ok in H as (sm1 & b & Hb & H).
  assert (sm1 = sm ∧ (b = true → has_scope (ac_operators cfg) (now_u64 env) (contents (sm_db sm))
    (caller request) (manifest_scope m))) as [-> Hs].
  { rewrite may_apply_check in Hb. unfold allowed in Hb.
    pose proof (pure_check_scope (ac_operators cfg) (now_u64 env) (manifest_scope m) request sm) as Hp.
    destruct (check_scope _ _ _ request sm) as [sm2 [u|e]] eqn:E; cbn in Hp; subst sm2;
      injection Hb as <- <-; split; try done. intros _. by eapply check_scope_sound. }
  destruct b; cbn [negb] in H; [|eapply IH; [done|by left]].
  apply rpc_bind_ok in H as (sm1 & p & Hp & H).
  pose proof (pure_process_manifest m sm) as Hpure. rewrite Hp in Hpure. cbn in Hpure. subst sm1.
  eapply IH; [done|]. destruct Hor as [?|(m' & Hm & Hv' & Hno)]; [by left|].
  apply elem_of_cons in Hm as [->|Hm]; [exfalso; by apply Hno, Hs|]. right. by exists m'.
Qed.

Lemma apply_scoped peer m s sm :
  s ∈ needs (RApply m) → ¬ has_scope (ac_operators cfg) (now_u64 env) (contents (sm_db sm)) (who peer) s →
  (handle peer (RApply m) sm).1 = sm.
Proof.
  intros Hs Hno. cbn [handle]. set (request := Build_Request peer m).
  assert ((admin_apply cfg env request sm).1 = sm) as E.
  2:{ unfold run, mbind, rpc_bind. destruct (admin_apply cfg env request sm) as [sm1 [|]]; cbn in E; by subst. }
  unfold admin_apply. pose proof (pure_verify_caller request sm) as Hv. unfold mbind at 1, rpc_bind at 1.
  destruct (verify_caller request sm) as [sm1 [u|e]] eqn:Ev; cbn in Hv; subst sm1; [|done].
  destruct (verify_caller_ok _ _ _ _ Ev) as (c & Hc & Hk).
  cbn in Hs. subst request. cbn [rq_message]. destruct (areq_manifests m) as [ms|]; [|done].
  set (request := Build_Request peer m) in *. set (pass0 := Build_ApplyPass _ _ _ _).
  unfold mbind at 1, rpc_bind at 1. cbn. unfold mbind at 1, rpc_bind at 1.
  pose proof (pure_loop cfg env request ms pass0 sm) as Hp.
  destruct (apply_manifests_loop cfg env request ms pass0 sm) as [sm1 [pass|e]] eqn:El; cbn in Hp;
    subst sm1; [|done].
  rewrite (loop_invalid request c ms pass0 pass sm sm Hc Hk El); [done|]. right.
  apply list_elem_of_fmap in Hs as (m0 & -> & Hm). apply list_elem_of_filter in Hm as [Hcur Hm].
  exists m0. split_and!; [done|by destruct (current_version m0)|done].
Qed.


(** *** Every change is a proposal in the caller's name *)
Inductive audited_run (actor request_id : string) : FjallStateMachine → FjallStateMachine → Prop :=
| audited_refl sm : audited_run actor request_id sm sm
| audited_step sm c ctx sm1 r sm2 :
    ac_actor ctx = actor → ac_request_id ctx = request_id →
    client_write sm {| cmd := c; audit := Some ctx |} = (sm1, r) →
    audited_run actor request_id sm1 sm2 → audited_run actor request_id sm sm2.
Lemma audited_trans actor rid sm1 sm2 sm3 :
  audited_run actor rid sm1 sm2 → audited_run actor rid sm2 sm3 → audited_run actor rid sm1 sm3.
Proof. induction 1; [done|]. intros. econstructor; eauto. Qed.

Definition actor (peer : option PeerConnectInfo) : string :=
  default "unknown" (spiffe_to_string <$> (peer ≫= ci_spiffe_id)).
Definition audited {T} (peer : option PeerConnectInfo) (m : rpc T) : Prop :=
  ∀ sm, audited_run (actor peer) (ad_request_id env) sm (m sm).1.
Lemma audited_bind {T U} peer (m : rpc T) (k : T → rpc U) :
  audited peer m → (∀ a, audited peer (k a)) → audited peer (m ≫= k).
Proof.
  intros Hm Hk sm. unfold mbind, rpc_bind. specialize (Hm sm).
  destruct (m sm) as [sm1 [a|e]]; [|done]. cbn in Hm. eapply audited_trans; [done|]. apply Hk.
Qed.
Lemma audited_pure {T} peer (m : rpc T) : pure_rpc m → audited peer m.
Proof. intros Hm sm. rewrite Hm. constructor. Qed.
Lemma audited_propose {T} peer (m : T) target c :
  audited peer (propose env (Build_Request peer m) target c).
Proof.
  intros sm. unfold propose, proposes.
  destruct (client_write sm _) as [sm1 r] eqn:E. cbn.
  eapply audited_step; [| |exact E|constructor]; done.
Qed.

Lemma audited_drain peer m ps : audited peer (drain env (Build_Request peer m) ps).
Proof.
  induction ps as [|p ps IH]; [apply audited_pure, pure_mret|]. cbn [drain].
  apply audited_bind; [apply audited_propose|]. intros _.
  apply audited_bind; [apply audited_propose|]. by intros _.
Qed.

Ltac solve_audited :=
  repeat first
  [ progress intros
  | apply audited_bind
  | apply audited_propose
  | apply audited_drain
  | apply audited_pure; solve_pure
  | case_match ].

(** C21. The admin API changes the cluster only through the log and in the caller's name:
    whatever a request returns, the state it leaves is reached by proposals alone, each
    with an audit context that names the caller and the request. *)
Theorem admin_changes_audited peer r sm :
  audited_run (actor peer) (ad_request_id env) sm (handle peer r sm).1.
Proof.
  revert sm. change (audited peer (handle peer r)).
  destruct r; cbn [handle]; unfold run; (apply audited_bind; [|intros; apply audited_pure, pure_mret]);
  unfold create_tenant, submit_workload_spec, get_vpa_status, list_nodes, get_cluster_status,
    generate_join_token, submit_cron_workload, upsert_sag_rule, delete_sag_rule, store_secret,
    grant_secret_access, revoke_secret_access, acl_change, admin_request_delegated_key,
    delete_workload, scale_workload, cordon_node, evict_node, set_quota, get_quota,
    grant_operator_access, revoke_operator_access, list_operator_access, list_audit_log,
    create_node_pool, delete_node_pool, admin_list_node_pools, register_node_ek, set_pcr_policy,
    revoke_node_ek, set_node_taints, remove_node_taint, admin_apply, optional_role,
    validate_identifier, nonempty, validate_init_containers, validate_taint_effect,
    node_registered, caller_spiffe_id, caller_id; cbn [rq_message].
  all: solve_audited.
Qed.
End AdminFacts.

(** ** Witnesses *)
Import DemoInstances.
Import LeaderDemo.
#[local] Existing Instances demo_rcgen demo_rcgen_spec demo_delegated_codec demo_x509 demo_attest mem_log.
#[local] Existing Instance NoopDisruptionGuard.
#[local] Instance codec_ManifestPodSpec : Codec ManifestPodSpec :=
  codec_iso (λ r : ManifestPodSpec, (mps_resources r, (mps_env r, mps_labels r)))
    (λ '(x1, (x2, x3)), Build_ManifestPodSpec x1 x2 x3) ltac:(by intros []).
#[local] Instance codec_ManifestWorkloadSpec : Codec ManifestWorkloadSpec :=
  codec_iso (λ r : ManifestWorkloadSpec, (mws_image r, (mws_replicas r, (mws_pod_spec r,
      (mws_placement r, mws_autoscaling r)))))
    (λ '(x1, (x2, (x3, (x4, x5)))), Build_ManifestWorkloadSpec x1 x2 x3 x4 x5) ltac:(by intros []).
#[local] Instance demo_format : MergeFormat := {|
  debug_replicas _ := ""; debug_resources _ := ""; debug_env _ := ""; debug_labels _ := "";
  debug_autoscaling _ := ""; debug_service _ := ""; debug_service_option _ := "";
  manifest_workload := prost_of codec_ManifestWorkloadSpec |}.

Definition demo_admin_config : AdminConfig := {|
  ac_operators := {| oc_bootstrap_admins := []; oc_allowed_operators := []; oc_grant_ttl_secs := 3600 |};
  ac_join_token_ttl_secs := 3600; ac_node_ttl_secs := 3600; ac_ca_data_control := Some demo_bundle;
  ac_delegated_key_ttl_secs := 14400; ac_svid_refresh_fraction := Float64.f64_dyadic 3 (-2);
  ac_allocator := {| tenant_block_prefix := 1 |}; ac_manufacturer_roots := demo_roots |}.
Definition demo_admin_env : AdminEnv := {|
  ad_now := 9 * NANOS; ad_request_id := "r1"; ad_token := "token"; ad_dek := ""; ad_nonce := "";
  ad_wrap_nonce := ""; ad_key := Some "key"; ad_raft_term := 1 |}.

(** An operator who may write to the tenant [acme]. *)
Definition demo_operator : SpiffeId := spiffe_new "dc" "ops" IdKind.Operator "alice".
Definition demo_operator_peer : option PeerConnectInfo := Some {| ci_spiffe_id := Some demo_operator |}.
Definition demo_granted : FjallStateMachine :=
  (apply demo_sm [demo_entry 7 (GrantOperatorAccess {|
     oag_grant_id := "g1"; oag_operator_id := spiffe_to_string demo_operator; oag_granted_by := "root";
     oag_granted_at_unix := 0; oag_expires_at_unix := 100; oag_cluster_admin := false;
     oag_read_only := false; oag_tenants := ["acme"] |});
   demo_entry 8 (StoreNodePool {|
     np_pool_id := "pool"; np_node_kind := Agent; np_desired_count := 3; np_vcpus := 4;
     np_memory_mb := 8192; np_disk_gb := 100; np_region_hint := ""; np_last_applied_bytes := "" |})]).1.
#[local] Abbreviation demo_handle :=
  (handle (λ _ _ _ _ _ _ _ _, "rule") (λ _ _ _ _ _ _ _, "grant") demo_admin_config demo_admin_env
    demo_operator_peer).


(** A manifest is authorised by the tenant it names, whatever it is of: the operator may
    not delete the node pool, and resizes it with a manifest that says [acme]. *)
Definition demo_pool_manifest : ApplyRequest := {|
  areq_manifests := Some [{|
    mf_api_version := "fleetos.dev/v1alpha1"; mf_kind := "NodePool"; mf_name := "pool";
    mf_tenant_id := "acme"; mf_spec := Some (SpecNodePool {|
      mnp_desired_count := Some 1000; mnp_vcpus := None; mnp_memory_mb := None; mnp_disk_gb := None;
      mnp_region_hint := None |}) |}];
  areq_dry_run := false |}.
Lemma tenant_grant_resizes_node_pool :
  succeeds (demo_handle (RDeleteNodePool "pool") demo_granted) = false ∧
  succeeds (demo_handle (RApply demo_pool_manifest) demo_granted) = true ∧
  (np_desired_count <$>
    (contents (sm_db (demo_handle (RApply demo_pool_manifest) demo_granted).1) !! (ks_node_pools, "pool")
     ≫= from_bytes)) = Some 1000.
Proof. repeat split; vm_refl. Qed.
