(* ===== verification/AdminQuota.v ===== *)
(** * AdminQuota: what the quota of a tenant and the budgets of its workloads guarantee

    The quota check of [submit_workload_spec] and [scale_workload], and the eviction of
    a node within the disruption budgets, over the handlers of [Admin]. *)

From S2P Require Import Prelude.
From S2P Require Import Storage.
From S2P Require Import Core.
From S2P Require Import Records.
From S2P Require Import WireInstance.
From S2P Require Import Schema.
From S2P Require Import StateMachine.
From S2P Require Import Apply.
From S2P Require Import Raft.
From S2P Require Import Rpc.
From S2P Require Import Invariant.
From S2P Require Import Demo.
From S2P Require Import Frame.
From S2P Require Import LogStore.
From S2P Require Import Engine.
From S2P Require Import Disruption.
From S2P Require Import DummyIp.
From S2P Require Import Controllers.
From S2P Require Import Reconcile.
From S2P Require Import Ca.
From S2P Require Import Issuance.
From S2P Require Import Chains.
From S2P Require Import Attestation.
From S2P Require Import AdminAuth.
From S2P Require Import Admin.
From S2P Require Import AdminSpec.

(** ** Filters that keep everything or nothing *)
Lemma filter_all {A} (P : A → Prop) `{!∀ a, Decision (P a)} (l : list A) :
  (∀ a, a ∈ l → P a) → filter P l = l.
Proof.
  induction l as [|a l IH]; intros Hl; [done|]. rewrite filter_cons_True by (apply Hl; left).
  f_equal. apply IH. intros b Hb. apply Hl. by right.
Qed.
Lemma filter_none {A} (P : A → Prop) `{!∀ a, Decision (P a)} (l : list A) :
  (∀ a, a ∈ l → ¬ P a) → filter P l = [].
Proof.
  induction l as [|a l IH]; intros Hl; [done|]. rewrite filter_cons_False by (apply Hl; left).
  apply IH. intros b Hb. apply Hl. by right.
Qed.

(** ** Scans under an insertion *)
Lemma scan_insert (st : store) ks k v :
  scan (<[(ks, k) := v]> st) ks "" ≡ₚ (k, v) :: scan (delete (ks, k) st) ks "".
Proof.
  unfold scan. rewrite !merge_sort_Permutation.
  rewrite <- (insert_delete_eq st (ks, k) v), map_to_list_insert by apply lookup_delete_eq.
  cbn. unfold scan_entry at 1. cbn. rewrite bool_decide_eq_true_2 by done. by destruct k.
Qed.
Lemma scan_delete (st : store) ks k v :
  st !! (ks, k) = Some v → scan st ks "" ≡ₚ (k, v) :: scan (delete (ks, k) st) ks "".
Proof. intros H. by rewrite <- scan_insert, insert_id. Qed.
Lemma scan_delete_none (st : store) ks k : st !! (ks, k) = None → delete (ks, k) st = st.
Proof. apply delete_id. Qed.

(** ** What a tenant uses *)
Section Usage.
Context `{C : Core} `{W : !Wire C}.

Definition footprint (rec : WorkloadSpecRecord) : Z * Z :=
  match decode (wsr_spec_bytes rec) with Some spec => workload_usage spec | None => (0, 0) end.
Definition records_of (tenant_id : string) (kvs : list (bytes * bytes)) : list WorkloadSpecRecord :=
  filter (λ rec, wsr_tenant_id rec = tenant_id) (omap (λ kv, from_bytes kv.2) kvs).
Definition sum_of (f : WorkloadSpecRecord → Z) (recs : list WorkloadSpecRecord) : Z :=
  foldr (λ rec acc, f rec + acc) 0 recs.

Definition cpu_used (st : store) (t : string) : Z :=
  sum_of (fst ∘ footprint) (records_of t (scan st ks_workloads "")).
Definition memory_used (st : store) (t : string) : Z :=
  sum_of (snd ∘ footprint) (records_of t (scan st ks_workloads "")).
Definition workloads_used (st : store) (t : string) : Z :=
  sum_of (λ _, 1) (records_of t (scan st ks_workloads "")).

Lemma records_of_cons t k v kvs :
  records_of t ((k, v) :: kvs) =
  match from_bytes v with
  | Some rec => if decide (wsr_tenant_id rec = t) then rec :: records_of t kvs else records_of t kvs
  | None => records_of t kvs
  end.
Proof.
  unfold records_of. cbn [omap list_omap]. cbn [snd].
  destruct (from_bytes v) as [rec|]; [|done]. by rewrite filter_cons.
Qed.
Lemma sum_of_perm f l l' : l ≡ₚ l' → sum_of f l = sum_of f l'.
Proof. unfold sum_of. induction 1; cbn; lia. Qed.
Lemma records_of_perm t l l' : l ≡ₚ l' → records_of t l ≡ₚ records_of t l'.
Proof. intros H. unfold records_of. by rewrite H. Qed.
Lemma sum_of_nonneg f l : (∀ r, 0 ≤ f r) → 0 ≤ sum_of f l.
Proof. intros Hf. unfold sum_of. induction l as [|r l IH]; cbn; [lia|]. specialize (Hf r). lia. Qed.
Lemma footprint_nonneg rec : 0 ≤ (footprint rec).1 ∧ 0 ≤ (footprint rec).2.
Proof.
  unfold footprint. destruct (decode _) as [spec|]; [|done]. unfold workload_usage. cbn [fst snd].
  split; apply Z.mod_pos_bound; lia.
Qed.

(** Storing a record adds at most what the record adds. *)
Lemma sum_of_insert (f : WorkloadSpecRecord → Z) (t : string) (st : store) (k v : bytes) rec :
  (∀ r, 0 ≤ f r) → from_bytes v = Some rec → wsr_tenant_id rec = t →
  sum_of f (records_of t (scan (<[(ks_workloads, k) := v]> st) ks_workloads "")) ≤
  sum_of f (records_of t (scan st ks_workloads "")) + f rec.
Proof.
  intros Hf Hv Ht. rewrite (sum_of_perm _ _ _ (records_of_perm _ _ _ (scan_insert st _ k v))).
  rewrite records_of_cons, Hv, decide_True by done. cbn [sum_of foldr].
  change (foldr _ 0 ?l) with (sum_of f l).
  destruct (st !! (ks_workloads, k)) as [v'|] eqn:Hk; [|rewrite (scan_delete_none _ _ _ Hk); lia].
  rewrite (sum_of_perm _ _ _ (records_of_perm t _ _ (scan_delete _ _ _ _ Hk))), records_of_cons.
  destruct (from_bytes v') as [r'|]; [|lia]. case_decide; [|lia]. cbn [sum_of foldr].
  change (foldr _ 0 ?l) with (sum_of f l). specialize (Hf r'). lia.
Qed.
End Usage.

Section Quota.
Context `{F : Fjall} `{C : Core} `{W : !Wire C} `{!FjallSpec F}.

(** One step of [compute_tenant_usage]. *)
Definition usage_step (t : string) (acc : Z * Z * Z) (v : bytes) : Z * Z * Z :=
  let '(cpu, memory, count) := acc in
  match (from_bytes v : option WorkloadSpecRecord) with
  | Some rec =>
      if decide (wsr_tenant_id rec = t)
      then
        match (decode (wsr_spec_bytes rec) : option WorkloadSpec) with
        | Some spec => (wrap_u64 (cpu + (workload_usage spec).1), wrap_u64 (memory + (workload_usage spec).2),
                        wrap_u32 (count + 1))
        | None => (cpu, memory, wrap_u32 (count + 1))
        end
      else acc
  | None => acc
  end.
Lemma usage_fold t l cpu memory count :
  foldl (λ acc kv, usage_step t acc kv.2) (wrap_u64 cpu, wrap_u64 memory, wrap_u32 count) l =
  (wrap_u64 (cpu + sum_of (fst ∘ footprint) (records_of t l)),
   wrap_u64 (memory + sum_of (snd ∘ footprint) (records_of t l)),
   wrap_u32 (count + sum_of (λ _, 1) (records_of t l))).
Proof.
  revert cpu memory count. induction l as [|[k v] l IH]; intros cpu memory count.
  { cbn. by rewrite !Z.add_0_r. }
  cbn [foldl snd]. rewrite records_of_cons. unfold usage_step at 2.
  destruct (from_bytes v) as [rec|]; [|apply IH]. case_decide; [|apply IH].
  assert (∀ f, sum_of f (rec :: records_of t l) = f rec + sum_of f (records_of t l)) as E by done.
  rewrite !E. clear E. cbn [compose].
  assert (footprint rec = default (0, 0) (workload_usage <$> decode (wsr_spec_bytes rec))) as Hf.
  { unfold footprint. by destruct (decode _). }
  change ((fst ∘ footprint) rec) with (footprint rec).1. change ((snd ∘ footprint) rec) with (footprint rec).2.
  rewrite Hf. destruct (decode (wsr_spec_bytes rec)) as [spec|]; cbn [fmap option_fmap option_map default fst snd];
    unfold wrap_u64, wrap_u32 in *; rewrite ?Zplus_mod_idemp_l, IH, ?Z.add_0_l, ?Z.add_assoc; done.
Qed.

Lemma compute_tenant_usage_ok db t cpu memory count :
  compute_tenant_usage db t = Ok (cpu, memory, count) →
  cpu = wrap_u64 (cpu_used (contents db) t) ∧ memory = wrap_u64 (memory_used (contents db) t) ∧
  count = wrap_u32 (workloads_used (contents db) t).
Proof.
  intros H. assert (foldM (λ acc guard, '(k, v) ← map_err StorageIo guard; Ok (usage_step t acc v))
    (prefix db ks_workloads "") (0, 0, 0) = Ok (cpu, memory, count)) as H'.
  { rewrite <- H. unfold compute_tenant_usage. apply foldM_ext. intros [[a b] c] guard _.
    destruct guard as [[k v]|]; [|done]. cbn [map_err mbind result_bind]. unfold usage_step.
    destruct (from_bytes v) as [rec|]; [|done]. case_decide; [|done].
    destruct (decode _) as [spec|]; [|done]. by destruct (workload_usage spec). }
  apply (foldM_opened _ (λ acc _ v, usage_step t acc v) _ _ _ _ (prefix_spec db ks_workloads "")) in H'.
  change (0, 0, 0) with (wrap_u64 0, wrap_u64 0, wrap_u32 0) in H'. rewrite (usage_fold t) in H'.
  by injection H' as -> -> ->.
Qed.

Definition quota_of (st : store) (t : string) : option TenantQuotaRecord :=
  st !! (ks_tenant_quotas, t) ≫= from_bytes.
Lemma get_tenant_quota_ok db t r : get_tenant_quota db t = Ok r → r = quota_of (contents db) t.
Proof.
  unfold get_tenant_quota, get_record, quota_of. intros H. apply bind_ok in H as (v & Hv & H).
  destruct (get db ks_tenant_quotas t) as [v'|] eqn:Hg; [|done]. injection Hv as ->.
  apply get_spec in Hg as <-. destruct v as [b|]; [|by injection H as <-]. cbn.
  destruct (from_bytes b); [|done]. by injection H as <-.
Qed.

Lemma check_tenant_quota_ok t spec sm sm' u q :
  check_tenant_quota t spec sm = (sm', Ok u) → quota_of (contents (sm_db sm)) t = Some q →
  let st := contents (sm_db sm) in
  wrap_u32 (wrap_u32 (workloads_used st t) + 1) ≤ tq_max_workloads q ∧
  wrap_u64 (wrap_u64 (cpu_used st t) + (workload_usage spec).1) ≤ tq_max_cpu_millicores q ∧
  wrap_u64 (wrap_u64 (memory_used st t) + (workload_usage spec).2) ≤ tq_max_memory_bytes q.
Proof.
  intros H Hq st. unfold check_tenant_quota in H.
  apply rpc_bind_ok in H as (sm1 & r & [-> Hr%get_tenant_quota_ok]%view_or_ok & H).
  rewrite Hq in Hr. subst r.
  apply rpc_bind_ok in H as (sm1 & [[cpu mem] n] & [-> Hu]%view_or_ok & H).
  apply compute_tenant_usage_ok in Hu as (-> & -> & ->). destruct (workload_usage spec) as [c m].
  apply rpc_bind_ok in H as (sm1 & u1 & [-> H1%negb_true_iff%Z.ltb_ge]%ensure_ok & H).
  apply rpc_bind_ok in H as (sm1 & u2 & [-> H2%negb_true_iff%Z.ltb_ge]%ensure_ok & H).
  apply ensure_ok in H as [-> H3%negb_true_iff%Z.ltb_ge]. by split_and!.
Qed.
End Quota.

Section Admission.
Context `{F : Fjall} `{C : Core} `{W : !Wire C} `{R : !Raft} `{G : !Rcgen}.
Context `{!FjallSpec F} `{!RaftSpec R}.
Variable env : AdminEnv.

Lemma admin_propose_ok {T} (request : Request T) target c sm sm' u :
  propose env request target c sm = (sm', Ok u) →
  ∃ e ctx r, payload e = Normal {| cmd := c; audit := Some ctx |} ∧ apply_entry sm e = (sm', Ok r).
Proof.
  unfold propose, proposes. destruct (client_write sm _) as [sm1 [r|err]] eqn:E; [|done].
  intros [= <- <-]. destruct (client_write_ok _ _ _ _ E) as (e & He & Ha). eauto.
Qed.

(** What an accepted spec has passed, and the state it leaves. *)
Lemma submit_workload_spec_ok request sm sm' b :
  let spec := rq_message request in
  submit_workload_spec env request sm = (sm', Ok b) →
  (∃ u, check_tenant_quota (ws_tenant_id spec) spec sm = (sm, Ok u)) ∧
  ∃ v, from_bytes v = Some {|
      wsr_tenant_id := ws_tenant_id spec; wsr_workload_id := ws_workload_id spec;
      wsr_spec_bytes := encode_to_vec spec; wsr_last_applied_bytes := "" |} ∧
    ∀ k, contents (sm_db sm') !! (ks_workloads, k) =
      <[(ks_workloads, pair_key (ws_tenant_id spec) (ws_workload_id spec)) := v]>
        (contents (sm_db sm)) !! (ks_workloads, k).
Proof.
  intros spec H. unfold submit_workload_spec in H.
  change (rq_message request) with spec in H.
  unfold validate_identifier, nonempty, validate_init_containers in H.
  repeat match type of H with
  | (check_tenant_quota _ _ ≫= _) _ = _ => fail 1
  | (?m ≫= _) _ = _ => apply pure_bind_ok in H as (? & _ & H); [|first [solve_pure | destruct (ws_pod_spec spec); solve_pure]]
  end.
  apply pure_bind_ok in H as (u & Hq & H); [|apply pure_check_tenant_quota].
  apply rpc_bind_ok in H as (sm1 & u1 & (e & ctx & r & He & Ha)%admin_propose_ok & [= <- <-]).
  split; [by exists u|]. destruct (apply_entry_command _ _ _ _ _ He Ha) as (b0 & ck & Hb & Hl).
  cbn [cmd apply_command] in Hb. unfold apply_submit_workload_spec, put_workload in Hb. ok_inv. ser_inv.
  eexists. split; [eassumption|]. intros k. by rewrite Hl.
Qed.

Lemma wrap_sum_small a x : 0 ≤ a → 0 ≤ x → a + x < 2 ^ 64 → wrap_u64 (wrap_u64 a + x) = a + x.
Proof. intros. unfold wrap_u64. rewrite Zplus_mod_idemp_l. apply Z.mod_small. lia. Qed.


(** A change of scale is checked as if it were one more workload: a tenant that has all
    the workloads its quota allows can scale none of them, not even down. *)
Lemma scale_needs_a_spare_workload request sm sm' b q :
  let t := swr_tenant_id (rq_message request) in
  scale_workload env request sm = (sm', Ok b) → quota_of (contents (sm_db sm)) t = Some q →
  workloads_used (contents (sm_db sm)) t + 1 < 2 ^ 32 →
  workloads_used (contents (sm_db sm)) t < tq_max_workloads q.
Proof.
  intros t H Hq Hn. unfold scale_workload in H.
  do 4 (apply pure_bind_ok in H as (? & _ & H); [|solve_pure]).
  apply pure_bind_ok in H as (spec & _ & H); [|solve_pure].
  apply pure_bind_ok in H as (u & Hck & _); [|solve_pure].
  destruct (check_tenant_quota_ok _ _ _ _ _ _ Hck Hq) as (Q1 & _). fold t in Q1.
  pose proof (sum_of_nonneg (λ _, 1) (records_of t (scan (contents (sm_db sm)) ks_workloads ""))
    ltac:(lia)) as N1. fold (workloads_used (contents (sm_db sm)) t) in N1.
  unfold wrap_u32 in Q1. rewrite Zplus_mod_idemp_l, Z.mod_small in Q1 by lia. lia.
Qed.
End Admission.

(** ** Eviction within the budgets *)
Section Drain.
Context `{F : Fjall} `{C : Core} `{W : !Wire C} `{R : !Raft} `{G : !Rcgen} `{DG : !DisruptionGuard}.
Context `{!FjallSpec F} `{!RaftSpec R}.

(** The placements of a group. *)
Definition group_of (k : GroupKey) (ps : list Placement) : list Placement :=
  filter (λ p, group_key p = k) ps.
(** How many of a group's placements may go at once: the whole group when its budget
    allows that, else what is healthy beyond the minimum. *)
Definition whole_group_allowed (db : Db) (k : GroupKey) (ps : list Placement) : Prop :=
  let '(tenant, service, role) := k in
  tenant_id_valid tenant = true ∧ workload_role_valid role = true ∧
  allow_disruption db tenant service role (wrap_u32 (Z.of_nat (length (group_of k ps)))) Eviction = Ok ().
#[export] Instance whole_group_allowed_dec db k ps : Decision (whole_group_allowed db k ps).
Proof.
  destruct k as [[t s] r]. cbn. repeat apply and_dec; try apply _.
  destruct (allow_disruption _ _ _ _ _ _) as [[]|]; [by left|by right].
Defined.
Definition spare (db : Db) (k : GroupKey) (ps : list Placement) : Z :=
  let '(tenant, service, role) := k in
  match allow_disruption db tenant service role (wrap_u32 (Z.of_nat (length (group_of k ps)))) Eviction with
  | Ok _ => 0
  | Err denied => saturating_sub (den_current_healthy denied) (den_min_available denied)
  end.

Lemma group_placements_lookup ps k :
  group_placements ps !! k = (if decide (group_of k ps = []) then None else Some (group_of k ps)).
Proof.
  induction ps as [|p ps IH] using rev_ind; [done|]. unfold group_placements. rewrite foldl_app. cbn [foldl].
  fold (group_placements ps). unfold group_of in *. rewrite filter_app.
  destruct (decide (group_key p = k)) as [<-|Hne].
  - rewrite lookup_partial_alter_eq, IH. rewrite filter_cons_True, filter_nil by done.
    rewrite (decide_False (P := _ ++ [p] = [])) by (intros [_ ?]%app_eq_nil; done).
    case_decide as E; cbn; [by rewrite E|done].
  - rewrite lookup_partial_alter_ne, IH by done. rewrite filter_cons_False, filter_nil, app_nil_r by done. done.
Qed.
Lemma elem_of_groups ps k l :
  (k, l) ∈ groups_in_order (group_placements ps) ↔ l = group_of k ps ∧ l ≠ [].
Proof.
  unfold groups_in_order. rewrite merge_sort_Permutation, elem_of_map_to_list, group_placements_lookup.
  case_decide; naive_solver.
Qed.

Lemma drain_plan_all db ps :
  (drain_plan db ps).1 = true ↔ ∀ p, p ∈ ps → whole_group_allowed db (group_key p) ps.
Proof.
  unfold drain_plan. cbn [fst]. rewrite forallb_forall. split.
  - intros H p Hp. destruct (group_key p) as [[t s] r] eqn:Hk.
    assert (((t, s, r), group_of (t, s, r) ps) ∈ groups_in_order (group_placements ps)) as Hin.
    { apply elem_of_groups. split; [done|]. intros E.
      assert (p ∈ group_of (t, s, r) ps) as Hg by by apply list_elem_of_filter.
      rewrite E in Hg. by apply not_elem_of_nil in Hg. }
    specialize (H _ (proj1 (list_elem_of_In _ _) (list_elem_of_fmap_2 (group_allowance db) _ _ Hin))).
    unfold group_allowance in H. cbn. destruct (tenant_id_valid t), (workload_role_valid r); cbn in H; try done.
    destruct (allow_disruption _ _ _ _ _ _) as [[]|]; [done|done].
  - intros H x Hx%list_elem_of_In. apply list_elem_of_fmap in Hx as ([k l] & -> & [-> Hne]%elem_of_groups).
    destruct (group_of k ps) as [|p l] eqn:Hg; [done|].
    assert (p ∈ group_of k ps) as [Hk Hp]%list_elem_of_filter by (rewrite Hg; left).
    specialize (H p Hp). rewrite Hk in H. destruct k as [[t s] r]. destruct H as (H1 & H2 & H3).
    unfold group_allowance. rewrite H1, H2. cbn [andb]. rewrite Hg in H3. by rewrite H3.
Qed.

(** The part of a group that is removed. *)
Lemma group_allowance_room db k ps :
  ∀ p, p ∈ (group_allowance db (k, group_of k ps)).2 → p ∈ group_of k ps.
Proof.
  destruct k as [[t s] r]. unfold group_allowance. intros p. destruct (_ && _); [|by intros ?%not_elem_of_nil].
  destruct (allow_disruption _ _ _ _ _ _); [by intros ?%not_elem_of_nil|]. intros (i & Hi & _)%elem_of_take. by eapply list_elem_of_lookup_2.
Qed.
Lemma group_allowance_length db k ps :
  Z.of_nat (length (group_allowance db (k, group_of k ps)).2) ≤ spare db k ps.
Proof.
  destruct k as [[t s] r]. unfold group_allowance, spare.
  assert (∀ a b, 0 ≤ saturating_sub a b) as Hs by (intros; unfold saturating_sub; lia).
  destruct (_ && _).
  - destruct (allow_disruption _ _ _ _ _ _) as [|d]; cbn; [lia|]. rewrite length_take.
    specialize (Hs (den_current_healthy d) (den_min_available d)). lia.
  - cbn. destruct (allow_disruption _ _ _ _ _ _) as [|d]; [lia|]. apply Hs.
Qed.

Lemma concat_group (f : GroupKey * list Placement → list Placement) groups k :
  NoDup groups.*1 → (∀ g p, g ∈ groups → p ∈ f g → group_key p = g.1) →
  group_of k (concat (f <$> groups)) = [] ∨
  ∃ l, (k, l) ∈ groups ∧ group_of k (concat (f <$> groups)) = f (k, l).
Proof.
  intros Hnd Hf. induction groups as [|[k' l] groups IH]; [by left|].
  apply NoDup_cons in Hnd as [Hni Hnd]. cbn [fmap list_fmap concat]. unfold group_of in *.
  rewrite filter_app. specialize (IH Hnd ltac:(set_solver)).
  destruct (decide (k' = k)) as [->|Hne].
  - right. exists l. split; [left|]. rewrite filter_all.
    2:{ intros p Hp. apply (Hf (k, l)); [left|done]. }
    destruct IH as [->|(l' & Hin & _)]; [by rewrite app_nil_r|]. exfalso. apply Hni. apply list_elem_of_fmap.
    by exists (k, l').
  - assert (filter (λ p, group_key p = k) (f (k', l)) = []) as ->.
    { apply filter_none. intros p Hp E. apply Hne. rewrite <- E. symmetry. by apply (Hf (k', l)); [left|]. }
    destruct IH as [->|(l' & Hin & ->)]; [by left|]. right. exists l'. split; [by right|done].
Qed.

Lemma drain_plan_room db ps k :
  Z.of_nat (length (group_of k (drain_plan db ps).2)) ≤ spare db k ps.
Proof.
  unfold drain_plan. cbn [snd]. rewrite <- list_fmap_compose.
  destruct (concat_group (snd ∘ group_allowance db) (groups_in_order (group_placements ps)) k)
    as [->|(l & [-> _]%elem_of_groups & ->)].
  - unfold groups_in_order. rewrite merge_sort_Permutation. apply NoDup_fst_map_to_list.
  - intros [k' l] p [-> _]%elem_of_groups Hp. cbn in Hp. apply group_allowance_room in Hp.
    by apply list_elem_of_filter in Hp as [? _].
  - cbn. etrans; [|apply group_allowance_length]. lia.
  - apply group_allowance_length.
Qed.

(** The state after a list of commands, each applied as one entry. *)
Inductive applies : list FleetosCommand → FjallStateMachine → FjallStateMachine → Prop :=
| applies_nil sm : applies [] sm sm
| applies_cons c cs e ctx r sm sm1 sm' :
    payload e = Normal {| cmd := c; audit := Some ctx |} → apply_entry sm e = (sm1, Ok r) →
    applies cs sm1 sm' → applies (c :: cs) sm sm'.
Definition vacates (p : Placement) : list FleetosCommand :=
  [RemovePlacement (pl_pod_id p); RecordOrdinalAssignment (freed_assignment p)].

Variable cfg : AdminConfig.
Variable env : AdminEnv.
Lemma drain_ok request ps sm sm' u :
  drain env request ps sm = (sm', Ok u) → applies (ps ≫= vacates) sm sm'.
Proof.
  revert sm. induction ps as [|p ps IH]; intros sm H; [apply mret_ok in H as [-> _]; constructor|].
  cbn [drain] in H.
  apply rpc_bind_ok in H as (sm1 & u1 & (e1 & c1 & r1 & He1 & Ha1)%admin_propose_ok & H).
  apply rpc_bind_ok in H as (sm2 & u2 & (e2 & c2 & r2 & He2 & Ha2)%admin_propose_ok & H).
  cbn. eapply applies_cons; [exact He1|exact Ha1|]. eapply applies_cons; [exact He2|exact Ha2|]. by apply IH.
Qed.

End Drain.

(** ** Witnesses *)
Import DemoInstances.
Import LeaderDemo.
#[local] Existing Instances demo_rcgen demo_rcgen_spec.
#[local] Existing Instance NoopDisruptionGuard.

Definition demo_ctrl (T : Type) (m : T) : Request T :=
  {| rq_peer := Some {| ci_spiffe_id := Some (spiffe_new "dc" "sys" IdKind.Ctrl "proxy") |};
     rq_message := m |}.
Definition demo_spec_of (memory_mb : Z) (replicas : list (string * Z)) : WorkloadSpec := {|
  ws_tenant_id := "globex"; ws_workload_id := "api"; ws_image := "api:1"; ws_replicas := list_to_map replicas;
  ws_pod_spec := Some {|
    ps_tenant_id := ""; ps_workload_id := ""; ps_role := ""; ps_image := ""; ps_ordinal := None;
    ps_pod_id := None; ps_resources := Some {| rr_vcpus := 2; rr_memory_mb := memory_mb; rr_rest := () |};
    ps_tolerations := []; ps_priority := 0; ps_runtime := ""; ps_env := []; ps_labels := [];
    ps_init_containers := []; ps_rest := () |};
  ws_autoscaling := None; ws_vertical_autoscaling := None; ws_budgets := ∅; ws_placement := 0; ws_rest := () |}.
Definition demo_quota : TenantQuotaRecord := {|
  tq_tenant_id := "globex"; tq_max_cpu_millicores := 8000; tq_max_memory_bytes := 2 ^ 31; tq_max_workloads := 1 |}.
Definition demo_limited : FjallStateMachine := (apply_entry demo_sm (demo_entry 7 (SetTenantQuota demo_quota))).1.
Definition demo_submit : Request WorkloadSpec := demo_ctrl _ (demo_spec_of 256 [("primary", 2)]).
#[local] Abbreviation submitted := (submit_workload_spec demo_admin_env demo_submit demo_limited).


(** Once it is accepted, the tenant has its one workload and cannot scale it down. *)
Lemma scale_down_refused :
  succeeds (scale_workload demo_admin_env (demo_ctrl _ {|
      swr_tenant_id := "globex"; swr_workload_id := "api"; swr_replicas := {[ "primary" := 1 ]} |})
    submitted.1) = false.
Proof. vm_refl. Qed.

(** The products of the check wrap: sixteen roles of 1024 replicas of a pebibyte each
    pass a quota of two gibibytes. *)
Definition demo_huge : WorkloadSpec :=
  demo_spec_of (2 ^ 30) ((λ i, ("r" +:+ pretty i, 1024)) <$> seq 0 16).
Lemma quota_wraps :
  ((workload_usage demo_huge).2 = 0) ∧
  (succeeds (check_tenant_quota "globex" (demo_spec_of (2 ^ 30) [("primary", 1)]) demo_limited) = false).
Proof. split; vm_refl. Qed.

Definition demo_evict : Request EvictNodeRequest :=
  demo_ctrl _ {| enr_node_svid := "spiffe://n1"; enr_force := false |}.
#[local] Abbreviation evicted := (evict_node demo_admin_config demo_admin_env demo_evict demo_sm).
