(* ===== verification/Tls.v ===== *)
(** * Tls: who may connect to which listener

    The three gRPC listeners of [src/main.rs] (Raft transport, Data/Control and
    Admin): the checks each makes on the certificate chain a peer presented
    ([src/tls/trust_domains.rs] and [src/revocation.rs]) and the identity it hands to
    the services behind it ([src/tls/mod.rs]). The handshake itself, with the chain
    verified against the trust bundle, is rustls's: its outcome is an argument. So is
    [extract_spiffe_id] of [fleetos-core]. *)

From Stdlib Require Import Ascii.
From S2P Require Import Prelude.
From S2P Require Import Storage.
From S2P Require Import Core.
From S2P Require Import Records.
From S2P Require Import WireInstance.
From S2P Require Import StateMachine.
From S2P Require Import Apply.
From S2P Require Import Rpc.
From S2P Require Import Invariant.
From S2P Require Import Demo.
From S2P Require Import Eviction.
From S2P Require Import Nodes.

(** ** Strings: [str::strip_prefix], [str::split] and the part after [str::find] *)
Fixpoint strip_prefix (p s : string) : option string :=
  match p, s with
  | "", _ => Some s
  | String a p, String b s => if decide (a = b) then strip_prefix p s else None
  | String _ _, "" => None
  end.

Fixpoint split (c : ascii) (s : string) : list string :=
  match s with
  | "" => [""]
  | String a s =>
      if decide (a = c) then "" :: split c s
      else match split c s with
           | x :: l => String a x :: l
           | [] => [String a ""]
           end
  end.

Fixpoint after_first (c : ascii) (s : string) : option string :=
  match s with
  | "" => None
  | String a s => if decide (a = c) then Some s else after_first c s
  end.

(** ** Trust domains *)
Inductive TrustDomainRole : Set := DataControl | Admin.

Record TrustDomainConfig : Type := { td_data_control : string; td_admin : string }.

Definition expected_domain (config : TrustDomainConfig) (role : TrustDomainRole) : string :=
  match role with DataControl => td_data_control config | Admin => td_admin config end.

(** The errors of [TlsError] the checks give; the texts are left out. *)
Inductive TlsError : Type :=
| SpiffeParse
| TrustDomainMismatch (expected actual : string)
| IdentityKindMismatch (actual : string).

Definition slash : ascii := "/"%char.

Definition extract_trust_domain (spiffe_id : string) : option string :=
  stripped ← strip_prefix "spiffe://" spiffe_id;
  head (split slash stripped).

Definition extract_identity_kind (spiffe_id : string) : option string :=
  stripped ← strip_prefix "spiffe://" spiffe_id;
  path ← after_first slash stripped;
  match split slash path with
  | s0 :: s1 :: s2 :: _ :: _ =>
      if decide (s0 = "ns") then
        if decide (s1 = "system") then Some s2 else Some s2
      else None
  | _ => None
  end.

(** The kinds a listener accepts. *)
Definition accepted_kinds (role : TrustDomainRole) : list string :=
  match role with
  | DataControl => ["node"; "sa"; "router"; "gateway"; "control"]
  | Admin => ["ctrl"; "operator"]
  end.

Definition validate_peer_identity (spiffe_id : string) (role : TrustDomainRole)
    (config : TrustDomainConfig) : result TlsError () :=
  trust_domain ← ok_or SpiffeParse (extract_trust_domain spiffe_id);
  if decide (trust_domain = expected_domain config role) then
    match extract_identity_kind spiffe_id with
    | Some kind =>
        if decide (kind ∈ accepted_kinds role) then Ok () else Err (IdentityKindMismatch kind)
    | None => Err SpiffeParse
    end
  else Err (TrustDomainMismatch (expected_domain config role) trust_domain).

(** ** The listeners *)
Inductive ErrorKind : Set := ConnectionAborted | DeniedPeer | InvalidData.

Section Listeners.
Context `{F : Fjall} `{C : Core}.
Context (extract_spiffe_id : bytes → option SpiffeId).

(** [is_svid_revoked]: a storage error counts as revoked. *)
Definition is_svid_revoked (db : Db) (spiffe_id : string) : bool :=
  match get db ks_revoked_svids spiffe_id with
  | Ok opt => isSome opt
  | Err _ => true
  end.

(** [acceptor.accept(stream)]: it fails, or gives [peer_certificates()]. *)
Definition Handshake : Type := result () (option (list bytes)).

(** The connection of a peer that presented a certificate: its identity, in the trust
    domain of the listener. *)
Definition peer_identity (role : TrustDomainRole) (config : TrustDomainConfig)
    (peer_cert_der : bytes) : result ErrorKind SpiffeId :=
  id ← ok_or DeniedPeer (extract_spiffe_id peer_cert_der);
  map_err (λ _, DeniedPeer) (validate_peer_identity (spiffe_to_string id) role config) ≫= λ _,
  Ok id.

Definition first_cert (peer_certificates : option (list bytes)) : result ErrorKind bytes :=
  peer_certs ← ok_or DeniedPeer peer_certificates;
  ok_or DeniedPeer (head peer_certs).

Definition raft_accept (db : Db) (config : TrustDomainConfig) (hs : Handshake) :
    result ErrorKind (option SpiffeId) :=
  certs ← map_err (λ _, ConnectionAborted) hs;
  peer_cert_der ← first_cert certs;
  id ← peer_identity DataControl config peer_cert_der;
  id ← ok_or InvalidData (spiffe_parse (spiffe_to_string id));
  if decide (spiffe_kind id ≠ IdKind.Control) then Err DeniedPeer
  else if is_svid_revoked db (spiffe_to_string id) then Err DeniedPeer
  else Ok (Some id).

Definition data_control_accept (db : Db) (config : TrustDomainConfig) (hs : Handshake) :
    result ErrorKind (option SpiffeId) :=
  certs ← map_err (λ _, ConnectionAborted) hs;
  match certs ≫= head with
  | Some peer_cert_der =>
      id ← peer_identity DataControl config peer_cert_der;
      if is_svid_revoked db (spiffe_to_string id) then Err DeniedPeer else Ok (Some id)
  | None => Ok None
  end.

Definition admin_accept (db : Db) (config : TrustDomainConfig) (hs : Handshake) :
    result ErrorKind (option SpiffeId) :=
  certs ← map_err (λ _, ConnectionAborted) hs;
  peer_cert_der ← first_cert certs;
  id ← peer_identity Admin config peer_cert_der;
  if is_svid_revoked db (spiffe_to_string id) then Err DeniedPeer else Ok (Some id).

(** [Connected::connect_info]: what the handlers see of the peer. *)
Definition connect_info (spiffe_id : option SpiffeId) : PeerConnectInfo :=
  {| ci_spiffe_id := spiffe_id |}.
End Listeners.

(** ** What the string checks accept *)
Lemma strip_prefix_some p s r : strip_prefix p s = Some r ↔ s = p +:+ r.
Proof.
  revert s. induction p as [|a p IH]; intros s; cbn.
  - split; [by intros [= ->]|by intros ->].
  - destruct s as [|b s]; [done|]. change (String a p +:+ r) with (String a (p +:+ r)).
    destruct (decide (a = b)) as [->|Hne]; [|naive_solver].
    rewrite IH. naive_solver.
Qed.

Lemma after_first_some c s r :
  after_first c s = Some r ↔ ∃ x, no_char c x = true ∧ s = x +:+ String c r.
Proof.
  induction s as [|a s IH]; cbn.
  - split; [done|]. by intros ([|??] & _ & ?).
  - destruct (decide (a = c)) as [->|Hne].
    + split; [intros [= ->]; by exists ""|]. intros (x & Hx & H). f_equal.
      symmetry in H. by destruct (split_first_inj c x "" r s Hx eq_refl H) as [_ ->].
    + rewrite IH. split.
      * intros (x & Hx & ->). exists (String a x). cbn. by rewrite bool_decide_eq_false_2.
      * intros ([|b x] & Hx & H); [by injection H|]. injection H as <- ->.
        cbn in Hx. apply andb_true_iff in Hx as [_ Hx]. by exists x.
Qed.

Lemma split_inv c s x l :
  split c s = x :: l ↔ no_char c x = true ∧
    (l = [] ∧ s = x ∨ ∃ r, s = x +:+ String c r ∧ split c r = l).
Proof.
  revert x. induction s as [|a s IH]; intros x; cbn.
  - split; [intros [= <- <-]; auto|]. intros [_ [[-> <-]|([|??] & H & _)]]; [done|..];
      by destruct x.
  - destruct (decide (a = c)) as [->|Hne].
    + split; [intros [= <- <-]; split; [done|right; by exists s]|].
      intros [Hx [[-> <-]|(r & H & <-)]].
      * cbn in Hx. by rewrite bool_decide_eq_true_2 in Hx.
      * symmetry in H. by destruct (split_first_inj c x "" r s Hx eq_refl H) as [-> ->].
    + destruct (split c s) as [|y l'] eqn:E.
      { exfalso. clear IH. destruct s as [|b s]; [done|]. cbn in E.
        destruct (decide (b = c)); [done|]. by destruct (split c s). }
      split.
      * intros [= <- <-]. destruct (proj1 (IH y) eq_refl) as [Hy Hcase]. cbn.
        rewrite bool_decide_eq_false_2 by done. split; [done|].
        destruct Hcase as [[-> ->]|(r & -> & Hr)]; [by left|right; by exists r].
      * intros [Hx Hcase]. destruct x as [|b x].
        { destruct Hcase as [[_ ?]|(r & [= -> _] & _)]; done. }
        cbn in Hx. apply andb_true_iff in Hx as [_ Hx].
        assert (y :: l' = x :: l) as [= -> ->]; [|by destruct Hcase as [[_ [= ->]]|(r & [= -> _] & _)]].
        apply IH. split; [done|].
        destruct Hcase as [[-> [= _ ->]]|(r & [= _ ->] & Hr)]; [by left|right; by exists r].
Qed.

Lemma split_nonempty c s : split c s ≠ [].
Proof. destruct s as [|a s]; cbn; [done|]. destruct (decide (a = c)); [done|]. by destruct (split c s). Qed.

(** [s] is [spiffe://<td>/ns/<tenant>/<kind>/<rest>]. *)
Definition names_kind (td kind s : string) : Prop := ∃ tenant rest,
  no_char slash td = true ∧ no_char slash tenant = true ∧ no_char slash kind = true ∧
  s = "spiffe://" +:+ (td +:+ String slash ("ns" +:+ String slash (tenant +:+
        String slash (kind +:+ String slash rest)))).

Lemma extract_trust_domain_of td r :
  no_char slash td = true →
  extract_trust_domain ("spiffe://" +:+ (td +:+ String slash r)) = Some td.
Proof.
  intros Htd. unfold extract_trust_domain. rewrite (proj2 (strip_prefix_some _ _ _) eq_refl). cbn [mbind option_bind].
  assert (split slash (td +:+ String slash r) = td :: split slash r) as ->; [|done].
  apply split_inv. split; [done|]. right. by exists r.
Qed.

Lemma extract_identity_kind_some s kind :
  extract_identity_kind s = Some kind ↔ ∃ td, names_kind td kind s.
Proof.
  unfold extract_identity_kind, names_kind. split.
  - intros H. apply bind_Some in H as (r & ->%strip_prefix_some & H).
    apply bind_Some in H as (path & (td & Htd & ->)%after_first_some & H).
    destruct (split slash path) as [|s0 [|s1 [|s2 [|s3 l]]]] eqn:E; try done.
    destruct (decide (s0 = "ns")) as [->|]; [|done].
    assert (s2 = kind) as -> by (by destruct (decide (s1 = "system")); injection H).
    apply split_inv in E as [_ [[? _]|(r0 & -> & E)]]; [done|].
    apply split_inv in E as [Ht [[? _]|(r1 & -> & E)]]; [done|].
    apply split_inv in E as [Hk [[? _]|(r2 & -> & E)]]; [done|].
    by exists td, s1, r2.
  - intros (td & tenant & rest & Htd & Ht & Hk & ->).
    rewrite (proj2 (strip_prefix_some _ _ _) eq_refl). cbn [mbind option_bind].
    rewrite (proj2 (after_first_some _ _ _)) by (exists td; split; [done|reflexivity]).
    cbn [mbind option_bind].
    destruct (split slash rest) as [|x l] eqn:El; [by apply split_nonempty in El|].
    assert (split slash ("ns" +:+ String slash (tenant +:+ String slash (kind +:+ String slash rest)))
      = "ns" :: tenant :: kind :: x :: l) as ->.
    { apply split_inv. split; [done|]. right. eexists. split; [done|].
      apply split_inv. split; [done|]. right. eexists. split; [done|].
      apply split_inv. split; [done|]. right. by exists rest. }
    rewrite decide_True by done. by destruct (decide (tenant = "system")).
Qed.

Lemma names_kind_domain td td' kind kind' s :
  names_kind td kind s → names_kind td' kind' s → td = td' ∧ kind = kind'.
Proof.
  intros (t & r & Htd & Ht & Hk & ->) (t' & r' & Htd' & Ht' & Hk' & H).
  apply string_app_inj_l in H as [_ H]; [|done].
  apply split_first_inj in H as [-> H]; [|done|done].
  apply split_first_inj in H as [_ H]; [|done|done].
  apply split_first_inj in H as [_ H]; [|done|done].
  by apply split_first_inj in H as [-> _].
Qed.

Lemma validate_peer_identity_ok s role config :
  validate_peer_identity s role config = Ok () ↔
  ∃ kind, kind ∈ accepted_kinds role ∧ names_kind (expected_domain config role) kind s.
Proof.
  unfold validate_peer_identity. split.
  - intros H. apply bind_ok in H as (td & Htd%ok_or_ok & H).
    destruct (decide (td = expected_domain config role)) as [->|]; [|done].
    destruct (extract_identity_kind s) as [kind|] eqn:Ek; [|done].
    destruct (decide (kind ∈ accepted_kinds role)); [|done]. exists kind. split; [done|].
    apply extract_identity_kind_some in Ek as (td & Hn).
    assert (td = expected_domain config role) as <-; [|done].
    destruct Hn as (t & r & Hnc & _ & _ & ->).
    rewrite extract_trust_domain_of in Htd by done. by injection Htd.
  - intros (kind & Hin & Hn).
    assert (extract_identity_kind s = Some kind) as Ek by (apply extract_identity_kind_some; by eexists).
    assert (extract_trust_domain s = Some (expected_domain config role)) as ->.
    { destruct Hn as (t & r & Hnc & _ & _ & ->). by apply extract_trust_domain_of. }
    rewrite Ek. cbn [ok_or mbind]. cbn. rewrite decide_True by done. by rewrite decide_True.
Qed.

(** ** Admission *)
Inductive Listener : Set := RaftListener | DataControlListener | AdminListener.
Definition role_of (l : Listener) : TrustDomainRole :=
  match l with AdminListener => Admin | _ => DataControl end.

Section Admission.
Context `{F : Fjall} `{C : Core} `{!FjallSpec F} `{!CoreSpec C}.
Context (extract_spiffe_id : bytes → option SpiffeId).

Definition accept (l : Listener) : Db → TrustDomainConfig → Handshake → result ErrorKind (option SpiffeId) :=
  match l with
  | RaftListener => raft_accept extract_spiffe_id
  | DataControlListener => data_control_accept extract_spiffe_id
  | AdminListener => admin_accept extract_spiffe_id
  end.

Lemma peer_identity_ok role config cert id :
  peer_identity extract_spiffe_id role config cert = Ok id ↔
  extract_spiffe_id cert = Some id ∧
  ∃ kind, kind ∈ accepted_kinds role ∧
    names_kind (expected_domain config role) kind (spiffe_to_string id).
Proof.
  unfold peer_identity. rewrite <- validate_peer_identity_ok. split.
  - intros H. apply bind_ok in H as (id' & Hid%ok_or_ok & H).
    apply bind_ok in H as ([] & Hv%map_err_ok & [= ->]). done.
  - intros [-> Hv]. cbn. by rewrite Hv.
Qed.

Lemma first_cert_ok certs leaf :
  first_cert certs = Ok leaf ↔ ∃ rest, certs = Some (leaf :: rest).
Proof.
  destruct certs as [[|x l]|]; cbn; [|by split; [intros [= ->]; eexists|intros (? & [= -> _])]|];
    (split; [done|by intros (? & ?)]).
Qed.

Lemma not_revoked db id :
  is_svid_revoked db id = false → contents db !! (ks_revoked_svids, id) = None.
Proof.
  unfold is_svid_revoked. destruct (get db ks_revoked_svids id) as [o|] eqn:E; [|done].
  apply get_spec in E as <-. by destruct o.
Qed.

Lemma not_revoked_reliable `{!FjallReliable F} db id :
  is_svid_revoked db id = false ↔ contents db !! (ks_revoked_svids, id) = None.
Proof.
  split; [apply not_revoked|]. intros H. unfold is_svid_revoked. by rewrite get_eq, H.
Qed.

(** The checks on a presented leaf, the same for the three listeners. *)
Lemma accept_leaf l db config leaf rest peer :
  accept l db config (Ok (Some (leaf :: rest))) = Ok peer ↔
  ∃ id, peer = Some id ∧ peer_identity extract_spiffe_id (role_of l) config leaf = Ok id ∧
    is_svid_revoked db (spiffe_to_string id) = false ∧
    (l = RaftListener → spiffe_kind id = IdKind.Control).
Proof.
  assert (∀ r : result ErrorKind SpiffeId,
    (r ≫= λ id, if is_svid_revoked db (spiffe_to_string id) then Err DeniedPeer else Ok (Some id)) = Ok peer ↔
    ∃ id, peer = Some id ∧ r = Ok id ∧ is_svid_revoked db (spiffe_to_string id) = false) as Hgen.
  { intros [id|]; cbn; [|split; [done|by intros (? & _ & ? & _)]].
    destruct (is_svid_revoked db _) eqn:E; (split; [intros H; simplify_eq; eauto|]);
      intros (id' & -> & [= <-] & Hr); congruence. }
  destruct l; cbn [accept role_of].
  - unfold raft_accept. cbn. destruct (peer_identity _ _ _ _) as [id|]; cbn; [|split; [done|by intros (? & _ & ? & _)]].
    rewrite parse_to_string. cbn. destruct (decide _) as [Hk|Hk%dec_stable].
    { split; [done|]. intros (? & _ & [= <-] & _ & H). by destruct (Hk (H eq_refl)). }
    destruct (is_svid_revoked db _) eqn:E; (split; [intros H; simplify_eq; eauto|]);
      intros (id' & -> & [= <-] & Hr & _); congruence.
  - unfold data_control_accept. cbn. rewrite Hgen. naive_solver.
  - unfold admin_accept. cbn. rewrite Hgen. naive_solver.
Qed.

(** C3. A listener takes a connection as an identity exactly when the handshake gave a
    leaf certificate that carries it, its printed form is
    [spiffe://<domain>/ns/<tenant>/<kind>/..] with the trust domain of the listener and
    one of its kinds, the identity is not revoked and, for the Raft listener, it is a
    control node's. Only the Data/Control listener takes a connection without an
    identity, when no certificate was presented. *)
Theorem listener_admits_exact `{!FjallReliable F} l db config hs peer :
  accept l db config hs = Ok peer ↔
  match peer with
  | Some id => ∃ leaf rest kind, hs = Ok (Some (leaf :: rest)) ∧
      extract_spiffe_id leaf = Some id ∧ kind ∈ accepted_kinds (role_of l) ∧
      names_kind (expected_domain config (role_of l)) kind (spiffe_to_string id) ∧
      contents db !! (ks_revoked_svids, spiffe_to_string id) = None ∧
      (l = RaftListener → spiffe_kind id = IdKind.Control)
  | None => l = DataControlListener ∧ (hs = Ok None ∨ hs = Ok (Some []))
  end.
Proof.
  destruct hs as [[[|leaf rest]|]|]; [destruct l, peer; cbn; naive_solver| |destruct l, peer; cbn; naive_solver..].
  rewrite accept_leaf. setoid_rewrite peer_identity_ok. setoid_rewrite not_revoked_reliable.
  destruct peer as [id|]; [|naive_solver]. split.
  - intros (id' & [= <-] & [Hx (kind & Hk & Hn)] & Hr & Hl). by exists leaf, rest, kind.
  - intros (leaf' & rest' & kind & [= <- <-] & Hx & Hk & Hn & Hr & Hl). exists id. naive_solver.
Qed.

(** The Admin plane and the data plane share no identity. *)
Lemma planes_disjoint l db config db' config' hs id id' :
  accept l db config hs = Ok (Some id) → accept AdminListener db' config' hs = Ok (Some id') →
  l = AdminListener.
Proof.
  destruct hs as [[[|leaf rest]|]|]; [destruct l; done| |destruct l; done..].
  rewrite !accept_leaf. intros (? & [= <-] & Hi & _) (? & [= <-] & Hi' & _).
  apply peer_identity_ok in Hi as (Hx & k & Hk & Hn). apply peer_identity_ok in Hi' as (Hx' & k' & Hk' & Hn').
  rewrite Hx in Hx'. injection Hx' as <-. destruct (names_kind_domain _ _ _ _ _ Hn Hn') as [_ ->].
  destruct l; [exfalso; cbn in *; set_solver..|done].
Qed.

Lemma revoked_refused l db config leaf rest id :
  extract_spiffe_id leaf = Some id →
  contents db !! (ks_revoked_svids, spiffe_to_string id) ≠ None →
  ∃ k, accept l db config (Ok (Some (leaf :: rest))) = Err k.
Proof.
  intros Hx Hr. destruct (accept _ _ _ _) as [peer|k] eqn:E; [|by exists k]. exfalso.
  apply accept_leaf in E as (id' & -> & Hi & Hnr & _). apply peer_identity_ok in Hi as [Hx' _].
  rewrite Hx in Hx'. injection Hx' as <-. by apply Hr, not_revoked.
Qed.
End Admission.

Section Evicted.
Context `{F : Fjall} `{C : Core} `{W : !Wire C} `{!FjallSpec F} `{!CoreSpec C}.

(** C23. Once a replica has applied the eviction of a node, none of its listeners takes
    a connection whose certificate carries the node's identity, whatever other entries
    are applied, until a prune with a cutoff past the SVID's expiry or another eviction
    of the node. A failing database changes nothing of this. *)
Theorem evicted_peer_refused sm e a id x sm1 r es sm2 res extract_spiffe_id l config leaf rest :
  store_wf (contents (sm_db sm)) → entry_ok e → payload e = Normal a →
  cmd a = EvictNode (spiffe_to_string id) x → apply_entry sm e = (sm1, Ok r) →
  Forall entry_ok es → Forall (λ e, ¬ ends_revocation (spiffe_to_string id) x e) es →
  apply sm1 es = (sm2, res) → extract_spiffe_id leaf = Some id →
  ∃ k, accept extract_spiffe_id l (sm_db sm2) config (Ok (Some (leaf :: rest))) = Err k.
Proof.
  intros Hwf Hok Hp Hc H Hoks Hends Hes Hx. apply (revoked_refused _ _ _ _ _ _ id Hx).
  assert (svid_revoked (contents (sm_db sm1)) (spiffe_to_string id) x) as Hrv.
  { destruct (evict_entry_lookup _ _ _ _ _ _ _ Hwf Hp Hc H)
      as (id' & v1 & nr & v2 & _ & _ & _ & _ & Hv2 & HL).
    exists v2. split; [|done]. rewrite HL by done. by rewrite decide_True. }
  destruct (apply_keeps_revoked sm1 es sm2 res (spiffe_to_string id) x) as (v & Hv & _);
    [by eapply apply_entry_wf|done..|]. by rewrite Hv.
Qed.
End Evicted.

(** ** Witnesses *)
Import DemoInstances.

Definition demo_domains : TrustDomainConfig := {| td_data_control := "dc"; td_admin := "adm" |}.
Definition demo_leaf (cert : bytes) : option (@SpiffeId demo_core) := Some cert.
Definition demo_peer : @SpiffeId demo_core := "dc/ns/system/node/n1".
Definition demo_evict : FleetosCommand := EvictNode (spiffe_to_string demo_peer) 9.

Lemma listener_admits_exact_witness :
  names_kind "dc" "node" "spiffe://dc/ns/system/node/n1" ∧
  accept demo_leaf DataControlListener (sm_db demo_sm) demo_domains (Ok (Some [demo_peer])) =
    Ok (Some demo_peer).
Proof.
  assert (names_kind "dc" "node" "spiffe://dc/ns/system/node/n1") as Hn by (by exists "system", "n1").
  split; [done|].
  apply (listener_admits_exact demo_leaf DataControlListener (sm_db demo_sm) demo_domains
    (Ok (Some [demo_peer])) (Some demo_peer)).
  exists demo_peer, [], "node". split_and!; [reflexivity|reflexivity| |exact Hn| |done].
  - cbn. left.
  - by apply not_revoked.
Defined.

(** The peer that was admitted above is refused after its eviction, and still after a
    prune with the expiry as its cutoff. *)
Lemma evicted_peer_refused_witness :
  ∃ k, accept demo_leaf DataControlListener
    (sm_db (apply (apply_entry demo_sm (demo_entry 7 demo_evict)).1
      [demo_entry 8 (PruneExpiredRevokedSvids 9)]).1)
    demo_domains (Ok (Some [demo_peer])) = Err k.
Proof.
  apply (evicted_peer_refused demo_sm (demo_entry 7 demo_evict) (system demo_evict) demo_peer 9
    (apply_entry demo_sm (demo_entry 7 demo_evict)).1 {| version := 7 |}
    [demo_entry 8 (PruneExpiredRevokedSvids 9)] _
    (apply (apply_entry demo_sm (demo_entry 7 demo_evict)).1
      [demo_entry 8 (PruneExpiredRevokedSvids 9)]).2).
  - apply demo_wf.
  - exact I.
  - reflexivity.
  - reflexivity.
  - apply result_pair. vm_refl.
  - repeat constructor.
  - constructor; [|constructor]. intros (a & [= <-] & [(c & [= <-] & Hx)|(x & Hx)]);
      [lia|discriminate Hx].
  - apply surjective_pairing.
  - reflexivity.
Defined.

(** An identity of a tenant may have any kind the listener accepts, a control node's
    too: the check of the kind does not look at the tenant. *)
Lemma tenant_identity_of_any_kind :
  validate_peer_identity "spiffe://dc/ns/acme/control/x" DataControl demo_domains = Ok ().
Proof. reflexivity. Qed.
