(* ===== verification/Streams.v ===== *)
(** * Streams: what the subscribers of the watch services see

    The server streams of [src/watch]: [WatchSchedule] ([scheduler_stream.rs]),
    [WatchRoutes] ([router_assignment.rs]), [WatchSag] ([policy_service.rs]) and
    [WatchEvents] ([watch_service.rs]), over the channels of the [BroadcastHub]
    ([broadcast.rs]). Each handler subscribes, reads the committed state, sends it as
    its first frame and then decodes what the state machine publishes. A stream is the
    list of its frames; what a receiver of a tokio broadcast channel hands out of the
    messages sent after its subscription is the relation [delivers]. *)

From S2P Require Import Prelude.
From S2P Require Import Storage.
From S2P Require Import Core.
From S2P Require Import Records.
From S2P Require Import WireInstance.
From S2P Require Import Watch.
From S2P Require Import StateMachine.
From S2P Require Import Apply.
From S2P Require Import Rpc.
From S2P Require Import Demo.
From S2P Require Import Frame.

(** ** tokio's broadcast channel *)

(** What [rx.recv().await] gives, while the sender lives. *)
Inductive Recv (E : Type) : Type :=
| Received (event : E)
| Lagged (n : Z).
Arguments Received {E}. Arguments Lagged {E}.

(** What a receiver that drains its channel hands out of the messages sent: all of
    them in order, except that one that fell behind skips to the oldest message that
    is kept. The newest one is always kept. *)
Inductive delivers {E : Type} : list E → list (Recv E) → Prop :=
| delivers_nil : delivers [] []
| delivers_received e sent rx : delivers sent rx → delivers (e :: sent) (Received e :: rx)
| delivers_lagged lost sent rx :
    sent ≠ [] → delivers sent rx →
    delivers (lost ++ sent) (Lagged (Z.of_nat (length lost)) :: rx).

(** ** The loop of a stream: events it cannot decode and lags are skipped *)
Fixpoint stream_loop {E U : Type} (frame : E → option U) (rx : list (Recv E)) : list U :=
  match rx with
  | [] => []
  | Received update :: rx =>
      match frame update with
      | Some u => u :: stream_loop frame rx
      | None => stream_loop frame rx
      end
  | Lagged _ :: rx => stream_loop frame rx
  end.

Section Services.
Context `{F : Fjall} `{C : Core} `{W : !Wire C}.

(** *** [WatchSchedule] *)
Record WorkloadAssignment : Type := {
  wa_workload_id : string;
  wa_runtime : string;
  wa_image : string;
  wa_role : string;
  wa_pod_spec : option PodSpec;
  wa_hostname : string
}.
Record ScheduleUpdate : Type := { scu_version : Z; scu_assignments : list WorkloadAssignment }.

Definition deserialize_assignment (r : WorkloadAssignmentRecord) : WorkloadAssignment := {|
  wa_workload_id := war_workload_id r;
  wa_runtime := war_runtime r;
  wa_image := war_image r;
  wa_role := war_role r;
  wa_pod_spec :=
    if decide (war_pod_spec_bytes r = "") then None else decode (war_pod_spec_bytes r);
  wa_hostname := war_hostname r |}.

Definition deserialize_assignments (bytes : bytes) : option (list WorkloadAssignment) :=
  if decide (bytes = "") then Some []
  else map deserialize_assignment <$> (from_bytes bytes : option (list WorkloadAssignmentRecord)).

Definition schedule_frame (update : ScheduleUpdateEvent) : option ScheduleUpdate :=
  assignments ← deserialize_assignments (sche_assignments_bytes update);
  Some {| scu_version := sche_version update; scu_assignments := assignments |}.

(** [rx] is the receiver of [subscribe_schedule], made before [db] is read. *)
Definition watch_schedule (db : Db) (data_trust_domain : string) (current_version : Z)
    (rx : list (Recv ScheduleUpdateEvent)) : result Status (list ScheduleUpdate) :=
  let assignments_bytes := build_schedule_snapshot db data_trust_domain in
  assignments ← ok_or (status Internal) (deserialize_assignments assignments_bytes);
  Ok ({| scu_version := current_version; scu_assignments := assignments |} ::
      stream_loop schedule_frame rx).

(** *** [WatchRoutes] *)
Record RouteEntry : Type := {
  re_destination_svid : string;
  re_destination_role : string;
  re_target_agent_svid : string;
  re_dummy_ip : Z;
  re_source_spiffe_ids : list string
}.
Record RouteUpdate : Type := { ru_version : Z; ru_routes : list RouteEntry }.

Definition deserialize_route (r : RouteEntryRecord) : RouteEntry := {|
  re_destination_svid := rer_destination_svid r;
  re_destination_role := rer_destination_role r;
  re_target_agent_svid := rer_target_agent_svid r;
  re_dummy_ip := rer_dummy_ip r;
  re_source_spiffe_ids := rer_source_spiffe_ids r |}.

Definition deserialize_routes (bytes : bytes) : option (list RouteEntry) :=
  if decide (bytes = "") then Some []
  else map deserialize_route <$> (from_bytes bytes : option (list RouteEntryRecord)).

Definition route_frame (update : RouteUpdateEvent) : option RouteUpdate :=
  routes ← deserialize_routes (rue_routes_bytes update);
  Some {| ru_version := rue_version update; ru_routes := routes |}.

Definition watch_routes (db : Db) (data_trust_domain : string) (current_version : Z)
    (rx : list (Recv RouteUpdateEvent)) : result Status (list RouteUpdate) :=
  let routes_bytes := build_routes_snapshot db data_trust_domain in
  routes ← ok_or (status Internal) (deserialize_routes routes_bytes);
  Ok ({| ru_version := current_version; ru_routes := routes |} :: stream_loop route_frame rx).

(** *** [WatchSag] *)
Definition watch_sag (db : Db) (current_version : Z) (rx : list (Recv SagUpdateEvent)) :
    result Status (list SagUpdate) :=
  frame_one ← map_err (λ _, status Internal) (watch_sag_frame_one db current_version);
  Ok (frame_one :: stream_loop (λ update, ok (watch_sag_delta update)) rx).

(** *** [WatchEvents]: no first frame *)
Inductive ProtoWatchEvent : Type :=
| EventSecretRotation (spiffe_id : string)
| EventSvidRotation (spiffe_id : string) (svid_version : Z).

Definition proto_event (event : WatchEvent) : ProtoWatchEvent :=
  match event with
  | SecretRotationNotification spiffe_id _ => EventSecretRotation spiffe_id
  | SvidRotation spiffe_id version => EventSvidRotation spiffe_id version
  end.

Definition watch_events (rx : list (Recv WatchEvent)) : list ProtoWatchEvent :=
  stream_loop (λ event, Some (proto_event event)) rx.
End Services.

(** ** The channels of the hub *)
Definition watch_tx (e : HubEvent) : option WatchEvent :=
  match e with publish_watch_event x => Some x | _ => None end.
Definition sag_tx (e : HubEvent) : option SagUpdateEvent :=
  match e with publish_sag_update x => Some x | _ => None end.
Definition schedule_tx (e : HubEvent) : option ScheduleUpdateEvent :=
  match e with publish_schedule_update x => Some x | _ => None end.
Definition route_tx (e : HubEvent) : option RouteUpdateEvent :=
  match e with publish_route_update x => Some x | _ => None end.

(** ** A subscriber ends with the newest state it was sent *)
Lemma stream_loop_last {E U} (frame : E → option U) sent rx :
  delivers sent rx →
  match last sent with
  | Some e => ∀ u, frame e = Some u → last (stream_loop frame rx) = Some u
  | None => stream_loop frame rx = []
  end.
Proof.
  induction 1 as [|e sent rx Hd IH|lost sent rx Hne Hd IH]; [done| |].
  - rewrite last_cons. destruct (last sent) as [e'|] eqn:El.
    + intros u Hu. specialize (IH u Hu). cbn. destruct (frame e); [|done].
      by rewrite last_cons, IH.
    + intros u Hu. cbn. rewrite Hu, IH. done.
  - rewrite last_app. destruct (last sent) as [e'|] eqn:El; [exact IH|].
    by apply last_None in El.
Qed.

(** The messages sent on the hub between two states. *)
Definition published_since `{F : Fjall} (sm sm' : FjallStateMachine) : list HubEvent :=
  drop (length (sm_published sm)) (sm_published sm').

(** What a stream promises its subscribers, for one channel: [channel] picks its
    messages, [content] what such a message says of the state, [snapshot] the same for
    a database. [covered] are the entries for which the promise is kept. *)
Section Channel.
Context `{F : Fjall} `{C : Core} `{W : !Wire C} {E V : Type}.
Context (channel : HubEvent → option E) (content : E → V) (snapshot : Db → string → V).
Context (covered : Entry → Prop).

(** An applied entry either announces the state it leaves, or leaves the part the
    channel is about as it was. *)
Definition announces (evs : list HubEvent) (v v' : V) : Prop :=
  match last (omap channel evs) with
  | Some e => content e = v'
  | None => v' = v
  end.

Hypothesis entry_announced : ∀ sm e sm' r,
  covered e → apply_entry sm e = (sm', Ok r) →
  ∃ evs, sm_published sm' = sm_published sm ++ evs ∧
    announces evs (snapshot (sm_db sm) (sm_data_trust_domain sm))
      (snapshot (sm_db sm') (sm_data_trust_domain sm)).

Lemma announces_app l1 l2 v1 v2 v3 :
  announces l1 v1 v2 → announces l2 v2 v3 → announces (l1 ++ l2) v1 v3.
Proof.
  unfold announces. rewrite omap_app, last_app. intros H1 H2.
  destruct (last (omap channel l2)) as [e|]; [done|]. by rewrite H2.
Qed.

Lemma apply_entry_domain sm e sm' r :
  apply_entry sm e = (sm', r) → sm_data_trust_domain sm' = sm_data_trust_domain sm.
Proof.
  destruct r as [r|err]; intros H.
  - apply apply_entry_ok in H as (b & ck & db & _ & _ & -> & _). done.
  - by apply apply_entry_err in H as (_ & _ & _ & ? & _).
Qed.

Lemma apply_announced sm es sm' res :
  Forall covered es → apply sm es = (sm', res) →
  sm_data_trust_domain sm' = sm_data_trust_domain sm ∧
  ∃ evs, sm_published sm' = sm_published sm ++ evs ∧
    announces evs (snapshot (sm_db sm) (sm_data_trust_domain sm))
      (snapshot (sm_db sm') (sm_data_trust_domain sm)).
Proof.
  revert sm res. induction es as [|e es IH]; intros sm res Hc H.
  { injection H as <- <-. split; [done|]. exists []. by rewrite app_nil_r. }
  apply Forall_cons in Hc as [He Hc]. cbn in H.
  destruct (apply_entry sm e) as [sm1 [r|err]] eqn:E1.
  - destruct (apply sm1 es) as [sm2 res2] eqn:E2. injection H as <- _.
    pose proof (apply_entry_domain _ _ _ _ E1) as Hd.
    destruct (entry_announced _ _ _ _ He E1) as (evs1 & Hp1 & Ha1).
    destruct (IH sm1 res2 Hc E2) as (Hd2 & evs2 & Hp2 & Ha2). rewrite Hd in *.
    split; [done|]. exists (evs1 ++ evs2). split; [by rewrite Hp2, Hp1, app_assoc|].
    by eapply announces_app.
  - injection H as <- _. apply apply_entry_err in E1 as (Hdb & Hp & _ & Hd & _).
    split; [done|]. exists []. rewrite app_nil_r, Hdb. by split.
Qed.

(** A receiver made at [sm0], the first frame read at [sm1], everything delivered at
    [sm2]: the content of the last message, or the first frame if there was none, is
    the state at [sm2]. *)
Lemma subscriber_current sm0 es1 res1 sm1 es2 res2 sm2 :
  apply sm0 es1 = (sm1, res1) → apply sm1 es2 = (sm2, res2) → Forall covered (es1 ++ es2) →
  sm_data_trust_domain sm2 = sm_data_trust_domain sm0 ∧
  announces (published_since sm0 sm2)
    (snapshot (sm_db sm1) (sm_data_trust_domain sm0))
    (snapshot (sm_db sm2) (sm_data_trust_domain sm0)).
Proof.
  intros H1 H2 [Hc1 Hc2]%Forall_app.
  destruct (apply_announced _ _ _ _ Hc1 H1) as (Hd1 & l1 & Hp1 & Ha1).
  destruct (apply_announced _ _ _ _ Hc2 H2) as (Hd2 & l2 & Hp2 & Ha2). rewrite Hd1 in *.
  split; [done|]. unfold published_since. rewrite Hp2, Hp1, <- app_assoc, drop_app_length.
  unfold announces in *. rewrite omap_app, last_app.
  destruct (last (omap channel l2)) as [e|]; [done|]. rewrite Ha2.
  by destruct (last (omap channel l1)).
Qed.
End Channel.

Ltac unfold_head t H :=
  match t with
  | ?f _ => unfold_head f H
  | _ => unfold t in H
  end.

Section Announced.
Context `{F : Fjall} `{C : Core} `{W : !Wire C} `{!FjallSpec F} `{!FjallReliable F}.

(** The change kind of a command. *)
Definition cmd_change_kind (c : FleetosCommand) : ChangeKind.t :=
  match c with
  | NodeHeartbeat _ _ | RegisterNodeEk _ | ActivateNodeEk _ _ | RevokeNodeEk _ | RegisterControlAddress _ =>
      ChangeKind.ClusterMembership
  | MintJoinToken _ | ConsumeJoinToken _ | SetPcrPolicy _ | PruneExpiredRevokedSvids _
  | UpsertSagRule _ | DeleteSagRule _ | GrantOperatorAccess _ | RevokeOperatorAccess _ =>
      ChangeKind.SagUpdate
  | EvictNode _ _ => ChangeKind.Eviction
  | RevokeDelegation _ _ => ChangeKind.RevokedDelegations
  | AllocateTenantBlock _ | AllocateServiceAddress _ _ => ChangeKind.DummyIpUpdate
  | StoreSecret _ target => ChangeKind.SecretRotation target
  | GrantSecretAccess _ _ id | RevokeSecretAccess _ _ id => ChangeKind.SecretRotation id
  | UpsertSvidVersion r => ChangeKind.SvidRotation (svr_spiffe_id r) (svr_svid_version r)
  | _ => ChangeKind.SchedulingUpdate
  end.

Lemma apply_command_change_kind db c b b' ck :
  apply_command db c b = Ok (b', ck) → ck = cmd_change_kind c.
Proof.
  intros H. destruct c; cbn [apply_command cmd_change_kind] in *;
    (match type of H with ?l = _ => unfold_head l H end);
    repeat first
    [ apply bind_ok in H as (? & _ & H)
    | match type of H with match ?x with _ => _ end = _ => destruct x end ];
    by injection H.
Qed.

(** What the snapshots of a channel are made of. *)
Definition same_on (ks : Keyspace) (db db' : Db) : Prop :=
  ∀ k, contents db' !! (ks, k) = contents db !! (ks, k).

Lemma get_same_on ks db db' k : same_on ks db db' → get db' ks k = get db ks k.
Proof. intros H. by rewrite !get_eq, H. Qed.
Lemma values_same_on ks db db' p : same_on ks db db' → values db' ks p = values db ks p.
Proof. intros H. rewrite !values_reliable. f_equal. by apply scan_ext. Qed.

Lemma schedule_snapshot_same_on db db' d :
  same_on ks_placements db db' → same_on ks_workloads db db' →
  build_schedule_snapshot db' d = build_schedule_snapshot db d.
Proof.
  intros Hp Hw. unfold build_schedule_snapshot. rewrite (values_same_on _ _ _ _ Hp).
  f_equal. f_equal. apply omap_pointwise. intros v. destruct (from_bytes v) as [p|]; [|done].
  cbn. f_equal. unfold assignment_record, lookup_workload_spec. by rewrite (get_same_on _ _ _ _ Hw).
Qed.

Lemma routes_snapshot_same_on db db' d :
  same_on ks_placements db db' → same_on ks_dummy_ips db db' → same_on ks_sag_rules db db' →
  build_routes_snapshot db' d = build_routes_snapshot db d.
Proof.
  intros Hp Hi Hs. unfold build_routes_snapshot, compute_source_index.
  rewrite (values_same_on _ _ _ _ Hp), (values_same_on _ _ _ _ Hs).
  f_equal. f_equal. apply omap_pointwise. intros v. destruct (from_bytes v) as [p|]; [|done].
  cbn. f_equal. unfold route_record. by rewrite (get_same_on _ _ _ _ Hi).
Qed.

Lemma sag_snapshot_same_on db db' :
  same_on ks_sag_rules db db' → same_on ks_revoked_delegations db db' →
  same_on ks_revoked_svids db db' → build_sag_snapshot db' = build_sag_snapshot db.
Proof.
  intros Hs Hd Hr. unfold build_sag_snapshot.
  by rewrite (values_same_on _ _ _ _ Hs), (values_same_on _ _ _ _ Hd), (values_same_on _ _ _ _ Hr).
Qed.

(** What an applied entry publishes. *)
Definition entry_change_kind (e : Entry) : ChangeKind.t :=
  match payload e with
  | Blank => ChangeKind.SagUpdate
  | Normal a => cmd_change_kind (cmd a)
  | MembershipEntry _ => ChangeKind.ClusterMembership
  end.

Lemma apply_entry_publishes sm e sm' r :
  apply_entry sm e = (sm', Ok r) →
  sm_published sm' = sm_published sm ++
    publish_event (sm_db sm') (sm_data_trust_domain sm) (sm_version sm') (entry_change_kind e).
Proof.
  intros H. apply apply_entry_ok in H as (b & ck & db' & Hb & _ & -> & _). cbn. do 2 f_equal.
  apply entry_batch_ok in Hb as (b0 & p & lid & Hs & _). unfold stage_payload, entry_change_kind in *.
  destruct (payload e) as [|a|m]; [by injection Hs| |].
  - apply bind_ok in Hs as ([b1 ck1] & Hc & [= <- <- <-]). by eapply apply_command_change_kind.
  - by apply bind_ok in Hs as (v & _ & [= <- <- <-]).
Qed.

Lemma entry_same_on sm e sm' r ks :
  bookkeeping ks = false → ks ∉ entry_keyspaces e → apply_entry sm e = (sm', Ok r) →
  same_on ks (sm_db sm) (sm_db sm').
Proof. intros Hb Hks H k. by eapply apply_entry_frame. Qed.

(** *** The three channels that carry state *)

(** The part of the state the channel is about is untouched, or the change kind
    announces it. *)
Ltac announced H :=
  eexists; split; [by eapply apply_entry_publishes|]; unfold announces;
  match goal with |- context [entry_change_kind ?e] =>
    destruct (entry_change_kind e) eqn:Hck; try reflexivity; cbn;
    unfold entry_change_kind in Hck;
    assert (∀ ks, bookkeeping ks = false → ks ∉ entry_keyspaces e → same_on ks _ _) as Hsame
      by (intros ks Hb Hn; by eapply entry_same_on);
    unfold entry_keyspaces in Hsame;
    destruct (payload e) as [|a|m] eqn:Hp; try discriminate Hck;
    try (destruct (cmd a) eqn:Hc; try discriminate Hck)
  end.
Ltac untouched Hsame := apply Hsame; [reflexivity|apply (bool_decide_unpack _); vm_compute; exact I].

Lemma schedule_announced sm e sm' r :
  True → apply_entry sm e = (sm', Ok r) →
  ∃ evs, sm_published sm' = sm_published sm ++ evs ∧
    announces schedule_tx sche_assignments_bytes evs
      (build_schedule_snapshot (sm_db sm) (sm_data_trust_domain sm))
      (build_schedule_snapshot (sm_db sm') (sm_data_trust_domain sm)).
Proof. intros _ H. announced H; apply schedule_snapshot_same_on; untouched Hsame. Qed.

(** The two allocations of the dummy address space are not announced to the routers. *)
Definition allocates_address (e : Entry) : Prop :=
  ∃ a, payload e = Normal a ∧
    match cmd a with AllocateTenantBlock _ | AllocateServiceAddress _ _ => True | _ => False end.

Lemma routes_announced sm e sm' r :
  ¬ allocates_address e → apply_entry sm e = (sm', Ok r) →
  ∃ evs, sm_published sm' = sm_published sm ++ evs ∧
    announces route_tx rue_routes_bytes evs
      (build_routes_snapshot (sm_db sm) (sm_data_trust_domain sm))
      (build_routes_snapshot (sm_db sm') (sm_data_trust_domain sm)).
Proof.
  intros Hcov H. announced H; try (apply routes_snapshot_same_on; untouched Hsame);
    exfalso; apply Hcov; exists a; by rewrite Hc.
Qed.

(** Neither is a rule that a manifest writes announced to the agents. *)
Definition applies_sag_rule (e : Entry) : Prop :=
  ∃ a us, payload e = Normal a ∧ cmd a = ApplyManifests us ∧
    Exists (λ u, mu_target_keyspace u = "sag_rules") us.

Lemma apply_manifests_other sm e sm' r a us ks :
  payload e = Normal a → cmd a = ApplyManifests us → bookkeeping ks = false →
  Forall (λ u, manifest_keyspace (mu_target_keyspace u) ≠ Some ks) us →
  apply_entry sm e = (sm', Ok r) → same_on ks (sm_db sm) (sm_db sm').
Proof.
  intros Hp Hc Hb Hus H k. destruct (apply_entry_command _ _ _ _ _ Hp H) as (b & ck & Ha & Hl).
  rewrite (Hl _ _ Hb), apply_batch_lookup. rewrite Hc in Ha. injection Ha as <- _.
  rewrite (proj2 (last_write_none _ _)); [done|].
  assert (∀ b, Forall (λ op, op_key op ≠ (ks, k)) b → Forall (λ op, op_key op ≠ (ks, k))
    (foldl (λ batch update, match manifest_keyspace (mu_target_keyspace update) with
      | Some ks => batch_insert ks (mu_target_key update) (mu_new_record_bytes update) batch
      | None => batch end) b us)) as Hf; [|by apply Hf].
  clear -Hus. induction Hus as [|u us Hu Hus IH]; intros b Hb; [done|]. cbn. apply IH.
  destruct (manifest_keyspace _) as [ks'|]; [|done].
  apply Forall_app. split; [done|]. apply Forall_singleton. cbn. congruence.
Qed.

Lemma sag_announced sm e sm' r :
  ¬ applies_sag_rule e → apply_entry sm e = (sm', Ok r) →
  ∃ evs, sm_published sm' = sm_published sm ++ evs ∧
    announces sag_tx (λ u, {| rules_bytes := sue_rules_bytes u;
        revoked_delegation_ids := sue_revoked_delegation_ids u;
        revoked_spiffe_ids := sue_revoked_spiffe_ids u |}) evs
      (build_sag_snapshot (sm_db sm)) (build_sag_snapshot (sm_db sm')).
Proof.
  intros Hcov H. announced H; try (apply sag_snapshot_same_on; untouched Hsame).
  apply sag_snapshot_same_on; try untouched Hsame.
  eapply apply_manifests_other; [done|exact Hc|done| |done].
  apply Forall_forall. intros u Hu Hk. apply Hcov. exists a. eexists. split_and!; [done|exact Hc|].
  apply Exists_exists. exists u. split; [exact Hu|].
  unfold manifest_keyspace in Hk. by simplify_option_eq.
Qed.
End Announced.

Section Convergence.
Context `{F : Fjall} `{C : Core} `{W : !Wire C} `{!FjallSpec F} `{!FjallReliable F}.

Lemma deserialize_schedule_snapshot db d :
  ∃ l, deserialize_assignments (build_schedule_snapshot db d) = Some l.
Proof.
  unfold deserialize_assignments. destruct (decide _) as [|Hne]; [by eexists|].
  unfold build_schedule_snapshot in *. destruct (to_allocvec _) as [b|] eqn:E; [|done]. cbn.
  rewrite (from_to_allocvec _ _ E). by eexists.
Qed.

Lemma deserialize_routes_snapshot db d :
  ∃ l, deserialize_routes (build_routes_snapshot db d) = Some l.
Proof.
  unfold deserialize_routes. destruct (decide _) as [|Hne]; [by eexists|].
  unfold build_routes_snapshot in *. destruct (to_allocvec _) as [b|] eqn:E; [|done]. cbn.
  rewrite (from_to_allocvec _ _ E). by eexists.
Qed.

(** The last frame of a stream whose receiver has been drained. *)
Lemma last_frame {E U} (frame : E → option U) (u0 : U) sent rx :
  delivers sent rx →
  match last sent with
  | Some e => ∀ u, frame e = Some u → last (u0 :: stream_loop frame rx) = Some u
  | None => last (u0 :: stream_loop frame rx) = Some u0
  end.
Proof.
  intros Hd%(stream_loop_last frame). destruct (last sent) as [e|]; [|by rewrite Hd].
  intros u Hu. by rewrite last_cons, (Hd u Hu).
Qed.

(** The three streams, from a subscription at [sm0] and a first frame read at [sm1]. *)
Section Drained.
Context (sm0 sm1 sm2 : FjallStateMachine) (es1 es2 : list Entry) (v : Z).
Context (res1 res2 : result SmError (list FleetosResponse)).
Context (H1 : apply sm0 es1 = (sm1, res1)) (H2 : apply sm1 es2 = (sm2, res2)).
#[local] Abbreviation d := (sm_data_trust_domain sm0).
#[local] Abbreviation sent := (published_since sm0 sm2).

Lemma schedule_converges rx :
  delivers (omap schedule_tx sent) rx →
  ∃ fs u, watch_schedule (sm_db sm1) d v rx = Ok fs ∧ last fs = Some u ∧
    deserialize_assignments (build_schedule_snapshot (sm_db sm2) d) = Some (scu_assignments u).
Proof.
  intros Hrx.
  destruct (subscriber_current schedule_tx sche_assignments_bytes build_schedule_snapshot (λ _, True)
    schedule_announced _ _ _ _ _ _ _ H1 H2) as [_ Ha]; [by apply Forall_true|].
  destruct (deserialize_schedule_snapshot (sm_db sm1) d) as [l1 Hl1].
  destruct (deserialize_schedule_snapshot (sm_db sm2) d) as [l2 Hl2].
  unfold watch_schedule. rewrite Hl1. cbn. eexists _.
  apply (last_frame schedule_frame {| scu_version := v; scu_assignments := l1 |}) in Hrx.
  unfold announces in Ha. destruct (last _) as [e|].
  + eexists. split_and!; [done|apply Hrx; unfold schedule_frame; by rewrite Ha, Hl2|]. done.
  + exists {| scu_version := v; scu_assignments := l1 |}. split_and!; [done|exact Hrx|]. by rewrite Ha, Hl1.
Qed.

Lemma routes_converge rx :
  Forall (λ e, ¬ allocates_address e) (es1 ++ es2) → delivers (omap route_tx sent) rx →
  ∃ fs u, watch_routes (sm_db sm1) d v rx = Ok fs ∧ last fs = Some u ∧
    deserialize_routes (build_routes_snapshot (sm_db sm2) d) = Some (ru_routes u).
Proof.
  intros Hcov Hrx.
  destruct (subscriber_current route_tx rue_routes_bytes build_routes_snapshot _
    routes_announced _ _ _ _ _ _ _ H1 H2 Hcov) as [_ Ha].
  destruct (deserialize_routes_snapshot (sm_db sm1) d) as [l1 Hl1].
  destruct (deserialize_routes_snapshot (sm_db sm2) d) as [l2 Hl2].
  unfold watch_routes. rewrite Hl1. cbn. eexists _.
  apply (last_frame route_frame {| ru_version := v; ru_routes := l1 |}) in Hrx.
  unfold announces in Ha. destruct (last _) as [e|].
  + eexists. split_and!; [done|apply Hrx; unfold route_frame; by rewrite Ha, Hl2|]. done.
  + exists {| ru_version := v; ru_routes := l1 |}. split_and!; [done|exact Hrx|]. by rewrite Ha, Hl1.
Qed.

Lemma sag_converges rx fs rules :
  Forall (λ e, ¬ applies_sag_rule e) (es1 ++ es2) → delivers (omap sag_tx sent) rx →
  watch_sag (sm_db sm1) v rx = Ok fs →
  decode_rules (rules_bytes (build_sag_snapshot (sm_db sm2))) = Ok rules →
  ∃ u, last fs = Some u ∧ su_rules u = rules ∧
    su_revoked_delegation_ids u = revoked_delegation_ids (build_sag_snapshot (sm_db sm2)) ∧
    su_revoked_spiffe_ids u = revoked_spiffe_ids (build_sag_snapshot (sm_db sm2)).
Proof.
  intros Hcov Hrx Hfs Hrules.
  destruct (subscriber_current sag_tx _ (λ db _, build_sag_snapshot db) _
    sag_announced _ _ _ _ _ _ _ H1 H2 Hcov) as [_ Ha]. cbn beta in Ha.
  unfold watch_sag in Hfs. apply bind_ok in Hfs as (u0 & Hu0%map_err_ok & [= <-]).
  apply (last_frame (λ update, ok (watch_sag_delta update)) u0) in Hrx.
  unfold announces in Ha. destruct (last _) as [e|].
  + eexists. split; [apply Hrx; unfold watch_sag_delta; rewrite <- Ha in Hrules; cbn [rules_bytes] in Hrules; by rewrite Hrules|].
    by rewrite <- Ha.
  + exists u0. split; [exact Hrx|]. unfold watch_sag_frame_one in Hu0.
    rewrite Ha in *. rewrite Hrules in Hu0. by injection Hu0 as <-.
Qed.
End Drained.

(** C8. A subscriber of the schedule stream, once its channel is drained, has the
    committed schedule: however the log went on between the subscription, the read of
    the first frame and now, and however far the receiver lagged, its last frame is the
    decoding of the current snapshot. The same holds of the routes, unless an address
    or a block was allocated in between, and of the policy (rules, revoked delegations
    and revoked identities), unless a manifest wrote a rule. *)
Theorem subscribers_converge sm0 es1 res1 sm1 es2 res2 sm2 v :
  let d := sm_data_trust_domain sm0 in
  let sent := published_since sm0 sm2 in
  apply sm0 es1 = (sm1, res1) → apply sm1 es2 = (sm2, res2) →
  (∀ rx, delivers (omap schedule_tx sent) rx →
    ∃ fs u, watch_schedule (sm_db sm1) d v rx = Ok fs ∧ last fs = Some u ∧
      deserialize_assignments (build_schedule_snapshot (sm_db sm2) d) = Some (scu_assignments u)) ∧
  (Forall (λ e, ¬ allocates_address e) (es1 ++ es2) →
    ∀ rx, delivers (omap route_tx sent) rx →
    ∃ fs u, watch_routes (sm_db sm1) d v rx = Ok fs ∧ last fs = Some u ∧
      deserialize_routes (build_routes_snapshot (sm_db sm2) d) = Some (ru_routes u)) ∧
  (Forall (λ e, ¬ applies_sag_rule e) (es1 ++ es2) →
    ∀ rx fs rules, delivers (omap sag_tx sent) rx → watch_sag (sm_db sm1) v rx = Ok fs →
    decode_rules (rules_bytes (build_sag_snapshot (sm_db sm2))) = Ok rules →
    ∃ u, last fs = Some u ∧ su_rules u = rules ∧
      su_revoked_delegation_ids u = revoked_delegation_ids (build_sag_snapshot (sm_db sm2)) ∧
      su_revoked_spiffe_ids u = revoked_spiffe_ids (build_sag_snapshot (sm_db sm2))).
Proof.
  intros d sent H1 H2. split_and!.
  - intros rx. by eapply schedule_converges.
  - intros Hcov rx. by eapply routes_converge.
  - intros Hcov rx fs rules. by eapply sag_converges.
Qed.
End Convergence.

(** ** Witness *)
Import DemoInstances.

Definition demo_removed (n : Z) : Entry :=
  demo_entry (7 + n) (RemovePlacement ("web-primary-" +:+ pretty n)).
#[local] Abbreviation demo_first := (apply demo_sm [demo_removed 0]).
#[local] Abbreviation demo_second := (apply demo_first.1 [demo_removed 1]).
#[local] Instance ScheduleUpdateEvent_eq_dec : EqDecision ScheduleUpdateEvent.
Proof. solve_decision. Defined.
Definition demo_schedule_event (n : Z) (sm : FjallStateMachine) : ScheduleUpdateEvent :=
  {| sche_version := n; sche_assignments_bytes := build_schedule_snapshot (sm_db sm) "fleet.internal" |}.

(** Two placements are removed, the second after the first frame was read; the receiver
    lags and misses the first message. The subscriber ends without assignments. *)
Lemma subscribers_converge_witness :
  ∃ fs u, watch_schedule (sm_db demo_first.1) "fleet.internal" 7
      [Lagged 1; Received (demo_schedule_event 8 demo_second.1)] = Ok fs ∧
    last fs = Some u ∧ scu_assignments u = [].
Proof.
  destruct (subscribers_converge demo_sm [demo_removed 0] demo_first.2 demo_first.1
    [demo_removed 1] demo_second.2 demo_second.1 7) as [Hs _].
  - apply surjective_pairing.
  - apply surjective_pairing.
  - assert (sm_data_trust_domain demo_sm = "fleet.internal") as Hdom by vm_refl.
    rewrite Hdom in Hs.
    assert (omap schedule_tx (published_since demo_sm demo_second.1) =
      [demo_schedule_event 7 demo_first.1] ++ [demo_schedule_event 8 demo_second.1]) as Hsent.
    { apply (bool_decide_eq_true (_ = _)). vm_refl. }
    rewrite Hsent in Hs.
    assert (deserialize_assignments (build_schedule_snapshot (sm_db demo_second.1) "fleet.internal") =
      Some []) as E by vm_refl.
    rewrite E in Hs.
    destruct (Hs [Lagged 1; Received (demo_schedule_event 8 demo_second.1)]) as (fs & u & Hw & Hl & Hd).
    + apply (delivers_lagged [_]); [done|]. repeat constructor.
    + exists fs, u. split_and!; [exact Hw|exact Hl|]. by injection Hd.
Defined.

(** ** What is not announced *)
Definition demo_manifest : Entry := demo_entry 7 (ApplyManifests [{|
  mu_target_keyspace := "sag_rules"; mu_target_key := "r1"; mu_new_record_bytes := "rule" |}]).

(** A rule written by a manifest changes the policy, and no message on the policy
    channel says so: agents keep the old one. *)
Lemma manifest_rule_not_announced :
  let sm' := (apply_entry demo_sm demo_manifest).1 in
  omap sag_tx (published_since demo_sm sm') = [] ∧
  rules_bytes (build_sag_snapshot (sm_db sm')) ≠ rules_bytes (build_sag_snapshot (sm_db demo_sm)).
Proof.
  intros sm'. split; [vm_refl|]. apply (bool_decide_eq_false (_ = _)). vm_refl.
Qed.

Definition demo_allocation : Entry := demo_entry 7 (AllocateServiceAddress
  {| tb_tenant_id := "acme"; tb_base := 0x80000000; tb_prefix := 24; tb_next_offset := 2 |}
  {| sa_tenant_id := "acme"; sa_service := "web"; sa_role := "primary"; sa_address := 0x80000001 |}).

(** The address of a service with placements changes the routes, and nothing is
    published: routers keep the address 0. *)
Lemma service_address_not_announced :
  let sm' := (apply_entry demo_sm demo_allocation).1 in
  published_since demo_sm sm' = [] ∧
  build_routes_snapshot (sm_db sm') "fleet.internal" ≠ build_routes_snapshot (sm_db demo_sm) "fleet.internal".
Proof.
  intros sm'. split; [vm_refl|]. apply (bool_decide_eq_false (_ = _)). vm_refl.
Qed.
