(* ===== verification/Services.v ===== *)
(** * Services: what nodes report and fetch

    The unary services of the Data/Control listener that answer to one node: workload
    status, pod metrics and node heartbeats ([src/watch/status_service.rs]), delivery of
    secrets ([src/watch/secret_service.rs]) and pod events
    ([src/watch/pod_event_service.rs], with the filters of its admin stream). The
    heartbeat handler runs over the state machine as in [Rpc]; the others keep their own
    state next to the database: the metrics, the sequence numbers, the events. *)

From S2P Require Import Prelude.
From S2P Require Import Storage.
From S2P Require Import Core.
From S2P Require Import Records.
From S2P Require Import WireInstance.
From S2P Require Import Acl.
From S2P Require Import StateMachine.
From S2P Require Import Apply.
From S2P Require Import Raft.
From S2P Require Import Rpc.
From S2P Require Import Invariant.
From S2P Require Import Demo.
From S2P Require Import Staging.
From S2P Require Import Frame.
From S2P Require Import PodEvents.
From S2P Require Import Metrics.
From S2P Require Import Secrets.

(** ** [WorkloadStatusServiceImpl] *)

(** [WorkloadStatusReport] and [NodeStatusReport]. *)
Record WorkloadStatusReport : Type := {
  wr_pod_id : string;
  wr_workload_id : string;
  wr_tenant_id : string;
  wr_ready : bool;
  wr_live : bool;
  wr_started : bool;
  wr_policy_enforced : bool;
  wr_restart_count : Z;
  wr_observed_at_unix : Z;
  wr_router_connected : bool
}.
Record NodeStatusReport : Type := { nsr_node_svid : string; nsr_observed_at_unix : Z }.

Section StatusService.
Context `{F : Fjall} `{C : Core} `{W : !Wire C} `{R : !Raft}.

Definition report_workload_status (request : Request WorkloadStatusReport) : rpc bool :=
  let report := rq_message request in
  ensure (bool_decide (wr_pod_id report ≠ "")) InvalidArgument ≫= λ _,
  proposes (system (UpsertWorkloadStatus {|
    wst_pod_id := wr_pod_id report;
    wst_workload_id := wr_workload_id report;
    wst_tenant_id := wr_tenant_id report;
    wst_ready := wr_ready report;
    wst_live := wr_live report;
    wst_started := wr_started report;
    wst_policy_enforced := wr_policy_enforced report;
    wst_restart_count := wr_restart_count report;
    wst_observed_at_unix := as_i64 (wr_observed_at_unix report);
    wst_router_connected := wr_router_connected report;
    wst_gate_violation_since_unix := 0 |})) ≫= λ _,
  mret true.

Definition report_pod_metrics (s : MetricsStore) (db : Db) (now : Z) (request : Request PodMetrics) :
    MetricsStore * result Status bool :=
  let '(s, r) := report s db now (rq_message request) in
  (s, map_err (λ _, status InvalidArgument) r).

Definition report_node_status (now : Z) (request : Request NodeStatusReport) : rpc bool :=
  caller ← lift_option Unauthenticated (caller request);
  let req := rq_message request in
  ensure (bool_decide (nsr_node_svid req ≠ "")) InvalidArgument ≫= λ _,
  node_spiffe ← lift_option InvalidArgument (spiffe_parse (nsr_node_svid req));
  ensure (bool_decide (caller = node_spiffe)) PermissionDenied ≫= λ _,
  record_bytes ← view_or Internal (λ db, get db ks_nodes (nsr_node_svid req));
  record_bytes ← lift_option NotFound record_bytes;
  record ← lift_option Internal (from_bytes record_bytes : option NodeRecord);
  ensure (bool_decide (nr_status record ≠ Evicted)) PermissionDenied ≫= λ _,
  proposes (system (NodeHeartbeat (nsr_node_svid req) now)) ≫= λ _,
  mret true.
End StatusService.

(** ** [SecretServiceImpl] *)

(** [FetchSecretRequest] and [SealedSecret]. *)
Record FetchSecretRequest : Type := {
  fs_target_spiffe_id : string;
  fs_sealed_for_svid_version : Z
}.
Record SealedSecret : Type := {
  ss_target_spiffe_id : string;
  ss_sealed_for_svid_version : Z;
  ss_sequence : Z;
  ss_ephemeral_pubkey : bytes;
  ss_ciphertext : bytes
}.

(** [fleetos_core::crypto::seal]: from random bytes, the recipient's key, the plaintext,
    the version and the sequence number, which it writes into what it seals. *)
Record Sealed : Type := {
  se_sealed_for_svid_version : Z;
  se_sequence : Z;
  se_ephemeral_pubkey : bytes;
  se_ciphertext : bytes
}.
Class Seal : Type := { seal : bytes → bytes → bytes → Z → Z → option Sealed }.
Class SealSpec (S : Seal) : Prop :=
  seal_fields rand pk plaintext version sequence e :
    seal rand pk plaintext version sequence = Some e →
    se_sealed_for_svid_version e = version ∧ se_sequence e = sequence.

Module SecretServiceImpl.
Section SecretServiceImpl.
Context `{F : Fjall} `{C : Core} `{W : !Wire C} `{A : Aead} `{K : MasterKeyProvider}.
Context `{P : !Postcard EnvelopeSecret} `{S : Seal}.

(** [sequence_tracker]. *)
Definition Tracker : Type := gmap (string * Z) Z.

Definition next_sequence (tracker : Tracker) (spiffe_id : string) (svid_version : Z) : Tracker * Z :=
  let key := (spiffe_id, svid_version) in
  let seq := wrap_u64 (default 0 (tracker !! key) + 1) in
  (<[key := seq]> tracker, seq).

Definition lookup_svid_version (db : Db) (spiffe_id : SpiffeId) : result Status Z :=
  r ← map_err (λ _, status Internal) (get db ks_svids (spiffe_to_string spiffe_id));
  b ← ok_or (status NotFound) r;
  record ← ok_or (status Internal) (from_bytes b : option SvidRecord);
  Ok (svr_svid_version record).

Definition lookup_x25519_pubkey (db : Db) (spiffe_id : SpiffeId) : result Status bytes :=
  r ← map_err (λ _, status Internal) (get db ks_svids (spiffe_to_string spiffe_id));
  b ← ok_or (status Internal) r;
  record ← ok_or (status Internal) (from_bytes b : option SvidRecord);
  if blen (svr_agent_x25519_pubkey record) =? 32 then Ok (svr_agent_x25519_pubkey record)
  else Err (status Internal).

Definition secret_status (e : SecretError) : Status :=
  match e with
  | SecretAccessDenied _ _ => status PermissionDenied
  | SecretNotFound _ => status NotFound
  | _ => status Internal
  end.

(** The checks and reads before a sequence number is taken: the plaintext and the key it
    is sealed to. *)
Definition released (db : Db) (request : Request FetchSecretRequest) : result Status (bytes * bytes) :=
  requesting_spiffe_id ← ok_or (status Unauthenticated) (caller request);
  let req := rq_message request in
  ok_or (status InvalidArgument) (spiffe_parse (fs_target_spiffe_id req)) ≫= λ _,
  requester_version ← lookup_svid_version db requesting_spiffe_id;
  if negb (requester_version =? fs_sealed_for_svid_version req) then Err (status PermissionDenied)
  else
    plaintext ← map_err secret_status (Secrets.fetch_secret db (fs_target_spiffe_id req) requesting_spiffe_id);
    recipient_pubkey ← lookup_x25519_pubkey db requesting_spiffe_id;
    Ok (plaintext, recipient_pubkey).

Definition fetch_secret (db : Db) (tracker : Tracker) (rand : bytes)
    (request : Request FetchSecretRequest) : Tracker * result Status SealedSecret :=
  let req := rq_message request in
  match released db request with
  | Err e => (tracker, Err e)
  | Ok (plaintext, recipient_pubkey) =>
      let '(tracker, sequence) :=
        next_sequence tracker (fs_target_spiffe_id req) (fs_sealed_for_svid_version req) in
      (tracker,
       sealed ← ok_or (status Internal)
         (seal rand recipient_pubkey plaintext (fs_sealed_for_svid_version req) sequence);
       Ok {| ss_target_spiffe_id := fs_target_spiffe_id req;
             ss_sealed_for_svid_version := se_sealed_for_svid_version sealed;
             ss_sequence := se_sequence sealed;
             ss_ephemeral_pubkey := se_ephemeral_pubkey sealed;
             ss_ciphertext := se_ciphertext sealed |})
  end.
End SecretServiceImpl.
End SecretServiceImpl.

(** ** [PodEventServiceImpl] *)
Record WatchPodEventsRequest : Type := { wpe_pod_id : string; wpe_tenant_id : string }.

Section PodEventService.
Context `{F : Fjall} `{C : Core} `{W : !Wire C}.

Definition resolve_pod_tenant (db : Db) (pod_id : string) : option string :=
  value ← ok (get db ks_placements pod_id) ≫= id;
  placement ← (from_bytes value : option Placement);
  Some (pl_tenant_id placement).

(** The checks on one event of a batch. *)
Definition check_event (caller : SpiffeId) (event : PodEvent) : result Status () :=
  if decide (ev_pod_id event = "") then Err (status InvalidArgument)
  else
    event_node ← ok_or (status InvalidArgument) (spiffe_parse (ev_node_id event));
    if decide (event_node ≠ caller) then Err (status PermissionDenied)
    else if negb (is_valid_event_type (ev_event_type event)) then Err (status InvalidArgument)
    else Ok ().

Definition normalize_event (now : Z) (e : PodEvent) : PodEvent := {|
  ev_pod_id := ev_pod_id e; ev_node_id := ev_node_id e; ev_event_type := ev_event_type e;
  ev_reason := ev_reason e; ev_message := ev_message e;
  ev_timestamp_unix := if ev_timestamp_unix e =? 0 then now else ev_timestamp_unix e;
  ev_count := if ev_count e =? 0 then 1 else ev_count e |}.

(** The emitter is locked for one event at a time; [None] is a panic of the store. *)
Definition report_pod_events (now : Z) (em : PodEventEmitter) (request : Request (list PodEvent)) :
    option PodEventEmitter * result Status () :=
  let checked :=
    caller ← ok_or (status Unauthenticated) (caller request);
    if decide (spiffe_kind caller ≠ IdKind.Node) then Err (status PermissionDenied)
    else foldM (λ _, check_event caller) (rq_message request) () in
  match checked with
  | Err e => (Some em, Err e)
  | Ok _ => (emit_batch em (normalize_event now <$> rq_message request), Ok ())
  end.

(** [watch_pod_events]: who may watch, and which events reach the watcher. *)
Definition may_watch_pod_events {T} (request : Request T) : result Status () :=
  caller ← ok_or (status Unauthenticated) (caller request);
  if decide (spiffe_kind caller = IdKind.Operator ∨ spiffe_kind caller = IdKind.Ctrl) then Ok ()
  else Err (status PermissionDenied).

Definition passes_filters (db : Db) (req : WatchPodEventsRequest) (event : PodEvent) : bool :=
  (bool_decide (wpe_pod_id req = "") || bool_decide (ev_pod_id event = wpe_pod_id req)) &&
  (bool_decide (wpe_tenant_id req = "") ||
   bool_decide (resolve_pod_tenant db (ev_pod_id event) = Some (wpe_tenant_id req))).
End PodEventService.

(** ** Heartbeats *)
Section Heartbeat.
Context `{F : Fjall} `{C : Core} `{W : !Wire C} `{R : !Raft} `{!FjallSpec F} `{!RaftSpec R}.

Lemma proposes_ok c sm sm' u :
  proposes c sm = (sm', Ok u) → ∃ e r, payload e = Normal c ∧ apply_entry sm e = (sm', Ok r).
Proof.
  unfold proposes. destruct (client_write sm c) as [sm1 [r|err]] eqn:E; [|done].
  intros [= <- <-]. destruct (client_write_ok _ _ _ _ E) as (e & He & Ha). eauto.
Qed.

(** What the entry of a heartbeat writes: the record of the node, with the new time. *)
Lemma heartbeat_entry sm e a n t sm' r v (rec : NodeRecord) :
  payload e = Normal a → cmd a = NodeHeartbeat n t → apply_entry sm e = (sm', Ok r) →
  contents (sm_db sm) !! (ks_nodes, n) = Some v → from_bytes v = Some rec →
  ∃ v', from_bytes v' = Some (set_node_heartbeat rec t) ∧
    ∀ ks k, bookkeeping ks = false →
      contents (sm_db sm') !! (ks, k) = <[(ks_nodes, n) := v']> (contents (sm_db sm)) !! (ks, k).
Proof.
  intros Hp Hc H Hv Hrec. destruct (apply_entry_command _ _ _ _ _ Hp H) as (b & ck & Hb & Hl).
  rewrite Hc in Hb. cbn [apply_command] in Hb. unfold apply_node_heartbeat in Hb.
  apply bind_ok in Hb as (o & Ho & Hb). unfold read in Ho. ok_inv. apply get_spec in Ho. rewrite Hv in Ho.
  subst o. unfold de in Hb. rewrite Hrec in Hb. cbn [mbind result_bind ok_or] in Hb.
  apply bind_ok in Hb as (v' & Hv' & Hb). ser_inv. injection Hb as <- _.
  exists v'. split; [done|]. intros ks k Hbk. by rewrite (Hl _ _ Hbk).
Qed.

(** C17. A heartbeat is accepted only from the node itself: the identity of the
    connection is the one the report names, the node is registered and not evicted. It
    sets the time of that node's record to the clock of the receiving leader, not to
    what the report says, and changes nothing else of the cluster state. *)
Theorem heartbeat_authentic now request sm sm' accepted :
  report_node_status now request sm = (sm', Ok accepted) →
  let n := nsr_node_svid (rq_message request) in
  ∃ id v v' rec, caller request = Some id ∧ spiffe_parse n = Some id ∧
    contents (sm_db sm) !! (ks_nodes, n) = Some v ∧ from_bytes v = Some rec ∧
    nr_status rec ≠ Evicted ∧ from_bytes v' = Some (set_node_heartbeat rec now) ∧
    ∀ ks k, bookkeeping ks = false →
      contents (sm_db sm') !! (ks, k) = <[(ks_nodes, n) := v']> (contents (sm_db sm)) !! (ks, k).
Proof.
  intros H n. unfold report_node_status in H.
  apply rpc_bind_ok in H as (sm1 & id & Hid & H). rpc_step Hid.
  fold n in H.
  apply rpc_bind_ok in H as (sm1 & u1 & Hne & H). rpc_step Hne.
  apply rpc_bind_ok in H as (sm1 & id' & Hid' & H). rpc_step Hid'.
  apply rpc_bind_ok in H as (sm1 & u2 & Heq & H). rpc_step Heq. apply bool_decide_eq_true in Heq as <-.
  apply rpc_bind_ok in H as (sm1 & o & Ho & H). rpc_step Ho. apply get_spec in Ho.
  apply rpc_bind_ok in H as (sm1 & v & Hv & H). rpc_step Hv. subst o.
  apply rpc_bind_ok in H as (sm1 & rec & Hrec & H). rpc_step Hrec.
  apply rpc_bind_ok in H as (sm1 & u3 & Hev & H). rpc_step Hev. apply bool_decide_eq_true in Hev.
  apply rpc_bind_ok in H as (sm1 & u4 & Hp & H). apply mret_ok in H as [-> _].
  apply proposes_ok in Hp as (e & r & He & Ha).
  destruct (heartbeat_entry _ _ _ _ _ _ _ _ _ He eq_refl Ha Hv Hrec) as (v' & Hv' & Hl).
  by exists id, v, v', rec.
Qed.
End Heartbeat.

(** ** Delivery of secrets *)
Section Delivery.
Context `{F : Fjall} `{C : Core} `{W : !Wire C} `{A : Aead} `{K : MasterKeyProvider}.
Context `{P : !Postcard EnvelopeSecret} `{S : Seal} `{!FjallSpec F} `{!SealSpec S}.

(** A run of the service: each request meets its own state of the database. *)
Record Fetch : Type := { f_db : Db; f_rand : bytes; f_request : Request FetchSecretRequest }.
Fixpoint fetches (tracker : SecretServiceImpl.Tracker) (l : list Fetch) : list (result Status SealedSecret) :=
  match l with
  | [] => []
  | f :: l =>
      let '(tracker, r) := SecretServiceImpl.fetch_secret (f_db f) tracker (f_rand f) (f_request f) in
      r :: fetches tracker l
  end.

(** What identifies a delivery to its recipient. *)
Definition delivery (s : SealedSecret) : string * Z * Z :=
  (ss_target_spiffe_id s, ss_sealed_for_svid_version s, ss_sequence s).
Definition deliveries (rs : list (result Status SealedSecret)) : list (string * Z * Z) :=
  delivery <$> omap ok rs.

(** What a delivered secret is: the plaintext the store releases to the caller, sealed
    to the key on record for the caller, whose SVID has the version asked for. *)
Definition delivered (f : Fetch) (s : SealedSecret) : Prop :=
  let req := rq_message (f_request f) in
  ∃ id v rec plaintext, caller (f_request f) = Some id ∧
    contents (f_db f) !! (ks_svids, spiffe_to_string id) = Some v ∧
    from_bytes v = Some rec ∧ svr_svid_version rec = fs_sealed_for_svid_version req ∧
    blen (svr_agent_x25519_pubkey rec) = 32 ∧
    Secrets.fetch_secret (f_db f) (fs_target_spiffe_id req) id = Ok plaintext ∧
    seal (f_rand f) (svr_agent_x25519_pubkey rec) plaintext (fs_sealed_for_svid_version req)
      (ss_sequence s) = Some {|
        se_sealed_for_svid_version := ss_sealed_for_svid_version s; se_sequence := ss_sequence s;
        se_ephemeral_pubkey := ss_ephemeral_pubkey s; se_ciphertext := ss_ciphertext s |} ∧
    ss_target_spiffe_id s = fs_target_spiffe_id req.

Lemma released_ok db request plaintext pk :
  SecretServiceImpl.released db request = Ok (plaintext, pk) →
  ∃ id v rec, caller request = Some id ∧
    contents db !! (ks_svids, spiffe_to_string id) = Some v ∧ from_bytes v = Some rec ∧
    svr_svid_version rec = fs_sealed_for_svid_version (rq_message request) ∧
    blen (svr_agent_x25519_pubkey rec) = 32 ∧ pk = svr_agent_x25519_pubkey rec ∧
    Secrets.fetch_secret db (fs_target_spiffe_id (rq_message request)) id = Ok plaintext.
Proof.
  unfold SecretServiceImpl.released. intros H. apply bind_ok in H as (id & Hid%ok_or_ok & H).
  apply bind_ok in H as (t & _ & H). apply bind_ok in H as (ver & Hver & H).
  destruct (ver =? _) eqn:Hv; [|done]. cbn [negb] in H. apply Z.eqb_eq in Hv.
  apply bind_ok in H as (pt & Hpt%map_err_ok & H). apply bind_ok in H as (pk' & Hpk & [= <- <-]).
  unfold SecretServiceImpl.lookup_svid_version in Hver. unfold SecretServiceImpl.lookup_x25519_pubkey in Hpk.
  apply bind_ok in Hver as (o & Ho%map_err_ok & Hver). apply bind_ok in Hver as (v & Hv'%ok_or_ok & Hver).
  apply bind_ok in Hver as (rec & Hrec%ok_or_ok & [= <-]). rewrite Ho in Hpk. cbn in Hpk.
  rewrite Hv' in Hpk. cbn in Hpk. rewrite Hrec in Hpk. cbn in Hpk.
  destruct (blen _ =? 32) eqn:Hb; [|done]. injection Hpk as <-. apply Z.eqb_eq in Hb.
  exists id, v, rec. split_and!; try done. apply get_spec in Ho. by rewrite <- Ho.
Qed.

(** One request: the counter of its key moves when the secret is released, and only
    then a sequence number is used. *)
Lemma fetch_secret_step db tracker rand request tracker' r :
  SecretServiceImpl.fetch_secret db tracker rand request = (tracker', r) →
  let key := (fs_target_spiffe_id (rq_message request), fs_sealed_for_svid_version (rq_message request)) in
  (tracker' = tracker ∧ ∃ e, r = Err e) ∨
  let n := wrap_u64 (default 0 (tracker !! key) + 1) in
  tracker' = <[key := n]> tracker ∧
  ∀ s, r = Ok s → delivery s = (key, n) ∧
    delivered {| f_db := db; f_rand := rand; f_request := request |} s.
Proof.
  intros H key. unfold SecretServiceImpl.fetch_secret in H.
  destruct (SecretServiceImpl.released db request) as [[pt pk]|e] eqn:Hr;
    [|injection H as <- <-; left; eauto].
  right. injection H as <- <-. split; [done|]. intros s H.
  apply bind_ok in H as ([v1 n1 ep ct] & Hs%ok_or_ok & [= <-]).
  destruct (seal_fields _ _ _ _ _ _ Hs) as [Hv Hn]. cbn in Hv, Hn. subst v1 n1. split; [done|].
  apply released_ok in Hr as (id & v & rec & Hid & Hv & Hrec & Hver & Hlen & -> & Hf).
  exists id, v, rec, pt. by split_and!.
Qed.

Definition count (tracker : SecretServiceImpl.Tracker) (key : string * Z) : Z := default 0 (tracker !! key).

Lemma count_insert tracker key n key' :
  count (<[key := n]> tracker) key' = if decide (key = key') then n else count tracker key'.
Proof.
  unfold count, SecretServiceImpl.Tracker in *. destruct (decide (key = key')) as [->|Hne];
    [by rewrite lookup_insert_eq|by rewrite lookup_insert_ne].
Qed.

(** The sequence numbers of a run are above the counters it starts from, and no two
    deliveries are the same. *)
Lemma fetches_fresh l tracker :
  (∀ key, 0 ≤ count tracker key ∧ count tracker key + Z.of_nat (length l) < 2 ^ 64) →
  (∀ key n, (key, n) ∈ deliveries (fetches tracker l) → count tracker key < n) ∧
  NoDup (deliveries (fetches tracker l)).
Proof.
  revert tracker. induction l as [|f l IH]; intros tracker Ht; [split; [set_solver|constructor]|].
  cbn [fetches].
  destruct (SecretServiceImpl.fetch_secret _ _ _ _) as [tracker' r] eqn:E. cbn [length] in Ht.
  destruct (fetch_secret_step _ _ _ _ _ _ E) as [[-> [e ->]]|[-> Hr]].
  { apply IH. intros key. specialize (Ht key). lia. }
  set (key0 := (fs_target_spiffe_id _, fs_sealed_for_svid_version _)) in *.
  set (n0 := wrap_u64 _) in *.
  assert (n0 = count tracker key0 + 1) as Hn0.
  { apply wrap_u64_small. specialize (Ht key0). unfold is_u64, count in *. lia. }
  destruct (IH (<[key0 := n0]> tracker)) as [Hlt Hnd].
  { intros key. rewrite count_insert. destruct (decide (key0 = key)) as [<-|]; [specialize (Ht key0)|specialize (Ht key)]; lia. }
  assert (∀ key n, (key, n) ∈ deliveries (fetches (<[key0 := n0]> tracker) l) →
    count tracker key < n ∧ (key = key0 → n0 < n)) as Hlt'.
  { intros key n Hin%Hlt. rewrite count_insert in Hin. destruct (decide (key0 = key)) as [<-|];
      (split; [lia|]); [by intros _|by intros ->]. }
  destruct r as [s|e]; [|split; [naive_solver|exact Hnd]].
  destruct (Hr s eq_refl) as [Hs _]. unfold deliveries in *. cbn. rewrite Hs. split.
  - intros key n [[= -> ->]|Hin]%elem_of_cons; [lia|]. by apply Hlt'.
  - apply NoDup_cons. split; [|exact Hnd]. intros [_ Hin]%Hlt'. specialize (Hin eq_refl). lia.
Qed.

Lemma fetches_delivered l tracker :
  Forall2 (λ f r, ∀ s, r = Ok s → delivered f s) l (fetches tracker l).
Proof.
  revert tracker. induction l as [|[db rand request] l IH]; intros tracker; cbn; [constructor|].
  destruct (SecretServiceImpl.fetch_secret _ _ _ _) as [tracker' r] eqn:E. constructor; [|apply IH].
  intros s ->. destruct (fetch_secret_step _ _ _ _ _ _ E) as [[_ [e He]]|[_ Hr]]; [done|]. by apply Hr.
Qed.

End Delivery.

(** ** Pod events *)
Section Reports.
Context `{F : Fjall} `{C : Core} `{W : !Wire C}.

Lemma check_event_ok c e :
  check_event c e = Ok () ↔
  ev_pod_id e ≠ "" ∧ spiffe_parse (ev_node_id e) = Some c ∧ is_valid_event_type (ev_event_type e) = true.
Proof.
  unfold check_event. destruct (decide _) as [|Hp]; [naive_solver|].
  destruct (spiffe_parse (ev_node_id e)) as [n|]; cbn; [|naive_solver].
  destruct (decide (n ≠ c)) as [|Hn%dec_stable]; [naive_solver|].
  destruct (is_valid_event_type _); cbn; naive_solver.
Qed.

(** A batch is taken whole or not at all: from a node, for events of that node. *)
Lemma report_pod_events_exact now em request em' :
  report_pod_events now em request = (em', Ok ()) ↔
  (∃ c, caller request = Some c ∧ spiffe_kind c = IdKind.Node ∧
    Forall (λ e, check_event c e = Ok ()) (rq_message request)) ∧
  em' = emit_batch em (normalize_event now <$> rq_message request).
Proof.
  assert (∀ c l, foldM (λ _, check_event c) l () = Ok () ↔ Forall (λ e, check_event c e = Ok ()) l) as Hall.
  { intros c l. induction l as [|e l IH]; cbn; [by split|]. rewrite Forall_cons, <- IH.
    destruct (check_event c e) as [[]|]; cbn; naive_solver. }
  unfold report_pod_events. destruct (caller request) as [c|]; cbn; [|naive_solver].
  destruct (decide _) as [|Hk%dec_stable]; [naive_solver|].
  destruct (foldM _ _ _) as [[]|] eqn:E; [rewrite Hall in E; naive_solver|].
  split; [done|]. intros [(c' & [= <-] & _ & Hf) _]. apply Hall in Hf. congruence.
Qed.
End Reports.

(** ** Witnesses *)
Import DemoInstances.
#[local] Existing Instance Secrets.demo_aead.
#[local] Existing Instance Secrets.demo_envelope.
#[local] Existing Instance Secrets.demo_master_key.
#[local] Existing Instance local_raft.
#[local] Existing Instance local_raft_spec.

Definition demo_request {T} (id : @SpiffeId demo_core) (message : T) : Request T :=
  {| rq_peer := Some {| ci_spiffe_id := Some id |}; rq_message := message |}.
Definition demo_heartbeat : Request NodeStatusReport :=
  demo_request "n1" {| nsr_node_svid := "spiffe://n1"; nsr_observed_at_unix := 5 |}.
#[local] Abbreviation beaten := (report_node_status 250 demo_heartbeat demo_sm).

(** The report says 5; the record gets the time of the leader. *)
Lemma heartbeat_authentic_witness :
  ∃ v, contents (sm_db beaten.1) !! (ks_nodes, "spiffe://n1") = Some v ∧
    from_bytes v = Some (set_node_heartbeat (demo_node "spiffe://n1") 250).
Proof.
  assert (beaten = (beaten.1, Ok true)) as Hok by (apply result_pair; vm_refl).
  pose proof (heartbeat_authentic 250 demo_heartbeat demo_sm beaten.1 true Hok) as T. clear Hok.
  assert (nsr_node_svid (rq_message demo_heartbeat) = "spiffe://n1") as En by reflexivity.
  cbv zeta in T. rewrite En in T.
  destruct T as (id & v & v' & rec & _ & _ & Hv & Hrec & _ & Hv' & Hl).
  assert (contents (sm_db demo_sm) !! (ks_nodes, "spiffe://n1") ≫= from_bytes =
    Some (demo_node "spiffe://n1")) as E by vm_refl.
  rewrite Hv in E. cbn [mbind option_bind] in E. rewrite Hrec in E. injection E as ->.
  exists v'. split; [|exact Hv']. rewrite Hl by reflexivity. by rewrite lookup_insert_eq.
Defined.

#[local] Instance demo_seal : Seal :=
  {| seal rand pk plaintext version sequence := Some {|
       se_sealed_for_svid_version := version; se_sequence := sequence;
       se_ephemeral_pubkey := rand; se_ciphertext := pk +:+ plaintext |} |}.
#[local] Instance demo_seal_spec : SealSpec demo_seal.
Proof. intros rand pk pt v n e [= <-]. done. Qed.

Definition demo_stored : bytes * bytes :=
  match prepare_secret demo_dek "nonce-000001" "nonce-000002" "spiffe://db" "hunter2" demo_readers with
  | Ok p => p
  | Err _ => ("", "")
  end.
Definition demo_svid : SvidRecord := {|
  svr_spiffe_id := "spiffe://a"; svr_svid_version := 3; svr_issued_at_unix := 100;
  svr_agent_x25519_pubkey := "0123456789abcdef0123456789abcdef" |}.
Definition delivery_sm : FjallStateMachine :=
  (apply demo_sm [
    demo_entry 7 (StoreSecret {| sec_key := "spiffe://db"; sec_envelope_bytes := demo_stored.1;
      sec_acl_bytes := demo_stored.2; sec_last_applied_bytes := "" |} "spiffe://a");
    demo_entry 8 (UpsertSvidVersion demo_svid)]).1.
Definition demo_fetch (id : @SpiffeId demo_core) : Fetch := {|
  f_db := sm_db delivery_sm; f_rand := "eph";
  f_request := demo_request id {| fs_target_spiffe_id := "spiffe://db"; fs_sealed_for_svid_version := 3 |} |}.


(** The counters are in memory: a restarted service uses the numbers again. *)
Lemma sequence_restarts :
  deliveries (fetches ∅ [demo_fetch "a"] ++ fetches ∅ [demo_fetch "a"]) =
    [("spiffe://db", 3, 1); ("spiffe://db", 3, 1)].
Proof. vm_refl. Qed.

(** A status report needs no identity: any peer of the listener may report for any pod. *)
Lemma status_report_unauthenticated :
  let report := {| wr_pod_id := "web-primary-0"; wr_workload_id := "web"; wr_tenant_id := "acme";
    wr_ready := false; wr_live := false; wr_started := true; wr_policy_enforced := false;
    wr_restart_count := 0; wr_observed_at_unix := 100; wr_router_connected := false |} in
  ok (report_workload_status {| rq_peer := None; rq_message := report |} demo_sm).2 = Some true.
Proof. intros report. vm_refl. Qed.
