(* ===== verification/Transport.v ===== *)
(** * Transport: the Raft messages between control nodes

    The client side of the Raft network ([src/raft/network.rs]: the choice of the
    address, the connection, one call per message) and the service that answers it
    ([src/raft/server.rs]). The engine behind the service and its messages are
    openraft's: the class [RaftEngine]; whether a connection to an endpoint can be made
    is an argument, as is base64. *)

From Stdlib Require Import Ascii.
From S2P Require Import Prelude.
From S2P Require Import Storage.
From S2P Require Import Core.
From S2P Require Import Records.
From S2P Require Import WireInstance.
From S2P Require Import Rpc.
From S2P Require Import Demo.
From S2P Require Import LogStore.
From S2P Require Import Tls.

(** ** Addresses and certificates *)

(** [s.trim_start_matches(p)], for a pattern that is not empty: every repetition of [p]
    at the front goes. The length of [s] bounds the rounds. *)
Fixpoint trim_rounds (fuel : nat) (p s : string) : string :=
  match fuel with
  | O => s
  | S fuel => match strip_prefix p s with Some s => trim_rounds fuel p s | None => s end
  end.
Definition trim_start_matches (p s : string) : string := trim_rounds (String.length s) p s.

(** The endpoint of an address: always TLS. [get_client] and [join::channel_addr] build
    it the same way. *)
Definition channel_addr (addr : string) : string :=
  "https://" +:+ trim_start_matches "https://" (trim_start_matches "http://" addr).

(** [chunks(n)]. *)
Fixpoint chunks (fuel : nat) (n : nat) (s : string) : list string :=
  match fuel, s with
  | _, "" => []
  | O, _ => []
  | S fuel, _ => let '(a, b) := split_string n s in a :: chunks fuel n b
  end.

Definition newline : string := String (ascii_of_nat 10) "".

Definition der_to_pem (b64 : bytes → string) (der : bytes) (label : string) : string :=
  foldl (λ pem chunk, pem +:+ chunk +:+ newline)
    ("-----BEGIN " +:+ label +:+ "-----" +:+ newline)
    (chunks (String.length (b64 der)) 64 (b64 der))
  +:+ "-----END " +:+ label +:+ "-----" +:+ newline.

(** ** The engine *)

(** [RaftRpc]: ids and the serialized message. *)
Record RaftRpc : Type := { rr_sender_id : Z; rr_target_id : Z; rr_payload : bytes }.

(** openraft's messages, of which the transport reads the vote, and the engine at the
    far end, which answers or fails. *)
Class RaftEngine `{C : Core} : Type := {
  AppendEntriesRequest : Type;
  AppendEntriesResponse : Type;
  VoteRequest : Type;
  VoteResponse : Type;
  append_vote : AppendEntriesRequest → Vote;
  vote_vote : VoteRequest → Vote;
  Engine : Type;
  EngineError : Type;
  engine_append_entries : Engine → AppendEntriesRequest → Engine * result EngineError AppendEntriesResponse;
  engine_vote : Engine → VoteRequest → Engine * result EngineError VoteResponse
}.

(** [InstallSnapshotRequest] and its response; [install_snapshot] of the engine. *)
Record InstallSnapshotRequest `{C : Core} : Type := {
  isr_vote : Vote;
  isr_meta : SnapshotMeta;
  isr_offset : Z;
  isr_data : bytes;
  isr_done : bool
}.
Record InstallSnapshotResponse : Type := { isp_vote : Vote }.

(** The kinds of [std::io::Error] a call fails with. *)
Inductive IoKind : Set := InvalidInput | ConnectionRefused | InvalidDataIo | OtherIo.

Section Transport.
Context `{C : Core} `{N : !RaftEngine}.
Context (engine_install_snapshot :
  Engine → InstallSnapshotRequest → Engine * result EngineError InstallSnapshotResponse).
Context `{!Postcard AppendEntriesRequest} `{!Postcard AppendEntriesResponse}.
Context `{!Postcard VoteRequest} `{!Postcard VoteResponse}.
Context `{!Postcard InstallSnapshotRequest} `{!Postcard InstallSnapshotResponse}.

(** ** The server: decode, ask the engine, encode; sender and target change places *)
Definition serve {Req Resp : Type} `{!Postcard Req} `{!Postcard Resp}
    (ask : Engine → Req → Engine * result EngineError Resp) (engine : Engine) (rpc : RaftRpc) :
    Engine * result Status RaftRpc :=
  match (from_bytes (rr_payload rpc) : option Req) with
  | None => (engine, Err (status InvalidArgument))
  | Some req =>
      let '(engine, resp) := ask engine req in
      (engine,
       resp ← map_err (λ _, status Internal) resp;
       payload ← ok_or (status Internal) (to_allocvec resp);
       Ok {| rr_sender_id := rr_target_id rpc; rr_target_id := rr_sender_id rpc; rr_payload := payload |})
  end.

Definition server_append_entries : Engine → RaftRpc → Engine * result Status RaftRpc :=
  serve engine_append_entries.
Definition server_vote : Engine → RaftRpc → Engine * result Status RaftRpc := serve engine_vote.
Definition server_install_snapshot : Engine → RaftRpc → Engine * result Status RaftRpc :=
  serve engine_install_snapshot.

(** ** The client *)

(** [TonicRaftNetwork]: [nw_connected] is whether the cached client is there. *)
Record TonicRaftNetwork : Type := {
  nw_target : Z;
  nw_address : string;
  nw_connected : bool
}.

(** [TonicRaftNetworkFactory::new_client]. *)
Definition new_client (peer_addresses : gmap Z string) (target : Z) (node_addr : string) :
    TonicRaftNetwork := {|
  nw_target := target;
  nw_address := default node_addr (peer_addresses !! target);
  nw_connected := false |}.

(** What [Endpoint::from_shared(..).tls_config(..).connect()] gives for an endpoint. *)
Context (connect : string → result IoKind ()).

Definition get_client (nw : TonicRaftNetwork) : TonicRaftNetwork * result IoKind () :=
  if nw_connected nw then (nw, Ok ())
  else
    match connect (channel_addr (nw_address nw)) with
    | Ok _ => ({| nw_target := nw_target nw; nw_address := nw_address nw; nw_connected := true |}, Ok ())
    | Err e => (nw, Err e)
    end.

(** One message: connect, serialize, call, deserialize. *)
Definition call {Req Resp : Type} `{!Postcard Req} `{!Postcard Resp}
    (server : Engine → RaftRpc → Engine * result Status RaftRpc) (sender : Req → Vote)
    (nw : TonicRaftNetwork) (engine : Engine) (req : Req) :
    TonicRaftNetwork * Engine * result IoKind Resp :=
  let '(nw, r) := get_client nw in
  match r with
  | Err e => (nw, engine, Err e)
  | Ok _ =>
      match to_allocvec req with
      | None => (nw, engine, Err InvalidDataIo)
      | Some payload =>
          let rpc := {| rr_sender_id := vote_node_id (sender req); rr_target_id := nw_target nw;
                        rr_payload := payload |} in
          let '(engine, response) := server engine rpc in
          (nw, engine,
           response ← map_err (λ _, OtherIo) response;
           ok_or InvalidDataIo (from_bytes (rr_payload response)))
      end
  end.

Definition append_entries (nw : TonicRaftNetwork) (engine : Engine) (req : AppendEntriesRequest) :
    TonicRaftNetwork * Engine * result IoKind AppendEntriesResponse :=
  call server_append_entries append_vote nw engine req.
Definition vote (nw : TonicRaftNetwork) (engine : Engine) (req : VoteRequest) :
    TonicRaftNetwork * Engine * result IoKind VoteResponse :=
  call server_vote vote_vote nw engine req.
Definition send_install_snapshot (nw : TonicRaftNetwork) (engine : Engine) (req : InstallSnapshotRequest) :
    TonicRaftNetwork * Engine * result IoKind InstallSnapshotResponse :=
  call server_install_snapshot isr_vote nw engine req.

(** [full_snapshot]: the whole snapshot as one request. *)
Definition full_snapshot (nw : TonicRaftNetwork) (engine : Engine) (v : Vote) (meta : SnapshotMeta)
    (data : bytes) : TonicRaftNetwork * Engine * result IoKind Vote :=
  let req := {| isr_vote := v; isr_meta := meta; isr_offset := 0; isr_data := data; isr_done := true |} in
  let '(nw, engine, r) := send_install_snapshot nw engine req in
  (nw, engine, resp ← r; Ok (isp_vote resp)).
End Transport.

(** ** Addresses *)
Lemma trim_rounds_done fuel p s :
  p ≠ "" → (String.length s ≤ fuel)%nat → strip_prefix p (trim_rounds fuel p s) = None.
Proof.
  intros Hp. revert s. induction fuel as [|fuel IH]; intros s Hs; cbn.
  - destruct s; [|cbn in Hs; lia]. by destruct p.
  - destruct (strip_prefix p s) as [s'|] eqn:E; [|done]. apply IH.
    apply strip_prefix_some in E as ->. rewrite string_length_app in Hs.
    destruct p; [done|]. cbn in Hs. lia.
Qed.

Lemma trim_start_matches_none p s : strip_prefix p s = None → trim_start_matches p s = s.
Proof. unfold trim_start_matches. destruct (String.length s); [done|]. cbn. by intros ->. Qed.

(** Normalizing an endpoint again changes nothing, and it is never plain HTTP. *)
Lemma channel_addr_idem addr : channel_addr (channel_addr addr) = channel_addr addr.
Proof.
  unfold channel_addr at 1. rewrite (trim_start_matches_none "http://") by done.
  assert (∀ s, strip_prefix "https://" s = None →
    trim_start_matches "https://" ("https://" +:+ s) = s) as Htrim.
  { intros s Hs. unfold trim_start_matches. rewrite string_length_app.
    change (String.length "https://" + String.length s)%nat with (S (7 + String.length s)).
    cbn [trim_rounds]. rewrite (proj2 (strip_prefix_some _ _ _) eq_refl).
    cbn [Nat.add trim_rounds]. by rewrite Hs. }
  unfold channel_addr. rewrite Htrim; [done|]. apply trim_rounds_done; [done|reflexivity].
Qed.

(** ** A message arrives as it was sent, and so does its answer *)
Section RoundTrip.
Context `{C : Core} `{N : !RaftEngine}.
Context (engine_install_snapshot :
  Engine → InstallSnapshotRequest → Engine * result EngineError InstallSnapshotResponse).
Context `{!Postcard AppendEntriesRequest} `{!Postcard AppendEntriesResponse}.
Context `{!Postcard VoteRequest} `{!Postcard VoteResponse}.
Context `{!Postcard InstallSnapshotRequest} `{!Postcard InstallSnapshotResponse}.
Context (connect : string → result IoKind ()).

(** Serialization into memory does not run out of room. *)
Definition serializable (A : Type) `{!Postcard A} : Prop := ∀ a : A, ∃ b, to_allocvec a = Some b.

Lemma get_client_target nw nw' r : get_client connect nw = (nw', r) → nw_target nw' = nw_target nw.
Proof.
  unfold get_client. destruct (nw_connected nw); [by intros [= <- _]|].
  by destruct (connect _); intros [= <- _].
Qed.

Lemma call_serve {Req Resp : Type} `{!Postcard Req} `{!Postcard Resp}
    (ask : Engine → Req → Engine * result EngineError Resp) sender nw nw' engine req :
  serializable Req → serializable Resp → get_client connect nw = (nw', Ok ()) →
  call connect (serve ask) sender nw engine req =
  (nw', (ask engine req).1, map_err (λ _, OtherIo) (ask engine req).2).
Proof.
  intros Hreq Hresp Hc. unfold call. rewrite Hc. destruct (Hreq req) as [b Hb]. rewrite Hb.
  unfold serve. cbn [rr_payload]. rewrite (from_to_allocvec _ _ Hb).
  destruct (ask engine req) as [engine' [resp|err]]; cbn; [|done].
  destruct (Hresp resp) as [b' Hb']. rewrite Hb'. cbn. by rewrite (from_to_allocvec _ _ Hb').
Qed.

End RoundTrip.

(** ** Witness *)
Import DemoInstances.

Definition vote_codec : Codec Vote :=
  codec_iso (λ v : Vote, (vote_term v, (vote_node_id v, vote_committed v)))
    (λ '(a, (b, c)), Build_Vote a b c) ltac:(by intros []).
#[local] Instance demo_vote_postcard : Postcard Vote := postcard_of vote_codec.
#[local] Existing Instance vote_codec.
#[local] Instance demo_install_codec : Codec InstallSnapshotRequest :=
  codec_iso (λ r : InstallSnapshotRequest, (isr_vote r, (isr_meta r, (isr_offset r, (isr_data r, isr_done r)))))
    (λ '(a, (b, (c, (d, e)))), Build_InstallSnapshotRequest _ a b c d e) ltac:(by intros []).
#[local] Instance demo_install : Postcard InstallSnapshotRequest := postcard_of _.
#[local] Instance demo_installed_codec : Codec InstallSnapshotResponse :=
  codec_iso isp_vote Build_InstallSnapshotResponse ltac:(by intros []).
#[local] Instance demo_installed : Postcard InstallSnapshotResponse := postcard_of _.

(** An engine that keeps the greatest term it has seen and answers with its vote. *)
#[local] Instance demo_engine : RaftEngine := {|
  AppendEntriesRequest := Vote; AppendEntriesResponse := Vote; VoteRequest := Vote; VoteResponse := Vote;
  append_vote v := v; vote_vote v := v; Engine := Vote; EngineError := ();
  engine_append_entries e v := if vote_term e <=? vote_term v then (v, Ok v) else (e, Ok e);
  engine_vote e v := if vote_term e <? vote_term v then (v, Ok v) else (e, Err ()) |}.
Definition demo_install_snapshot (e : Engine) (r : InstallSnapshotRequest) :
    Engine * result EngineError InstallSnapshotResponse := (isr_vote r, Ok {| isp_vote := isr_vote r |}).
Definition demo_vote (term : Z) : Vote := {| vote_term := term; vote_node_id := 7; vote_committed := true |}.
Definition demo_connect (endpoint : string) : result IoKind () :=
  if decide (endpoint = "https://10.0.0.2:7000") then Ok () else Err ConnectionRefused.


(** A learner the pool manager adds has the address "", and so no endpoint. *)
Lemma empty_address_endpoint : channel_addr (nw_address (new_client ∅ 9 "")) = "https://".
Proof. reflexivity. Qed.
