(* ===== verification/Membership.v ===== *)
(** * Membership: how control nodes enter and leave the Raft group

    The provisioning loop ([src/provisioning]: pools compared with what the provider
    reports, bootstrap payloads, and for control pools the membership changes of
    [control_pool.rs]), the join request of a new control node
    ([RaftTransportServerImpl::request_join], [src/raft/server.rs]) and the gate that
    runs the controllers on the leader only ([src/controllers/leader.rs]). Membership
    changes are openraft's: the class [RaftMembership], with its documented behaviour
    as [RaftMembershipSpec]. The provider and blake3 are arguments. *)

From S2P Require Import Prelude.
From S2P Require Import Storage.
From S2P Require Import Core.
From S2P Require Import Records.
From S2P Require Import WireInstance.
From S2P Require Import StateMachine.
From S2P Require Import Apply.
From S2P Require Import Raft.
From S2P Require Import Rpc.
From S2P Require Import Demo.
From S2P Require Import Engine.
From S2P Require Import Attestation.
From S2P Require Import AdminAuth.
From S2P Require Import Transport.

(** ** openraft's membership *)
Inductive ChangeMembers : Type :=
| AddVoters (nodes : gmap Z string)
| RemoveNodes (ids : gset Z).

(** [ForwardToLeader] may carry the leader's node. *)
Inductive MembershipError : Type :=
| MembershipForward (leader_node : option string)
| MembershipFailed.

Class RaftMembership : Type := {
  Group : Type;
  voter_ids : Group → gset Z;
  learner_ids : Group → gset Z;
  add_learner : Group → Z → string → bool → Group * result MembershipError ();
  change_membership : Group → ChangeMembers → bool → Group * result MembershipError ()
}.

(** Documented behaviour: a new learner joins the learners unless it is a voter; voters
    are added with their nodes and stop being learners; [RemoveNodes] takes out nodes
    that are not voters, and fails for a voter. After an error the change may have been
    committed or not. *)
Class RaftMembershipSpec (M : RaftMembership) : Prop := {
  add_learner_ok g id addr b g' : add_learner g id addr b = (g', Ok ()) →
    voter_ids g' = voter_ids g ∧ learner_ids g' = learner_ids g ∪ ({[id]} ∖ voter_ids g);
  add_voters_ok g nodes b g' : change_membership g (AddVoters nodes) b = (g', Ok ()) →
    voter_ids g' = voter_ids g ∪ dom nodes ∧ learner_ids g' = learner_ids g ∖ dom nodes;
  remove_nodes_ok g ids b g' : change_membership g (RemoveNodes ids) b = (g', Ok ()) →
    ids ## voter_ids g ∧ voter_ids g' = voter_ids g ∧ learner_ids g' = learner_ids g ∖ ids
}.

(** ** [provisioning/mod.rs] *)
Inductive ProvisioningError : Type :=
| EndpointNotConfigured
| GrpcStatus
| ProvStorage
| ProvSerialization
| ProvAttestation
| ProvRaft.

Record ProvisioningConfig : Type := { pc_endpoint : string; pc_poll_interval_secs : Z }.
Definition ProvisioningConfig_default : ProvisioningConfig :=
  {| pc_endpoint := ""; pc_poll_interval_secs := 30 |}.
Definition is_enabled (c : ProvisioningConfig) : bool := negb (bool_decide (pc_endpoint c = "")).

Inductive NodeLifecycleState : Set := Pending | Running | Terminated.
#[export] Instance NodeLifecycleState_eq_dec : EqDecision NodeLifecycleState.
Proof. solve_decision. Defined.

Definition NodeLifecycleState_from_proto (value : Z) : NodeLifecycleState :=
  if decide (value = 0) then Pending
  else if decide (value = 1) then Running
  else if decide (value = 2) then Terminated
  else Pending.

Record BootstrapPayload : Type := { bp_join_token : bytes; bp_node_kind : Z }.

(** The provider's messages: a node of [NodePoolStatus], and [NodePoolSpec]. *)
Record ProvisionedNode : Type := { pn_provider_handle : string; pn_state : Z }.
Record NodePoolSpec : Type := {
  nps_pool_id : string;
  nps_node_kind : Z;
  nps_desired_count : Z;
  nps_vcpus : Z;
  nps_memory_mb : Z;
  nps_disk_gb : Z;
  nps_region_hint : string;
  nps_bootstrap_payload : bytes
}.

(** ** [control_pool.rs] *)

(** At least three voters stay, and a majority of the current ones. *)
Definition removal_preserves_quorum (current_voters : Z) : bool :=
  if current_voters <=? 3 then false
  else
    let remaining := current_voters - 1 in
    let majority := current_voters / 2 + 1 in
    majority <=? remaining.

Section ControlPool.
Context `{M : RaftMembership}.
Context (blake3 : bytes → bytes).

Definition derive_raft_node_id (handle : string) : Z :=
  from_le_bytes (split_string 8 (blake3 handle)).1.

Definition raft_result (r : Group * result MembershipError ()) : Group * result ProvisioningError () :=
  (r.1, map_err (λ _, ProvRaft) r.2).

Definition ensure_raft_membership (g : Group) (provider_handle : string) :
    Group * result ProvisioningError () :=
  let node_id := derive_raft_node_id provider_handle in
  if decide (node_id ∈ voter_ids g) then (g, Ok ())
  else if decide (node_id ∈ learner_ids g) then
    raft_result (change_membership g (AddVoters {[node_id := ""]}) false)
  else raft_result (add_learner g node_id "" false).

Definition remove_raft_membership (g : Group) (provider_handle : string) :
    Group * result ProvisioningError () :=
  let node_id := derive_raft_node_id provider_handle in
  if decide (node_id ∉ voter_ids g ∧ node_id ∉ learner_ids g) then (g, Ok ())
  else if decide (node_id ∈ voter_ids g ∧
                  removal_preserves_quorum (Z.of_nat (size (voter_ids g))) = false) then (g, Err ProvRaft)
  else raft_result (change_membership g (RemoveNodes {[node_id]}) false).

Definition handle_node (g : Group) (node : ProvisionedNode) : Group * result ProvisioningError () :=
  match NodeLifecycleState_from_proto (pn_state node) with
  | Running => ensure_raft_membership g (pn_provider_handle node)
  | Terminated => remove_raft_membership g (pn_provider_handle node)
  | Pending => (g, Ok ())
  end.

(** The loop stops at the first error. *)
Fixpoint handle_control_pool_status (g : Group) (nodes : list ProvisionedNode) :
    Group * result ProvisioningError () :=
  match nodes with
  | [] => (g, Ok ())
  | node :: nodes =>
      match handle_node g node with
      | (g, Ok _) => handle_control_pool_status g nodes
      | (g, Err e) => (g, Err e)
      end
  end.
End ControlPool.

(** ** [reconcile.rs] *)
Section Reconciler.
Context `{F : Fjall} `{C : Core} `{W : !Wire C} `{R : !Raft} `{M : RaftMembership}.
Context `{!Postcard BootstrapPayload}.
Context (blake3 : bytes → bytes).
(** The provider's side of the two calls: it changes, and answers or fails. *)
Context {P : Type}.
Context (get_node_pool_status : P → string → P * option (list ProvisionedNode)).
Context (provider_reconcile : P → NodePoolSpec → P * option (list ProvisionedNode)).

Record World : Type := { w_provider : P; w_sm : FjallStateMachine; w_group : Group }.

(** [ProvisioningClient::reconcile_node_pool]. *)
Definition reconcile_node_pool (p : P) (record : NodePoolRecord) (bootstrap_payload : bytes) :
    P * option (list ProvisionedNode) :=
  provider_reconcile p {|
    nps_pool_id := np_pool_id record;
    nps_node_kind := node_kind_to_proto (np_node_kind record);
    nps_desired_count := np_desired_count record;
    nps_vcpus := np_vcpus record;
    nps_memory_mb := np_memory_mb record;
    nps_disk_gb := np_disk_gb record;
    nps_region_hint := np_region_hint record;
    nps_bootstrap_payload := bootstrap_payload |}.

Definition build_bootstrap_payload (ttl_secs now : Z) (fresh : bytes) (sm : FjallStateMachine)
    (node_kind : NodeKind) : FjallStateMachine * result ProvisioningError bytes :=
  match compute_token_record ttl_secs now fresh node_kind with
  | Err _ => (sm, Err ProvAttestation)
  | Ok record =>
      match client_write sm (system (MintJoinToken record)) with
      | (sm, Err _) => (sm, Err ProvRaft)
      | (sm, Ok _) =>
          (sm, ok_or ProvSerialization (to_allocvec
            {| bp_join_token := jt_token record; bp_node_kind := node_kind_as_u8 node_kind |}))
      end
  end.

Definition running_count (nodes : list ProvisionedNode) : Z :=
  wrap_u32 (Z.of_nat (length
    (filter (λ n, NodeLifecycleState_from_proto (pn_state n) = Running) nodes))).

(** Step 3: a mismatch is pushed to the provider, with a payload made for it. *)
Definition push_mismatch (ttl_secs now : Z) (fresh : bytes) (w : World) (pool : NodePoolRecord)
    (nodes : list ProvisionedNode) : World * result ProvisioningError () :=
  if decide (running_count nodes ≠ np_desired_count pool) then
    match build_bootstrap_payload ttl_secs now fresh (w_sm w) (np_node_kind pool) with
    | (sm, Err e) => ({| w_provider := w_provider w; w_sm := sm; w_group := w_group w |}, Err e)
    | (sm, Ok payload) =>
        let '(p, r) := reconcile_node_pool (w_provider w) pool payload in
        ({| w_provider := p; w_sm := sm; w_group := w_group w |},
         match r with Some _ => Ok () | None => Err GrpcStatus end)
    end
  else (w, Ok ()).

Definition reconcile_pool (ttl_secs now : Z) (fresh : bytes) (w : World) (pool : NodePoolRecord) :
    World * result ProvisioningError () :=
  let '(p, status) := get_node_pool_status (w_provider w) (np_pool_id pool) in
  let w := {| w_provider := p; w_sm := w_sm w; w_group := w_group w |} in
  match status with
  | None => (w, Err GrpcStatus)
  | Some nodes =>
      match push_mismatch ttl_secs now fresh w pool nodes with
      | (w, Err e) => (w, Err e)
      | (w, Ok _) =>
          if decide (np_node_kind pool = Control) then
            let '(g, r) := handle_control_pool_status blake3 (w_group w) nodes in
            ({| w_provider := w_provider w; w_sm := w_sm w; w_group := g |}, r)
          else (w, Ok ())
      end
  end.

(** The pools, one after the other; an error does not stop the loop. [fresh] are the
    random bytes of each pool's token. *)
Fixpoint reconcile_pools (ttl_secs now : Z) (fresh : nat → bytes) (w : World)
    (pools : list NodePoolRecord) : World :=
  match pools with
  | [] => w
  | pool :: pools =>
      reconcile_pools ttl_secs now (λ i, fresh (S i)) (reconcile_pool ttl_secs now (fresh O) w pool).1 pools
  end.

Definition provisioning_reconcile_all (ttl_secs now : Z) (fresh : nat → bytes) (w : World) :
    World * result ProvisioningError () :=
  match list_node_pools (sm_db (w_sm w)) with
  | Err _ => (w, Err ProvStorage)
  | Ok pools => (reconcile_pools ttl_secs now fresh w pools, Ok ())
  end.
End Reconciler.
Arguments World {F} M P. Arguments Build_World {F M P}.
Arguments w_provider {F M P}. Arguments w_sm {F M P}. Arguments w_group {F M P}.

(** ** [request_join] *)
Record JoinRequestPayload : Type := { jr_node_id : Z; jr_address : string; jr_dc_address : string }.
Record JoinResponsePayload : Type := { jp_success : bool; jp_leader_address : option string }.

Section RequestJoin.
Context `{F : Fjall} `{C : Core} `{W : !Wire C} `{R : !Raft} `{M : RaftMembership}.
Context `{!Postcard JoinRequestPayload} `{!Postcard JoinResponsePayload}.

Definition join_response (g : Group) (sm : FjallStateMachine) (req : JoinRequestPayload) :
    Group * FjallStateMachine * JoinResponsePayload :=
  match add_learner g (jr_node_id req) (jr_address req) true with
  | (g, Ok _) =>
      match change_membership g (AddVoters {[jr_node_id req := jr_address req]}) false with
      | (g, Ok _) =>
          let '(sm, _) := client_write sm (system (RegisterControlAddress {|
            cna_node_id := jr_node_id req; cna_dc_addr := jr_dc_address req;
            cna_raft_addr := jr_address req |})) in
          (g, sm, {| jp_success := true; jp_leader_address := None |})
      | (g, Err _) => (g, sm, {| jp_success := false; jp_leader_address := None |})
      end
  | (g, Err e) =>
      (g, sm, {| jp_success := false;
                 jp_leader_address := match e with MembershipForward n => n | _ => None end |})
  end.

Definition request_join (g : Group) (sm : FjallStateMachine) (rpc : RaftRpc) :
    Group * FjallStateMachine * result Status RaftRpc :=
  match (from_bytes (rr_payload rpc) : option JoinRequestPayload) with
  | None => (g, sm, Err (status InvalidArgument))
  | Some req =>
      let '(g, sm, resp) := join_response g sm req in
      (g, sm,
       payload ← ok_or (status Internal) (to_allocvec resp);
       Ok {| rr_sender_id := rr_target_id rpc; rr_target_id := rr_sender_id rpc; rr_payload := payload |})
  end.
End RequestJoin.

(** ** [LeaderGate::run]: one round of the loop *)
Inductive GateEvent : Set :=
| ShutdownChanged (flag : bool)
| MetricsChanged (leader : bool)
| MetricsClosed.

(** The variables of the loop; [lg_active] are the sets of controllers that run. *)
Record LeaderGate : Set := { lg_is_leader : bool; lg_active : nat; lg_returned : bool }.
Definition LeaderGate_init : LeaderGate := {| lg_is_leader := false; lg_active := 0; lg_returned := false |}.

Definition gate_round (s : LeaderGate) (event : GateEvent) : LeaderGate :=
  if lg_returned s then s
  else
    match event with
    | ShutdownChanged true | MetricsClosed =>
        {| lg_is_leader := lg_is_leader s; lg_active := 0; lg_returned := true |}
    | ShutdownChanged false => s
    | MetricsChanged currently_leader =>
        if currently_leader && negb (lg_is_leader s) then
          {| lg_is_leader := true; lg_active := S (lg_active s); lg_returned := false |}
        else if negb currently_leader && lg_is_leader s then
          {| lg_is_leader := false; lg_active := 0; lg_returned := false |}
        else s
    end.

(** ** Convergence of a control pool *)

(** The changes commit: this node is the leader and a majority answers. *)
Class RaftMembershipCommits (M : RaftMembership) : Prop := {
  add_learner_commits g id addr b : (add_learner g id addr b).2 = Ok ();
  add_voters_commits g nodes b : (change_membership g (AddVoters nodes) b).2 = Ok ();
  remove_nodes_commits g ids b : ids ## voter_ids g → (change_membership g (RemoveNodes ids) b).2 = Ok ()
}.

Inductive Role : Set := Voter | Learner | Outside.

(** What one pass makes of a node in a given state of its lifecycle. *)
Definition lifecycle_role (st : NodeLifecycleState) (r : Role) : Role :=
  match st, r with
  | Running, Outside => Learner
  | Running, _ => Voter
  | Terminated, _ => Outside
  | Pending, r => r
  end.

Section Convergence.
Context `{M : RaftMembership} `{!RaftMembershipSpec M} (blake3 : bytes → bytes).

Definition role (g : Group) (id : Z) : Role :=
  if decide (id ∈ voter_ids g) then Voter
  else if decide (id ∈ learner_ids g) then Learner else Outside.

Definition node_raft_id (node : ProvisionedNode) : Z := derive_raft_node_id blake3 (pn_provider_handle node).
Definition node_state (node : ProvisionedNode) : NodeLifecycleState :=
  NodeLifecycleState_from_proto (pn_state node).

Lemma removal_preserves_quorum_iff n : removal_preserves_quorum n = true ↔ 4 ≤ n.
Proof.
  unfold removal_preserves_quorum. destruct (Z.leb_spec n 3); [split; [done|lia]|].
  rewrite Z.leb_le. split; [lia|]. intros _. pose proof (Z.div_lt_upper_bound n 2 (n - 1)). lia.
Qed.

(** The node's own role changes as its lifecycle says, no other one does. *)
Definition moves (g g' : Group) (node : ProvisionedNode) : Prop :=
  ∀ i, role g' i =
    if decide (i = node_raft_id node) then lifecycle_role (node_state node) (role g i) else role g i.

Lemma ensure_moves g node g' :
  node_state node = Running →
  ensure_raft_membership blake3 g (pn_provider_handle node) = (g', Ok ()) → moves g g' node.
Proof.
  intros Hst H i. rewrite Hst. unfold ensure_raft_membership in H. fold (node_raft_id node) in H.
  unfold role. destruct (decide (node_raft_id node ∈ voter_ids g)) as [Hv|Hv].
  { injection H as <-. destruct (decide (i = _)) as [->|]; [|done]. by rewrite decide_True. }
  destruct (decide (node_raft_id node ∈ learner_ids g)) as [Hl|Hl].
  - destruct (change_membership g _ false) as [g1 [[]|]] eqn:E; [|done]. injection H as <-.
    apply add_voters_ok in E as [-> ->]. rewrite dom_singleton_L.
    destruct (decide (i = node_raft_id node)) as [->|Hne].
    + rewrite decide_True by set_solver. by rewrite decide_False, decide_True.
    + repeat case_decide; set_solver.
  - destruct (add_learner g _ _ _) as [g1 [[]|]] eqn:E; [|done]. injection H as <-.
    apply add_learner_ok in E as [-> ->].
    destruct (decide (i = node_raft_id node)) as [->|Hne].
    + repeat case_decide; try done; exfalso; set_solver.
    + repeat case_decide; set_solver.
Qed.

Lemma remove_moves g node g' :
  node_state node = Terminated →
  remove_raft_membership blake3 g (pn_provider_handle node) = (g', Ok ()) →
  role g (node_raft_id node) ≠ Voter ∧ moves g g' node.
Proof.
  intros Hst H. unfold moves. rewrite Hst. unfold remove_raft_membership in H. fold (node_raft_id node) in H.
  unfold role. destruct (decide (node_raft_id node ∉ voter_ids g ∧ _)) as [[Hv Hl]|Hm].
  { injection H as <-. split; [by rewrite decide_False, decide_False|].
    intros i. destruct (decide (i = _)) as [->|]; [|done]. by rewrite decide_False, decide_False. }
  destruct (decide (_ ∧ _)); [done|].
  destruct (change_membership g _ false) as [g1 [[]|]] eqn:E; [|done]. injection H as <-.
  apply remove_nodes_ok in E as (Hd & -> & ->). split; [by rewrite decide_False by set_solver; case_decide|].
  intros i. destruct (decide (i = node_raft_id node)) as [->|Hne].
  - by rewrite decide_False, decide_False by set_solver.
  - repeat case_decide; set_solver.
Qed.

Lemma handle_node_moves g node g' :
  handle_node blake3 g node = (g', Ok ()) →
  (node_state node = Terminated → role g (node_raft_id node) ≠ Voter) ∧ moves g g' node.
Proof.
  unfold handle_node. fold (node_state node). destruct (node_state node) eqn:Hst; intros H.
  - injection H as <-. split; [done|]. intros i. rewrite Hst. by destruct (decide _).
  - split; [done|]. by apply ensure_moves.
  - by apply remove_moves in H as [? ?].
Qed.

(** A whole pass that succeeds. *)
Lemma pass_moves nodes g g' :
  NoDup (node_raft_id <$> nodes) → handle_control_pool_status blake3 g nodes = (g', Ok ()) →
  (∀ node, node ∈ nodes → role g' (node_raft_id node) = lifecycle_role (node_state node) (role g (node_raft_id node))) ∧
  (∀ i, i ∉ node_raft_id <$> nodes → role g' i = role g i).
Proof.
  revert g. induction nodes as [|node nodes IH]; intros g Hnd H.
  { injection H as <-. split; [set_solver|done]. }
  cbn in H, Hnd. apply NoDup_cons in Hnd as [Hni Hnd].
  destruct (handle_node blake3 g node) as [g1 [[]|]] eqn:E; [|done].
  apply handle_node_moves in E as [_ Hm]. destruct (IH g1 Hnd H) as [Hin Hout]. split.
  - intros node' [->|Hn]%elem_of_cons.
    + rewrite Hout by done. rewrite Hm. by rewrite decide_True.
    + rewrite Hin by done. rewrite Hm, decide_False; [done|].
      intros Heq. apply Hni. rewrite <- Heq. by apply list_elem_of_fmap_2.
  - intros i Hi. cbn in Hi. rewrite Hout, Hm, decide_False by set_solver. done.
Qed.

(** A pass fails at a terminated node that is still a voter, whatever comes after it. *)
Lemma terminated_voter_blocks nodes1 node nodes2 g g1 :
  handle_control_pool_status blake3 g nodes1 = (g1, Ok ()) →
  node_state node = Terminated → role g1 (node_raft_id node) = Voter →
  ∃ g' e, handle_control_pool_status blake3 g (nodes1 ++ node :: nodes2) = (g', Err e) ∧
    g' = (handle_node blake3 g1 node).1.
Proof.
  revert g. induction nodes1 as [|n nodes1 IH]; intros g H Hst Hr; cbn in H |- *.
  - injection H as <-. destruct (handle_node blake3 g node) as [g' [[]|e]] eqn:E; [|by exists g', e].
    exfalso. by apply handle_node_moves in E as [Hne _]; apply (Hne Hst).
  - destruct (handle_node blake3 g n) as [g2 [[]|]]; [|done]. by apply IH.
Qed.

Context `{!RaftMembershipCommits M}.

Lemma handle_node_commits g node :
  (node_state node = Terminated → role g (node_raft_id node) ≠ Voter) →
  (handle_node blake3 g node).2 = Ok ().
Proof.
  intros Hv. unfold handle_node. fold (node_state node). destruct (node_state node); [done|..].
  - unfold ensure_raft_membership. fold (node_raft_id node). repeat case_decide; [done|..]; cbn.
    + by rewrite add_voters_commits.
    + by rewrite add_learner_commits.
  - specialize (Hv eq_refl). unfold role in Hv. case_decide; [done|].
    unfold remove_raft_membership. fold (node_raft_id node).
    destruct (decide (_ ∧ _)); [done|]. rewrite decide_False by naive_solver. cbn.
    by rewrite remove_nodes_commits by set_solver.
Qed.

Lemma pass_commits nodes g :
  NoDup (node_raft_id <$> nodes) →
  (∀ node, node ∈ nodes → node_state node = Terminated → role g (node_raft_id node) ≠ Voter) →
  ∃ g', handle_control_pool_status blake3 g nodes = (g', Ok ()).
Proof.
  revert g. induction nodes as [|node nodes IH]; intros g Hnd Hv; [by eexists|].
  cbn in Hnd |- *. apply NoDup_cons in Hnd as [Hni Hnd].
  pose proof (handle_node_commits g node (Hv node ltac:(left))) as Hok.
  destruct (handle_node blake3 g node) as [g1 r] eqn:E. cbn in Hok. subst r. apply IH; [done|].
  apply handle_node_moves in E as [_ Hm]. intros node' Hn Hst. rewrite Hm, decide_False; [by apply Hv; [right|]|].
  intros Heq. apply Hni. rewrite <- Heq. by apply list_elem_of_fmap_2.
Qed.

(** C11. Where membership changes commit, and no terminated node is still a voter, two
    passes over what the provider reports of a control pool both succeed and bring the
    Raft group to it: every running node is a voter, no terminated node is a member,
    pending nodes and nodes of other pools are as they were. *)
Theorem control_pool_converges g nodes :
  NoDup (node_raft_id <$> nodes) →
  (∀ node, node ∈ nodes → node_state node = Terminated → role g (node_raft_id node) ≠ Voter) →
  ∃ g1 g2, handle_control_pool_status blake3 g nodes = (g1, Ok ()) ∧
    handle_control_pool_status blake3 g1 nodes = (g2, Ok ()) ∧
    (∀ node, node ∈ nodes → role g2 (node_raft_id node) =
      match node_state node with
      | Running => Voter
      | Terminated => Outside
      | Pending => role g (node_raft_id node)
      end) ∧
    (∀ i, i ∉ node_raft_id <$> nodes → role g2 i = role g i).
Proof.
  intros Hnd Hv. destruct (pass_commits nodes g Hnd Hv) as [g1 H1].
  destruct (pass_moves nodes g g1 Hnd H1) as [Hin1 Hout1].
  destruct (pass_commits nodes g1 Hnd) as [g2 H2].
  { intros node Hn Hst. by rewrite Hin1, Hst. }
  destruct (pass_moves nodes g1 g2 Hnd H2) as [Hin2 Hout2].
  exists g1, g2. split_and!; [done|done| |].
  - intros node Hn. rewrite Hin2, Hin1 by done. destruct (node_state node); try done.
    by destruct (role g (node_raft_id node)).
  - intros i Hi. by rewrite Hout2, Hout1.
Qed.
End Convergence.

(** ** The join request *)
Lemma join_response_voter `{F : Fjall} `{C : Core} `{W : !Wire C} `{R : !Raft} `{M : RaftMembership}
    `{!RaftMembershipSpec M} g sm req g' sm' :
  join_response g sm req = (g', sm', {| jp_success := true; jp_leader_address := None |}) →
  jr_node_id req ∈ voter_ids g' ∧ voter_ids g ⊆ voter_ids g'.
Proof.
  unfold join_response. destruct (add_learner g _ _ _) as [g1 [[]|e]] eqn:E1; [|done].
  destruct (change_membership g1 _ _) as [g2 [[]|]] eqn:E2; [|done].
  destruct (client_write _ _) as [sm1 r]. intros [= <- _].
  apply add_learner_ok in E1 as [Hv _]. apply add_voters_ok in E2 as [-> _].
  rewrite dom_singleton_L, Hv. set_solver.
Qed.

(** ** The gate *)

(** The last leadership the gate has seen, when it is still running. *)
Definition last_metric (events : list GateEvent) : bool :=
  foldl (λ b e, match e with MetricsChanged l => l | _ => b end) false events.
Definition ended (events : list GateEvent) : bool :=
  existsb (λ e, match e with ShutdownChanged true | MetricsClosed => true | _ => false end) events.

(** Whatever leadership changes and signals come: one set of controllers runs while this
    node is the leader, as last reported, none otherwise, and none once the gate ended. *)
Lemma leader_gate_exact events :
  let s := foldl gate_round LeaderGate_init events in
  lg_returned s = ended events ∧
  lg_active s = if ended events then 0%nat else if last_metric events then 1%nat else 0%nat.
Proof.
  cut (let s := foldl gate_round LeaderGate_init events in
    lg_returned s = ended events ∧
    (ended events = false → lg_is_leader s = last_metric events) ∧
    lg_active s = if ended events then 0%nat else if last_metric events then 1%nat else 0%nat); [naive_solver|].
  induction events as [|e events IH] using rev_ind; [done|].
  unfold last_metric, ended in *. rewrite !foldl_app, existsb_app. cbn [foldl existsb] in *.
  destruct (foldl gate_round _ events) as [lead act ret]. cbn in IH. destruct IH as (-> & Hl & ->).
  unfold gate_round. cbn. destruct (existsb _ events); [done|]. specialize (Hl eq_refl). subst lead.
  destruct e as [[]|[]|]; cbn; destruct (foldl _ false events); done.
Qed.

(** ** Witness: a group that is its two sets, where every valid change commits *)
#[local] Instance set_membership : RaftMembership := {|
  Group := gset Z * gset Z;
  voter_ids := fst;
  learner_ids := snd;
  add_learner g id _ _ := ((g.1, g.2 ∪ ({[id]} ∖ g.1)), Ok ());
  change_membership g c _ :=
    match c with
    | AddVoters nodes => ((g.1 ∪ dom nodes, g.2 ∖ dom nodes), Ok ())
    | RemoveNodes ids =>
        if decide (ids ## g.1) then ((g.1, g.2 ∖ ids), Ok ()) else (g, Err MembershipFailed)
    end |}.
#[local] Instance set_membership_spec : RaftMembershipSpec set_membership.
Proof.
  split; cbn.
  - by intros g id _ _ g' [= <-].
  - by intros g nodes _ g' [= <-].
  - intros g ids _ g'. case_decide; [|done]. by intros [= <-].
Qed.
#[local] Instance set_membership_commits : RaftMembershipCommits set_membership.
Proof. split; cbn; [done|done|]. intros g ids _ Hd. by rewrite decide_True. Qed.

(** The digest of a handle is the handle: the ids are those of its first bytes. *)
Definition demo_pool : list ProvisionedNode := [
  {| pn_provider_handle := "a"; pn_state := 1 |}; {| pn_provider_handle := "b"; pn_state := 2 |};
  {| pn_provider_handle := "c"; pn_state := 0 |}; {| pn_provider_handle := "d"; pn_state := 9 |}].
Definition demo_group : Group := ({[ 1; 2; 3 ]}, {[ 98 ]}).

(** "a" (97) becomes a voter, the learner "b" (98) leaves, the others stay outside. *)
Lemma control_pool_converges_witness :
  ∃ g1 g2, handle_control_pool_status id demo_group demo_pool = (g1, Ok ()) ∧
    handle_control_pool_status id g1 demo_pool = (g2, Ok ()) ∧
    role g2 97 = Voter ∧ role g2 98 = Outside ∧ role g2 99 = Outside ∧ role g2 1 = Voter.
Proof.
  destruct (control_pool_converges id demo_group demo_pool) as (g1 & g2 & H1 & H2 & Hin & Hout).
  - apply (bool_decide_unpack _). vm_compute. exact I.
  - intros node Hn. apply list_elem_of_In in Hn. cbn in Hn.
    destruct Hn as [<-|[<-|[<-|[<-|[]]]]]; intros Hst; vm_compute in Hst |- *; done.
  - exists g1, g2. split_and!; [exact H1|exact H2|..].
    + apply (Hin {| pn_provider_handle := "a"; pn_state := 1 |}). left.
    + apply (Hin {| pn_provider_handle := "b"; pn_state := 2 |}). right. left.
    + transitivity (role demo_group 99); [|vm_refl].
      apply (Hin {| pn_provider_handle := "c"; pn_state := 0 |}). do 2 right. left.
    + rewrite Hout; [vm_refl|]. apply (bool_decide_unpack _). vm_compute. exact I.
Defined.

(** A fourth voter that is terminated passes the guard on the quorum, and the request
    that should take it out is refused all the same. *)
Lemma terminated_voter_stays :
  let g : Group := ({[ 1; 2; 3; 98 ]}, ∅) in
  removal_preserves_quorum (Z.of_nat (size (voter_ids g))) = true ∧
  remove_raft_membership id g "b" = (g, Err ProvRaft).
Proof. intros g. split; vm_refl. Qed.
