(* ===== verification/Join.v ===== *)
(** * Join: a control node that enters an existing cluster

    The client side of a first boot in join mode ([src/join.rs]): attestation with a
    join token ([join_cluster], not in production builds) or with a TPM
    ([join_cluster_secure]), both of which follow redirects to the leader, and the
    request for membership that follows ([request_membership]). What answers is outside:
    [Servers] are the calls the client makes, each of which may change the world they
    are made in; the TPM is part of that world. A loop is run with fuel; [None] is a
    loop that has not returned. *)

From Stdlib Require Import Ascii.
From S2P Require Import Prelude.
From S2P Require Import Storage.
From S2P Require Import Core.
From S2P Require Import Records.
From S2P Require Import WireInstance.
From S2P Require Import StateMachine.
From S2P Require Import Apply.
From S2P Require Import Raft.
From S2P Require Import Rpc.
From S2P Require Import Demo.
From S2P Require Import Ca.
From S2P Require Import Issuance.
From S2P Require Import Attestation.
From S2P Require Import Transport.
From S2P Require Import Membership.

Inductive JoinError : Set :=
| JoinConnection | JoinAttestation | JoinCsr | JoinSvid | JoinTrustBundle | JoinMembership
| JoinSerialization.

Record JoinResult : Type := {
  jres_svid_cert_der : bytes;
  jres_svid_key_der : bytes;
  jres_trust_bundle_pem : string;
  jres_claimed_spiffe_id : string
}.

Definition leader_redirect (s : Status) : option string :=
  if decide (st_code s = Unavailable) then
    match st_leader_dc_address s with
    | Some addr => if decide (addr = "") then None else Some addr
    | None => None
    end
  else None.

(** [format!("spiffe://{}/ns/system/control/{}", ..)]. *)
Definition control_spiffe_id (trust_domain node_name : string) : string :=
  "spiffe://" +:+ trust_domain +:+ "/ns/system/control/" +:+ node_name.

Definition control_csr_params (spiffe_id : string) : SvidParams := {|
  sp_spiffe_id := spiffe_id; sp_kind := SvidControl; sp_role := None; sp_ordinal := None;
  sp_degraded := false; sp_ttl_secs := 3600 |}.

(** [vec![0u8; n]]. *)
Fixpoint zeros (n : nat) : bytes :=
  match n with O => "" | S n => String (ascii_of_nat 0) (zeros n) end.

(** What a round of a redirect loop ends in. *)
Inductive Round : Type :=
| Joined (r : JoinResult)
| JoinFailed (e : JoinError)
| Redirected (target : string).

(** The calls, at an endpoint, and those to the TPM. *)
Record QuoteOutput : Type := {
  qo_quote : bytes;
  qo_signature : bytes;
  qo_pcr_values : list PcrValue
}.
Record Servers (World : Type) : Type := {
  sv_connect : World → string → World * bool;
  sv_request_nonce : World → string → string → World * result Status bytes;
  sv_submit_quote : World → string → AttestationQuote → World * result Status AttestedIdentity;
  sv_submit_csr : World → string → bytes → World * result Status SvidResponse;
  sv_get_trust_bundle : World → string → World * result Status TrustBundleResponse;
  sv_request_activation : World → string → ActivationRequest → World * result Status ActivationChallenge;
  sv_submit_activation_proof : World → string → ActivationProof → World * result Status SvidResponse;
  tpm_activate : World → bytes → bytes → World * option bytes;
  tpm_quote : World → bytes → list Z → World * option QuoteOutput
}.
Arguments sv_connect {World}. Arguments sv_request_nonce {World}. Arguments sv_submit_quote {World}.
Arguments sv_submit_csr {World}. Arguments sv_get_trust_bundle {World}.
Arguments sv_request_activation {World}. Arguments sv_submit_activation_proof {World}.
Arguments tpm_activate {World}. Arguments tpm_quote {World}.

Section JoinCluster.
Context `{C : Core} `{G : !Rcgen} `{A : Attest} {World : Type} (sv : Servers World).
Context (b64 : bytes → string).

(** A step that may end the round. *)
Definition step {T : Type} (r : World * result Status T) (e : JoinError)
    (k : World → T → World * Round) : World * Round :=
  match r with
  | (w, Ok x) => k w x
  | (w, Err _) => (w, JoinFailed e)
  end.
Definition step_or_redirect {T : Type} (r : World * result Status T)
    (k : World → T → World * Round) : World * Round :=
  match r with
  | (w, Ok x) => k w x
  | (w, Err status) =>
      match leader_redirect status with
      | Some leader => (w, Redirected (channel_addr leader))
      | None => (w, JoinFailed JoinAttestation)
      end
  end.

Definition bundle_pem (roots_der : list bytes) : string :=
  foldl (λ pem root, pem +:+ der_to_pem b64 root "CERTIFICATE") "" roots_der.

(** The last steps of both flows: the roots, and the result. *)
Definition finish (w : World) (target : string) (cert key : bytes) (claimed_spiffe_id : string) : World * Round :=
  step (sv_get_trust_bundle sv w target) JoinTrustBundle (λ w bundle,
    (w, Joined {| jres_svid_cert_der := cert; jres_svid_key_der := key;
                  jres_trust_bundle_pem := bundle_pem (tbm_roots_der bundle);
                  jres_claimed_spiffe_id := claimed_spiffe_id |})).

(** The quote of the insecure flow: zeroes, bound to the nonce. *)
Definition placeholder_quote (nonce : bytes) : TpmQuote := {|
  tq_quote_bytes := zeros 32; tq_signature := zeros 64; tq_nonce := nonce; tq_pcr_selection := [];
  tq_attestation_key_pub := zeros 32 |}.

(** One round of [join_cluster]; [dnb], [dna] and [key] are rcgen's default validity and
    the key pair of the CSR. *)
Definition join_round (join_token node_name trust_domain : string) (dnb dna : Z) (key : option KeyPair)
    (w : World) (target : string) : World * Round :=
  let '(w, connected) := sv_connect sv w target in
  if negb connected then (w, JoinFailed JoinConnection)
  else
    step_or_redirect (sv_request_nonce sv w target (control_spiffe_id trust_domain node_name)) (λ w nonce,
    match to_allocvec (placeholder_quote nonce) with
    | None => (w, JoinFailed JoinAttestation)
    | Some raw_quote =>
        step_or_redirect (sv_submit_quote sv w target {|
          aq_join_token := join_token; aq_quote_type := 0; aq_raw_quote := raw_quote;
          aq_agent_x25519_pubkey := "" |}) (λ w attested,
        match build_csr (control_csr_params (ai_claimed_spiffe_id attested)) dnb dna key with
        | Err _ => (w, JoinFailed JoinCsr)
        | Ok csr =>
            step (sv_submit_csr sv w target (csr_bundle_der csr)) JoinSvid (λ w svid,
            finish w target (svr_cert_chain_der svid) (csr_private_key csr) (ai_claimed_spiffe_id attested))
        end)
    end).

Fixpoint join_loop (round : World → string → World * Round) (fuel : nat) (w : World) (target : string) :
    option (World * result JoinError JoinResult) :=
  match fuel with
  | O => None
  | S fuel =>
      match round w target with
      | (w, Joined r) => Some (w, Ok r)
      | (w, JoinFailed e) => Some (w, Err e)
      | (w, Redirected target) => join_loop round fuel w target
      end
  end.

(** [join_cluster]; a production build refuses. *)
Definition join_cluster (production : bool) (fuel : nat) (join_target join_token node_name trust_domain : string)
    (dnb dna : Z) (key : option KeyPair) (w : World) : option (World * result JoinError JoinResult) :=
  if production then Some (w, Err JoinAttestation)
  else join_loop (join_round join_token node_name trust_domain dnb dna key) fuel w (channel_addr join_target).

(** What the TPM session gives before the loop. *)
Record TpmSession : Type := { tpm_ak_pub : bytes; tpm_ek_cert_der : option bytes; tpm_ek_pub : bytes }.
Definition pcr_indices : list Z := [0; 7; 9].
Definition MAX_REDIRECTS : nat := 5.

Context (compute_activation_proof : bytes → bytes → bytes).

(** One round of [join_cluster_secure]. *)
Definition secure_round (csr : CsrBundle) (sealing_pubkey : bytes) (session : TpmSession)
    (claimed_spiffe_id : string) (w : World) (target : string) : World * Round :=
  let '(w, connected) := sv_connect sv w target in
  if negb connected then (w, JoinFailed JoinConnection)
  else
    step (sv_request_activation sv w target {|
      ar_ek_cert_der := default "" (tpm_ek_cert_der session); ar_ek_pub := tpm_ek_pub session;
      ar_ak_pub := tpm_ak_pub session |}) JoinAttestation (λ w challenge,
    match tpm_activate sv w (ach_credential_blob challenge) (ach_secret challenge) with
    | (w, None) => (w, JoinFailed JoinAttestation)
    | (w, Some secret) =>
        if negb (blen secret =? 32) then (w, JoinFailed JoinAttestation)
        else
          let hmac := compute_activation_proof secret (ach_server_nonce challenge) in
          match tpm_quote sv w (ach_server_nonce challenge) pcr_indices with
          | (w, None) => (w, JoinFailed JoinAttestation)
          | (w, Some quote) =>
              match to_allocvec (qo_pcr_values quote) with
              | None => (w, JoinFailed JoinSerialization)
              | Some pcr_selection =>
                  step_or_redirect (sv_submit_activation_proof sv w target {|
                    ap_hmac := hmac; ap_csr_der := csr_bundle_der csr; ap_quote := qo_quote quote;
                    ap_quote_signature := qo_signature quote; ap_pcr_selection := pcr_selection;
                    ap_agent_x25519_pubkey := sealing_pubkey |}) (λ w svid,
                  finish w target (svr_cert_chain_der svid) (csr_private_key csr) claimed_spiffe_id)
              end
          end
    end).

(** The loop counts its redirects. *)
Fixpoint secure_loop (round : World → string → World * Round) (fuel : nat) (redirects : nat) (w : World)
    (target : string) : option (World * result JoinError JoinResult) :=
  match fuel with
  | O => None
  | S fuel =>
      match round w target with
      | (w, Joined r) => Some (w, Ok r)
      | (w, JoinFailed e) => Some (w, Err e)
      | (w, Redirected target) =>
          if decide (MAX_REDIRECTS < S redirects)%nat then Some (w, Err JoinAttestation)
          else secure_loop round fuel (S redirects) w target
      end
  end.

Definition join_cluster_secure (fuel : nat) (join_target node_name trust_domain : string) (dnb dna : Z)
    (key : option KeyPair) (sealing_pubkey : bytes) (session : option TpmSession) (w : World) :
    option (World * result JoinError JoinResult) :=
  let claimed_spiffe_id := control_spiffe_id trust_domain node_name in
  match build_csr (control_csr_params claimed_spiffe_id) dnb dna key with
  | Err _ => Some (w, Err JoinCsr)
  | Ok csr =>
      match session with
      | None => Some (w, Err JoinAttestation)
      | Some session =>
          secure_loop (secure_round csr sealing_pubkey session claimed_spiffe_id) fuel 0 w
            (channel_addr join_target)
      end
  end.
End JoinCluster.

(** ** [request_membership] *)
Section RequestMembership.
Context `{!Postcard JoinRequestPayload} `{!Postcard JoinResponsePayload} {World : Type}.
(** A call at an endpoint: nothing when it cannot be reached. *)
Context (dial : World → string → RaftRpc → World * option (result Status RaftRpc)).

(** One round: the answer ends the loop, moves it to another target, or the round is
    tried again after a pause. *)
Inductive MemberRound : Type :=
| Accepted
| Undecodable
| Elsewhere (target : string)
| TryAgain.

Definition member_round (node_id : Z) (payload : bytes) (w : World) (target : string) : World * MemberRound :=
  let '(w, answer) := dial w (channel_addr target)
    {| rr_sender_id := node_id; rr_target_id := 0; rr_payload := payload |} in
  (w,
   match answer with
   | Some (Ok resp) =>
       match (from_bytes (rr_payload resp) : option JoinResponsePayload) with
       | None => Undecodable
       | Some join_resp =>
           if jp_success join_resp then Accepted
           else
             match jp_leader_address join_resp with
             | Some addr => if decide (addr ≠ target) then Elsewhere addr else TryAgain
             | None => TryAgain
             end
       end
   | _ => TryAgain
   end).

Fixpoint member_loop (fuel : nat) (node_id : Z) (payload : bytes) (w : World) (target : string) :
    option (World * result JoinError ()) :=
  match fuel with
  | O => None
  | S fuel =>
      match member_round node_id payload w target with
      | (w, Accepted) => Some (w, Ok ())
      | (w, Undecodable) => Some (w, Err JoinSerialization)
      | (w, Elsewhere addr) => member_loop fuel node_id payload w addr
      | (w, TryAgain) => member_loop fuel node_id payload w target
      end
  end.

Definition request_membership (fuel : nat) (join_raft_target : string) (node_id : Z)
    (our_raft_addr our_dc_addr : string) (w : World) : option (World * result JoinError ()) :=
  match to_allocvec {| jr_node_id := node_id; jr_address := our_raft_addr; jr_dc_address := our_dc_addr |} with
  | None => Some (w, Err JoinSerialization)
  | Some payload => member_loop fuel node_id payload w join_raft_target
  end.
End RequestMembership.

(** ** Termination *)
Section Termination.
Context `{C : Core} `{G : !Rcgen} `{A : Attest} {World : Type} (sv : Servers World).
Context (b64 : bytes → string) (compute_activation_proof : bytes → bytes → bytes).

Lemma secure_loop_returns (round : World → string → World * Round) n redirects w target :
  (redirects + n = MAX_REDIRECTS)%nat →
  ∃ r, ∀ fuel, (S n ≤ fuel)%nat → secure_loop round fuel redirects w target = Some r.
Proof.
  revert redirects w target. induction n as [|n IH]; intros redirects w target Hn;
    destruct (round w target) as [w' [r|e|t]] eqn:E.
  1, 4: by exists (w', Ok r); intros [|fuel] Hf; [lia|]; cbn; rewrite E.
  1, 3: by exists (w', Err e); intros [|fuel] Hf; [lia|]; cbn; rewrite E.
  - exists (w', Err JoinAttestation). intros [|fuel] Hf; [lia|]. cbn [secure_loop]. rewrite E.
    by rewrite decide_True by lia.
  - destruct (IH (S redirects) w' t) as [r Hr]; [lia|]. exists r. intros [|fuel] Hf; [lia|].
    cbn [secure_loop]. rewrite E, decide_False by lia. apply Hr. lia.
Qed.

(** C18. The secure join returns after at most six rounds, whatever the cluster answers
    and however it redirects: with that fuel it has a result, which more fuel does not
    change. *)
Theorem secure_join_terminates join_target node_name trust_domain dnb dna key sealing_pubkey session w :
  ∃ r, ∀ fuel, (6 ≤ fuel)%nat →
    join_cluster_secure sv b64 compute_activation_proof fuel join_target node_name trust_domain dnb dna key
      sealing_pubkey session w = Some r.
Proof.
  unfold join_cluster_secure. destruct (build_csr _ _ _ _) as [csr|]; [|by eexists].
  destruct session as [session|]; [|by eexists].
  by apply (secure_loop_returns _ 5 0).
Qed.

(** The other flow has no such limit: two nodes that name each other as the leader keep
    it going. *)
Lemma join_cluster_diverges a b token node_name trust_domain dnb dna key w :
  channel_addr a = a → channel_addr b = b →
  (∀ w t, sv_connect sv w t = (w, true)) →
  (∀ w t id, sv_request_nonce sv w t id = (w, Err {| st_code := Unavailable;
    st_leader_dc_address := Some (if decide (t = a) then b else a) |})) →
  a ≠ "" → b ≠ "" →
  ∀ fuel, join_cluster sv b64 false fuel a token node_name trust_domain dnb dna key w = None.
Proof.
  intros Ha Hb Hconn Hnonce Ha0 Hb0 fuel. unfold join_cluster. rewrite Ha.
  cut (∀ t, t = a ∨ t = b →
    join_loop (join_round sv b64 token node_name trust_domain dnb dna key) fuel w t = None); [naive_solver|].
  induction fuel as [|fuel IH]; intros t Ht; [done|]. cbn [join_loop]. unfold join_round.
  rewrite Hconn. cbn [negb]. rewrite Hnonce. unfold step_or_redirect, leader_redirect.
  cbn [st_code st_leader_dc_address]. rewrite decide_True by done.
  destruct (decide (t = a)); rewrite decide_False by done; apply IH; [right|left]; done.
Qed.
End Termination.

(** ** The membership leg against the service that answers it *)
Section Completion.
Context `{F : Fjall} `{C : Core} `{W : !Wire C} `{R : !Raft} `{M : RaftMembership}.
Context `{!RaftMembershipSpec M} `{!RaftMembershipCommits M}.
Context `{!Postcard JoinRequestPayload} `{!Postcard JoinResponsePayload}.

(** On a follower every change is forwarded to the leader it knows. *)
Definition follower_membership (leader : string) : RaftMembership := {|
  Group := Group;
  voter_ids := voter_ids;
  learner_ids := learner_ids;
  add_learner g _ _ _ := (g, Err (MembershipForward (Some leader)));
  change_membership g _ _ := (g, Err (MembershipForward (Some leader))) |}.

(** The cluster the joiner talks to: [request_join] on the leader, on the followers, and
    nothing at other endpoints. *)
Definition cluster_dial (leader : string) (followers : list string) (w : Group * FjallStateMachine)
    (endpoint : string) (rpc : RaftRpc) : Group * FjallStateMachine * option (result Status RaftRpc) :=
  if decide (endpoint = channel_addr leader) then
    let '(g, sm, r) := request_join w.1 w.2 rpc in (g, sm, Some r)
  else if decide (endpoint ∈ channel_addr <$> followers) then
    let '(g, sm, r) := request_join (M := follower_membership leader) w.1 w.2 rpc in (g, sm, Some r)
  else (w, None).

Context (Hreq : serializable JoinRequestPayload) (Hresp : serializable JoinResponsePayload).

Lemma leader_round leader followers id payload g sm target (req : JoinRequestPayload) :
  channel_addr target = channel_addr leader → from_bytes payload = Some req →
  ∃ g' sm', member_round (cluster_dial leader followers) id payload (g, sm) target = ((g', sm'), Accepted) ∧
    jr_node_id req ∈ voter_ids g' ∧ voter_ids g ⊆ voter_ids g'.
Proof.
  intros Ht Hp. unfold member_round, cluster_dial. rewrite decide_True by done. cbn [fst snd].
  unfold request_join. cbn [rr_payload]. rewrite Hp.
  destruct (join_response g sm req) as [[g' sm'] resp] eqn:E.
  assert (resp = {| jp_success := true; jp_leader_address := None |}) as ->.
  { unfold join_response in E.
    pose proof (add_learner_commits g (jr_node_id req) (jr_address req) true) as H1.
    destruct (add_learner g _ _ _) as [g1 r1]. cbn in H1. subst r1.
    pose proof (add_voters_commits g1 {[jr_node_id req := jr_address req]} false) as H2.
    destruct (change_membership g1 _ _) as [g2 r2]. cbn in H2. subst r2.
    destruct (client_write _ _). by injection E as <- <- <-. }
  destruct (Hresp {| jp_success := true; jp_leader_address := None |}) as [b Hb]. rewrite Hb. cbn.
  rewrite (from_to_allocvec _ _ Hb). cbn. exists g', sm'. split; [done|].
  by apply join_response_voter in E.
Qed.

Lemma follower_round leader followers id payload g sm target (req : JoinRequestPayload) :
  channel_addr target ≠ channel_addr leader → target ∈ followers → from_bytes payload = Some req →
  member_round (cluster_dial leader followers) id payload (g, sm) target = ((g, sm), Elsewhere leader).
Proof.
  intros Ht Hf Hp. unfold member_round, cluster_dial. rewrite decide_False by done.
  rewrite decide_True by (by apply list_elem_of_fmap_2). cbn [fst snd].
  unfold request_join. cbn [rr_payload]. rewrite Hp. cbn.
  destruct (Hresp {| jp_success := false; jp_leader_address := Some leader |}) as [b Hb]. rewrite Hb. cbn.
  rewrite (from_to_allocvec _ _ Hb). cbn. rewrite decide_True by naive_solver. done.
Qed.

End Completion.

(** ** Witness *)
Import DemoInstances.
#[local] Existing Instance local_raft.
#[local] Existing Instance local_raft_spec.
#[local] Existing Instance Membership.set_membership.
#[local] Existing Instance Membership.set_membership_spec.
#[local] Existing Instance Membership.set_membership_commits.
#[local] Instance demo_join_request : Postcard JoinRequestPayload := postcard_of
  (codec_iso (λ r : JoinRequestPayload, (jr_node_id r, (jr_address r, jr_dc_address r)))
    (λ '(a, (b, c)), Build_JoinRequestPayload a b c) ltac:(by intros [])).
#[local] Instance demo_join_response : Postcard JoinResponsePayload := postcard_of
  (codec_iso (λ r : JoinResponsePayload, (jp_success r, jp_leader_address r))
    (λ '(a, b), Build_JoinResponsePayload a b) ltac:(by intros [])).

