(* ===== verification/Boot.v ===== *)
(** * Boot: the configuration and the start of a control node

    Models the parts of [src/config.rs] that decide something (the defaults, the
    validation, the refusal of insecure attestation in production builds) and the start
    of [src/main.rs]: the CA phase and [init_raft_cluster], with the choice of the
    identity a node presents. The TOML parser, the file system and the Raft engine are
    arguments; the join flows are those of [Join.v]. *)

From Stdlib Require Import SpecFloat.
From S2P Require Import Prelude.
From S2P Require Import Storage.
From S2P Require Import Core.
From S2P Require Import Records.
From S2P Require Import WireInstance.
From S2P Require Import StateMachine.
From S2P Require Import Apply.
From S2P Require Import Frame.
From S2P Require Import Demo.
From S2P Require Import Float64.
From S2P Require Import DummyIp.
From S2P Require Import Secrets.
From S2P Require Import Ca.
From S2P Require Import Issuance.
From S2P Require Import Attestation.
From S2P Require Import Tls.
From S2P Require Import Membership.
From S2P Require Import Join.

(** ** [config.rs] *)
Inductive ClusterMode : Set := Bootstrap | JoinMode.
#[export] Instance ClusterMode_eq_dec : EqDecision ClusterMode.
Proof. solve_decision. Defined.

Record RaftMemberConfig : Type := { rmc_id : Z; rmc_address : string; rmc_dc_address : string }.

Record ClusterConfig : Type := {
  cc_mode : ClusterMode;
  cc_join_target : option string;
  cc_join_raft_target : option string;
  cc_join_token : string;
  cc_join_trust_bundle_path : option string;
  cc_initial_members : list RaftMemberConfig
}.

Record SvidTtlConfig : Type := {
  stc_workload_ttl_secs : Z;
  stc_node_ttl_secs : Z;
  stc_admin_ttl_secs : Z;
  stc_delegated_key_ttl_secs : Z;
  stc_refresh_fraction : f64
}.
(** 0.75. *)
Definition default_refresh_fraction : f64 := f64_dyadic 3 (-2).
Definition SvidTtlConfig_default : SvidTtlConfig := {|
  stc_workload_ttl_secs := 3600; stc_node_ttl_secs := 3600; stc_admin_ttl_secs := 86400;
  stc_delegated_key_ttl_secs := 14400; stc_refresh_fraction := default_refresh_fraction |}.

(** [a as u64]: toward zero, saturating, 0 for NaN. *)
Definition f64_to_u64 (a : f64) : Z :=
  match a with
  | S754_zero _ | S754_nan | S754_infinity true | S754_finite true _ _ => 0
  | S754_infinity false => 2 ^ 64 - 1
  | S754_finite false m e =>
      Z.min (if 0 <=? e then Zpos m * 2 ^ e else Zpos m / 2 ^ (- e)) (2 ^ 64 - 1)
  end.

(** [workload_refresh_at] and its three siblings, in milliseconds. *)
Definition refresh_at (ttl_secs : Z) (refresh_fraction : f64) : Z :=
  f64_to_u64 (f64_mul (f64_mul (f64_of_Z ttl_secs) refresh_fraction) (f64_of_Z 1000)).
Definition workload_refresh_at (c : SvidTtlConfig) : Z :=
  refresh_at (stc_workload_ttl_secs c) (stc_refresh_fraction c).
Definition node_refresh_at (c : SvidTtlConfig) : Z :=
  refresh_at (stc_node_ttl_secs c) (stc_refresh_fraction c).
Definition admin_refresh_at (c : SvidTtlConfig) : Z :=
  refresh_at (stc_admin_ttl_secs c) (stc_refresh_fraction c).
Definition delegated_key_refresh_at (c : SvidTtlConfig) : Z :=
  refresh_at (stc_delegated_key_ttl_secs c) (stc_refresh_fraction c).

Record DummyIpConfig : Type := { dic_space : string; dic_tenant_block_prefix : Z }.
Definition DummyIpConfig_default : DummyIpConfig :=
  {| dic_space := "240.0.0.0/4"; dic_tenant_block_prefix := 16 |}.

Record AttestationConfig : Type := {
  atc_join_token_ttl_secs : Z;
  atc_mode : AttestationMode;
  atc_allow_insecure_attestation : bool
}.
Definition AttestationConfig_default : AttestationConfig := {|
  atc_join_token_ttl_secs := 3600; atc_mode := Insecure; atc_allow_insecure_attestation := false |}.

(** The sections of [ControlConfig] the start reads. *)
Record ControlConfig : Type := {
  cfg_node_name : string;
  cfg_cluster : ClusterConfig;
  cfg_trust_domains : TrustDomainConfig;
  cfg_svid : SvidTtlConfig;
  cfg_dummy_ip : DummyIpConfig;
  cfg_attestation : AttestationConfig
}.

Inductive ConfigError : Set :=
| ConfigIo | ConfigParse
| PrefixTooShort (prefix : Z) | PrefixOf8 | PrefixTooLong (prefix : Z) | BadRefreshFraction
| InsecureInProduction.

(** A refusal, or nothing. *)
Definition production_attestation_policy_violation (cfg : AttestationConfig) : option ConfigError :=
  if bool_decide (atc_mode cfg = Insecure) && negb (atc_allow_insecure_attestation cfg)
  then Some InsecureInProduction else None.

Definition validate (c : ControlConfig) : result ConfigError () :=
  let prefix := dic_tenant_block_prefix (cfg_dummy_ip c) in
  let fraction := stc_refresh_fraction (cfg_svid c) in
  if prefix <=? 4 then Err (PrefixTooShort prefix)
  else if prefix =? 8 then Err PrefixOf8
  else if 30 <? prefix then Err (PrefixTooLong prefix)
  else if f64_le fraction f64_0 || f64_le f64_1 fraction then Err BadRefreshFraction
  else Ok ().

(** [ControlConfig::load]: the text of the file, [None] when it cannot be read, and the
    parser. *)
Definition load_config (production : bool) (text : option string)
    (parse : string → option ControlConfig) : result ConfigError ControlConfig :=
  raw ← ok_or ConfigIo text;
  config ← ok_or ConfigParse (parse raw);
  _ ← validate config;
  if production then
    match production_attestation_policy_violation (cfg_attestation config) with
    | Some reason => Err reason
    | None => Ok config
    end
  else Ok config.

(** ** [main.rs] *)
Inductive BootError : Type :=
| BootConfig (e : ConfigError)
| BootStorage
| BootCa (e : CaError)
| BootDummyIp
| JoinTargetRequired | JoinRaftTargetRequired | TrustBundleRequired | TrustBundleUnreadable
| JoinTokenRequired | TpmFeatureRequired
| BootJoin (e : JoinError)
| RaftConfigInvalid | RaftInitFailed | RaftBootstrapFailed | BadCertifiedKey
| Panicked.

Record MtlsConfig : Type := {
  mc_cert : bytes;
  mc_private_key : bytes;
  mc_trust_bundle_pem : string;
  mc_role : TrustDomainRole
}.
Record JoinInfo : Type := {
  ji_node_id : Z;
  ji_svid_cert_der : bytes;
  ji_svid_key_der : bytes;
  ji_trust_bundle_pem : string
}.

(** The features a binary is built with. *)
Record Build : Type := { build_production : bool; build_tpm : bool }.

(** What a start draws or reads from the clock, the TPM and the key generator. *)
Record Draws `{G : Rcgen} : Type := {
  dr_now : Z;
  dr_leaf_key : option KeyPair;
  dr_csr_key : option KeyPair;
  dr_csr_not_before : Z;
  dr_csr_not_after : Z;
  dr_sealing_pubkey : bytes;
  dr_session : option TpmSession
}.

Record RaftClientTls : Type := {
  rct_cert_der : bytes;
  rct_key_der : bytes;
  rct_trust_bundle_pem : string;
  rct_domain : string
}.

(** The engine's side of a start: its configuration is valid, it is created, a cluster
    is initialised, a command is proposed. *)
Record RaftBoot `{C : Core} (World : Type) : Type := {
  rb_config_valid : bool;
  rb_new : World → Z → gmap Z string → RaftClientTls → World * bool;
  rb_initialize : World → gmap Z string → World * bool;
  rb_client_write : World → AuditedCommand → World
}.
Arguments rb_config_valid {C World}. Arguments rb_new {C World}.
Arguments rb_initialize {C World}. Arguments rb_client_write {C World}.

(** Pairs collected into a map: the last of a key stays. *)
Definition member_map (members : list RaftMemberConfig) : gmap Z string :=
  foldl (λ m x, <[rmc_id x := rmc_address x]> m) ∅ members.

Definition peer_addresses (config : ControlConfig) : gmap Z string :=
  match cc_mode (cfg_cluster config) with
  | Bootstrap => member_map (cc_initial_members (cfg_cluster config))
  | JoinMode => ∅
  end.

Section Start.
Context `{F : Fjall} `{C : Core} `{W : !Wire C} `{G : !Rcgen} `{At : Attest}.
Context `{A : Aead} `{K : MasterKeyProvider} `{PE : !Postcard EnvelopeSecret} `{PT : !Postcard TrustBundleRecord}.
Context {World : Type} (sv : Servers World) (rb : RaftBoot World).
Context (b64 : bytes → string) (blake3 : bytes → bytes) (compute_activation_proof : bytes → bytes → bytes).
(** The file system, and what makes a key pair of a certificate and a key. *)
Context (read_to_string : string → option string) (certified : bytes → bytes → bool).

Definition raft_node_id (config : ControlConfig) : Z :=
  match cc_mode (cfg_cluster config) with
  | Bootstrap => match cc_initial_members (cfg_cluster config) with m :: _ => rmc_id m | [] => 1 end
  | JoinMode => derive_raft_node_id blake3 (cfg_node_name config)
  end.

(** Phase 4. *)
Definition ca_phase (config : ControlConfig) (db : Db) (now : Z) (ce : CaEntropy) :
    result BootError (option CaService * Db) :=
  let dc := td_data_control (cfg_trust_domains config) in
  let admin := td_admin (cfg_trust_domains config) in
  r ← map_err (λ _, BootStorage) (get db ks_trust_bundles (bundle_key dc));
  match cc_mode (cfg_cluster config) with
  | Bootstrap => '(ca, db) ← map_err BootCa (bootstrap db dc admin now ce); Ok (Some ca, db)
  | JoinMode =>
      if isSome r then '(ca, db) ← map_err BootCa (load db dc admin); Ok (Some ca, db)
      else Ok (None, db)
  end.

(** The control SVID a node with a CA signs for itself. *)
Definition identity_from_ca (config : ControlConfig) (ca : CaService) (dr : Draws) :
    result BootError MtlsConfig :=
  let td := td_data_control (cfg_trust_domains config) in
  let dc_bundle := ca_data_control ca in
  svid ← map_err BootCa (sign_svid
    (control_params td (cfg_node_name config) (stc_node_ttl_secs (cfg_svid config)))
    (tb_current_key dc_bundle) (tb_current_cert_der dc_bundle) (dr_now dr) (dr_leaf_key dr));
  Ok {| mc_cert := ss_cert_der svid; mc_private_key := ss_private_key_der svid;
        mc_trust_bundle_pem := trust_bundle_pem dc_bundle; mc_role := DataControl |}.

Definition identity_from_join (node_id : Z) (r : JoinResult) : MtlsConfig * option JoinInfo :=
  ({| mc_cert := jres_svid_cert_der r; mc_private_key := jres_svid_key_der r;
      mc_trust_bundle_pem := jres_trust_bundle_pem r; mc_role := DataControl |},
   Some {| ji_node_id := node_id; ji_svid_cert_der := jres_svid_cert_der r;
           ji_svid_key_der := jres_svid_key_der r; ji_trust_bundle_pem := jres_trust_bundle_pem r |}).

Definition join_outcome (node_id : Z) (r : World * result JoinError JoinResult) :
    World * result BootError (MtlsConfig * option JoinInfo) :=
  (r.1, match r.2 with Ok x => Ok (identity_from_join node_id x) | Err e => Err (BootJoin e) end).

(** A first boot in join mode: the trust anchor, then the attestation the mode asks for. *)
Definition first_join (build : Build) (fuel : nat) (config : ControlConfig) (join_target : string)
    (dr : Draws) (w : World) : option (World * result BootError (MtlsConfig * option JoinInfo)) :=
  let cl := cfg_cluster config in
  let td := td_data_control (cfg_trust_domains config) in
  match cc_join_trust_bundle_path cl with
  | None => Some (w, Err TrustBundleRequired)
  | Some path =>
      match read_to_string path with
      | None => Some (w, Err TrustBundleUnreadable)
      | Some _ =>
          match atc_mode (cfg_attestation config) with
          | Insecure =>
              if decide (cc_join_token cl = "") then Some (w, Err JoinTokenRequired)
              else join_outcome (raft_node_id config) <$>
                join_cluster sv b64 (build_production build) fuel join_target (cc_join_token cl)
                  (cfg_node_name config) td (dr_csr_not_before dr) (dr_csr_not_after dr) (dr_csr_key dr) w
          | Secure =>
              if negb (build_tpm build) then Some (w, Err TpmFeatureRequired)
              else join_outcome (raft_node_id config) <$>
                join_cluster_secure sv b64 compute_activation_proof fuel join_target (cfg_node_name config)
                  td (dr_csr_not_before dr) (dr_csr_not_after dr) (dr_csr_key dr) (dr_sealing_pubkey dr)
                  (dr_session dr) w
          end
      end
  end.

(** [keyspaces.raft_log.first_key_value().is_some()]. *)
Definition is_restart (db : Db) : bool :=
  match prefix db ks_raft_log "" with [] => false | _ => true end.

(** The mTLS material of a start; [expect] is a panic. *)
Definition dc_identity (build : Build) (fuel : nat) (config : ControlConfig) (db : Db)
    (ca_service : option CaService) (dr : Draws) (w : World) :
    option (World * result BootError (MtlsConfig * option JoinInfo)) :=
  let from_ca := Some (w, ca ← ok_or Panicked ca_service; m ← identity_from_ca config ca dr; Ok (m, None)) in
  match cc_mode (cfg_cluster config) with
  | Bootstrap => from_ca
  | JoinMode =>
      match cc_join_target (cfg_cluster config), cc_join_raft_target (cfg_cluster config) with
      | None, _ => Some (w, Err JoinTargetRequired)
      | _, None => Some (w, Err JoinRaftTargetRequired)
      | Some join_target, Some _ =>
          if is_restart db then from_ca else first_join build fuel config join_target dr w
      end
  end.

(** The commands a bootstrapped node proposes: the addresses of the initial members. *)
Definition register_addresses (members : list RaftMemberConfig) (w : World) : World :=
  foldl (λ w m, rb_client_write rb w (system (RegisterControlAddress {|
    cna_node_id := rmc_id m; cna_dc_addr := rmc_dc_address m; cna_raft_addr := rmc_address m |}))) w members.

Definition init_raft_cluster (build : Build) (fuel : nat) (config : ControlConfig) (db : Db)
    (ca_service : option CaService) (dr : Draws) (w : World) :
    option (World * result BootError (MtlsConfig * option JoinInfo)) :=
  if negb (rb_config_valid rb) then Some (w, Err RaftConfigInvalid)
  else
    '(w, r) ← dc_identity build fuel config db ca_service dr w;
    Some match r with
    | Err e => (w, Err e)
    | Ok (mtls, info) =>
        let '(w, created) := rb_new rb w (raft_node_id config) (peer_addresses config) {|
          rct_cert_der := mc_cert mtls; rct_key_der := mc_private_key mtls;
          rct_trust_bundle_pem := mc_trust_bundle_pem mtls;
          rct_domain := td_data_control (cfg_trust_domains config) |} in
        if negb created then (w, Err RaftInitFailed)
        else
          let '(w, booted) :=
            match cc_mode (cfg_cluster config) with
            | Bootstrap =>
                let members := cc_initial_members (cfg_cluster config) in
                let '(w, initialized) := rb_initialize rb w (member_map members) in
                (if initialized then register_addresses members w else w, initialized)
            | JoinMode => (w, true)
            end in
          if negb booted then (w, Err RaftBootstrapFailed)
          else if certified (mc_cert mtls) (mc_private_key mtls) then (w, Ok (mtls, info))
          else (w, Err BadCertifiedKey)
    end.

(** Phases 4 to 7 of [main]: the database afterwards and how the start ended. *)
Definition start (build : Build) (fuel : nat) (config : ControlConfig) (db : Db) (ce : CaEntropy) (dr : Draws)
    (w : World) : option (World * Db * result BootError (MtlsConfig * option JoinInfo)) :=
  match ca_phase config db (dr_now dr) ce with
  | Err e => Some (w, db, Err e)
  | Ok (ca_service, db) =>
      match DummyIpAllocator_new (dic_tenant_block_prefix (cfg_dummy_ip config)) with
      | Err _ => Some (w, db, Err BootDummyIp)
      | Ok _ =>
          '(w, r) ← init_raft_cluster build fuel config db ca_service dr w;
          Some (w, db, r)
      end
  end.
End Start.

(** ** Facts *)
Section ConfigFacts.
Context `{F : Fjall}.

(** A fraction the validation lets pass. *)
Definition fraction_accepted (f : f64) : Prop := f64_le f f64_0 = false ∧ f64_le f64_1 f = false.

Lemma validate_ok c :
  validate c = Ok () ↔
  4 < dic_tenant_block_prefix (cfg_dummy_ip c) ≤ 30 ∧ dic_tenant_block_prefix (cfg_dummy_ip c) ≠ 8 ∧
  fraction_accepted (stc_refresh_fraction (cfg_svid c)).
Proof.
  unfold validate, fraction_accepted.
  destruct (Z.leb_spec (dic_tenant_block_prefix (cfg_dummy_ip c)) 4); [by split; [|lia]|].
  destruct (Z.eqb_spec (dic_tenant_block_prefix (cfg_dummy_ip c)) 8); [by split; [|naive_solver]|].
  destruct (Z.ltb_spec 30 (dic_tenant_block_prefix (cfg_dummy_ip c))); [by split; [|lia]|].
  destruct (f64_le _ f64_0), (f64_le f64_1 _); cbn; naive_solver.
Qed.

Lemma policy_violation_none cfg :
  production_attestation_policy_violation cfg = None ↔
  atc_mode cfg = Secure ∨ atc_allow_insecure_attestation cfg = true.
Proof.
  unfold production_attestation_policy_violation.
  destruct (atc_mode cfg), (atc_allow_insecure_attestation cfg); cbn; naive_solver.
Qed.

Lemma validated_allocator p :
  4 < p ≤ 30 → ∃ al, DummyIpAllocator_new p = Ok al ∧ max_tenant_blocks al = 2 ^ (p - 4) ∧
    2 ^ (p - 4) * 2 ^ (32 - p) = 2 ^ 28 ∧ 4 ≤ 2 ^ (32 - p).
Proof.
  intros Hp. exists {| tenant_block_prefix := p |}. unfold DummyIpAllocator_new, DUMMY_SPACE_PREFIX.
  destruct (Z.leb_spec p 4), (Z.ltb_spec 32 p); try lia. split; [done|]. split; [|split].
  - apply max_tenant_blocks_eq; cbn; unfold DUMMY_SPACE_PREFIX; lia.
  - rewrite <- Z.pow_add_r by lia. f_equal. lia.
  - change 4 with (2 ^ 2). apply Z.pow_le_mono_r; lia.
Qed.

End ConfigFacts.

(** The refusal of /8 is for its 16 tenants; the prefixes below it, which hold fewer,
    pass. *)
Lemma shorter_prefix_accepted c :
  dic_tenant_block_prefix (cfg_dummy_ip c) = 5 → fraction_accepted (stc_refresh_fraction (cfg_svid c)) →
  validate c = Ok () ∧ max_tenant_blocks {| tenant_block_prefix := 5 |} = 2.
Proof. intros Hp Hf. split; [|done]. apply validate_ok. rewrite Hp. split; [lia|]. by split. Qed.

(** NaN is in no interval, and passes; a certificate is then due for renewal at once. *)
Lemma nan_fraction_accepted ttl : fraction_accepted S754_nan ∧ refresh_at ttl S754_nan = 0.
Proof.
  split; [done|]. unfold refresh_at, f64_mul.
  assert (Hnan : ∀ x, SFmul f64_prec f64_emax x S754_nan = S754_nan) by (by intros [| | |]).
  by rewrite Hnan.
Qed.

(** 45 minutes for workloads and nodes, 18 hours for operators, 3 hours for delegated keys. *)
Example default_refreshes :
  workload_refresh_at SvidTtlConfig_default = 45 * 60 * 1000 ∧
  node_refresh_at SvidTtlConfig_default = 45 * 60 * 1000 ∧
  admin_refresh_at SvidTtlConfig_default = 18 * 3600 * 1000 ∧
  delegated_key_refresh_at SvidTtlConfig_default = 3 * 3600 * 1000.
Proof. by vm_compute. Qed.

Section RestartFacts.
Context `{F : Fjall} `{C : Core} `{W : !Wire C} `{G : !Rcgen} `{At : Attest}.
Context `{!FjallSpec F} `{!FjallReliable F} `{!RcgenSpec G}.
Context `{A : Aead} `{K : MasterKeyProvider} `{!MasterKeyLaws K}.
Context `{PE : !Postcard EnvelopeSecret} `{PT : !Postcard TrustBundleRecord}.

(** No command writes the trust bundles. *)
Lemma apply_keeps_bundles sm es sm' res k :
  apply sm es = (sm', res) →
  contents (sm_db sm') !! (ks_trust_bundles, k) = contents (sm_db sm) !! (ks_trust_bundles, k).
Proof.
  intros H. apply (apply_invariant (λ db, contents db !! (ks_trust_bundles, k) =
    contents (sm_db sm) !! (ks_trust_bundles, k)) sm es sm' res); [|done|done].
  intros sm1 e sm2 r _ <- He. eapply apply_entry_frame; [done| |done].
  unfold entry_keyspaces. destruct (payload e) as [|a|m]; [set_solver| |set_solver].
  destruct (cmd a); apply (bool_decide_unpack _); vm_compute; exact I.
Qed.

(** C39. The node that bootstrapped the cluster keeps its roots: started again in join
    mode, after any log of commands was applied, it serves the two roots it generated,
    whatever keys it would draw now. *)
Theorem roots_survive_restart config config' db now ce ca db1 sm es sm' res now' ce' :
  cc_mode (cfg_cluster config) = Bootstrap → cc_mode (cfg_cluster config') = JoinMode →
  cfg_trust_domains config' = cfg_trust_domains config →
  td_data_control (cfg_trust_domains config) ≠ td_admin (cfg_trust_domains config) →
  entropy_ok (ce_dc_seal ce) → entropy_ok (ce_admin_seal ce) →
  ca_phase config db now ce = Ok (ca, db1) →
  sm_db sm = db1 → apply sm es = (sm', res) →
  ca_phase config' (sm_db sm') now' ce' = Ok (ca, sm_db sm').
Proof.
  intros Hm Hm' Htd Hne Hs1 Hs2 H <- Happly. unfold ca_phase in *. rewrite Hm' , Htd. rewrite Hm in H.
  apply bind_ok in H as (r & _ & H). apply bind_ok in H as ([ca' db'] & H & [= <- ->]).
  destruct (bootstrap _ _ _ _ _) as [[ca0 db0]|] eqn:Hb; [|done]. cbn in H. simplify_eq.
  destruct (bootstrap_reloads _ _ _ _ _ _ _ Hne Hs1 Hs2 Hb) as [Hsome Hload].
  rewrite get_eq. cbn. rewrite (apply_keeps_bundles _ _ _ _ _ Happly), Hsome, Hload; [done|].
  intros k. by apply apply_keeps_bundles with es res.
Qed.

(** A node that joined and caught up from the log has no roots: no command carries them.
    Its next start finds a log, resumes, and stops at the missing CA. *)
Lemma joined_node_cannot_restart {World} (sv : Servers World) (rb : RaftBoot World) b64 blake3 proof
    read_to_string certified build fuel config sm es sm' res target raft_target ce dr w :
  contents (sm_db sm) !! (ks_trust_bundles, bundle_key (td_data_control (cfg_trust_domains config))) = None →
  apply sm es = (sm', res) → is_restart (sm_db sm') = true →
  cc_mode (cfg_cluster config) = JoinMode → cc_join_target (cfg_cluster config) = Some target →
  cc_join_raft_target (cfg_cluster config) = Some raft_target → rb_config_valid rb = true →
  4 < dic_tenant_block_prefix (cfg_dummy_ip config) ≤ 30 →
  start sv rb b64 blake3 proof read_to_string certified build fuel config (sm_db sm') ce dr w =
    Some (w, sm_db sm', Err Panicked).
Proof.
  intros Hnone Happly Hlog Hm Ht Hr Hv Hp. unfold start, ca_phase. rewrite Hm, get_eq. cbn.
  rewrite (apply_keeps_bundles _ _ _ _ _ Happly), Hnone. cbn.
  destruct (validated_allocator _ Hp) as (al & -> & _). unfold init_raft_cluster, dc_identity.
  by rewrite Hv, Hm, Ht, Hr, Hlog.
Qed.

(** Started again in bootstrap mode, a node draws and stores new roots, whatever it has. *)
Lemma bootstrap_restart_replaces_roots config db now ce ca db' key :
  cc_mode (cfg_cluster config) = Bootstrap → ce_dc_key ce = Some key →
  ca_phase config db now ce = Ok (Some ca, db') → tb_current_key (ca_data_control ca) = key.
Proof.
  intros Hm Hk H. unfold ca_phase in H. rewrite Hm in H. apply bind_ok in H as (r & _ & H).
  apply bind_ok in H as ([ca' db2] & H & [= <- <-]).
  destruct (bootstrap _ _ _ _ _) as [[ca0 db0]|] eqn:Hb; [|done]. cbn in H. simplify_eq.
  unfold bootstrap in Hb. apply bind_ok in Hb as (b1 & Hb1 & Hb). apply bind_ok in Hb as (b2 & _ & Hb).
  ok_inv. cbn. unfold generate_root, generate_root_ca in Hb1. rewrite Hk in Hb1. cbn in Hb1. by ok_inv.
Qed.
End RestartFacts.

(** ** Witnesses *)
Import DemoInstances.
#[local] Existing Instances demo_rcgen demo_rcgen_spec demo_bundle_codec.

Definition demo_config (mode : ClusterMode) : ControlConfig := {|
  cfg_node_name := "c1";
  cfg_cluster := {| cc_mode := mode; cc_join_target := Some "t"; cc_join_raft_target := Some "r";
    cc_join_token := ""; cc_join_trust_bundle_path := None; cc_initial_members := [] |};
  cfg_trust_domains := {| td_data_control := "dc"; td_admin := "admin" |};
  cfg_svid := SvidTtlConfig_default; cfg_dummy_ip := DummyIpConfig_default;
  cfg_attestation := {| atc_join_token_ttl_secs := 3600; atc_mode := Secure;
    atc_allow_insecure_attestation := false |} |}.


(** The restart, after a command, that draws [k3] and [k4] serves the root of [k1]. *)
Definition demo_boot_entry : Entry := demo_entry 1 (DeleteTenant "t").
Definition demo_first : result BootError (option CaService * Db) :=
  ca_phase (demo_config Bootstrap) (∅ : Db) 5 (demo_ca_entropy "k1" "k2").
Definition demo_again (db : Db) : FjallStateMachine := (apply (open db "dc") [demo_boot_entry]).1.
Definition demo_root (r : result BootError (option CaService * Db)) : option string :=
  match r with Ok (Some ca, _) => Some (tb_current_key (ca_data_control ca)) | _ => None end.

Lemma roots_survive_restart_witness :
  demo_root ('(_, db) ← demo_first;
             ca_phase (demo_config JoinMode) (sm_db (demo_again db)) 9 (demo_ca_entropy "k3" "k4")) =
  Some "k1".
Proof.
  assert (Hroot : demo_root demo_first = Some "k1") by vm_refl.
  destruct demo_first as [[ca db1]|e] eqn:E; [|discriminate Hroot]. cbn [mbind result_bind].
  unfold demo_first in E. unfold demo_again.
  destruct (apply (open db1 "dc") [demo_boot_entry]) as [sm' res] eqn:Ha.
  rewrite (roots_survive_restart (demo_config Bootstrap) (demo_config JoinMode) ∅ 5 (demo_ca_entropy "k1" "k2")
    ca db1 (open db1 "dc") [demo_boot_entry] sm' res 9 (demo_ca_entropy "k3" "k4"));
    [exact Hroot|done..|by vm_compute|by vm_compute|exact E|done|exact Ha].
Defined.
